(* ===== verification/_CoqProject ===== *)
-Q . S2P
Prelude.v
Words.v
Text.v
Lockout.v
Token.v
Udfps.v
FpTypes.v
Session.v
SessionSystem.v
SessionThreads.v
SessionRaces.v
SessionCalls.v
SessionFinger.v
Fingerprint.v
FingerprintSystem.v
UdfpsExtension.v
Charging.v
Torch.v
Vibrator.v
Services.v
Handles.v
SensorTypes.v
HalProxy.v
EventQueue.v
Wakelock.v
Proxy.v
ProxyRuns.v
ProxyInit.v
ProxyTypes.v
Callback.v
Sensor.v
SensorRuns.v
SubHal.v
Device.v
Driven.v
SystemProxy.v
System.v
SystemRuns.v
SystemPromises.v
Debug.v
