(* ===== verification/Prelude.v ===== *)
(** * Device tree of the Nothing Phone (2): verified models of its C++ HALs

    This library models the C++ hardware services of the device tree, which run in
    separate processes and talk to the framework by binder, to the kernel by sysfs nodes and
    to vendor libraries. It has one part per service; the parts share this prelude, the
    machine integers of [Words.v] and the text conversions of [Text.v].

    ** The program and its models

    Fingerprint ([fingerprint/]). The HAL object ([Fingerprint.cpp]) opens the vendor's
    legacy module, creates sessions and dispatches the module's notifications. A session
    ([Session.cpp]) serves the framework's requests, counts failed attempts in a
    [LockoutTracker], runs detached lockout timers and tells the sensor about the finger
    through a [UdfpsHandler] with a worker thread.
    - [Lockout.v]: the lockout tracker. [Token.v]: the conversion of authentication tokens
      ([Legacy2Aidl.h]). [Udfps.v]: the handler, its worker and an abstract finger it refines.
    - [FpTypes.v]: codes, messages, outgoing calls and their environment. [Session.v]: every
      operation of a session, the notification handler, the timer, client death.
    - [SessionSystem.v]: a session with its threads as a system of events, and its
      invariants. [SessionThreads.v]: the same threads interleaved between any two accesses
      to the six members they share without a mutex; [SessionRaces.v]: a protocol of these
      threads, the invariants that survive their races, the table of the races and the harm
      they do.
      [SessionCalls.v]: what each operation calls and reports.
      [SessionFinger.v]: the session with its handler refines the abstract finger.
    - [Fingerprint.v]: the HAL object over a heap of reference-counted sessions, the
      cancellation signals that point into it. [FingerprintSystem.v]: the process, with what
      every caller of a session holds. [UdfpsExtension.v]: the compositor's hooks.

    Charging ([charging/charging-control.cpp], [Charging.v]): a callback follows the battery
    and starts a thread that limits the current by the temperature.

    Torch ([configs/camera/CameraProviderExtension.cpp], [Torch.v]) and vibrator
    ([vibrator/Vibrator.cpp], [Vibrator.v]).

    Sensors ([sensors/]). A proxy ([HalProxy.cpp]) presents several sub-HALs as one HAL; each
    posts events through a callback object ([HalProxyCallback.cpp]); the device's own
    sub-HAL ([SensorsSubHal.cpp]) has two sensors with threads ([Sensor.cpp]).
    - [Handles.v]: the marked handles and the constants of the headers outside the
      repository, with their laws. [SensorTypes.v]: the structures of the interface.
    - [HalProxy.v]: loading, the list of sensors, dispatch, operation mode, direct channels,
      dynamic sensors. [EventQueue.v]: posting, the writer thread and the pending events;
      [Wakelock.v]: the theorems about the reference count the same code keeps.
    - [Proxy.v]: the two as one object, with [stopThreads], the initialisation and the
      destructor. [ProxyRuns.v]: it refines its queues, and its wakelock. [ProxyInit.v]: the
      joins end, and what [initialize] does. [ProxyTypes.v]: the type of its calls.
    - [Callback.v]: the callback against an interface of the proxy, a type class that
      [EventQueue.v] is an instance of. [Sensor.v]: the sensors and their threads;
      [SensorRuns.v]: their runs. [SubHal.v]: the sub-HAL, and its reports on their way to
      the queue. [Device.v]: the proxy with the device's configuration, its sub-HAL driven
      by the proxy's calls. [Driven.v]: what each of those calls does to the sensors,
      whatever their threads do meanwhile.
    - [System.v]: the whole service in one relation, [system_act]: a step of the proxy,
      which the own sub-HAL hears; a section of a sensor's thread, which may start a report;
      a part of a report on its way through the callback. [SystemProxy.v]: what it needs of
      the proxy; [SystemRuns.v]: its invariant; [SystemPromises.v]: its theorems.
    - [Debug.v]: what the two debug dumps write.

    Processes ([service.cpp] of each service, [Services.v]): the entry points, over the
    constructors of their components.

    ** How code becomes definitions

    An operation is a program: a function from a world (the component's state and the calls
    made so far) to an outcome and a world. An outcome is a value or a fault: an exception,
    a failed check, something C++ leaves undefined, or a call that waits for good. What the code does not decide (the
    vendor module's answers, node contents, clocks, message queues) is an environment: a
    record of functions of the calls made so far, over which the theorems quantify.
    Constants of headers outside the repository are parameters, with what is documented of
    them as the laws of a class; instances with concrete values serve the witnesses.
    Integers are [Z] with the conversions of their width written out wherever the code
    converts or can wrap. Loops are structural: over the list they traverse, or one section
    of a thread at a time, so that no definition needs fuel.

    Threads. Where the code holds a mutex, the section up to its release is one step; a
    blocking call made without the mutex is a step of its own, and so is what follows it. The
    steps of all threads and the calls from outside interleave in any order: the systems
    are [Udfps.run], the events of [SessionSystem.v], [Fingerprint.v] and
    [FingerprintSystem.v], [SessionThreads.race_act], [chg_perform], [EventQueue.act],
    [Proxy.proxy_act], [Sensor.sensor_act] and [System.system_act]. In the last, the thread
    of a sensor holds the sensor's mutex until its report has ended, so a step of the proxy
    that makes a call which takes that mutex waits as a whole. The members of a session are
    not guarded by a mutex: in [SessionSystem.v] and the two files of the HAL object a binder
    call or a notification runs to completion before the next, which is an assumption of the
    theorems there; in [SessionThreads.v] a step is one access to a member. There each
    access takes effect at once and in the order of the source; C++ promises nothing of the
    kind for a data race, so the runs shown to do harm are possible and the invariants hold of
    a compiler that keeps the accesses.

    Condition variables. In the proxy a thread that waits finds its predicate false in one
    section ([WriterChecked], [WakerChecked]) and falls asleep in the next ([WriterWaiting],
    [WakerWaiting]); it goes on only when it is notified. A notification under the thread's
    mutex finds it awake or asleep; one without the mutex, as in [stopThreads], can come in
    between and is lost. The store of the flag and the notifications of [stopThreads] are one
    step, up to the joins: the runs in which a thread gets between them end like one of those
    in which it does not, since a thread that looks after the store leaves its loop. The
    calls with which the threads block in the queues' library end by themselves, by their
    time-outs. The wait of a session's worker and those of the sensors' threads are sections
    that can always run and look at their predicate again: there the code changes the
    predicate and notifies under the mutex, but for the constructor of a sensor that finds no
    node, in which nothing has been reported.

    Null pointers. The proxy keeps which of its pointers to queues and flags are null, and a
    dereference of a null one is a fault. A flag that could not be made leaves the proxy with
    running threads and a post that faults; [ready] says that a post finds what it needs, and
    [faults_unready] that a run ended in no other way.

    Pipes. The pipe that interrupts a sensor's poll holds [PIPE_CAPACITY] bytes, the default of
    Linux; a [write] to a full one does not return, which is the fault [Blocks]: the thread
    that calls it keeps the mutexes it holds. In [System.v] it ends the run, with the sub-HAL as
    the call left it.

    Freed objects. A session that is gone and a death recipient that was deleted are not
    there any more, and their use is the fault [UseAfterFree].

    ** What the theorems show

    - Fingerprint: where events run to completion a permanent lockout ends only by a reset
      or a match, the modes are those the thresholds prescribe, each mark has its timer, which
      clears it, and there is one open session; in every interleaving of single accesses a
      lockout is still earned by its failures, at most one timer sleeps, and the members raced
      on are exactly those of a table; the process faults in five listed ways only, through a
      dangling pointer only by a timer, a signal or a second close; a failure is counted and
      announced, whatever the state; ending a session leaves the panel dark and the
      finger up; a session with its handler and worker refines an abstract finger, never
      presses twice in a row and not again before the interface is ready; tokens survive the
      round trip; what every operation reports, on every branch.
    - Charging: the limit is within its table and antitone in the temperature, a written
      limit reads back and settles, the thread is started exactly when charging starts.
    - Torch and vibrator: the switch guards the LEDs, effects and strengths map as listed.
    - Sensors: a listed sensor's calls reach the sub-HAL that listed it; a mode changes
      everywhere or nowhere; events reach the message queue in order, the pending events are
      counted exactly and drained; the wakelock is held exactly while counted. A post without
      the event queue or its flag is the one way in which the proxy stops. The whole proxy,
      across initialisations, does with its queues what the queues alone can do, so that the
      theorems about them hold of it; its calls are well-typed; stopping its threads ends,
      unless one of them was about to fall asleep, and then it need not; [initialize] answers
      as told on every branch. A one-shot sensor reports at most once per activation, and the
      two classes of sensors are one machine; the mode the framework sets is that of the
      device's sensors.
    - The sensors service as a whole: each of its runs is to the proxy a run of the proxy, so
      that what is shown of the proxy holds in it, the wakelock's count included; it returns,
      assertions of the callback included, unless the own sub-HAL is not initialised, the
      event queue or its flag is missing, or a pipe is full; a touch of an enabled sensor
      arrives as one event, and the framework gets at most one for each activation; after
      three parts of each report no call waits for one; and the sub-HAL's answers depend on
      the calls alone. These theorems are about sensors whose threads do not start before
      their constructors have ended.
    - Processes: what each entry point calls, and what it answers if the service cannot be
      added, found or opened.
    - Where the code does not do what it means to, a theorem gives the run: a lockout whose
      end is never announced, a lockout lost with its session or in a race with a timer, a
      timer's mark that is set for good, a reset that is undone, a timer that fires in freed
      memory, a limiter started twice or reading across a change, wakelocks that are not given
      back or given back early, a lost notification that hangs the initialisation, a pipe that
      mode changes fill, a destructor that hangs, sensors that report when they should not.

    ** What is not modelled

    The libraries the code only calls: message queues and their flags, binder and hwbinder,
    [ScopedWakelock], the conversions between versions of the interface, the vendor's
    modules; they are environments or parameters. Java code, overlays, makefiles and policies
    have no logic of their own in C++. Spurious wake-ups of condition variables: a run that
    hangs here could go on by one. The text of log messages. In the fingerprint service, besides what is said above of data races: the
    pointer to the current session, which a notification reads while [createSession] assigns
    it.

    In [Proxy.v] a call of the framework runs to completion before the next, since the
    service has one binder thread; but the initialisation is split at its joins and between
    the sub-HALs, where the threads and the sub-HALs go on. In [Device.v] the sub-HAL is
    replayed from the proxy's calls, and the threads of its sensors stand still; [System.v]
    lets them run. There a step of the proxy that needs the mutex of a reporting sensor waits
    from its start, not from the call that needs the mutex, and the proxy's environment
    answers for the own sub-HAL: any answers are allowed, those it gives ([subhal_answers])
    among them. Scoped wakelocks are an interface with laws, of which the proxy's own
    operations are an instance.

    The end of a process: each [main] joins its thread pool for good, so the objects it made
    are destroyed by nobody. The destructors are modelled on their own ([Fingerprint_delete],
    [Udfps.stop], [Proxy_delete], [Sensor_delete]), not that of the sensors service as a
    whole. *)

From Stdlib Require Export ZArith Lia.
From stdpp Require Export base tactics list numbers strings pretty gmap relations.

#[global] Set Default Goal Selector "!".
#[global] Open Scope Z_scope.

(** ** Outcomes

    What a C++ call can do besides returning: throw one of the two exceptions
    [std::stoi] and [std::stoul] throw, fail a [CHECK], execute something the language
    leaves undefined, or not return, since it waits for another thread. *)
Inductive fault : Set :=
| InvalidArgument
| OutOfRange
| CheckFailed
| NullDeref
| OutOfBounds
| SignedOverflow
| Unordered                                 (* [std::clamp] between swapped bounds *)
| UseAfterFree
| Blocks                                    (* a [write] to a pipe that is full *).

Inductive outcome (A : Type) : Type :=
| Done (a : A)
| Fault (e : fault).
Arguments Done {A} a.
Arguments Fault {A} e.

#[export] Instance fault_eq_dec : EqDecision fault.
Proof. solve_decision. Defined.
#[export] Instance outcome_eq_dec A `{EqDecision A} : EqDecision (outcome A).
Proof. solve_decision. Defined.

(** ** Worlds and programs

    A component runs in a world: its own state and the calls it has made to the
    outside, oldest first. A program reads and changes the world and either returns
    or faults; a fault keeps the world reached so far. *)
Record world (S E : Type) : Type := World { st : S; tr : list E }.
Arguments World {S E} st tr.
Arguments st {S E} w.
Arguments tr {S E} w.

Definition M (W A : Type) : Type := W → outcome A * W.

#[export] Instance M_ret W : MRet (M W) := λ A a w, (Done a, w).
#[export] Instance M_bind W : MBind (M W) := λ A B k m w,
  match m w with
  | (Done a, w') => k a w'
  | (Fault e, w') => (Fault e, w')
  end.

Section programs.
Context {S E : Type}.
Abbreviation prog := (M (world S E)).

Definition gets {A} (f : S → A) : prog A := λ w, (Done (f (st w)), w).
Definition modify (f : S → S) : prog unit := λ w, (Done (), World (f (st w)) (tr w)).
Definition faults {A} (e : fault) : prog A := λ w, (Fault e, w).
(** A call whose result the program does not use. *)
Definition emit (e : E) : prog unit := λ w, (Done (), World (st w) (tr w ++ [e])).
(** A call whose result the environment chooses, knowing every call up to this one. *)
Definition call {R} (env : list E → R) (e : E) : prog R :=
  λ w, (Done (env (tr w ++ [e])), World (st w) (tr w ++ [e])).
(** Something the environment answers without being called: the clock, a property. *)
Definition ask {R} (env : list E → R) : prog R := λ w, (Done (env (tr w)), w).
(** A pure operation of a sub-object that answers something. *)
Definition updates {A} (f : S → A * S) : prog A :=
  λ w, (Done (f (st w)).1, World (f (st w)).2 (tr w)).
Definition lift_outcome {A} (o : outcome A) : prog A := λ w, (o, w).

(** [for (x : l) body(x)]. *)
Fixpoint for_each {A} (body : A → prog unit) (l : list A) : prog unit :=
  match l with
  | [] => mret ()
  | x :: l' => body x;; for_each body l'
  end.
End programs.

(** Unfold the monad and reduce. *)
Ltac unfold_monad :=
  cbv beta iota zeta delta [mbind mret M_bind M_ret gets modify faults emit call ask
    updates lift_outcome].

(** ** What a program keeps

    [preserves I m]: running [m] in a world that satisfies [I] ends in one that does,
    whether [m] returns or faults. [logs P m]: [m] only appends to the trace, and every
    call it makes satisfies [P]. Both are compositional; the hint database [prog] holds
    one rule per construct, so that [solve_prog] follows the text of an operation. *)
Definition preserves {W A} (I : W → Prop) (m : M W A) : Prop := ∀ w, I w → I (m w).2.

Definition logs {S E A} (P : E → Prop) (m : M (world S E) A) : Prop :=
  ∀ w, ∃ l, tr (m w).2 = tr w ++ l ∧ Forall P l.

Create HintDb prog.

Section preserves.
Context {S E : Type} (I : world S E → Prop).

Lemma preserves_ret {A} (a : A) : preserves I (mret a).
Proof. by intros w. Qed.

Lemma preserves_faults {A} e : preserves I (faults (A := A) e).
Proof. by intros w. Qed.

Lemma preserves_bind {A B} (m : M (world S E) A) (k : A → M (world S E) B) :
  preserves I m → (∀ a, preserves I (k a)) → preserves I (m ≫= k).
Proof.
  intros Hm Hk w Hw. specialize (Hm w Hw). unfold mbind, M_bind.
  destruct (m w) as [[a|e] w'] eqn:Em; [|done]. by apply Hk.
Qed.

Lemma preserves_gets {A} (f : S → A) : preserves I (gets f).
Proof. by intros w. Qed.

Lemma preserves_ask {R} (env : list E → R) : preserves I (ask env).
Proof. by intros w. Qed.

Lemma preserves_lift_outcome {A} (o : outcome A) : preserves I (lift_outcome o).
Proof. by intros w. Qed.

Lemma preserves_for_each {A} (body : A → M (world S E) unit) l :
  (∀ x, preserves I (body x)) → preserves I (for_each body l).
Proof.
  intros Hb. induction l as [|x l IH]; cbn; [apply preserves_ret|].
  apply preserves_bind; [apply Hb|done].
Qed.
End preserves.

Section logs.
Context {S E : Type} (P : E → Prop).

Lemma logs_silent {A} (m : M (world S E) A) : (∀ w, tr (m w).2 = tr w) → logs P m.
Proof. intros Hm w. exists []. by rewrite Hm, app_nil_r. Qed.

Lemma logs_ret {A} (a : A) : logs P (S := S) (mret a).
Proof. by apply logs_silent. Qed.

Lemma logs_gets {A} (f : S → A) : logs P (gets f).
Proof. by apply logs_silent. Qed.

Lemma logs_ask {R} (env : list E → R) : logs P (ask (S := S) env).
Proof. by apply logs_silent. Qed.

Lemma logs_modify f : logs P (modify (S := S) f).
Proof. by apply logs_silent. Qed.

Lemma logs_faults {A} e : logs P (faults (S := S) (A := A) e).
Proof. by apply logs_silent. Qed.

Lemma logs_updates {A} (f : S → A * S) : logs P (updates f).
Proof. by apply logs_silent. Qed.

Lemma logs_lift_outcome {A} (o : outcome A) : logs P (S := S) (lift_outcome o).
Proof. by apply logs_silent. Qed.

Lemma logs_emit e : P e → logs P (S := S) (emit e).
Proof. intros He w. exists [e]. by rewrite Forall_singleton. Qed.

Lemma logs_call {R} (env : list E → R) e : P e → logs P (S := S) (call env e).
Proof. intros He w. exists [e]. by rewrite Forall_singleton. Qed.

Lemma logs_bind {A B} (m : M (world S E) A) (k : A → M (world S E) B) :
  logs P m → (∀ a, logs P (k a)) → logs P (m ≫= k).
Proof.
  intros Hm Hk w. destruct (Hm w) as (l & Hl & HPl). unfold mbind, M_bind.
  destruct (m w) as [[a|e] w'] eqn:Em; [|by exists l].
  destruct (Hk a w') as (l' & Hl' & HPl'). exists (l ++ l').
  split; [|by apply Forall_app]. cbn in Hl. by rewrite Hl', Hl, app_assoc.
Qed.

Lemma logs_for_each {A} (body : A → M (world S E) unit) l :
  (∀ x, logs P (body x)) → logs P (for_each body l).
Proof.
  intros Hb. induction l as [|x l IH]; cbn; [apply logs_ret|].
  apply logs_bind; [apply Hb|done].
Qed.
End logs.

#[export] Hint Resolve preserves_ret preserves_faults preserves_gets preserves_ask
  preserves_lift_outcome : prog.
#[export] Hint Resolve logs_ret logs_gets logs_ask logs_modify logs_faults logs_updates
  logs_lift_outcome : prog.

(** Follow the text of a program down to its primitive steps. *)
Ltac prog_step :=
  match goal with
  | |- preserves _ (_ ≫= _) => apply preserves_bind
  | |- preserves _ (for_each _ _) => apply preserves_for_each; intros ?
  | |- preserves _ (let '(_, _) := ?x in _) => destruct x eqn:?
  | |- preserves _ (match ?x with _ => _ end) => destruct x eqn:?
  | |- logs _ (_ ≫= _) => apply logs_bind
  | |- logs _ (for_each _ _) => apply logs_for_each; intros ?
  | |- logs _ (emit _) => apply logs_emit
  | |- logs _ (call _ _) => apply logs_call
  | |- logs _ (match ?x with _ => _ end) => destruct x eqn:?
  | |- ∀ _, _ => intros ?
  | _ => solve [eauto with prog]
  end.
Ltac solve_prog := repeat prog_step.

(** A triple for runs that return: from [P], a result and a world in [Q]. *)
Definition hoare {W A} (P : W → Prop) (m : M W A) (Q : A → W → Prop) : Prop :=
  ∀ w a w', P w → m w = (Done a, w') → Q a w'.

Section hoare.
Context {S E : Type}.
Implicit Types P : world S E → Prop.

Lemma hoare_bind {A B} P (m : M (world S E) A) (k : A → M (world S E) B) R Q :
  hoare P m R → (∀ a, hoare (R a) (k a) Q) → hoare P (m ≫= k) Q.
Proof.
  intros Hm Hk w b w' Hw. unfold mbind, M_bind.
  destruct (m w) as [[a|] w1] eqn:E1; [|done]. apply Hk. by eapply Hm.
Qed.

Lemma hoare_preserves {A} P (m : M (world S E) A) : preserves P m → hoare P m (λ _, P).
Proof. intros Hm w a w' Hw E1. by specialize (Hm w Hw); rewrite E1 in Hm. Qed.

Lemma hoare_ret {A} (a : A) (Q : A → world S E → Prop) : hoare (Q a) (mret a) Q.
Proof. by intros w b w' Hw [= <- <-]. Qed.

Lemma hoare_modify (f : S → S) (Q : unit → world S E → Prop) :
  hoare (λ w, Q () (World (f (st w)) (tr w))) (modify f) Q.
Proof. by intros w b w' Hw [= <- <-]. Qed.

Lemma hoare_emit (e : E) (Q : unit → world S E → Prop) :
  hoare (λ w, Q () (World (st w) (tr w ++ [e]))) (emit e) Q.
Proof. by intros w b w' Hw [= <- <-]. Qed.

Lemma hoare_weaken {A} P P' (m : M (world S E) A) (Q Q' : A → world S E → Prop) :
  hoare P m Q → (∀ w, P' w → P w) → (∀ a w, Q a w → Q' a w) → hoare P' m Q'.
Proof. intros Hm HP HQ w a w' Hw E1. eauto. Qed.
End hoare.

(** An invariant of the state alone does not see the calls. *)
Definition of_state {S E} (P : S → Prop) (w : world S E) : Prop := P (st w).

Section state_invariants.
Context {S E : Type} (P : S → Prop).

Lemma preserves_emit (e : E) : preserves (of_state P) (emit e).
Proof. by intros w. Qed.

Lemma preserves_call {R} (env : list E → R) e : preserves (of_state P) (call env e).
Proof. by intros w. Qed.

Lemma preserves_modify f :
  (∀ s, P s → P (f s)) → preserves (of_state (E := E) P) (modify f).
Proof. intros Hf w. apply Hf. Qed.
End state_invariants.

#[export] Hint Resolve preserves_emit preserves_call : prog.

Ltac program_head m := lazymatch m with ?f _ => program_head f | _ => m end.

(** The same for an invariant of the state, unfolding the operations on the way down;
    what is left are the assignments. *)
Ltac solve_state_invariant :=
  repeat (prog_step || match goal with
    | |- preserves (of_state _) (modify _) => apply preserves_modify; intros ? ?
    | |- preserves _ ?m => let h := program_head m in unfold h
    end).

(** Run a program symbolically: unfold the monad and put the trace in right-nested form. *)
Ltac run :=
  repeat (progress (unfold_monad || cbn [for_each st tr fst snd]
    || rewrite <- !app_assoc || cbn [app])).

(** One step of a program whose result is known. *)
Lemma bind_done {W A B} (m : M W A) (k : A → M W B) w w' a :
  m w = (Done a, w') → (m ≫= k) w = k a w'.
Proof. unfold mbind, M_bind. by intros ->. Qed.

Lemma bind_fault {W A B} (m : M W A) (k : A → M W B) w w' e :
  m w = (Fault e, w') → (m ≫= k) w = (Fault e, w').
Proof. unfold mbind, M_bind. by intros ->. Qed.

Lemma bind_gets {S E A B} (f : S → A) (k : A → M (world S E) B) w :
  (gets f ≫= k) w = k (f (st w)) w.
Proof. done. Qed.

Lemma bind_inv {W A B} (m : M W A) (k : A → M W B) w w' b :
  (m ≫= k) w = (Done b, w') → ∃ a w1, m w = (Done a, w1) ∧ k a w1 = (Done b, w').
Proof.
  unfold mbind, M_bind. destruct (m w) as [[a|] w1]; [|done]. eauto.
Qed.

Lemma bind_ret_state {W A B} (m : M W A) (b : B) w :
  ((m ≫= λ _, mret b) w).2 = (m w).2.
Proof. unfold_monad. by destruct (m w) as [[]]. Qed.

Lemma bind_ret {W A B} (a : A) (k : A → M W B) w : (mret a ≫= k) w = k a w.
Proof. done. Qed.

(** ** A component inside a system

    A program of a component runs in the world of a system it is a part of: [get] and [put]
    focus on its state, [inj] makes its calls calls of the system, [proj] finds them again. *)
Section zoom.
Context {S S' E E' : Type} (get : S → S') (put : S' → S → S) (inj : E' → E)
  (proj : E → option E').

Definition view (w : world S E) : world S' E' := World (get (st w)) (omap proj (tr w)).

Definition zoom {A} (m : M (world S' E') A) : M (world S E) A := λ w,
  let (o, w') := m (view w) in
  (o, World (put (st w') (st w)) (tr w ++ map inj (drop (length (tr (view w))) (tr w')))).

Context (get_put : ∀ s' s, get (put s' s) = s') (proj_inj : ∀ e, proj (inj e) = Some e).

Lemma omap_inj l : omap proj (map inj l) = l.
Proof. induction l as [|e l IH]; cbn; [done|]. by rewrite proj_inj, IH. Qed.

(** In the component's view a zoomed program is the program. *)
Lemma view_zoom {A} (m : M (world S' E') A) w :
  logs (λ _, True) m → (zoom m w).1 = (m (view w)).1 ∧ view (zoom m w).2 = (m (view w)).2.
Proof.
  intros Hm. destruct (Hm (view w)) as (l & Hl & _). unfold zoom.
  destruct (m (view w)) as [o [s' t']]. cbn in *. subst t'. split; [done|].
  unfold view. cbn. by rewrite get_put, omap_app, drop_app_length, omap_inj.
Qed.
End zoom.

Lemma for_each_app {S E A} (body : A → M (world S E) unit) l1 l2 w :
  for_each body (l1 ++ l2) w = (for_each body l1;; for_each body l2) w.
Proof.
  revert w. induction l1 as [|x l1 IH]; intros w; cbn; [done|].
  unfold mbind, M_bind. destruct (body x w) as [[[]|] w']; [apply IH|done].
Qed.

(** A loop that only calls. *)
Lemma for_each_emit {S E A} (f : A → E) (l : list A) (w : world S E) :
  for_each (λ x, emit (f x)) l w = (Done (), World (st w) (tr w ++ map f l)).
Proof.
  revert w. induction l as [|x l IH]; intros w; [by destruct w; run; rewrite app_nil_r|].
  run. by rewrite IH; run.
Qed.

(** Resolve the conditionals whose condition is settled. *)
Ltac decides :=
  repeat match goal with
  | |- context [decide ?P] =>
      (rewrite (decide_True (P := P)) by (done || lia))
      || (rewrite (decide_False (P := P))
        by (done || lia || (let H := fresh in intros H; by apply H)))
  end.

(** Case analysis on every conditional of the goal, closing the absurd branches. *)
Ltac cases := repeat (case_decide || case_match); simplify_eq/=; try done.
