(* ===== verification/Words.v ===== *)
(** * Machine integers

    The C++ integer types as [Z] with the wrap-around of their conversions written out,
    and byte order. *)

From S2P Require Import Prelude.

(** ** Conversions to a [w]-bit type *)
Definition wrap_u (w x : Z) : Z := x `mod` 2 ^ w.
Definition wrap_s (w x : Z) : Z := (x + 2 ^ (w - 1)) `mod` 2 ^ w - 2 ^ (w - 1).

Abbreviation u8 := (wrap_u 8).
Abbreviation u32 := (wrap_u 32).
Abbreviation u64 := (wrap_u 64).
Abbreviation i32 := (wrap_s 32).
Abbreviation i64 := (wrap_s 64).

Definition in_u (w x : Z) : Prop := 0 ≤ x < 2 ^ w.
Definition in_s (w x : Z) : Prop := - 2 ^ (w - 1) ≤ x < 2 ^ (w - 1).

#[export] Instance in_u_dec w x : Decision (in_u w x).
Proof. unfold in_u. apply _. Defined.
#[export] Instance in_s_dec w x : Decision (in_s w x).
Proof. unfold in_s. apply _. Defined.

Create HintDb words.
#[export] Hint Unfold in_u in_s : words.

(** Literals of the code's widths, evaluated once. *)
Lemma pow_values :
  2 ^ 8 = 256 ∧ 2 ^ 31 = 2147483648 ∧ 2 ^ 32 = 4294967296 ∧
  2 ^ 63 = 9223372036854775808 ∧ 2 ^ 64 = 18446744073709551616.
Proof. done. Qed.

Section conversions.
Context (w : Z) (Hw : 0 < w).

Lemma wrap_u_range x : in_u w (wrap_u w x).
Proof. unfold in_u, wrap_u. apply Z.mod_pos_bound. lia. Qed.

Lemma wrap_u_id x : in_u w x → wrap_u w x = x.
Proof. unfold in_u, wrap_u. apply Z.mod_small. Qed.

Lemma pow_half : 2 ^ w = 2 * 2 ^ (w - 1).
Proof. rewrite <- Z.pow_succ_r by lia. f_equal. lia. Qed.

Lemma wrap_s_range x : in_s w (wrap_s w x).
Proof.
  unfold in_s, wrap_s. pose proof pow_half.
  pose proof (Z.mod_pos_bound (x + 2 ^ (w - 1)) (2 ^ w)). lia.
Qed.

Lemma wrap_s_id x : in_s w x → wrap_s w x = x.
Proof. unfold in_s, wrap_s. intros. pose proof pow_half. rewrite Z.mod_small; lia. Qed.

(** A signed value survives the trip through the unsigned type of its width. *)
Lemma wrap_s_u x : in_s w x → wrap_s w (wrap_u w x) = x.
Proof.
  intros Hx. rewrite <- (wrap_s_id x) at 2 by done. unfold wrap_s, wrap_u.
  by rewrite Zplus_mod_idemp_l.
Qed.

Lemma wrap_u_s x : in_u w x → wrap_u w (wrap_s w x) = x.
Proof.
  intros Hx. rewrite <- (wrap_u_id x) at 2 by done. unfold wrap_s, wrap_u.
  rewrite Zminus_mod_idemp_l. f_equal. lia.
Qed.

Lemma wrap_s_nonneg x : 0 ≤ x < 2 ^ (w - 1) → wrap_s w x = x.
Proof. intros. apply wrap_s_id. unfold in_s. lia. Qed.
End conversions.

#[export] Hint Resolve wrap_u_range wrap_s_range : words.

(** ** Byte order

    A word of [n] bytes, least significant first, and the byte swap that [htobe32],
    [htobe64] and their inverses are on the little-endian target. *)
Fixpoint le_bytes (n : nat) (x : Z) : list Z :=
  match n with
  | O => []
  | S m => x `mod` 256 :: le_bytes m (x / 256)
  end.

Fixpoint of_le_bytes (l : list Z) : Z :=
  match l with
  | [] => 0
  | b :: l' => b + 256 * of_le_bytes l'
  end.

Definition bswap (n : nat) (x : Z) : Z := of_le_bytes (reverse (le_bytes n x)).

#[global] Arguments bswap : simpl never.
#[global] Arguments wrap_u : simpl never.
#[global] Arguments wrap_s : simpl never.

Definition is_byte (b : Z) : Prop := 0 ≤ b < 256.

Lemma le_bytes_length n x : length (le_bytes n x) = n.
Proof. revert x. induction n as [|n IH]; intros x; cbn; [done|by rewrite IH]. Qed.

Lemma le_bytes_is_byte n x : Forall is_byte (le_bytes n x).
Proof.
  revert x. induction n as [|n IH]; intros x; cbn; constructor; [|apply IH].
  unfold is_byte. apply Z.mod_pos_bound. lia.
Qed.

Lemma of_le_le_bytes n x : of_le_bytes (le_bytes n x) = x `mod` 256 ^ Z.of_nat n.
Proof.
  revert x. induction n as [|n IH]; intros x; cbn [le_bytes of_le_bytes].
  { cbn. by rewrite Z.mod_1_r. }
  rewrite IH, Nat2Z.inj_succ, Z.pow_succ_r by lia.
  rewrite Z.rem_mul_r by (try lia; apply Z.pow_pos_nonneg; lia). lia.
Qed.

Lemma le_bytes_of_le l :
  Forall is_byte l → le_bytes (length l) (of_le_bytes l) = l.
Proof.
  induction 1 as [|b l Hb _ IH]; cbn [length le_bytes of_le_bytes]; [done|].
  unfold is_byte in Hb. f_equal.
  - rewrite (Z.mul_comm 256), Z_mod_plus_full. by apply Z.mod_small.
  - by rewrite (Z.mul_comm 256), Z.div_add, (Z.div_small b) by lia.
Qed.

Lemma of_le_bytes_range l :
  Forall is_byte l → 0 ≤ of_le_bytes l < 256 ^ Z.of_nat (length l).
Proof.
  induction 1 as [|b l Hb _ IH]; cbn [length of_le_bytes]; [done|].
  rewrite Nat2Z.inj_succ, Z.pow_succ_r by lia. unfold is_byte in Hb. lia.
Qed.

Lemma bswap_range n x : 0 ≤ bswap n x < 256 ^ Z.of_nat n.
Proof.
  unfold bswap. rewrite <- (le_bytes_length n x) at 3.
  rewrite <- length_reverse. apply of_le_bytes_range, Forall_reverse, le_bytes_is_byte.
Qed.

Lemma bswap_bswap n x : 0 ≤ x < 256 ^ Z.of_nat n → bswap n (bswap n x) = x.
Proof.
  intros Hx. unfold bswap.
  assert (Hl : le_bytes n (of_le_bytes (reverse (le_bytes n x))) = reverse (le_bytes n x)).
  { rewrite <- (le_bytes_length n x) at 1. rewrite <- length_reverse.
    apply le_bytes_of_le, Forall_reverse, le_bytes_is_byte. }
  rewrite Hl, reverse_involutive, of_le_le_bytes. by apply Z.mod_small.
Qed.

(** ** Conversion to [float]

    The value of an integer converted to a single-precision [float]: it is rounded to 24
    bits, to the nearest value and to an even one half-way. Of an integer below [2 ^ 128],
    which those of 32 bits are, the result is again a whole number. *)
Definition float_exponent (n : Z) : Z := Z.max 0 (Z.log2 (Z.abs n) - 23).

Definition to_float (n : Z) : Z :=
  let unit := 2 ^ float_exponent n in
  let (m, r) := Z.div_eucl (Z.abs n) unit in
  Z.sgn n * ((m + if decide (unit < 2 * r ∨ (2 * r = unit ∧ Z.odd m = true)) then 1 else 0)
             * unit).

(** The conversion is off by at most half a unit of the last place. *)
Lemma to_float_error n : 2 * Z.abs (to_float n - n) ≤ 2 ^ float_exponent n.
Proof.
  unfold to_float. assert (0 < 2 ^ float_exponent n) as Hu
    by (apply Z.pow_pos_nonneg; unfold float_exponent; lia).
  pose proof (Z_div_mod (Z.abs n) (2 ^ float_exponent n) ltac:(lia)) as Hdiv.
  destruct (Z.div_eucl _ _) as [m r]. destruct Hdiv as [Habs Hr].
  set (unit := 2 ^ float_exponent n) in *.
  replace n with (Z.sgn n * Z.abs n) at 2 by (rewrite Z.mul_comm; apply Z.abs_sgn).
  rewrite <- Z.mul_sub_distr_l, Z.abs_mul, Habs.
  assert (Z.abs (Z.sgn n) ≤ 1) by lia. case_decide; nia.
Qed.

(** An integer of at most 24 bits is converted exactly. *)
Lemma to_float_exact n : Z.abs n < 2 ^ 24 → to_float n = n.
Proof.
  intros Hn. pose proof (to_float_error n) as He.
  assert (float_exponent n = 0) as Hz; [|rewrite Hz in He; lia].
  unfold float_exponent. destruct (decide (n = 0)) as [->|]; [done|].
  pose proof (Z.log2_lt_pow2 (Z.abs n) 24 ltac:(lia)). lia.
Qed.
