(* ===== verification/Text.v ===== *)
(** * Reading and printing integers

    The pieces of the C and C++ libraries the HALs use on the text of sysfs nodes:
    [std::to_string], [std::stoi], [std::stoul], [std::istream::operator>>],
    [sscanf("%d")] and prefix tests. All of them scan the same way: blanks, an
    optional sign, then the longest run of digits. *)

From Stdlib Require Import Ascii.
From S2P Require Import Prelude Words.

(** ** Scanning *)

(** [isspace] in the C locale. *)
Definition is_blank (c : ascii) : bool :=
  let n := Z.of_nat (nat_of_ascii c) in ((9 <=? n) && (n <=? 13)) || (n =? 32).

Definition digit_val (base : Z) (c : ascii) : option Z :=
  let n := Z.of_nat (nat_of_ascii c) in
  let v := if (48 <=? n) && (n <=? 57) then Some (n - 48)
           else if (97 <=? n) && (n <=? 122) then Some (n - 87)
           else if (65 <=? n) && (n <=? 90) then Some (n - 55)
           else None in
  match v with
  | Some d => if d <? base then Some d else None
  | None => None
  end.

Fixpoint skip_blanks (s : string) : string :=
  match s with
  | String c s' => if is_blank c then skip_blanks s' else s
  | EmptyString => EmptyString
  end.

(** Read digits while there are some: the value so far and what is left. *)
Fixpoint scan_digits (base acc : Z) (s : string) : Z * string :=
  match s with
  | String c s' =>
      match digit_val base c with
      | Some d => scan_digits base (acc * base + d) s'
      | None => (acc, s)
      end
  | EmptyString => (acc, EmptyString)
  end.

(** At least one digit. *)
Definition scan_nat (base : Z) (s : string) : option (Z * string) :=
  match s with
  | String c s' =>
      match digit_val base c with
      | Some d => Some (scan_digits base d s')
      | None => None
      end
  | EmptyString => None
  end.

Definition scan_sign (s : string) : bool * string :=
  match s with
  | String "-" s' => (true, s')
  | String "+" s' => (false, s')
  | _ => (false, s)
  end.

(** A hexadecimal number may carry its prefix. *)
Definition skip_0x (s : string) : string :=
  match s with
  | String "0" (String x (String c s')) =>
      if (Ascii.eqb x "x" || Ascii.eqb x "X") && bool_decide (is_Some (digit_val 16 c))
      then String c s' else s
  | _ => s
  end.

(** The integer at the head of a text, with no bound on its size, and what follows. *)
Definition scan_int (base : Z) (s : string) : option (Z * string) :=
  let (neg, digits) := scan_sign (skip_blanks s) in
  match scan_nat base (if base =? 16 then skip_0x digits else digits) with
  | Some (n, rest) => Some (if neg then - n else n, rest)
  | None => None
  end.

(** ** The library functions *)

(** [std::stoi(s)]. *)
Definition stoi (s : string) : outcome Z :=
  match scan_int 10 s with
  | None => Fault InvalidArgument
  | Some (n, _) => if decide (in_s 32 n) then Done n else Fault OutOfRange
  end.

(** [std::stoul(s, nullptr, 16)]: the magnitude must fit 64 bits, a sign negates
    modulo 2^64. *)
Definition stoul16 (s : string) : outcome Z :=
  match scan_int 16 s with
  | None => Fault InvalidArgument
  | Some (n, _) => if decide (Z.abs n < 2 ^ 64) then Done (u64 n) else Fault OutOfRange
  end.

(** [stream >> n] for an [int]: [None] when the stream is left in the fail state. *)
Definition istream_int (s : string) : option Z :=
  match scan_int 10 s with
  | Some (n, _) => if decide (in_s 32 n) then Some n else None
  | None => None
  end.

(** [std::to_string(n)], and [stream << n]. *)
Definition to_string (n : Z) : string := pretty n.

(** [strncmp(s, prefix, strlen(prefix)) == 0]. *)
Definition starts_with (prefix s : string) : bool := String.prefix prefix s.

(** [snprintf(buf, size, "%s", s)]: what fits, one byte kept for the terminator. *)
Definition snprintf (size : nat) (s : string) : string := String.substring 0 (size - 1) s.

(** [getline]: up to the first line end. *)
Fixpoint first_line (s : string) : string :=
  match s with
  | String c s' => if Ascii.eqb c "010"%char then EmptyString else String c (first_line s')
  | EmptyString => EmptyString
  end.

(** ** Printing then scanning *)

Lemma digit_ind (P : N → Prop) :
  Forall P [0; 1; 2; 3; 4; 5; 6; 7; 8; 9]%N → ∀ d, (d < 10)%N → P d.
Proof.
  intros HP d Hd. rewrite Forall_forall in HP. apply HP.
  rewrite !elem_of_cons. lia.
Qed.

Lemma digit_val_pretty x : (x < 10)%N → digit_val 10 (pretty_N_char x) = Some (Z.of_N x).
Proof.
  revert x. apply digit_ind. by repeat constructor.
Qed.

Lemma scan_digits_pretty n s :
  scan_digits 10 0 (pretty_N_go n s) = scan_digits 10 (Z.of_N n) s.
Proof.
  revert s. induction (N.lt_wf_0 n) as [n _ IH]; intros s.
  destruct (decide (n = 0)%N) as [->|Hn]; [by rewrite pretty_N_go_0|].
  rewrite pretty_N_go_step by lia. rewrite IH by (apply N.div_lt; lia).
  cbn [scan_digits]. rewrite digit_val_pretty by (apply N.mod_lt; lia).
  f_equal. rewrite N2Z.inj_div, N2Z.inj_mod. change (Z.of_N 10) with 10.
  pose proof (Z_div_mod_eq_full (Z.of_N n) 10). lia.
Qed.

Lemma pretty_N_go_head n s :
  (0 < n)%N → ∃ d s', (d < 10)%N ∧ pretty_N_go n s = String (pretty_N_char d) s'.
Proof.
  revert s. induction (N.lt_wf_0 n) as [n _ IH]; intros s Hn.
  rewrite pretty_N_go_step by lia.
  destruct (decide (n < 10)%N).
  - rewrite N.div_small by done. rewrite pretty_N_go_0.
    exists (n `mod` 10)%N, s. split; [apply N.mod_lt; lia|done].
  - apply IH; [apply N.div_lt; lia|apply N.div_str_pos; lia].
Qed.

Lemma pretty_digit_plain d :
  (d < 10)%N → is_blank (pretty_N_char d) = false ∧
    ∀ s, scan_sign (String (pretty_N_char d) s) = (false, String (pretty_N_char d) s).
Proof.
  revert d. apply digit_ind. by repeat constructor.
Qed.

(** What may follow a number without being read as part of it. *)
Definition no_digit (s : string) : Prop :=
  match s with
  | String c _ => digit_val 10 c = None
  | EmptyString => True
  end.

Lemma scan_digits_stop acc s : no_digit s → scan_digits 10 acc s = (acc, s).
Proof. destruct s as [|c s]; cbn; [done|]. by intros ->. Qed.

Lemma app_cons_str c s1 s2 : String c s1 +:+ s2 = String c (s1 +:+ s2).
Proof. done. Qed.

Lemma string_app_empty s : s +:+ EmptyString = s.
Proof. induction s as [|c s IH]; [done|]. unfold String.app in *. cbn. by rewrite IH. Qed.

Lemma substring_whole s : String.substring 0 (String.length s) s = s.
Proof. induction s as [|c s IH]; cbn; [done|by rewrite IH]. Qed.

Lemma substring_app p s :
  String.substring (String.length p) (String.length (p +:+ s) - String.length p) (p +:+ s) = s.
Proof.
  induction p as [|c p IH]; [|exact IH].
  cbn. rewrite Nat.sub_0_r. apply substring_whole.
Qed.

Lemma starts_with_app p s : starts_with p (p +:+ s) = true.
Proof.
  induction p as [|c p IH]; [by destruct s|].
  unfold starts_with in *. rewrite app_cons_str. cbn. by destruct (Ascii.ascii_dec c c).
Qed.

Lemma pretty_N_go_app n s s' : pretty_N_go n s +:+ s' = pretty_N_go n (s +:+ s').
Proof.
  revert s. induction (N.lt_wf_0 n) as [n _ IH]; intros s.
  destruct (decide (n = 0)%N) as [->|Hn]; [done|].
  rewrite !(pretty_N_go_step n) by lia. rewrite IH by (apply N.div_lt; lia).
  by rewrite app_cons_str.
Qed.

Lemma scan_nat_pretty p rest :
  no_digit rest →
  scan_nat 10 (pretty (Npos p) +:+ rest) = Some (Zpos p, rest).
Proof.
  intros Hr. unfold pretty, pretty_N. rewrite decide_False by done.
  rewrite pretty_N_go_app. change ("" +:+ rest) with rest.
  pose proof (scan_digits_pretty (N.pos p) rest) as Hs.
  destruct (pretty_N_go_head (N.pos p) rest) as (d & s' & Hd & Hgo); [lia|].
  rewrite Hgo in Hs |- *. cbn [scan_nat]. cbn [scan_digits] in Hs.
  rewrite digit_val_pretty in Hs |- * by done. rewrite Z.mul_0_l, Z.add_0_l in Hs.
  by rewrite Hs, scan_digits_stop.
Qed.

Lemma scan_int_10 s :
  scan_int 10 s =
  let (neg, digits) := scan_sign (skip_blanks s) in
  match scan_nat 10 digits with
  | Some (n, rest) => Some (if neg then - n else n, rest)
  | None => None
  end.
Proof. done. Qed.

Lemma scan_int_pretty n rest :
  no_digit rest → scan_int 10 (to_string n +:+ rest) = Some (n, rest).
Proof.
  intros Hr. unfold to_string, pretty, pretty_Z. destruct n as [|p|p].
  - assert (scan_int 10 ("0" +:+ rest) =
      (let '(n, r) := scan_digits 10 0 rest in Some (n, r))) as -> by done.
    by rewrite scan_digits_stop.
  - pose proof (scan_nat_pretty p rest Hr) as Hs. unfold pretty, pretty_N in Hs.
    rewrite scan_int_10. unfold pretty, pretty_positive, pretty, pretty_N.
    rewrite decide_False in Hs |- * by done. rewrite pretty_N_go_app in Hs |- *.
    change ("" +:+ rest) with rest in Hs |- *.
    destruct (pretty_N_go_head (N.pos p) rest) as (d & s' & Hd & Hgo); [lia|].
    rewrite Hgo in Hs |- *. destruct (pretty_digit_plain d Hd) as [Hb Hg].
    cbn [skip_blanks]. by rewrite Hb, Hg, Hs.
  - change (("-" +:+ pretty p) +:+ rest) with (String "-" (pretty (Npos p) +:+ rest)).
    rewrite scan_int_10. cbn [skip_blanks scan_sign is_blank].
    change (scan_sign (if is_blank "-" then _ else ?s)) with (scan_sign s).
    cbn [scan_sign]. by rewrite scan_nat_pretty.
Qed.

(** [stoi] undoes [to_string], also in front of a terminator or a line end. *)
Lemma stoi_to_string n rest :
  in_s 32 n → no_digit rest → stoi (to_string n +:+ rest) = Done n.
Proof. intros Hn Hr. unfold stoi. rewrite scan_int_pretty by done. by rewrite decide_True. Qed.

Lemma istream_int_to_string n rest :
  in_s 32 n → no_digit rest → istream_int (to_string n +:+ rest) = Some n.
Proof.
  intros Hn Hr. unfold istream_int. rewrite scan_int_pretty by done. by rewrite decide_True.
Qed.

Lemma first_line_digit d s :
  (d < 10)%N →
  first_line (String (pretty_N_char d) s) = String (pretty_N_char d) (first_line s).
Proof.
  revert d. apply digit_ind. by repeat constructor.
Qed.

Lemma first_line_pretty_go n s : first_line (pretty_N_go n s) = pretty_N_go n (first_line s).
Proof.
  revert s. induction (N.lt_wf_0 n) as [n _ IH]; intros s.
  destruct (decide (n = 0)%N) as [->|Hn]; [done|].
  rewrite !(pretty_N_go_step n) by lia. rewrite IH by (apply N.div_lt; lia).
  by rewrite first_line_digit by (apply N.mod_lt; lia).
Qed.

(** A printed number holds no line end. *)
Lemma first_line_to_string n rest :
  first_line (to_string n +:+ rest) = to_string n +:+ first_line rest.
Proof.
  assert (Hp : ∀ p, first_line (pretty (Npos p) +:+ rest) = pretty (Npos p) +:+ first_line rest).
  { intros p. unfold pretty, pretty_N. rewrite decide_False by done.
    rewrite !pretty_N_go_app. by rewrite first_line_pretty_go. }
  unfold to_string, pretty, pretty_Z. destruct n as [|p|p]; [done|apply Hp|].
  change (String "-" (first_line (pretty (Npos p) +:+ rest)) =
          String "-" (pretty (Npos p) +:+ first_line rest)).
  by rewrite Hp.
Qed.

Lemma stoi_range s n : stoi s = Done n → in_s 32 n.
Proof. unfold stoi. intros. cases. Qed.

Lemma istream_int_range s n : istream_int s = Some n → in_s 32 n.
Proof. unfold istream_int. intros. cases. Qed.

Lemma stoi_empty : stoi "" = Fault InvalidArgument.
Proof. done. Qed.

Example scan_samples :
  stoi "  -42 mA" = Done (-42) ∧ stoi "+7" = Done 7 ∧ stoi "abc" = Fault InvalidArgument ∧
  stoi "2147483648" = Fault OutOfRange ∧ stoul16 "0x1f4" = Done 500 ∧
  stoul16 "ff," = Done 255 ∧ istream_int "1" = Some 1 ∧ istream_int "-" = None.
Proof. vm_compute. done. Qed.
