(* ===== verification/Lockout.v ===== *)
(** * LockoutTracker

    [fingerprint/LockoutTracker.cpp]: counts failed attempts and decides when the
    sensor is locked out, for thirty seconds after five failures and for good after
    twenty. The clock and [Util::hasElapsed] are not part of the repository: an
    operation takes what they answer as arguments. *)

From S2P Require Import Prelude Words.

Module Lockout.

Definition LOCKOUT_TIMED_THRESHOLD : Z := 5.
Definition LOCKOUT_TIMED_DURATION : Z := 30 * 1000.
Definition LOCKOUT_PERMANENT_THRESHOLD : Z := 20.

Inductive LockoutMode : Set := NONE | TIMED | PERMANENT.

#[export] Instance LockoutMode_eq_dec : EqDecision LockoutMode.
Proof. solve_decision. Defined.

Record LockoutTracker : Set := {
  mFailedCount : Z;          (* int32_t *)
  mLockoutTimedStart : Z;    (* int64_t *)
  mCurrentMode : LockoutMode
}.

#[export] Instance LockoutTracker_eq_dec : EqDecision LockoutTracker.
Proof. solve_decision. Defined.

(** A new tracker: only [mFailedCount] has an initialiser, the other two members hold
    whatever was there. *)
Definition tracker_init (start0 : Z) (mode0 : LockoutMode) : LockoutTracker :=
  {| mFailedCount := 0; mLockoutTimedStart := start0; mCurrentMode := mode0 |}.

Definition reset (clearAttemptCounter : bool) (t : LockoutTracker) : LockoutTracker :=
  {| mFailedCount := if clearAttemptCounter then 0 else mFailedCount t;
     mLockoutTimedStart := 0;
     mCurrentMode := NONE |}.

Definition addFailedAttempt (now : Z) (t : LockoutTracker) : LockoutTracker :=
  let count := i32 (mFailedCount t + 1) in
  if decide (LOCKOUT_PERMANENT_THRESHOLD ≤ count) then
    {| mFailedCount := count;
       mLockoutTimedStart := mLockoutTimedStart t;
       mCurrentMode := PERMANENT |}
  else if decide (LOCKOUT_TIMED_THRESHOLD ≤ count) then
    {| mFailedCount := count; mLockoutTimedStart := now; mCurrentMode := TIMED |}
  else
    {| mFailedCount := count;
       mLockoutTimedStart := mLockoutTimedStart t;
       mCurrentMode := mCurrentMode t |}.

(** The answer and the tracker after it: asking ends a timed lockout that has run out. *)
Definition getMode (hasElapsed : Z → Z → bool) (t : LockoutTracker)
    : LockoutMode * LockoutTracker :=
  let t' :=
    if decide (mCurrentMode t = TIMED) then
      if hasElapsed (mLockoutTimedStart t) LOCKOUT_TIMED_DURATION then
        {| mFailedCount := mFailedCount t;
           mLockoutTimedStart := 0;
           mCurrentMode := NONE |}
      else t
    else t in
  (mCurrentMode t', t').

(** In milliseconds; the division of signed integers truncates. *)
Definition getLockoutTimeLeft (now : Z) (t : LockoutTracker) : Z :=
  if decide (0 < mLockoutTimedStart t) then
    let elapsed := Z.quot (i64 (now - mLockoutTimedStart t)) 1000000 in
    i64 (LOCKOUT_TIMED_DURATION - elapsed)
  else 0.

(** ** Sequences of failed attempts *)

(** One failure after the other, at the given clock readings. *)
Definition attempts (nows : list Z) (t : LockoutTracker) : LockoutTracker :=
  foldl (λ t now, addFailedAttempt now t) t nows.

(** The policy the thresholds express: the mode [n] failures deserve. *)
Definition mode_for (n : Z) : LockoutMode :=
  if decide (LOCKOUT_PERMANENT_THRESHOLD ≤ n) then PERMANENT
  else if decide (LOCKOUT_TIMED_THRESHOLD ≤ n) then TIMED
  else NONE.

(** ** Lemmas *)

Lemma getMode_answer hasElapsed t : (getMode hasElapsed t).1 = mCurrentMode (getMode hasElapsed t).2.
Proof. done. Qed.

Lemma getMode_count hasElapsed t :
  mFailedCount (getMode hasElapsed t).2 = mFailedCount t.
Proof. unfold getMode. cases. Qed.

Lemma getMode_cases hasElapsed t :
  (getMode hasElapsed t).2 = t ∨
  (mCurrentMode t = TIMED ∧ (getMode hasElapsed t).1 = NONE).
Proof. unfold getMode. cases; auto. Qed.

Lemma getMode_timed hasElapsed t :
  mCurrentMode t = TIMED →
  getMode hasElapsed t =
  if hasElapsed (mLockoutTimedStart t) LOCKOUT_TIMED_DURATION
  then (NONE, reset false t) else (TIMED, t).
Proof. intros Hm. unfold getMode. rewrite decide_True by done. cases; congruence. Qed.

Lemma getMode_permanent hasElapsed t :
  (getMode hasElapsed t).1 = PERMANENT ↔ mCurrentMode t = PERMANENT.
Proof. unfold getMode. cases; intuition congruence. Qed.

Lemma addFailedAttempt_count now t :
  0 ≤ mFailedCount t < 2 ^ 31 - 1 →
  mFailedCount (addFailedAttempt now t) = mFailedCount t + 1.
Proof.
  intros Hc. unfold addFailedAttempt.
  rewrite (wrap_s_nonneg 32) by (cbn; lia). cases.
Qed.

Lemma addFailedAttempt_timed now t :
  LOCKOUT_TIMED_THRESHOLD ≤ i32 (mFailedCount t + 1) < LOCKOUT_PERMANENT_THRESHOLD →
  mCurrentMode (addFailedAttempt now t) = TIMED ∧
  mLockoutTimedStart (addFailedAttempt now t) = now.
Proof. unfold addFailedAttempt. intros. cases; lia. Qed.

(** The time left without the machine's wrap-around, for clock readings below 2^62. *)
Lemma getLockoutTimeLeft_exact now t :
  0 < mLockoutTimedStart t ≤ now → now < 2 ^ 62 →
  getLockoutTimeLeft now t = 30000 - (now - mLockoutTimedStart t) / 1000000.
Proof.
  intros Hs Hn. unfold getLockoutTimeLeft. rewrite decide_True by lia.
  change (2 ^ 62) with 4611686018427387904 in Hn.
  assert (Hr : ∀ x, - 9223372036854775808 ≤ x < 9223372036854775808 → i64 x = x)
    by (intros; by apply wrap_s_id).
  rewrite (Hr (now - _)) by lia. rewrite Z.quot_div_nonneg by lia.
  unfold LOCKOUT_TIMED_DURATION. rewrite Hr; [done|].
  pose proof (Z.div_pos (now - mLockoutTimedStart t) 1000000).
  pose proof (Z.div_le_upper_bound (now - mLockoutTimedStart t) 1000000
    4611686018427387904). lia.
Qed.

Lemma addFailedAttempt_permanent now t :
  mCurrentMode t = PERMANENT → 0 ≤ mFailedCount t →
  mFailedCount t < LOCKOUT_TIMED_THRESHOLD - 1 ∨
    LOCKOUT_PERMANENT_THRESHOLD - 1 ≤ mFailedCount t < 2 ^ 31 - 1 →
  mCurrentMode (addFailedAttempt now t) = PERMANENT.
Proof.
  unfold LOCKOUT_TIMED_THRESHOLD, LOCKOUT_PERMANENT_THRESHOLD. intros Hm H0 Hc.
  unfold addFailedAttempt, LOCKOUT_TIMED_THRESHOLD, LOCKOUT_PERMANENT_THRESHOLD.
  rewrite (wrap_s_nonneg 32) by (cbn; lia). cases. lia.
Qed.

Lemma getMode_standing hasElapsed t :
  (∀ s d, hasElapsed s d = false) → getMode hasElapsed t = (mCurrentMode t, t).
Proof. intros He. unfold getMode. rewrite He. by destruct (decide _). Qed.

Lemma getMode_run hasElapsed t :
  let past := bool_decide (mCurrentMode t = TIMED) &&
              hasElapsed (mLockoutTimedStart t) LOCKOUT_TIMED_DURATION in
  let mode := if past then NONE else mCurrentMode t in
  getMode hasElapsed t
  = (mode, {| mFailedCount := mFailedCount t;
              mLockoutTimedStart := if past then 0 else mLockoutTimedStart t;
              mCurrentMode := mode |}).
Proof.
  cbv zeta. unfold getMode. case_decide; case_bool_decide; try done; cbn; [|by destruct t].
  destruct (hasElapsed _ _); [done|by destruct t].
Qed.

(** One failure, whatever the tracker holds. *)
Lemma addFailedAttempt_run now t : 0 ≤ mFailedCount t < 2 ^ 31 - 1 →
  addFailedAttempt now t =
  {| mFailedCount := mFailedCount t + 1;
     mLockoutTimedStart := match mode_for (mFailedCount t + 1) with
                           | TIMED => now | _ => mLockoutTimedStart t end;
     mCurrentMode := match mode_for (mFailedCount t + 1) with
                     | NONE => mCurrentMode t | m => m end |}.
Proof.
  intros Hc. unfold addFailedAttempt. rewrite (wrap_s_nonneg 32) by (cbn; lia).
  unfold mode_for. by repeat case_decide.
Qed.

(** One failure moves a tracker that follows the policy one step along it. *)
Lemma addFailedAttempt_mode now t :
  0 ≤ mFailedCount t < 2 ^ 31 - 1 → mCurrentMode t = mode_for (mFailedCount t) →
  mFailedCount (addFailedAttempt now t) = mFailedCount t + 1 ∧
  mCurrentMode (addFailedAttempt now t) = mode_for (mFailedCount t + 1) ∧
  (mode_for (mFailedCount t + 1) = TIMED →
   mLockoutTimedStart (addFailedAttempt now t) = now).
Proof.
  intros Hc Hm. split; [by apply addFailedAttempt_count|].
  unfold addFailedAttempt. rewrite (wrap_s_nonneg 32), Hm by (cbn; lia).
  unfold mode_for, LOCKOUT_PERMANENT_THRESHOLD, LOCKOUT_TIMED_THRESHOLD.
  cases; try lia; split; intros; cases; lia.
Qed.

Lemma attempts_snoc nows now t :
  attempts (nows ++ [now]) t = addFailedAttempt now (attempts nows t).
Proof. unfold attempts. by rewrite foldl_app. Qed.

Lemma attempts_count nows t :
  0 ≤ mFailedCount t → mFailedCount t + Z.of_nat (length nows) < 2 ^ 31 →
  mFailedCount (attempts nows t) = mFailedCount t + Z.of_nat (length nows).
Proof.
  intros H0. induction nows as [|now nows IH] using rev_ind; [cbn; lia|].
  rewrite attempts_snoc, length_app, Nat2Z.inj_add. cbn [length]. intros Hlt.
  specialize (IH ltac:(lia)). rewrite addFailedAttempt_count; lia.
Qed.

Lemma attempts_mode_lemma nows t :
  Z.of_nat (length nows) < 2 ^ 31 →
  mFailedCount (attempts nows (reset true t)) = Z.of_nat (length nows) ∧
  mCurrentMode (attempts nows (reset true t)) = mode_for (Z.of_nat (length nows)).
Proof.
  induction nows as [|now nows IH] using rev_ind; [done|].
  rewrite attempts_snoc, length_app, Nat2Z.inj_add. cbn [length]. intros Hlt.
  destruct IH as [Hc Hm]; [lia|].
  unfold addFailedAttempt. rewrite Hc, Hm, (wrap_s_nonneg 32) by (cbn; lia).
  unfold mode_for, LOCKOUT_PERMANENT_THRESHOLD, LOCKOUT_TIMED_THRESHOLD in *.
  cases; lia.
Qed.

(** C28: from a cleared tracker, whatever its uninitialised members held, any number of
    failures below 2^31 leaves exactly that count and the mode the two thresholds
    prescribe: none below five, timed from five, permanent from twenty. *)
Theorem failures_prescribe_mode nows t :
  Z.of_nat (length nows) < 2 ^ 31 →
  let t' := attempts nows (reset true t) in
  mFailedCount t' = Z.of_nat (length nows) ∧
  (mCurrentMode t' = NONE ↔ Z.of_nat (length nows) < 5) ∧
  (mCurrentMode t' = TIMED ↔ 5 ≤ Z.of_nat (length nows) < 20) ∧
  (mCurrentMode t' = PERMANENT ↔ 20 ≤ Z.of_nat (length nows)).
Proof.
  intros Hlt. cbv zeta. destruct (attempts_mode_lemma nows t Hlt) as [-> ->].
  unfold mode_for, LOCKOUT_PERMANENT_THRESHOLD, LOCKOUT_TIMED_THRESHOLD.
  cases; repeat split; intros; try done; lia.
Qed.

Example failures_prescribe_mode_witness :
  let t' := attempts (replicate 7 1000) (reset true (tracker_init 77 PERMANENT)) in
  mFailedCount t' = 7 ∧ mCurrentMode t' = TIMED.
Proof.
  destruct (failures_prescribe_mode (replicate 7 1000) (tracker_init 77 PERMANENT))
    as (Hc & _ & Ht & _); [vm_compute; reflexivity|].
  split; [exact Hc|]. apply Ht. vm_compute. split; [discriminate|reflexivity].
Defined.

(** the thirty-second window. Take a failure at time [now0] that brings the count
    to at least five and below twenty, and ask at a later time [now], with a
    [hasElapsed] that compares whole milliseconds. The lockout still stands exactly
    while at most 30000 of them have passed, and the time reported left is then what is
    missing of them, between 0 and 30000; once they have passed the lockout is over and
    no time is left. *)
Theorem timed_lockout_window hasElapsed t now0 now :
  LOCKOUT_TIMED_THRESHOLD ≤ i32 (mFailedCount t + 1) < LOCKOUT_PERMANENT_THRESHOLD →
  0 < now0 ≤ now → now < 2 ^ 62 →
  (∀ s d, 0 ≤ s ≤ now → hasElapsed s d = bool_decide (d < (now - s) / 1000000)) →
  let passed := (now - now0) / 1000000 in
  let (mode, t1) := getMode hasElapsed (addFailedAttempt now0 t) in
  (passed ≤ 30000 → mode = TIMED ∧ getLockoutTimeLeft now t1 = 30000 - passed ∧
     0 ≤ getLockoutTimeLeft now t1 ≤ 30000) ∧
  (30000 < passed → mode = NONE ∧ mCurrentMode t1 = NONE ∧
     getLockoutTimeLeft now t1 = 0).
Proof.
  intros Hc H0 Hn He. cbv zeta.
  destruct (addFailedAttempt_timed now0 t Hc) as [Hm Hs].
  rewrite getMode_timed, Hs, He by (done || lia). unfold LOCKOUT_TIMED_DURATION.
  pose proof (Z.div_pos (now - now0) 1000000).
  case_bool_decide as Hd; split; intros Hp; try lia; [done|].
  split; [done|]. rewrite getLockoutTimeLeft_exact, Hs by (rewrite ?Hs; lia). lia.
Qed.

Example timed_lockout_window_witness :
  let t := {| mFailedCount := 4; mLockoutTimedStart := 0; mCurrentMode := NONE |} in
  (getMode (λ s d, bool_decide (d < (12000000000 - s) / 1000000))
     (addFailedAttempt 2000000000 t)).1 = TIMED ∧
  getLockoutTimeLeft 12000000000 (addFailedAttempt 2000000000 t) = 20000.
Proof.
  pose proof (timed_lockout_window (λ s d, bool_decide (d < (12000000000 - s) / 1000000))
    {| mFailedCount := 4; mLockoutTimedStart := 0; mCurrentMode := NONE |}
    2000000000 12000000000) as H.
  destruct H as [H _]; [vm_compute; split; congruence|lia|vm_compute; congruence|done|].
  destruct H as (_ & H & _); [vm_compute; congruence|].
  split; [vm_compute; reflexivity|exact H].
Defined.

End Lockout.
