(* ===== verification/Token.v ===== *)
(** * Authentication tokens

    [fingerprint/include/Legacy2Aidl.h]: the two [translate] functions between the
    keymaster parcelable and the packed structure of the legacy HAL, whose type and
    timestamp are in network byte order. The target is little-endian, so [htobe32] and
    its relatives reverse the bytes. The length of the packed structure's [hmac] array
    comes from a platform header: it is the length of the list in the destination. *)

From S2P Require Import Prelude Words.

Module Token.

(** The keymaster parcelable: signed fields, a vector for the code. *)
Record HardwareAuthToken : Set := {
  challenge : Z;              (* int64_t *)
  userId : Z;                 (* int64_t *)
  authenticatorId : Z;        (* int64_t *)
  authenticatorType : Z;      (* enum over int32_t *)
  milliSeconds : Z;           (* timestamp, int64_t *)
  mac : list Z                (* std::vector<uint8_t> *)
}.

(** The packed structure: unsigned fields, an array for the code. *)
Record hw_auth_token_t : Set := {
  hw_challenge : Z;           (* uint64_t *)
  hw_user_id : Z;             (* uint64_t *)
  hw_authenticator_id : Z;    (* uint64_t *)
  hw_authenticator_type : Z;  (* uint32_t, network order *)
  hw_timestamp : Z;           (* uint64_t, network order *)
  hw_hmac : list Z            (* uint8_t[] *)
}.

#[export] Instance HardwareAuthToken_eq_dec : EqDecision HardwareAuthToken.
Proof. solve_decision. Defined.
#[export] Instance hw_auth_token_eq_dec : EqDecision hw_auth_token_t.
Proof. solve_decision. Defined.

Definition htobe32 (x : Z) : Z := bswap 4 (u32 x).
Definition htobe64 (x : Z) : Z := bswap 8 (u64 x).
Definition be32toh (x : Z) : Z := bswap 4 x.
Definition be64toh (x : Z) : Z := bswap 8 x.

#[global] Arguments htobe32 : simpl never.
#[global] Arguments htobe64 : simpl never.
#[global] Arguments be32toh : simpl never.
#[global] Arguments be64toh : simpl never.

(** [translate(const HardwareAuthToken&, hw_auth_token_t&)]: [std::copy] writes as many
    bytes as the vector holds over the array, whatever the array's length. *)
Definition translate (authToken : HardwareAuthToken) (hat : hw_auth_token_t)
    : outcome hw_auth_token_t :=
  if decide (length (mac authToken) ≤ length (hw_hmac hat))%nat then
    Done {| hw_challenge := u64 (challenge authToken);
            hw_user_id := u64 (userId authToken);
            hw_authenticator_id := u64 (authenticatorId authToken);
            hw_authenticator_type := htobe32 (u32 (authenticatorType authToken));
            hw_timestamp := htobe64 (milliSeconds authToken);
            hw_hmac := mac authToken ++ drop (length (mac authToken)) (hw_hmac hat) |}
  else Fault OutOfBounds.

(** [translate(const hw_auth_token_t&, HardwareAuthToken&)]: the array is inserted at the
    front of the vector. *)
Definition translate_back (hat : hw_auth_token_t) (authToken : HardwareAuthToken)
    : HardwareAuthToken :=
  {| challenge := i64 (hw_challenge hat);
     userId := i64 (hw_user_id hat);
     authenticatorId := i64 (hw_authenticator_id hat);
     authenticatorType := i32 (be32toh (hw_authenticator_type hat));
     milliSeconds := i64 (be64toh (hw_timestamp hat));
     mac := hw_hmac hat ++ mac authToken |}.

(** A default-constructed parcelable. *)
Definition HardwareAuthToken_default : HardwareAuthToken :=
  {| challenge := 0; userId := 0; authenticatorId := 0; authenticatorType := 0;
     milliSeconds := 0; mac := [] |}.

(** ** Well-formed values: every field in the range of its type *)
Definition token_wf (t : HardwareAuthToken) : Prop :=
  in_s 64 (challenge t) ∧ in_s 64 (userId t) ∧ in_s 64 (authenticatorId t) ∧
  in_s 32 (authenticatorType t) ∧ in_s 64 (milliSeconds t).

Definition hw_token_wf (t : hw_auth_token_t) : Prop :=
  in_u 64 (hw_challenge t) ∧ in_u 64 (hw_user_id t) ∧ in_u 64 (hw_authenticator_id t) ∧
  in_u 32 (hw_authenticator_type t) ∧ in_u 64 (hw_timestamp t).

(** ** Lemmas *)

Lemma htobe32_be32toh x : in_u 32 x → htobe32 (be32toh x) = x.
Proof.
  intros Hx. unfold htobe32, be32toh. rewrite wrap_u_id; [by apply bswap_bswap|].
  apply (bswap_range 4).
Qed.

Lemma be32toh_htobe32 x : be32toh (htobe32 x) = u32 x.
Proof. unfold htobe32, be32toh. apply bswap_bswap, (wrap_u_range 32). lia. Qed.

Lemma htobe64_be64toh x : in_u 64 x → htobe64 (be64toh x) = x.
Proof.
  intros Hx. unfold htobe64, be64toh. rewrite wrap_u_id; [by apply bswap_bswap|].
  apply (bswap_range 8).
Qed.

Lemma be64toh_htobe64 x : be64toh (htobe64 x) = u64 x.
Proof. unfold htobe64, be64toh. apply bswap_bswap, (wrap_u_range 64). lia. Qed.

(** C14: translating a parcelable and back gives the parcelable, when its code fills the
    array exactly; the destination's old contents do not matter. *)
Theorem translate_roundtrip t hat :
  token_wf t → length (mac t) = length (hw_hmac hat) →
  ∃ hat', translate t hat = Done hat' ∧
    translate_back hat' HardwareAuthToken_default = t.
Proof.
  intros (Hc & Hu & Ha & Hty & Hts) Hl. unfold translate. rewrite decide_True by lia.
  eexists; split; [done|]. rewrite drop_ge, app_nil_r by lia.
  destruct t; unfold translate_back; cbn in *. rewrite app_nil_r. f_equal.
  - by rewrite wrap_s_u.
  - by rewrite wrap_s_u.
  - by rewrite wrap_s_u.
  - rewrite be32toh_htobe32, wrap_u_id by (lia || apply wrap_u_range; lia).
    by rewrite wrap_s_u.
  - by rewrite be64toh_htobe64, wrap_s_u.
Qed.

Example translate_roundtrip_witness :
  ∃ hat', translate
    {| challenge := -5; userId := 10; authenticatorId := 2 ^ 62; authenticatorType := 2;
       milliSeconds := 123456789; mac := replicate 32 171 |}
    {| hw_challenge := 1; hw_user_id := 1; hw_authenticator_id := 1;
       hw_authenticator_type := 1; hw_timestamp := 1; hw_hmac := replicate 32 0 |}
    = Done hat' ∧
    hw_timestamp hat' = 1571011930645069824 ∧
    mac (translate_back hat' HardwareAuthToken_default) = replicate 32 171.
Proof.
  edestruct (translate_roundtrip
    {| challenge := -5; userId := 10; authenticatorId := 2 ^ 62; authenticatorType := 2;
       milliSeconds := 123456789; mac := replicate 32 171 |}
    {| hw_challenge := 1; hw_user_id := 1; hw_authenticator_id := 1;
       hw_authenticator_type := 1; hw_timestamp := 1; hw_hmac := replicate 32 0 |})
    as (hat' & Ht & Hb).
  - repeat split; vm_compute; congruence.
  - reflexivity.
  - exists hat'. split; [exact Ht|]. split; [|rewrite Hb; reflexivity].
    vm_compute in Ht. injection Ht as <-. vm_compute. reflexivity.
Defined.

(** the other way round, every packed structure with fields in range survives the
    trip through the parcelable. *)
Theorem translate_back_roundtrip hat old :
  hw_token_wf hat → length (hw_hmac old) = length (hw_hmac hat) →
  translate (translate_back hat HardwareAuthToken_default) old = Done hat.
Proof.
  intros (Hc & Hu & Ha & Hty & Hts) Hl. unfold translate, translate_back. cbn [mac].
  rewrite app_nil_r, decide_True by (cbn; lia). f_equal.
  destruct hat; cbn in *. rewrite drop_ge, app_nil_r by (cbn; lia). f_equal.
  - by rewrite wrap_u_s.
  - by rewrite wrap_u_s.
  - by rewrite wrap_u_s.
  - unfold be32toh. rewrite wrap_u_s by (lia || apply (bswap_range 4)).
    by apply htobe32_be32toh.
  - unfold htobe64, be64toh. rewrite wrap_u_s by (lia || apply (bswap_range 8)).
    by apply bswap_bswap.
Qed.

Example translate_back_roundtrip_witness :
  let hat := {| hw_challenge := 2 ^ 63; hw_user_id := 10; hw_authenticator_id := 3;
    hw_authenticator_type := 33554432; hw_timestamp := 1571436461531136000;
    hw_hmac := [1; 2; 3] |} in
  translate (translate_back hat HardwareAuthToken_default) hat = Done hat ∧
  authenticatorType (translate_back hat HardwareAuthToken_default) = 2.
Proof.
  split; [|vm_compute; reflexivity].
  apply translate_back_roundtrip; [|reflexivity].
  repeat split; vm_compute; congruence.
Defined.

(** the copy of the code is not bounded by the array: a longer vector is written past
    its end, a shorter one leaves the tail of the array as it was. *)
Theorem translate_mac_bounds t hat :
  (translate t hat = Fault OutOfBounds ↔ (length (hw_hmac hat) < length (mac t))%nat) ∧
  (∀ hat', translate t hat = Done hat' →
    length (hw_hmac hat') = length (hw_hmac hat) ∧
    ∀ i, (length (mac t) ≤ i)%nat → hw_hmac hat' !! i = hw_hmac hat !! i).
Proof.
  unfold translate. case_decide as Hd; split.
  - split; [done|lia].
  - intros hat' [= <-]; cbn. rewrite length_app, length_drop. split; [lia|].
    intros i Hi. rewrite lookup_app_r, lookup_drop by lia. f_equal. lia.
  - split; [lia|done].
  - done.
Qed.

End Token.
