(* ===== verification/Udfps.v ===== *)
(** * UdfpsHandler

    [fingerprint/UdfpsHandler.cpp]: tells the sensor that the finger is down once the
    panel lights it, from a worker thread that polls a sysfs node, and that it is up
    again at once. Every member is guarded by one mutex, so the client calls and the
    sections of [run] between two waits are atomic; a run of the whole object is a
    sequence of such steps in any order. *)

From S2P Require Import Prelude Words Text.

Module Udfps.

Record UdfpsHandler : Set := {
  mStopped : bool;
  mFingerDown : bool;
  mPending : bool;
  mRequestId : Z            (* uint64_t *)
}.

#[export] Instance UdfpsHandler_eq_dec : EqDecision UdfpsHandler.
Proof. solve_decision. Defined.

Definition UdfpsHandler_init : UdfpsHandler :=
  {| mStopped := false; mFingerDown := false; mPending := false; mRequestId := 0 |}.

(** An operation answers the arguments it calls [mSetFingerDown] with, in order. *)
Definition onUiReady (waitForIllumination : bool) (h : UdfpsHandler)
    : list bool * UdfpsHandler :=
  if mFingerDown h then ([], h)
  else
    let requestId := u64 (mRequestId h + 1) in
    if waitForIllumination then
      ([], {| mStopped := mStopped h; mFingerDown := true; mPending := true;
              mRequestId := requestId |})
    else
      ([true], {| mStopped := mStopped h; mFingerDown := true; mPending := mPending h;
                  mRequestId := requestId |}).

Definition onFingerUp (h : UdfpsHandler) : list bool * UdfpsHandler :=
  ([false], {| mStopped := mStopped h; mFingerDown := false; mPending := false;
               mRequestId := u64 (mRequestId h + 1) |}).

(** What the destructor does before it joins the thread. *)
Definition stop (h : UdfpsHandler) : UdfpsHandler :=
  {| mStopped := true; mFingerDown := mFingerDown h; mPending := mPending h;
     mRequestId := mRequestId h |}.

Definition clear_pending (h : UdfpsHandler) : UdfpsHandler :=
  {| mStopped := mStopped h; mFingerDown := mFingerDown h; mPending := false;
     mRequestId := mRequestId h |}.

(** ** The worker thread *)

(** Where [run] has released the lock: in [wait], in [wait_for] with the locals of the
    polling loop, or returned. *)
Inductive worker : Set :=
| Waiting
| Polling (deadline requestId : Z)
| Exited.

#[export] Instance worker_eq_dec : EqDecision worker.
Proof. solve_decision. Defined.

Definition state : Set := worker * UdfpsHandler.

(** What one section of [run] observes: the clock where the deadline is set, the text of
    the node ([None] when it cannot be opened), the clock after the read. Nanoseconds. *)
Record observation : Set := {
  started : Z;
  node : option string;
  checked : Z
}.

Definition POLL_TIMEOUT : Z := 500000000.
Definition POLL_INTERVAL : Z := 10000000.

(** The body of the polling loop, entered with its condition true. After each of the
    three breaks nothing is pending, so the outer loop goes back to [wait]. *)
Definition poll_body (o : observation) (deadline requestId : Z) (h : UdfpsHandler)
    : list bool * state :=
  match node o ≫= istream_int with
  | None => ([], (Waiting, clear_pending h))
  | Some ready =>
      if decide (ready = 1) then ([true], (Waiting, clear_pending h))
      else if decide (deadline ≤ checked o) then ([], (Waiting, clear_pending h))
      else ([], (Polling deadline requestId, h))
  end.

(** The head of the outer loop and the predicate of its [wait]. *)
Definition outer_head (o : observation) (h : UdfpsHandler)
    : list bool * state :=
  if mStopped h then ([], (Exited, h))
  else if mPending h then poll_body o (started o + POLL_TIMEOUT) (mRequestId h) h
  else ([], (Waiting, h)).

(** From one release of the lock to the next. *)
Definition run (o : observation) (p : worker) (h : UdfpsHandler)
    : list bool * state :=
  match p with
  | Waiting => outer_head o h
  | Polling deadline requestId =>
      if negb (mStopped h) && mPending h && bool_decide (requestId = mRequestId h)
      then poll_body o deadline requestId h
      else outer_head o h
  | Exited => ([], (Exited, h))
  end.

(** ** Runs of the object *)

Inductive event : Set :=
| UiReady (waitForIllumination : bool)
| FingerUp
| Stop
| Worker (o : observation).

Definition init : state := (Waiting, UdfpsHandler_init).

Definition exec (e : event) (s : state) : list bool * state :=
  let (p, h) := s in
  match e with
  | UiReady b => let (cs, h') := onUiReady b h in (cs, (p, h'))
  | FingerUp => let (cs, h') := onFingerUp h in (cs, (p, h'))
  | Stop => ([], (p, stop h))
  | Worker o => run o p h
  end.

(** The commands each event sends, and the state after them all. *)
Fixpoint execs (es : list event) (s : state) : list (list bool) * state :=
  match es with
  | [] => ([], s)
  | e :: es' =>
      let (cs, s') := exec e s in
      let (css, s'') := execs es' s' in (cs :: css, s'')
  end.

(** ** The promise

    What the sensor may be told, forgetting threads, clocks and request numbers. *)
Inductive finger : Set := Up | Awaited | Pressed | Abandoned.

Inductive spec_step : finger → event → list bool → finger → Prop :=
| spec_lit : spec_step Up (UiReady false) [true] Pressed
| spec_await : spec_step Up (UiReady true) [] Awaited
| spec_already f b : f ≠ Up → spec_step f (UiReady b) [] f
| spec_up f : spec_step f FingerUp [false] Up
| spec_seen o : spec_step Awaited (Worker o) [true] Pressed
| spec_give_up o : spec_step Awaited (Worker o) [] Abandoned
| spec_idle f e : (∀ b, e ≠ UiReady b) → e ≠ FingerUp → spec_step f e [] f.

Inductive spec_run : finger → list event → list (list bool) → finger → Prop :=
| spec_done f : spec_run f [] [] f
| spec_more f e cs f' es css f'' :
    spec_step f e cs f' → spec_run f' es css f'' →
    spec_run f (e :: es) (cs :: css) f''.

(** Which promise a state of the object is in. *)
Definition simulates (h : UdfpsHandler) (f : finger) : Prop :=
  match f with
  | Up => mFingerDown h = false ∧ mPending h = false
  | Awaited => mFingerDown h = true ∧ mPending h = true
  | Pressed | Abandoned => mFingerDown h = true ∧ mPending h = false
  end.

(** ** Lemmas *)

Lemma execs_app es1 es2 s :
  execs (es1 ++ es2) s =
  ((execs es1 s).1 ++ (execs es2 (execs es1 s).2).1, (execs es2 (execs es1 s).2).2).
Proof.
  revert s. induction es1 as [|e es1 IH]; intros s; cbn.
  { by destruct (execs es2 s). }
  destruct (exec e s) as [cs s']. rewrite IH. by destruct (execs es1 s').
Qed.

Lemma execs_cons e es s :
  execs (e :: es) s = ((exec e s).1 :: (execs es (exec e s).2).1, (execs es (exec e s).2).2).
Proof. cbn. destruct (exec e s) as [cs s']. cbn. by destruct (execs es s'). Qed.

Lemma poll_body_cases o d r h :
  (poll_body o d r h = ([true], (Waiting, clear_pending h)) ∧ node o ≫= istream_int = Some 1) ∨
  poll_body o d r h = ([], (Waiting, clear_pending h)) ∨
  (poll_body o d r h = ([], (Polling d r, h)) ∧ checked o < d).
Proof. unfold poll_body. cases; auto. right; right. split; [done|lia]. Qed.

(** A section of [run] either leaves the object alone or ends the request, and only the
    latter sends anything. *)
Lemma run_cases o p h :
  ((run o p h).1 = [] ∧ (run o p h).2.2 = h) ∨
  (mPending h = true ∧ (run o p h).2.2 = clear_pending h ∧
    ((run o p h).1 = [true] ∨ (run o p h).1 = [])).
Proof.
  unfold run, outer_head. destruct p as [|d r|]; cases; try (by left);
    match goal with |- context [poll_body ?o ?d ?r ?h] =>
      destruct (poll_body_cases o d r h) as [[-> _]|[->|[-> _]]] end; cbn;
    try (by left); right; split_and!; auto; try done.
  all: by destruct (mStopped h), (mPending h).
Qed.

Lemma simulates_step h f e p :
  simulates h f →
  ∃ f', spec_step f e (exec e (p, h)).1 f' ∧ simulates (exec e (p, h)).2.2 f'.
Proof.
  intros Hs. destruct e as [b| | |o]; cbn [exec].
  - unfold onUiReady. destruct (mFingerDown h) eqn:Hd; cbn.
    + exists f. split; [|done]. apply spec_already. intros ->. by destruct Hs; congruence.
    + assert (f = Up ∧ mPending h = false) as [-> Hp]
        by (destruct f; destruct Hs; split; congruence).
      destruct b; cbn; [exists Awaited|exists Pressed]; (split; [by constructor|done]).
  - exists Up. split; [by constructor|done].
  - exists f. split; [by apply spec_idle|]. by destruct f.
  - destruct (run_cases o p h) as [[-> ->]|(Hp & -> & Hc)].
    + exists f. split; [by apply spec_idle|done].
    + assert (f = Awaited ∧ mFingerDown h = true) as [-> Hd]
        by (destruct f; destruct Hs; split; congruence).
      destruct Hc as [-> | ->]; [exists Pressed|exists Abandoned];
        (split; [by constructor|done]).
Qed.

Lemma simulates_execs es s f :
  simulates s.2 f →
  ∃ f', spec_run f es (execs es s).1 f' ∧ simulates (execs es s).2.2 f'.
Proof.
  revert s f. induction es as [|e es IH]; intros s f Hs.
  { exists f. split; [constructor|done]. }
  rewrite execs_cons. cbn [fst snd]. destruct s as [p h].
  destruct (simulates_step h f e p Hs) as (f1 & Hst & Hs1).
  destruct (IH (exec e (p, h)).2 f1 Hs1) as (f2 & Hr & Hs2).
  exists f2. split; [by econstructor|done].
Qed.

Lemma spec_run_quiet f es css f' :
  spec_run f es css f' → (∀ b, UiReady b ∉ es) → f ≠ Awaited →
  Forall (Forall (λ c, c = false)) css.
Proof.
  induction 1 as [|f e cs f1 es css f2 Hst Hr IH]; intros Hn Hf; constructor.
  - inversion Hst; subst; repeat constructor; try done.
    exfalso. apply (Hn false), elem_of_cons. by left.
  - apply IH; [intros b Hb; apply (Hn b), elem_of_cons; by right|].
    inversion Hst; subst; try done.
    exfalso. apply (Hn true), elem_of_cons. by left.
Qed.

(** No two presses in a row, whatever came before the run. *)
Fixpoint no_double (prev : bool) (cs : list bool) : Prop :=
  match cs with
  | [] => True
  | c :: cs' => ¬ (prev = true ∧ c = true) ∧ no_double c cs'
  end.

Definition is_down (f : finger) : bool :=
  match f with Pressed => true | _ => false end.

Lemma no_double_weaken cs : no_double true cs → no_double false cs.
Proof. destruct cs; cbn; naive_solver. Qed.

Lemma spec_run_alternates f es css f' prev :
  spec_run f es css f' → (prev = true → f = Pressed ∨ f = Abandoned) →
  no_double prev (concat css).
Proof.
  intros Hr. revert prev. induction Hr as [|f e cs f1 es css f2 Hst Hr IH];
    intros prev Hp; cbn; [done|].
  inversion Hst; subst; cbn; try (apply IH; naive_solver).
  all: split; [naive_solver|apply IH; naive_solver].
Qed.

Lemma no_double_lookup prev cs i :
  no_double prev cs → cs !! i = Some true → cs !! S i ≠ Some true.
Proof.
  revert prev i. induction cs as [|c cs IH]; intros prev [|i]; cbn; try done.
  - intros [_ H] [= ->]. destruct cs as [|c' cs]; [done|]. cbn in *.
    intros [= ->]. naive_solver.
  - intros [_ H]. by eapply IH.
Qed.

(** Without a request pending the worker has nothing to do until it is told to stop. *)
Lemma worker_quiet os p h :
  mPending h = false →
  Forall (λ cs, cs = []) (execs (Worker <$> os) (p, h)).1 ∧
  mPending (execs (Worker <$> os) (p, h)).2.2 = false.
Proof.
  revert p h. induction os as [|o os IH]; intros p h Hp; [done|].
  cbn [fmap list_fmap]. rewrite execs_cons. cbn [exec fst snd].
  destruct (run_cases o p h) as [[Hc Hh]|(Hp' & _)]; [|congruence].
  destruct (run o p h) as [cs [p' h']] eqn:Hr; cbn in *; subst.
  destruct (IH p' h Hp) as [H1 H2]. by repeat constructor.
Qed.

(** Polling with the current request ends at the latest at the first section whose clock
    has passed the deadline. *)
Lemma polling_ends os d h i o :
  mStopped h = false → mPending h = true → os !! i = Some o → d ≤ checked o →
  mPending (execs (Worker <$> os) (Polling d (mRequestId h), h)).2.2 = false.
Proof.
  intros Hs Hp. revert i. induction os as [|o' os IH]; intros i Hi Hd; [done|].
  cbn [fmap list_fmap]. rewrite execs_cons. cbn [exec fst snd run].
  rewrite Hs, Hp, bool_decide_true by done. cbn [negb andb].
  destruct (poll_body_cases o' d (mRequestId h) h) as [[-> _]|[->|[-> Hlt]]];
    cbn [fst snd]; try (apply worker_quiet; done).
  destruct i as [|i]; cbn in Hi; [simplify_eq; lia|]. by apply (IH i).
Qed.

(** ** Claims *)

(** refinement. Whatever the clients do and however the worker is scheduled, timed
    and served by the node, the commands sent to the sensor are those of the promise:
    pressed once when the panel is (or becomes) lit after the interface is ready,
    released at once on finger up, and nothing else. *)
Theorem handler_refines_promise es :
  ∃ f, spec_run Up es (execs es init).1 f ∧ simulates (execs es init).2.2 f.
Proof. by apply simulates_execs. Qed.

(** a release is final. After a finger up, and until the interface is ready again, no
    event makes the handler press: a poll that was under way when the finger left is
    harmless. *)
Theorem finger_up_is_final pre post :
  (∀ b, UiReady b ∉ post) →
  Forall (Forall (λ c, c = false)) (execs post (exec FingerUp (execs pre init).2).2).1.
Proof.
  intros Hn. destruct (execs pre init).2 as [p h].
  edestruct (simulates_execs post (exec FingerUp (p, h)).2 Up) as (f & Hr & _); [done|].
  by eapply spec_run_quiet.
Qed.

Example finger_up_is_final_witness :
  let o := {| started := 0; node := Some "1"%string; checked := 5 |} in
  Forall (Forall (λ c, c = false))
    (execs [Worker o; FingerUp; Worker o] (exec FingerUp (execs [UiReady true] init).2).2).1.
Proof.
  apply (finger_up_is_final [UiReady true]). intros b Hb.
  repeat (apply elem_of_cons in Hb as [Hb|Hb]; [discriminate|]).
  by apply elem_of_nil in Hb.
Defined.

(** the sensor is never told twice in a row that the finger is down. *)
Theorem never_pressed_twice es i :
  concat (execs es init).1 !! i = Some true →
  concat (execs es init).1 !! S i ≠ Some true.
Proof.
  destruct (simulates_execs es init Up) as (f & Hr & _); [done|].
  eapply (no_double_lookup false), spec_run_alternates; [done|]. done.
Qed.

Example never_pressed_twice_witness :
  let o := {| started := 0; node := Some "1"%string; checked := 5 |} in
  let es := [UiReady true; Worker o; UiReady false; FingerUp; UiReady false] in
  concat (execs es init).1 = [true; false; true] ∧
  concat (execs es init).1 !! 1%nat ≠ Some true.
Proof.
  split; [vm_compute; reflexivity|].
  apply (never_pressed_twice _ 0). vm_compute. reflexivity.
Defined.

(** a request is settled within 51 sections of the worker. Let a request be pending
    when the worker, not told to stop and not past its [return], runs undisturbed: its
    first section at [started o], any stale poll set up before that, and every further
    section at least one polling interval after the one before. After 51 sections the
    request is no longer pending, whatever the node held. *)
Theorem request_settles o os p h :
  mStopped h = false → mPending h = true → p ≠ Exited →
  (∀ d r, p = Polling d r → d ≤ started o + POLL_TIMEOUT) →
  (∀ i o', (o :: os) !! i = Some o' → started o + Z.of_nat i * POLL_INTERVAL ≤ checked o') →
  length (o :: os) = 51%nat →
  mPending (execs (Worker <$> o :: os) (p, h)).2.2 = false.
Proof.
  intros Hs Hp Hx Hd Ht Hl.
  destruct (lookup_lt_is_Some_2 (o :: os) 50) as [o' Ho']; [lia|].
  pose proof (Ht _ _ Ho') as Hlate. cbn in Ho', Hl.
  unfold POLL_INTERVAL, POLL_TIMEOUT in *.
  cbn [fmap list_fmap]. rewrite execs_cons. cbn [exec fst snd].
  assert (∃ d, d ≤ started o + 500000000 ∧ run o p h = poll_body o d (mRequestId h) h)
    as (d & Hdle & ->).
  { unfold run, outer_head, POLL_TIMEOUT. rewrite Hs, Hp. cbn [negb andb].
    destruct p as [|d r|]; [|case_bool_decide as Hr|done]; try (by eexists; split; [|done]; lia).
    subst r. exists d. split; [by eapply Hd|done]. }
  destruct (poll_body_cases o d (mRequestId h) h) as [[-> _]|[->|[-> _]]];
    cbn [fst snd]; try (apply worker_quiet; done).
  apply (polling_ends _ _ _ 49 o'); try done. lia.
Qed.

Example request_settles_witness :
  let o i := {| started := 1000; node := Some "0"%string;
                checked := 1000 + Z.of_nat i * POLL_INTERVAL |} in
  let s := (execs [UiReady true] init).2 in
  mPending s.2 = true ∧
  mPending (execs (Worker <$> o 0%nat :: (o <$> seq 1 50)) s).2.2 = false.
Proof.
  cbv zeta. split; [vm_compute; reflexivity|].
  apply (request_settles {| started := 1000; node := Some "0"%string; checked := 1000 |}
    _ Waiting).
  - vm_compute; reflexivity.
  - vm_compute; reflexivity.
  - discriminate.
  - discriminate.
  - intros [|i] o'; [intros [= <-]; vm_compute; congruence|].
    rewrite lookup_cons_Some. intros [[? _]|[_ Hi]]; [lia|].
    apply list_lookup_fmap_Some in Hi as (j & -> & Hj).
    apply lookup_seq in Hj as [-> _]. cbn [started checked]. unfold POLL_INTERVAL. lia.
  - vm_compute; reflexivity.
Defined.

(** the destructor's join returns. Once the object is told to stop, the next section
    of the worker, wherever it was, sends nothing and is its last. *)
Theorem stop_joins o p h :
  run o p (stop h) = ([], (Exited, stop h)).
Proof. by destruct p. Qed.

End Udfps.
