(* ===== verification/FpTypes.v ===== *)
(** * Vocabulary of the fingerprint HAL

    The types of [fingerprint/include/fingerprint.h] and of the AIDL interfaces as far
    as the code names them, the calls the HAL makes to the outside, and the environment
    that answers them. *)

From S2P Require Import Prelude Words Token.

(** ** The legacy HAL's messages *)

Definition FINGERPRINT_ERROR_HW_UNAVAILABLE : Z := 1.
Definition FINGERPRINT_ERROR_UNABLE_TO_PROCESS : Z := 2.
Definition FINGERPRINT_ERROR_TIMEOUT : Z := 3.
Definition FINGERPRINT_ERROR_NO_SPACE : Z := 4.
Definition FINGERPRINT_ERROR_CANCELED : Z := 5.
Definition FINGERPRINT_ERROR_UNABLE_TO_REMOVE : Z := 6.
Definition FINGERPRINT_ERROR_LOCKOUT : Z := 7.
Definition FINGERPRINT_ERROR_VENDOR_BASE : Z := 1000.

Definition FINGERPRINT_ACQUIRED_GOOD : Z := 0.
Definition FINGERPRINT_ACQUIRED_PARTIAL : Z := 1.
Definition FINGERPRINT_ACQUIRED_INSUFFICIENT : Z := 2.
Definition FINGERPRINT_ACQUIRED_IMAGER_DIRTY : Z := 3.
Definition FINGERPRINT_ACQUIRED_TOO_SLOW : Z := 4.
Definition FINGERPRINT_ACQUIRED_TOO_FAST : Z := 5.
Definition FINGERPRINT_ACQUIRED_DETECTED : Z := 6.
Definition FINGERPRINT_ACQUIRED_VENDOR_BASE : Z := 1000.

Record fingerprint_finger_id_t : Set := { gid : Z; fid : Z }.      (* uint32_t *)

(** The tagged union [fingerprint_msg_t]: one constructor per value of [type] the header
    lists with the member of [data] it selects, and one for any other value. *)
Inductive fingerprint_msg_t : Set :=
| FINGERPRINT_ERROR (error : Z)
| FINGERPRINT_ACQUIRED (acquired_info : Z)
| FINGERPRINT_TEMPLATE_ENROLLING (finger : fingerprint_finger_id_t) (samples_remaining : Z)
| FINGERPRINT_TEMPLATE_REMOVED (finger : fingerprint_finger_id_t) (remaining_templates : Z)
| FINGERPRINT_AUTHENTICATED (finger : fingerprint_finger_id_t) (hat : Token.hw_auth_token_t)
| FINGERPRINT_TEMPLATE_ENUMERATING (finger : fingerprint_finger_id_t) (remaining_templates : Z)
| FINGERPRINT_UNKNOWN (type : Z).

(** [fingerprint_msg_type]: the tag a message is sent under. *)
Definition fingerprint_msg_type (msg : fingerprint_msg_t) : Z :=
  match msg with
  | FINGERPRINT_ERROR _ => -1
  | FINGERPRINT_ACQUIRED _ => 1
  | FINGERPRINT_TEMPLATE_ENROLLING _ _ => 3
  | FINGERPRINT_TEMPLATE_REMOVED _ _ => 4
  | FINGERPRINT_AUTHENTICATED _ _ => 5
  | FINGERPRINT_TEMPLATE_ENUMERATING _ _ => 6
  | FINGERPRINT_UNKNOWN type => type
  end.

(** The tags of the known messages differ: a tag determines the member of the union. *)
Definition same_member (m1 m2 : fingerprint_msg_t) : bool :=
  match m1, m2 with
  | FINGERPRINT_ERROR _, FINGERPRINT_ERROR _
  | FINGERPRINT_ACQUIRED _, FINGERPRINT_ACQUIRED _
  | FINGERPRINT_TEMPLATE_ENROLLING _ _, FINGERPRINT_TEMPLATE_ENROLLING _ _
  | FINGERPRINT_TEMPLATE_REMOVED _ _, FINGERPRINT_TEMPLATE_REMOVED _ _
  | FINGERPRINT_AUTHENTICATED _ _, FINGERPRINT_AUTHENTICATED _ _
  | FINGERPRINT_TEMPLATE_ENUMERATING _ _, FINGERPRINT_TEMPLATE_ENUMERATING _ _
  | FINGERPRINT_UNKNOWN _, FINGERPRINT_UNKNOWN _ => true
  | _, _ => false
  end.

Definition known (m : fingerprint_msg_t) : bool :=
  match m with FINGERPRINT_UNKNOWN _ => false | _ => true end.

Theorem tag_selects_member m1 m2 :
  known m1 = true → known m2 = true →
  fingerprint_msg_type m1 = fingerprint_msg_type m2 → same_member m1 m2 = true.
Proof. by destruct m1, m2. Qed.

(** ** The AIDL enumerations, with the values the code uses *)

Module Error.
Inductive t : Set :=
| HW_UNAVAILABLE | UNABLE_TO_PROCESS | TIMEOUT | NO_SPACE | CANCELED
| UNABLE_TO_REMOVE | VENDOR.
#[global] Instance eq_dec : EqDecision t.
Proof. solve_decision. Defined.
End Error.

Module AcquiredInfo.
Inductive t : Set :=
| GOOD | PARTIAL | INSUFFICIENT | SENSOR_DIRTY | TOO_SLOW | TOO_FAST | VENDOR.
#[global] Instance eq_dec : EqDecision t.
Proof. solve_decision. Defined.
End AcquiredInfo.

(** [ndk::ScopedAStatus]. *)
Inductive ScopedAStatus : Set :=
| status_ok
| status_service_specific (error : Z).

(** ** Calls to the outside, in the order they are made *)
Inductive fp_call : Set :=
(* the device, with the arguments after the device itself *)
| dev_set_active_group (gid : Z) (store_path : string)
| dev_pre_enroll
| dev_enroll (hat : Token.hw_auth_token_t) (gid timeout_sec : Z)
| dev_post_enroll
| dev_get_authenticator_id
| dev_cancel
| dev_enumerate
| dev_remove (gid fid : Z)
| dev_authenticate (operation_id gid : Z)
| dev_goodixExtCmd (cmd param : Z)
(* the framework's ISessionCallback *)
| cb_onChallengeGenerated (challenge : Z)
| cb_onChallengeRevoked (challenge : Z)
| cb_onError (error : Error.t) (vendorCode : Z)
| cb_onAcquired (info : AcquiredInfo.t) (vendorCode : Z)
| cb_onEnrollmentProgress (enrollmentId remaining : Z)
| cb_onEnrollmentsRemoved (enrollmentIds : list Z)
| cb_onEnrollmentsEnumerated (enrollmentIds : list Z)
| cb_onAuthenticationSucceeded (enrollmentId : Z) (hat : Token.HardwareAuthToken)
| cb_onAuthenticationFailed
| cb_onLockoutTimed (durationMillis : Z)
| cb_onLockoutPermanent
| cb_onLockoutCleared
| cb_onAuthenticatorIdRetrieved (authenticatorId : Z)
| cb_onAuthenticatorIdInvalidated (authenticatorId : Z)
| cb_onSessionClosed
(* the panel's sysfs node, the timer thread, binder *)
| sysfs_fod_hbm (value : string)
| spawn_lockout_timer (timeout : Z)
| death_recipient_new
| death_recipient_delete
| death_recipient_link
(* opening and closing the legacy module *)
| hw_get_module_by_class
| module_open
| dev_set_notify
| dev_close.

(** What the outside answers: the value a device function returns for the last call of a
    history, the monotonic clock and [Util::hasElapsed] after a history, and what the
    stack holds where [enroll] declares its packed token. *)
Record environment : Type := {
  (* results of the module and device functions, as the signed or unsigned C value *)
  device : list fp_call → Z;
  getSystemNanoTime : list fp_call → Z;
  hasElapsed : list fp_call → Z → Z → bool;
  stack_token : list fp_call → Token.hw_auth_token_t
}.
