(* ===== verification/Session.v ===== *)
(** * Session

    [fingerprint/Session.cpp] and [CancellationSignal.cpp]: the AIDL session over the
    legacy device. An operation is a program over the session's members, the one
    function-static vector and the trace of its calls. *)

From S2P Require Import Prelude Words Lockout Token Udfps FpTypes.
Import Lockout.

(** The address of a session, as a [CancellationSignal] and the death recipient's cookie
    hold it. *)
Definition session_ptr : Set := nat.

Record CancellationSignal : Set := { mSession : session_ptr }.

Record Session : Set := {
  this : session_ptr;
  mLockoutTracker : LockoutTracker;
  mClosed : bool;
  mIsLockoutTimerStarted : bool;
  mIsLockoutTimerAborted : bool;
  mUserId : Z;                              (* int32_t *)
  mDeathRecipient : bool;                   (* whether the object it points to exists *)
  mIsAod : bool;
  mUdfpsHandler : Udfps.UdfpsHandler;
  udfps_worker : Udfps.worker               (* where its thread is *)
}.

(** What the methods run on: the session, and [static std::vector<int> enrollments] of
    [Session::notify], which all sessions of the process share. *)
Record session_state : Set := { self : Session; enrollments : list Z }.

Definition over (f : Session → Session) (s : session_state) : session_state :=
  {| self := f (self s); enrollments := enrollments s |}.

Definition set_tracker (t : LockoutTracker) (x : Session) : Session :=
  {| this := this x; mLockoutTracker := t; mClosed := mClosed x;
     mIsLockoutTimerStarted := mIsLockoutTimerStarted x;
     mIsLockoutTimerAborted := mIsLockoutTimerAborted x; mUserId := mUserId x;
     mDeathRecipient := mDeathRecipient x; mIsAod := mIsAod x;
     mUdfpsHandler := mUdfpsHandler x; udfps_worker := udfps_worker x |}.
Definition set_closed (b : bool) (x : Session) : Session :=
  {| this := this x; mLockoutTracker := mLockoutTracker x; mClosed := b;
     mIsLockoutTimerStarted := mIsLockoutTimerStarted x;
     mIsLockoutTimerAborted := mIsLockoutTimerAborted x; mUserId := mUserId x;
     mDeathRecipient := mDeathRecipient x; mIsAod := mIsAod x;
     mUdfpsHandler := mUdfpsHandler x; udfps_worker := udfps_worker x |}.
Definition set_timer (started aborted : bool) (x : Session) : Session :=
  {| this := this x; mLockoutTracker := mLockoutTracker x; mClosed := mClosed x;
     mIsLockoutTimerStarted := started; mIsLockoutTimerAborted := aborted;
     mUserId := mUserId x; mDeathRecipient := mDeathRecipient x; mIsAod := mIsAod x;
     mUdfpsHandler := mUdfpsHandler x; udfps_worker := udfps_worker x |}.
Definition set_aborted (b : bool) (x : Session) : Session :=
  set_timer (mIsLockoutTimerStarted x) b x.
Definition set_started (b : bool) (x : Session) : Session :=
  set_timer b (mIsLockoutTimerAborted x) x.
Definition set_aod (b : bool) (x : Session) : Session :=
  {| this := this x; mLockoutTracker := mLockoutTracker x; mClosed := mClosed x;
     mIsLockoutTimerStarted := mIsLockoutTimerStarted x;
     mIsLockoutTimerAborted := mIsLockoutTimerAborted x; mUserId := mUserId x;
     mDeathRecipient := mDeathRecipient x; mIsAod := b;
     mUdfpsHandler := mUdfpsHandler x; udfps_worker := udfps_worker x |}.
Definition set_udfps (h : Udfps.UdfpsHandler) (p : Udfps.worker) (x : Session) : Session :=
  {| this := this x; mLockoutTracker := mLockoutTracker x; mClosed := mClosed x;
     mIsLockoutTimerStarted := mIsLockoutTimerStarted x;
     mIsLockoutTimerAborted := mIsLockoutTimerAborted x; mUserId := mUserId x;
     mDeathRecipient := mDeathRecipient x; mIsAod := mIsAod x; mUdfpsHandler := h;
     udfps_worker := p |}.

Definition set_recipient (b : bool) (x : Session) : Session :=
  {| this := this x; mLockoutTracker := mLockoutTracker x; mClosed := mClosed x;
     mIsLockoutTimerStarted := mIsLockoutTimerStarted x;
     mIsLockoutTimerAborted := mIsLockoutTimerAborted x; mUserId := mUserId x;
     mDeathRecipient := b; mIsAod := mIsAod x; mUdfpsHandler := mUdfpsHandler x;
     udfps_worker := udfps_worker x |}.

(** [PointerContext], the members the code reads. *)
Record PointerContext : Set := {
  pointerId : Z; px : Z; py : Z; isAod : bool
}.

(** ** Translation of the legacy HAL's codes *)

(** The answer and the vendor code. *)
Definition VendorErrorFilter (error : Z) : Error.t * Z :=
  if error =? FINGERPRINT_ERROR_HW_UNAVAILABLE then (Error.HW_UNAVAILABLE, 0)
  else if error =? FINGERPRINT_ERROR_UNABLE_TO_PROCESS then (Error.UNABLE_TO_PROCESS, 0)
  else if error =? FINGERPRINT_ERROR_TIMEOUT then (Error.TIMEOUT, 0)
  else if error =? FINGERPRINT_ERROR_NO_SPACE then (Error.NO_SPACE, 0)
  else if error =? FINGERPRINT_ERROR_CANCELED then (Error.CANCELED, 0)
  else if error =? FINGERPRINT_ERROR_UNABLE_TO_REMOVE then (Error.UNABLE_TO_REMOVE, 0)
  else if error =? FINGERPRINT_ERROR_LOCKOUT then (Error.VENDOR, FINGERPRINT_ERROR_LOCKOUT)
  else if FINGERPRINT_ERROR_VENDOR_BASE <=? error then
    (Error.VENDOR, error - FINGERPRINT_ERROR_VENDOR_BASE)
  else (Error.UNABLE_TO_PROCESS, 0).

Definition VendorAcquiredFilter (info : Z) : AcquiredInfo.t * Z :=
  if info =? FINGERPRINT_ACQUIRED_GOOD then (AcquiredInfo.GOOD, 0)
  else if info =? FINGERPRINT_ACQUIRED_PARTIAL then (AcquiredInfo.PARTIAL, 0)
  else if info =? FINGERPRINT_ACQUIRED_INSUFFICIENT then (AcquiredInfo.INSUFFICIENT, 0)
  else if info =? FINGERPRINT_ACQUIRED_IMAGER_DIRTY then (AcquiredInfo.SENSOR_DIRTY, 0)
  else if info =? FINGERPRINT_ACQUIRED_TOO_SLOW then (AcquiredInfo.TOO_SLOW, 0)
  else if info =? FINGERPRINT_ACQUIRED_TOO_FAST then (AcquiredInfo.TOO_FAST, 0)
  else if FINGERPRINT_ACQUIRED_VENDOR_BASE <=? info then
    (AcquiredInfo.VENDOR, info - FINGERPRINT_ACQUIRED_VENDOR_BASE)
  else (AcquiredInfo.INSUFFICIENT, 0).

Section operations.
Context (env : environment).

Abbreviation prog := (M (world session_state fp_call)).
Implicit Type b : bool.

(** ** Helpers: the device, the panel, the members *)

(** A device function that returns an [int], or a [uint64_t]. *)
Definition dev_int (c : fp_call) : prog Z := call (λ h, i32 (device env h)) c.
Definition dev_u64 (c : fp_call) : prog Z := call (λ h, u64 (device env h)) c.

Definition get {A} (f : Session → A) : prog A := gets (λ s, f (self s)).
Definition put (f : Session → Session) : prog unit := modify (over f).

Definition setFodHbm (status : bool) : prog unit :=
  emit (sysfs_fod_hbm (if status then "1" else "0")%string).

(** The function the constructor gives the UDFPS handler. *)
Definition finger_cmd (down : bool) : fp_call :=
  dev_goodixExtCmd (if down then 1 else 0) 0.
Definition setFingerDown (down : bool) : prog unit := emit (finger_cmd down).

(** A call of the UDFPS handler, with the commands it sends. *)
Definition udfps (op : Udfps.UdfpsHandler → list bool * Udfps.UdfpsHandler) : prog unit :=
  h ← get mUdfpsHandler;
  p ← get udfps_worker;
  put (set_udfps (op h).2 p);;
  for_each setFingerDown (op h).1.

(** A section of its thread. *)
Definition runUdfpsWorker (o : Udfps.observation) : prog unit :=
  h ← get mUdfpsHandler;
  p ← get udfps_worker;
  put (set_udfps (Udfps.run o p h).2.2 (Udfps.run o p h).2.1);;
  for_each setFingerDown (Udfps.run o p h).1.

Definition tracker_reset b : prog unit := put (λ x, set_tracker (reset b (mLockoutTracker x)) x).

Definition tracker_addFailedAttempt : prog unit :=
  now ← ask (getSystemNanoTime env);
  put (λ x, set_tracker (addFailedAttempt now (mLockoutTracker x)) x).

Definition tracker_getMode : prog LockoutMode :=
  elapsed ← ask (hasElapsed env);
  t ← get mLockoutTracker;
  put (set_tracker (getMode elapsed t).2);;
  mret (getMode elapsed t).1.

Definition tracker_getLockoutTimeLeft : prog Z :=
  now ← ask (getSystemNanoTime env);
  t ← get mLockoutTracker;
  mret (getLockoutTimeLeft now t).

(** ** Construction *)

(** The members before the constructor's body; the tracker is copied. *)
Definition Session_members (ptr : session_ptr) (userId : Z) (lockoutTracker : LockoutTracker)
    : Session :=
  {| this := ptr; mLockoutTracker := lockoutTracker; mClosed := false;
     mIsLockoutTimerStarted := false; mIsLockoutTimerAborted := false;
     mUserId := userId; mDeathRecipient := false; mIsAod := false;
     mUdfpsHandler := Udfps.UdfpsHandler_init; udfps_worker := Udfps.Waiting |}.

Definition Session_body : prog unit :=
  emit death_recipient_new;;
  put (set_recipient true);;
  userId ← get mUserId;
  _ ← dev_int (dev_set_active_group (u32 userId)
        ("/data/vendor_de/" +:+ pretty userId +:+ "/fpdata/"));
  mret ().

(** The session that the constructor leaves. *)
Definition Session_new (ptr : session_ptr) (userId : Z) (lockoutTracker : LockoutTracker)
    : Session := set_recipient true (Session_members ptr userId lockoutTracker).

(** ** ISession *)

Definition generateChallenge : prog ScopedAStatus :=
  challenge ← dev_u64 dev_pre_enroll;
  emit (cb_onChallengeGenerated (i64 challenge));;
  mret status_ok.

Definition revokeChallenge (challenge : Z) : prog ScopedAStatus :=
  udfps Udfps.onFingerUp;;
  setFodHbm false;;
  _ ← dev_int dev_post_enroll;
  emit (cb_onChallengeRevoked challenge);;
  mret status_ok.

Definition make_signal : prog CancellationSignal :=
  ptr ← get this;
  mret {| mSession := ptr |}.

Definition enroll (hat : Token.HardwareAuthToken) : prog (ScopedAStatus * CancellationSignal) :=
  garbage ← ask (stack_token env);
  authToken ← lift_outcome (Token.translate hat garbage);
  userId ← get mUserId;
  error ← dev_int (dev_enroll authToken (u32 userId) 60);
  (if decide (error ≠ 0)
   then emit (cb_onError Error.UNABLE_TO_PROCESS error)
   else setFodHbm true);;
  out ← make_signal;
  mret (status_ok, out).

Definition authenticate (operationId : Z) : prog (ScopedAStatus * CancellationSignal) :=
  userId ← get mUserId;
  error ← dev_int (dev_authenticate (u64 operationId) (u32 userId));
  (if decide (error ≠ 0)
   then emit (cb_onError Error.UNABLE_TO_PROCESS error)
   else setFodHbm true);;
  out ← make_signal;
  mret (status_ok, out).

Definition detectInteraction : prog (ScopedAStatus * CancellationSignal) :=
  emit (cb_onError Error.UNABLE_TO_PROCESS 0);;
  out ← make_signal;
  mret (status_ok, out).

Definition enumerateEnrollments : prog ScopedAStatus :=
  _ ← dev_int dev_enumerate;
  mret status_ok.

Definition removeEnrollments (enrollmentIds : list Z) : prog ScopedAStatus :=
  for_each (λ fid,
    userId ← get mUserId;
    _ ← dev_int (dev_remove (u32 userId) (u32 fid));
    mret ()) enrollmentIds;;
  mret status_ok.

Definition getAuthenticatorId : prog ScopedAStatus :=
  auth_id ← dev_u64 dev_get_authenticator_id;
  emit (cb_onAuthenticatorIdRetrieved (i64 auth_id));;
  mret status_ok.

Definition invalidateAuthenticatorId : prog ScopedAStatus :=
  auth_id ← dev_u64 dev_get_authenticator_id;
  emit (cb_onAuthenticatorIdInvalidated (i64 auth_id));;
  mret status_ok.

(** ** Lockout *)

Definition clearLockout (clearAttemptCounter : bool) : prog unit :=
  tracker_reset clearAttemptCounter;;
  emit cb_onLockoutCleared.

Definition startLockoutTimer (timeout : Z) : prog unit :=
  put (set_aborted false);;
  emit (spawn_lockout_timer timeout);;
  put (set_started true).

(** What the timer thread runs when its sleep is over. *)
Definition lockoutTimerExpired : prog unit :=
  aborted ← get mIsLockoutTimerAborted;
  (if aborted : bool then mret () else clearLockout false);;
  put (set_started false);;
  put (set_aborted false).

Definition checkSensorLockout : prog bool :=
  lockoutMode ← tracker_getMode;
  (if decide (lockoutMode ≠ NONE)
   then udfps Udfps.onFingerUp;; setFodHbm false
   else mret ());;
  if decide (lockoutMode = PERMANENT) then
    emit cb_onLockoutPermanent;;
    put (set_aborted true);;
    mret true
  else if decide (lockoutMode = TIMED) then
    timeLeft ← tracker_getLockoutTimeLeft;
    emit (cb_onLockoutTimed timeLeft);;
    started ← get mIsLockoutTimerStarted;
    (if started : bool then mret () else startLockoutTimer timeLeft);;
    mret true
  else mret false.

Definition resetLockout : prog ScopedAStatus :=
  clearLockout true;;
  put (set_aborted true);;
  mret status_ok.

(** ** Pointer events *)

Definition onPointerDown (pointerId x y : Z) : prog ScopedAStatus :=
  put (set_aod false);;
  mret status_ok.

Definition onPointerUp (pointerId : Z) : prog ScopedAStatus :=
  udfps Udfps.onFingerUp;;
  mret status_ok.

Definition onUiReady : prog ScopedAStatus :=
  aod ← get mIsAod;
  udfps (Udfps.onUiReady aod);;
  mret status_ok.

Definition authenticateWithContext (operationId : Z) := authenticate operationId.
Definition enrollWithContext (hat : Token.HardwareAuthToken) := enroll hat.
Definition detectInteractionWithContext := detectInteraction.

Definition onPointerDownWithContext (context : PointerContext) : prog ScopedAStatus :=
  status ← onPointerDown (pointerId context) (px context) (py context);
  put (set_aod (isAod context));;
  mret status.

Definition onPointerUpWithContext (context : PointerContext) : prog ScopedAStatus :=
  onPointerUp (pointerId context).

Definition onContextChanged : prog ScopedAStatus := mret status_ok.

Definition onPointerCancelWithContext (context : PointerContext) : prog ScopedAStatus :=
  onPointerUp (pointerId context).

Definition setIgnoreDisplayTouches (shouldIgnore : bool) : prog ScopedAStatus :=
  mret status_ok.

(** ** Cancelling and closing *)

Definition cancel : prog ScopedAStatus :=
  udfps Udfps.onFingerUp;;
  setFodHbm false;;
  ret ← dev_int dev_cancel;
  if decide (ret = 0) then
    emit (cb_onError Error.CANCELED 0);;
    mret status_ok
  else mret (status_service_specific ret).

(** [AIBinder_DeathRecipient_delete(mDeathRecipient)]: the pointer is not cleared, so that a
    second call deletes an object that is gone. *)
Definition delete_recipient : prog unit :=
  live ← get mDeathRecipient;
  if live : bool then emit death_recipient_delete;; put (set_recipient false)
  else faults UseAfterFree.

Definition close : prog ScopedAStatus :=
  udfps Udfps.onFingerUp;;
  setFodHbm false;;
  put (set_closed true);;
  emit cb_onSessionClosed;;
  delete_recipient;;
  mret status_ok.

(** With the session as the cookie. *)
Definition linkToDeath : prog unit := emit death_recipient_link.

Definition isClosed : prog bool := get mClosed.

Definition onClientDeath : prog unit :=
  closed ← isClosed;
  if closed : bool then mret () else _ ← close; mret ().

(** ** Messages of the device *)

Definition notify (msg : fingerprint_msg_t) : prog unit :=
  match msg with
  | FINGERPRINT_ERROR error =>
      let (result, vendorCode) := VendorErrorFilter error in
      emit (cb_onError result vendorCode)
  | FINGERPRINT_ACQUIRED info =>
      let (result, vendorCode) := VendorAcquiredFilter info in
      if decide (result ≠ AcquiredInfo.VENDOR)
      then emit (cb_onAcquired result vendorCode)
      else mret ()
  | FINGERPRINT_TEMPLATE_ENROLLING finger samples_remaining =>
      emit (cb_onEnrollmentProgress (i32 (fid finger)) (i32 samples_remaining));;
      if decide (samples_remaining = 0) then
        udfps Udfps.onFingerUp;;
        setFodHbm false
      else mret ()
  | FINGERPRINT_TEMPLATE_REMOVED finger _ =>
      emit (cb_onEnrollmentsRemoved [i32 (fid finger)])
  | FINGERPRINT_AUTHENTICATED finger hat =>
      if decide (fid finger ≠ 0) then
        emit (cb_onAuthenticationSucceeded (i32 (fid finger))
                (Token.translate_back hat Token.HardwareAuthToken_default));;
        tracker_reset true;;
        udfps Udfps.onFingerUp;;
        setFodHbm false
      else
        emit cb_onAuthenticationFailed;;
        tracker_addFailedAttempt;;
        _ ← checkSensorLockout;
        mret ()
  | FINGERPRINT_TEMPLATE_ENUMERATING finger remaining_templates =>
      modify (λ s, {| self := self s; enrollments := enrollments s ++ [i32 (fid finger)] |});;
      if decide (remaining_templates = 0) then
        found ← gets enrollments;
        emit (cb_onEnrollmentsEnumerated found);;
        modify (λ s, {| self := self s; enrollments := [] |})
      else mret ()
  | FINGERPRINT_UNKNOWN _ => mret ()
  end.

End operations.

(** ** What the helpers do, as equations *)

Section equations.
Abbreviation world_t := (world session_state fp_call).

Lemma fingers_run l (w : world_t) :
  for_each setFingerDown l w = (Done (), World (st w) (tr w ++ map finger_cmd l)).
Proof. apply for_each_emit. Qed.

Lemma udfps_run op (w : world_t) :
  let x := self (st w) in
  udfps op w =
  (Done (), World (over (set_udfps (op (mUdfpsHandler x)).2 (udfps_worker x)) (st w))
     (tr w ++ map finger_cmd (op (mUdfpsHandler x)).1)).
Proof. unfold udfps, put, get. run. by rewrite fingers_run. Qed.

Lemma runUdfpsWorker_run o (w : world_t) :
  let x := self (st w) in
  let r := Udfps.run o (udfps_worker x) (mUdfpsHandler x) in
  runUdfpsWorker o w =
  (Done (), World (over (set_udfps r.2.2 r.2.1) (st w)) (tr w ++ map finger_cmd r.1)).
Proof. unfold runUdfpsWorker, put, get. run. by rewrite fingers_run. Qed.

(** The panel goes dark after the finger is released: the pair of calls every operation
    that ends an authentication or enrollment makes. *)
Lemma release_run (w : world_t) :
  (udfps Udfps.onFingerUp;; setFodHbm false) w =
  (Done (), World (over (λ x, set_udfps (Udfps.onFingerUp (mUdfpsHandler x)).2
                                (udfps_worker x) x) (st w))
     (tr w ++ [finger_cmd false; sysfs_fod_hbm "0"])).
Proof. unfold_monad. rewrite udfps_run. unfold setFodHbm. by run. Qed.
End equations.

Ltac run_session :=
  repeat (progress (run || rewrite udfps_run || rewrite runUdfpsWorker_run
    || unfold get, put, over, dev_int, dev_u64, setFodHbm, tracker_reset,
         tracker_addFailedAttempt, tracker_getMode, tracker_getLockoutTimeLeft,
         clearLockout, startLockoutTimer, make_signal, isClosed
    || cbn [self enrollments])).
