(* ===== verification/SessionSystem.v ===== *)
(** * A session and its threads

    One session with everything that can call into it: the framework's binder calls, the
    device's notifications, the detached lockout timers and the worker of its UDFPS
    handler. An execution is a sequence of such events, each run to completion. *)

From S2P Require Import Prelude Words Lockout Token Udfps FpTypes Session.
Import Lockout.

(** ** Events *)

Inductive label : Set :=
| GenerateChallenge
| RevokeChallenge (challenge : Z)
| Enroll (hat : Token.HardwareAuthToken)
| Authenticate (operationId : Z)
| DetectInteraction
| EnumerateEnrollments
| RemoveEnrollments (ids : list Z)
| GetAuthenticatorId
| InvalidateAuthenticatorId
| ResetLockout
| PointerDown (context : PointerContext)
| PointerUp (context : PointerContext)
| PointerCancel (context : PointerContext)
| PointerDownPlain (pointerId x y : Z)
| UiIsReady
| ContextChanged
| IgnoreDisplayTouches (b : bool)
| Cancel
| Close
| ClientDeath
| Notify (msg : fingerprint_msg_t)
| TimerFires
| UdfpsWorker (o : Udfps.observation).

Section system.
Context (env : environment).

Abbreviation prog := (M (world session_state fp_call)).

Definition ignore {A} (m : prog A) : prog unit := _ ← m; mret ().

(** The code an event runs. *)
Definition perform (l : label) : prog unit :=
  match l with
  | GenerateChallenge => ignore (generateChallenge env)
  | RevokeChallenge c => ignore (revokeChallenge env c)
  | Enroll hat => ignore (enrollWithContext env hat)
  | Authenticate op => ignore (authenticateWithContext env op)
  | DetectInteraction => ignore detectInteractionWithContext
  | EnumerateEnrollments => ignore (enumerateEnrollments env)
  | RemoveEnrollments ids => ignore (removeEnrollments env ids)
  | GetAuthenticatorId => ignore (getAuthenticatorId env)
  | InvalidateAuthenticatorId => ignore (invalidateAuthenticatorId env)
  | ResetLockout => ignore resetLockout
  | PointerDown c => ignore (onPointerDownWithContext c)
  | PointerUp c => ignore (onPointerUpWithContext c)
  | PointerCancel c => ignore (onPointerCancelWithContext c)
  | PointerDownPlain p x y => ignore (onPointerDown p x y)
  | UiIsReady => ignore onUiReady
  | ContextChanged => ignore onContextChanged
  | IgnoreDisplayTouches b => ignore (setIgnoreDisplayTouches b)
  | Cancel => ignore (cancel env)
  | Close => ignore close
  | ClientDeath => onClientDeath
  | Notify msg => notify env msg
  | TimerFires => lockoutTimerExpired
  | UdfpsWorker o => runUdfpsWorker o
  end.

(** ** Executions

    The world, and how many timer threads have woken up: those spawned and not yet woken
    are asleep. *)
Record system : Set := { sys_world : world session_state fp_call; fired : nat }.

Definition is_spawn (c : fp_call) : bool :=
  match c with spawn_lockout_timer _ => true | _ => false end.
Definition is_failure (c : fp_call) : bool :=
  match c with cb_onAuthenticationFailed => true | _ => false end.

Definition count (p : fp_call → bool) (h : list fp_call) : nat :=
  length (base.filter (λ c, p c = true) h).


#[local] Arguments count : simpl never.

Definition asleep (s : system) : nat := count is_spawn (tr (sys_world s)) - fired s.

Definition session_of (s : system) : Session := self (st (sys_world s)).
Definition mode_of (s : system) : LockoutMode := mCurrentMode (mLockoutTracker (session_of s)).

(** A session just constructed from a tracker nobody has cleared or fed: its members
    without initialiser are arbitrary, as is what the shared vector holds. *)
Definition initial (ptr : session_ptr) (uid start0 : Z) (mode0 : LockoutMode)
    (shared : list Z) : system :=
  {| sys_world := World {| self := Session_new ptr uid (tracker_init start0 mode0);
                           enrollments := shared |} [];
     fired := 0 |}.

(** An event; a timer can only fire while one sleeps, and a fault ends the process. *)
Inductive step : system → label → system → Prop :=
| step_event s l w' :
    l ≠ TimerFires →
    perform l (sys_world s) = (Done (), w') →
    step s l {| sys_world := w'; fired := fired s |}
| step_timer s w' :
    (0 < asleep s)%nat →
    perform TimerFires (sys_world s) = (Done (), w') →
    step s TimerFires {| sys_world := w'; fired := S (fired s) |}.

Inductive steps : system → list label → system → Prop :=
| steps_nil s : steps s [] s
| steps_snoc s ls s1 l s2 : steps s ls s1 → step s1 l s2 → steps s (ls ++ [l]) s2.

(** The same, as a function: [None] where no step exists. *)
Definition sys_exec (s : system) (l : label) : option system :=
  match l with
  | TimerFires =>
      if decide (0 < asleep s)%nat then
        match perform TimerFires (sys_world s) with
        | (Done (), w') => Some {| sys_world := w'; fired := S (fired s) |}
        | (Fault _, _) => None
        end
      else None
  | _ =>
      match perform l (sys_world s) with
      | (Done (), w') => Some {| sys_world := w'; fired := fired s |}
      | (Fault _, _) => None
      end
  end.

Fixpoint sys_execs (s : system) (ls : list label) : option system :=
  match ls with
  | [] => Some s
  | l :: ls' => s' ← sys_exec s l; sys_execs s' ls'
  end.

(** ** What most operations leave alone *)

(** The lockout state, and the counts of timers and failures in the trace. *)
Definition view (w : world session_state fp_call)
    : LockoutTracker * bool * bool * nat * nat :=
  let x := self (st w) in
  (mLockoutTracker x, mIsLockoutTimerStarted x, mIsLockoutTimerAborted x,
   count is_spawn (tr w), count is_failure (tr w)).

Lemma count_app p h1 h2 : count p (h1 ++ h2) = (count p h1 + count p h2)%nat.
Proof. unfold count. by rewrite filter_app, length_app. Qed.

Lemma count_cons p c h : count p (c :: h) = ((if p c then 1 else 0) + count p h)%nat.
Proof. unfold count. rewrite filter_cons. destruct (p c) eqn:Hp; case_decide; done. Qed.

Lemma count_nil p : count p [] = 0%nat.
Proof. done. Qed.

Definition keeps {A} (m : prog A) : Prop := ∀ v, preserves (λ w, view w = v) m.

Lemma keeps_emit c : is_spawn c = false → is_failure c = false → keeps (emit c).
Proof.
  intros H1 H2 v w <-. unfold view. cbn.
  rewrite !count_app, !count_cons, H1, H2, !count_nil. cbn. by rewrite !Nat.add_0_r.
Qed.

Lemma keeps_call {R} (f : list fp_call → R) c :
  is_spawn c = false → is_failure c = false → keeps (call f c).
Proof. intros H1 H2. exact (keeps_emit c H1 H2). Qed.

Lemma keeps_put f :
  (∀ x, mLockoutTracker (f x) = mLockoutTracker x ∧
        mIsLockoutTimerStarted (f x) = mIsLockoutTimerStarted x ∧
        mIsLockoutTimerAborted (f x) = mIsLockoutTimerAborted x) →
  keeps (put f).
Proof. intros Hf v w <-. unfold view. cbn. by destruct (Hf (self (st w))) as (-> & -> & ->). Qed.

Lemma keeps_share f : keeps (modify (λ s, {| self := self s; enrollments := f s |})).
Proof. by intros v w <-. Qed.

Lemma keeps_bind {A B} (m : prog A) (k : A → prog B) :
  keeps m → (∀ a, keeps (k a)) → keeps (m ≫= k).
Proof. intros Hm Hk v. apply preserves_bind; [apply Hm|intros a; apply Hk]. Qed.

Lemma keeps_each {A} (body : A → prog unit) l : (∀ x, keeps (body x)) → keeps (for_each body l).
Proof. intros Hb v. apply preserves_for_each. intros x. apply Hb. Qed.

Lemma keeps_silent {A} (m : prog A) : (∀ w, (m w).2 = w) → keeps m.
Proof. intros Hm v w <-. by rewrite Hm. Qed.
End system.

#[global] Arguments count : simpl never.

(** Count in a trace whose last calls are known. *)
Ltac counts :=
  rewrite ?count_app, ?count_cons, ?count_nil; cbn [is_spawn is_failure finger_cmd];
  rewrite ?Nat.add_0_r, ?Nat.add_0_l, ?Nat.add_1_r.

(** Follow the text of an operation that has nothing to do with the lockout. *)
Ltac keeps_step :=
  match goal with
  | |- keeps (_ ≫= _) => apply keeps_bind
  | |- keeps (for_each _ _) => apply keeps_each; intros ?
  | |- keeps (emit _) => apply keeps_emit; done
  | |- keeps (call _ _) => apply keeps_call; done
  | |- keeps (dev_int _ _) => apply keeps_call; done
  | |- keeps (dev_u64 _ _) => apply keeps_call; done
  | |- keeps (put _) => apply keeps_put; done
  | |- keeps (modify _) => apply keeps_share
  | |- keeps (match ?x with _ => _ end) => destruct x eqn:?
  | |- ∀ _, _ => intros ?
  | |- keeps (mret _) => apply keeps_silent; done
  | |- keeps (get _) => apply keeps_silent; done
  | |- keeps (gets _) => apply keeps_silent; done
  | |- keeps (ask _) => apply keeps_silent; done
  | |- keeps (lift_outcome _) => apply keeps_silent; done
  | |- keeps (faults _) => apply keeps_silent; done
  | |- keeps ?m => let h := program_head m in unfold h
  end.
Ltac solve_keeps := repeat keeps_step.

(** Follow the text of an operation down to its calls. *)
Ltac solve_logs :=
  repeat (prog_step || match goal with
    | |- logs _ (modify _) => apply logs_modify
    | |- logs _ ?m => let h := program_head m in unfold h
    end).

Section invariants.
Context (env : environment).

Lemma keeps_udfps op : keeps (udfps op).
Proof. solve_keeps. Qed.

(** Every event but four kinds. *)
Definition concerns_lockout (l : label) : Prop :=
  match l with
  | ResetLockout | TimerFires => True
  | Notify (FINGERPRINT_AUTHENTICATED _ _) => True
  | _ => False
  end.

#[local] Instance concerns_lockout_dec l : Decision (concerns_lockout l).
Proof. destruct l as [| | | | | | | | | | | | | | | | | | | |[]| |]; apply _. Defined.

Lemma keeps_perform l : ¬ concerns_lockout l → keeps (perform env l).
Proof.
  intros Hl. destruct l; try (by destruct Hl); cbn [perform]; solve_keeps.
Qed.

(** The lockout state as the four other events change it. *)
Lemma reset_view w :
  view (perform env ResetLockout w).2 =
  (reset true (mLockoutTracker (self (st w))), mIsLockoutTimerStarted (self (st w)), true,
   count is_spawn (tr w), count is_failure (tr w)).
Proof.
  unfold view, perform, ignore, resetLockout. run_session. cbn. by counts.
Qed.

Lemma timer_view w :
  view (perform env TimerFires w).2 =
  (if mIsLockoutTimerAborted (self (st w)) then mLockoutTracker (self (st w))
   else reset false (mLockoutTracker (self (st w))), false, false,
   count is_spawn (tr w), count is_failure (tr w)).
Proof.
  unfold view, perform, lockoutTimerExpired. run_session.
  destruct (mIsLockoutTimerAborted (self (st w))); run; cbn; [done|]. by counts.
Qed.

Lemma success_view finger hat w :
  fid finger ≠ 0 →
  view (perform env (Notify (FINGERPRINT_AUTHENTICATED finger hat)) w).2 =
  (reset true (mLockoutTracker (self (st w))), mIsLockoutTimerStarted (self (st w)),
   mIsLockoutTimerAborted (self (st w)), count is_spawn (tr w), count is_failure (tr w)).
Proof.
  intros Hf. unfold view, perform, notify. rewrite decide_True by done. run_session. cbn. by counts.
Qed.

Lemma failure_view finger hat w :
  fid finger = 0 →
  ∃ now elapsed,
    let t := mLockoutTracker (self (st w)) in
    let started := mIsLockoutTimerStarted (self (st w)) in
    let aborted := mIsLockoutTimerAborted (self (st w)) in
    let (mode, t') := getMode elapsed (addFailedAttempt now t) in
    view (perform env (Notify (FINGERPRINT_AUTHENTICATED finger hat)) w).2 =
    match mode with
    | NONE => (t', started, aborted, count is_spawn (tr w), S (count is_failure (tr w)))
    | PERMANENT => (t', started, true, count is_spawn (tr w), S (count is_failure (tr w)))
    | TIMED =>
        if started then
          (t', true, aborted, count is_spawn (tr w), S (count is_failure (tr w)))
        else (t', true, false, S (count is_spawn (tr w)), S (count is_failure (tr w)))
    end.
Proof.
  intros Hf.
  exists (getSystemNanoTime env (tr w ++ [cb_onAuthenticationFailed])),
    (hasElapsed env (tr w ++ [cb_onAuthenticationFailed])).
  unfold view, perform, notify. rewrite decide_False by lia. cbv zeta.
  unfold checkSensorLockout. run_session.
  destruct (getMode _ _) as [mode t'] eqn:Hg.
  destruct mode; cbn [fst snd]; decides; run_session; cbn; [by counts| |by counts].
  destruct (mIsLockoutTimerStarted (self (st w))) eqn:Hs; run; cbn; counts; by rewrite ?Hs.
Qed.

(** Nothing in the session faults but a token the packed structure has no room for. *)
Lemma view_step s l s' :
  step env s l s' → ¬ concerns_lockout l →
  view (sys_world s') = view (sys_world s) ∧ fired s' = fired s.
Proof.
  intros Hs Hl. destruct Hs as [s l w' _ Hw|]; [|by destruct Hl].
  split; [|done]. change w' with (Done () (A := unit), w').2. rewrite <- Hw.
  by apply (keeps_perform l Hl).
Qed.

(** ** The lockout invariant *)

Definition failures (s : system) : Z := Z.of_nat (count is_failure (tr (sys_world s))).

(** At most one timer sleeps, exactly while the session's flag says so; the counter never
    exceeds the failures the trace shows; a permanent lockout has twenty of them behind
    it and no timer that could clear it. *)
Record lockout_ok (fired : nat) (t : LockoutTracker) (started aborted : bool)
    (spawned failed : nat) : Prop := {
  ok_timer : spawned = (fired + if started then 1 else 0)%nat;
  ok_count : 0 ≤ mFailedCount t ≤ Z.of_nat failed;
  ok_permanent : mCurrentMode t = PERMANENT → LOCKOUT_PERMANENT_THRESHOLD ≤ mFailedCount t;
  ok_no_clear : mCurrentMode t = PERMANENT → started = true → aborted = true
}.

Definition lockout_inv (s : system) : Prop :=
  let '(t, started, aborted, spawned, failed) := view (sys_world s) in
  lockout_ok (fired s) t started aborted spawned failed.

Lemma lockout_inv_intro w n t started aborted spawned failed :
  view w = (t, started, aborted, spawned, failed) →
  lockout_ok n t started aborted spawned failed →
  lockout_inv {| sys_world := w; fired := n |}.
Proof. intros Hv Hok. unfold lockout_inv. cbn -[view]. by rewrite Hv. Qed.

Lemma addFailedAttempt_inv now t n :
  0 ≤ mFailedCount t ≤ n → n < 2 ^ 31 - 1 →
  (mCurrentMode t = PERMANENT → LOCKOUT_PERMANENT_THRESHOLD ≤ mFailedCount t) →
  mFailedCount (addFailedAttempt now t) = mFailedCount t + 1 ∧
  (mCurrentMode (addFailedAttempt now t) = PERMANENT ↔
   LOCKOUT_PERMANENT_THRESHOLD ≤ mFailedCount t + 1).
Proof.
  intros Hc Hn Hp. pose proof (addFailedAttempt_count now t ltac:(lia)) as Hcount.
  split; [done|]. unfold addFailedAttempt. rewrite (wrap_s_nonneg 32) by (cbn; lia).
  unfold LOCKOUT_PERMANENT_THRESHOLD, LOCKOUT_TIMED_THRESHOLD in *.
  cases; split; intros; try done; try lia. specialize (Hp ltac:(done)). lia.
Qed.

Lemma lockout_inv_initial ptr uid start0 mode0 shared :
  mode0 ≠ PERMANENT → lockout_inv (initial ptr uid start0 mode0 shared).
Proof. intros Hm. split; cbn; done || lia. Qed.

Lemma lockout_ok_reset b fired t started aborted spawned failed :
  lockout_ok fired t started aborted spawned failed →
  ∀ aborted', lockout_ok fired (reset b t) started aborted' spawned failed.
Proof. intros [Ht Hc Hp Hn] ab. split; [done|destruct b; cbn; lia| |]; by intros. Qed.

(** A failure, with the check that follows it. *)
Lemma lockout_inv_failure s finger hat w' :
  fid finger = 0 →
  perform env (Notify (FINGERPRINT_AUTHENTICATED finger hat)) (sys_world s) = (Done (), w') →
  Z.of_nat (count is_failure (tr w')) < 2 ^ 31 →
  lockout_inv s → lockout_inv {| sys_world := w'; fired := fired s |}.
Proof.
  intros Hf Hw Hlt Hi.
  destruct (failure_view finger hat (sys_world s) Hf) as (now & elapsed & Hv).
  rewrite Hw in Hv. cbn [snd] in Hv.
  destruct Hi as [Ht Hc Hp Hn].
  cbv zeta in Hv. set (t := mLockoutTracker _) in *.
  destruct (getMode _ _) as [mode t'] eqn:Hg.
  assert (Hfail : count is_failure (tr w') = S (count is_failure (tr (sys_world s)))).
  { revert Hv. unfold view. repeat case_match; congruence. }
  rewrite Hfail in Hlt.
  destruct (addFailedAttempt_inv now t (Z.of_nat (count is_failure (tr (sys_world s))))
    ltac:(done) ltac:(lia) Hp) as [Hcount Hperm].
  pose proof (getMode_count elapsed (addFailedAttempt now t)) as Hc'.
  pose proof (getMode_answer elapsed (addFailedAttempt now t)) as Ha.
  pose proof (getMode_permanent elapsed (addFailedAttempt now t)) as Hgp.
  rewrite Hg in Hc', Ha, Hgp. cbn [fst snd] in Hc', Ha, Hgp.
  destruct mode; [|destruct (mIsLockoutTimerStarted _)|];
    (eapply lockout_inv_intro; [exact Hv|]);
    split; try lia; try congruence; rewrite Hc', Hcount; try lia;
    intros; try (apply Hperm, Hgp); congruence.
Qed.

Lemma lockout_inv_event s l w' :
  concerns_lockout l → l ≠ TimerFires →
  perform env l (sys_world s) = (Done (), w') →
  Z.of_nat (count is_failure (tr w')) < 2 ^ 31 →
  lockout_inv s → lockout_inv {| sys_world := w'; fired := fired s |}.
Proof.
  intros Hl Ht Hw Hlt Hi. destruct l as [| | | | | | | | | | | | | | | | | | | |msg| |]; try done.
  - pose proof (reset_view (sys_world s)) as Hv. rewrite Hw in Hv.
    eapply lockout_inv_intro; [exact Hv|]. exact (lockout_ok_reset true _ _ _ _ _ _ Hi _).
  - destruct msg as [| | | |finger hat| |]; try done.
    destruct (decide (fid finger = 0)) as [Hf|Hf]; [by eapply lockout_inv_failure|].
    pose proof (success_view finger hat (sys_world s) Hf) as Hv. rewrite Hw in Hv.
    eapply lockout_inv_intro; [exact Hv|]. exact (lockout_ok_reset true _ _ _ _ _ _ Hi _).
Qed.

Lemma lockout_inv_timer s w' :
  (0 < asleep s)%nat → perform env TimerFires (sys_world s) = (Done (), w') →
  lockout_inv s → lockout_inv {| sys_world := w'; fired := S (fired s) |}.
Proof.
  intros Hpos Hw. pose proof (timer_view (sys_world s)) as Hv. rewrite Hw in Hv.
  cbn [snd] in Hv. unfold asleep in Hpos. intros Hi. eapply lockout_inv_intro; [exact Hv|].
  destruct Hi as [Ht Hc Hp Hn]. rewrite Ht in Hpos.
  destruct (mIsLockoutTimerStarted _); [|lia].
  destruct (mIsLockoutTimerAborted _); split; cbn; try done; lia.
Qed.

Lemma lockout_inv_step s l s' :
  step env s l s' → failures s' < 2 ^ 31 → lockout_inv s → lockout_inv s'.
Proof.
  intros Hs Hlt Hi. destruct (decide (concerns_lockout l)) as [Hl|Hl].
  - destruct Hs as [s l w' Ht Hw|s w' Hpos Hw].
    + by eapply lockout_inv_event.
    + by eapply lockout_inv_timer.
  - destruct (view_step s l s' Hs Hl) as [Hv Hf]. unfold lockout_inv. by rewrite Hv, Hf.
Qed.

(** An event only adds to the trace, so failures accumulate. *)
Lemma perform_logs l : logs (λ _, True) (perform env l).
Proof. destruct l; cbn [perform]; solve_logs. Qed.

Lemma failures_step s l s' : step env s l s' → failures s ≤ failures s'.
Proof.
  unfold failures.
  intros [s0 l0 w' _ Hw|s0 w' _ Hw];
    [destruct (perform_logs l0 (sys_world s0)) as (h & Hh & _)
    |destruct (perform_logs TimerFires (sys_world s0)) as (h & Hh & _)];
    rewrite Hw in Hh; cbn in *; rewrite Hh, count_app; lia.
Qed.

Lemma lockout_inv_steps s ls s' :
  steps env s ls s' → failures s' < 2 ^ 31 → lockout_inv s → lockout_inv s'.
Proof.
  induction 1 as [|s ls s1 l s2 Hss IH Hs]; intros Hlt Hi; [done|].
  pose proof (failures_step _ _ _ Hs). eapply lockout_inv_step; [done..|].
  apply IH; [lia|done].
Qed.

Lemma steps_failures s ls s' : steps env s ls s' → failures s ≤ failures s'.
Proof.
  induction 1 as [|s ls s1 l s2 Hss IH Hs]; [done|].
  pose proof (failures_step _ _ _ Hs). lia.
Qed.

Lemma steps_trans s1 ls s2 ls' s3 :
  steps env s1 ls s2 → steps env s2 ls' s3 → steps env s1 (ls ++ ls') s3.
Proof.
  intros H12. induction 1 as [|s2 ls' s3 l s4 H23 IH Hs]; [by rewrite app_nil_r|].
  rewrite app_assoc. econstructor; [by apply IH|done].
Qed.

Lemma reachable_inv ptr uid start0 mode0 shared ls s :
  mode0 ≠ PERMANENT → steps env (initial ptr uid start0 mode0 shared) ls s →
  failures s < 2 ^ 31 → lockout_inv s.
Proof.
  intros Hm Hs Hlt. eapply lockout_inv_steps; [done..|]. by apply lockout_inv_initial.
Qed.

(** The two events that end a permanent lockout. *)
Definition unlocks (l : label) : bool :=
  match l with
  | ResetLockout => true
  | Notify (FINGERPRINT_AUTHENTICATED finger _) => negb (fid finger =? 0)
  | _ => false
  end.

(** A failure keeps a permanent lockout permanent. *)
Lemma permanent_failure finger hat w w' :
  fid finger = 0 →
  perform env (Notify (FINGERPRINT_AUTHENTICATED finger hat)) w = (Done (), w') →
  LOCKOUT_PERMANENT_THRESHOLD ≤ mFailedCount (mLockoutTracker (self (st w))) < 2 ^ 31 - 1 →
  mCurrentMode (mLockoutTracker (self (st w'))) = PERMANENT.
Proof.
  intros Hf Hw Hc. destruct (failure_view finger hat w Hf) as (now & elapsed & Hv).
  rewrite Hw in Hv. cbn [snd] in Hv. cbv zeta in Hv.
  pose proof (getMode_permanent elapsed (addFailedAttempt now
    (mLockoutTracker (self (st w))))) as Hgp.
  pose proof (getMode_answer elapsed (addFailedAttempt now
    (mLockoutTracker (self (st w))))) as Ha.
  destruct (addFailedAttempt_inv now (mLockoutTracker (self (st w))) (2 ^ 31 - 2)) as [_ Hp];
    [unfold LOCKOUT_PERMANENT_THRESHOLD in *; lia|lia|lia|].
  destruct (getMode _ _) as [mode t'] eqn:Hg. cbn [fst snd] in *.
  assert (mode = PERMANENT) as -> by (apply Hgp, Hp; lia).
  unfold view in Hv. congruence.
Qed.

Lemma permanent_step s l s' :
  step env s l s' → unlocks l = false → failures s' < 2 ^ 31 → lockout_inv s →
  mode_of s = PERMANENT → mode_of s' = PERMANENT.
Proof.
  intros Hs Hl Hlt [Ht Hc Hp Hn] Hm. unfold mode_of, session_of in *.
  destruct (decide (concerns_lockout l)) as [Hcl|Hcl].
  2: { destruct (view_step s l s' Hs Hcl) as [Hv _]. unfold view in Hv. congruence. }
  pose proof (failures_step _ _ _ Hs) as Hle. unfold failures in *.
  destruct Hs as [s l w' Hnt Hw|s w' Hpos Hw].
  - destruct l as [| | | | | | | | | | | | | | | | | | | |[]| |]; try done.
    cbn in Hl. assert (Hf : fid finger = 0) by (destruct (Z.eqb_spec (fid finger) 0); done).
    eapply permanent_failure; [done..|]. specialize (Hp Hm).
    destruct (failure_view finger hat (sys_world s) Hf) as (now & elapsed & Hv).
    rewrite Hw in Hv. cbn [snd] in Hv. unfold view in Hv. cbn in Hlt.
    assert (count is_failure (tr w') = S (count is_failure (tr (sys_world s)))).
    { cbv zeta in Hv. destruct (getMode _ _). repeat case_match; congruence. }
    lia.
  - pose proof (timer_view (sys_world s)) as Hv. rewrite Hw in Hv. cbn [snd] in Hv.
    unfold asleep in Hpos. rewrite Ht in Hpos. unfold view in Hv. cbn.
    destruct (mIsLockoutTimerStarted _); [|lia].
    rewrite Hn in Hv by done. congruence.
Qed.

Lemma permanent_steps s ls s' :
  steps env s ls s' → Forall (λ l, unlocks l = false) ls → failures s' < 2 ^ 31 →
  lockout_inv s → mode_of s = PERMANENT → mode_of s' = PERMANENT.
Proof.
  induction 1 as [|s ls s1 l s2 Hss IH Hs]; intros Hall Hlt Hi Hm; [done|].
  apply Forall_app in Hall as [Hall Hl]. rewrite Forall_singleton in Hl.
  pose proof (failures_step _ _ _ Hs). eapply permanent_step; [done..| |].
  - eapply lockout_inv_steps; [done|lia|done].
  - apply IH; [done|lia|done..].
Qed.
End invariants.

(** ** Properties *)

Section properties.
Context (env : environment).

(** C1: where events run to completion, a permanent lockout ends only by [resetLockout] or a
    successful match. Take an execution of a session in which each event (a binder call, a
    notification, a timer, a section of the worker) ends before the next begins, over a
    tracker that does not start in permanent mode, with fewer than 2^31 failed matches: once
    the tracker is in permanent mode it stays there through every sequence of events that
    has neither. The code has no mutex that would make its events run so: where the accesses
    of two threads interleave, a timer can end a permanent lockout ([SessionRaces.v]). *)
Theorem permanent_lockout_stays ptr uid start0 mode0 shared ls0 s ls s' :
  mode0 ≠ PERMANENT →
  steps env (initial ptr uid start0 mode0 shared) ls0 s →
  mode_of s = PERMANENT →
  steps env s ls s' →
  Forall (λ l, unlocks l = false) ls →
  failures s' < 2 ^ 31 →
  mode_of s' = PERMANENT.
Proof.
  intros H0 Hs0 Hm Hs Hall Hlt. pose proof (steps_failures _ _ _ _ Hs).
  eapply permanent_steps; [done..| |done]. eapply reachable_inv; [done..|lia].
Qed.

(** at most one lockout timer sleeps. In every reachable state the number of timer
    threads started and not yet woken is one while [mIsLockoutTimerStarted] is set and
    zero otherwise. *)
Theorem one_lockout_timer ptr uid start0 mode0 shared ls s :
  mode0 ≠ PERMANENT →
  steps env (initial ptr uid start0 mode0 shared) ls s →
  failures s < 2 ^ 31 →
  asleep s = if mIsLockoutTimerStarted (session_of s) then 1%nat else 0%nat.
Proof.
  intros H0 Hs Hlt. destruct (reachable_inv env _ _ _ _ _ _ _ H0 Hs Hlt) as [Ht _ _ _].
  unfold asleep. rewrite Ht. unfold session_of. lia.
Qed.

(** The function finds the executions the relation allows. *)
Lemma sys_exec_step s l s' : sys_exec env s l = Some s' → step env s l s'.
Proof.
  intros H. unfold sys_exec in H.
  destruct l; try (destruct (perform env _ _) as [[[]|] w'] eqn:Hw; simplify_eq;
                   by apply step_event).
  case_decide; [|done]. destruct (perform env _ _) as [[[]|] w'] eqn:Hw; simplify_eq.
  by apply step_timer.
Qed.

Lemma sys_execs_steps ls s s' : sys_execs env s ls = Some s' → steps env s ls s'.
Proof.
  revert s. induction ls as [|l ls IH]; intros s H; cbn in H; [simplify_eq; constructor|].
  destruct (sys_exec env s l) as [s1|] eqn:H1; [|done].
  apply (steps_trans env s [l] s1); [|by apply IH].
  apply (steps_snoc env s [] s); [constructor|by apply sys_exec_step].
Qed.
End properties.

(** ** Concrete executions *)

(** A device that accepts everything, a clock that stands still, thirty seconds that have
    not passed. *)
Definition steady : environment := {|
  device := λ _, 0;
  getSystemNanoTime := λ _, 1000000000;
  hasElapsed := λ _ _ _, false;
  stack_token := λ _,
    {| Token.hw_challenge := 0; Token.hw_user_id := 0; Token.hw_authenticator_id := 0;
       Token.hw_authenticator_type := 0; Token.hw_timestamp := 0;
       Token.hw_hmac := replicate 32 0 |}
|}.

Definition result (finger_id : Z) : label :=
  Notify (FINGERPRINT_AUTHENTICATED {| gid := 0; fid := finger_id |}
    (stack_token steady [])).
Definition new_session : system := initial 0%nat 10 0 NONE [].

Example permanent_lockout_stays_witness :
  ∃ s s', sys_execs steady new_session (replicate 20 (result 0)) = Some s ∧
  mode_of s = PERMANENT ∧
  sys_execs steady s [TimerFires; Authenticate 7; result 0; Cancel; Close] = Some s' ∧
  mode_of s' = PERMANENT.
Proof.
  eexists _, _. split; [vm_compute; reflexivity|]. split; [reflexivity|].
  split; [vm_compute; reflexivity|].
  eapply (permanent_lockout_stays steady 0%nat 10 0 NONE [] (replicate 20 (result 0)) _
    [TimerFires; Authenticate 7; result 0; Cancel; Close]).
  - discriminate.
  - apply sys_execs_steps. vm_compute. reflexivity.
  - vm_compute. reflexivity.
  - apply sys_execs_steps. vm_compute. reflexivity.
  - repeat constructor.
  - vm_compute. reflexivity.
Defined.

Example one_lockout_timer_witness :
  ∃ s, sys_execs steady new_session (replicate 7 (result 0)) = Some s ∧ asleep s = 1%nat.
Proof.
  eexists. split; [vm_compute; reflexivity|].
  eapply (one_lockout_timer steady 0%nat 10 0 NONE [] (replicate 7 (result 0))).
  - discriminate.
  - apply sys_execs_steps. vm_compute. reflexivity.
  - vm_compute. reflexivity.
Defined.

(** an aborted timer swallows the end of the next lockout. Five failures start a
    timer; [resetLockout] marks it aborted but cannot wake it; five more failures lock
    the sensor again while it sleeps, so no new timer starts; and when the old one fires
    it clears its marks and nothing else. The session is then in a timed lockout with no
    timer left that would announce its end. *)
Theorem reset_then_lockout_is_never_cleared :
  ∃ s, steps steady new_session
         (replicate 5 (result 0) ++ [ResetLockout] ++ replicate 5 (result 0) ++ [TimerFires]) s ∧
    mode_of s = TIMED ∧ asleep s = 0%nat ∧
    mIsLockoutTimerStarted (session_of s) = false ∧
    count (λ c, match c with cb_onLockoutCleared => true | _ => false end)
      (tr (sys_world s)) = 1%nat.
Proof.
  eexists. split; [apply sys_execs_steps; vm_compute; reflexivity|].
  by vm_compute.
Qed.
