(* ===== verification/SessionThreads.v ===== *)
(** * The threads of a session, one access at a time

    The members of a session and of its tracker are plain variables that three kinds of
    threads use without a mutex: the binder thread serves the framework, a thread of the
    vendor's module calls [Fingerprint::notify], and each lockout timer is a detached thread.
    Here the operations that use these members are written as sequences of single accesses,
    and the threads interleave between any two of them. [SessionSystem.v] runs each operation
    to completion instead; alone, the accesses of an event are the event ([alone_code_of]).

    The six members of [member] are those of a session that more than one kind of thread
    uses. There is one binder thread ([service.cpp] allows no more), to which [mIsAod],
    [mDeathRecipient] and [mUserId] belong, and the UDFPS handler has a mutex of its own. An
    access is what the source writes as one: [mFailedCount++] is a read and a write, each
    comparison reads its member again. The HAL object's own [mSession], which [notify] reads
    and [createSession] assigns, is not a member of a session. *)

From S2P Require Import Prelude Words Lockout Token Udfps FpTypes Session SessionSystem.
Import Lockout.

(** ** Code as a sequence of accesses *)

Inductive member : Set :=
| FailedCount | TimedStart | CurrentMode | TimerStarted | TimerAborted | Closed.

#[export] Instance member_eq_dec : EqDecision member.
Proof. solve_decision. Defined.

Inductive access : Set := Reads (m : member) | Writes (m : member) | Elsewhere.

#[export] Instance access_eq_dec : EqDecision access.
Proof. solve_decision. Defined.

Abbreviation session_world := (world session_state fp_call).

(** What is left of a thread's code: nothing, or an access and what follows it. *)
Inductive code (A : Type) : Type :=
| Return (a : A)
| Access {B : Type} (x : access) (m : M session_world B) (k : B → code A).
Arguments Return {A} a.
Arguments Access {A B} x m k.

#[export] Instance code_ret : MRet code := @Return.
#[export] Instance code_bind : MBind code :=
  fix bind {A B} (k : A → code B) (c : code A) : code B :=
  match c with
  | Return a => k a
  | Access x m k' => Access x m (λ b, bind k (k' b))
  end.

(** The code without interference. *)
Fixpoint alone {A} (c : code A) : M session_world A :=
  match c with
  | Return a => mret a
  | Access x m k => b ← m; alone (k b)
  end.

Definition load {A} (m : member) (f : Session → A) : code A := Access (Reads m) (get f) Return.
Definition store (m : member) (f : Session → Session) : code unit :=
  Access (Writes m) (put f) Return.
(** Code that uses none of these members. *)
Definition outside {A} (m : M session_world A) : code A := Access Elsewhere m Return.

(** The members of the tracker. *)
Definition set_count (n : Z) (x : Session) : Session :=
  set_tracker {| mFailedCount := n; mLockoutTimedStart := mLockoutTimedStart (mLockoutTracker x);
                 mCurrentMode := mCurrentMode (mLockoutTracker x) |} x.
Definition set_start (n : Z) (x : Session) : Session :=
  set_tracker {| mFailedCount := mFailedCount (mLockoutTracker x); mLockoutTimedStart := n;
                 mCurrentMode := mCurrentMode (mLockoutTracker x) |} x.
Definition set_mode (mode : LockoutMode) (x : Session) : Session :=
  set_tracker {| mFailedCount := mFailedCount (mLockoutTracker x);
                 mLockoutTimedStart := mLockoutTimedStart (mLockoutTracker x);
                 mCurrentMode := mode |} x.

Definition load_count : code Z := load FailedCount (λ x, mFailedCount (mLockoutTracker x)).
Definition load_start : code Z := load TimedStart (λ x, mLockoutTimedStart (mLockoutTracker x)).
Definition load_mode : code LockoutMode :=
  load CurrentMode (λ x, mCurrentMode (mLockoutTracker x)).

Section operations.
Context (env : environment).

(** ** [LockoutTracker.cpp] *)

Definition reset_code (clearAttemptCounter : bool) : code unit :=
  (if clearAttemptCounter then store FailedCount (set_count 0) else mret ());;
  store TimedStart (set_start 0);;
  store CurrentMode (set_mode NONE).

Definition addFailedAttempt_code : code unit :=
  n ← load_count;
  store FailedCount (set_count (i32 (n + 1)));;
  n ← load_count;
  if decide (LOCKOUT_PERMANENT_THRESHOLD ≤ n) then store CurrentMode (set_mode PERMANENT)
  else
    n ← load_count;
    if decide (LOCKOUT_TIMED_THRESHOLD ≤ n) then
      store CurrentMode (set_mode TIMED);;
      now ← outside (ask (getSystemNanoTime env));
      store TimedStart (set_start now)
    else mret ().

Definition getMode_code : code LockoutMode :=
  mode ← load_mode;
  (if decide (mode = TIMED) then
     start ← load_start;
     elapsed ← outside (ask (hasElapsed env));
     if elapsed start LOCKOUT_TIMED_DURATION : bool then
       store CurrentMode (set_mode NONE);;
       store TimedStart (set_start 0)
     else mret ()
   else mret ());;
  load_mode.

Definition getLockoutTimeLeft_code : code Z :=
  start ← load_start;
  if decide (0 < start) then
    now ← outside (ask (getSystemNanoTime env));
    start ← load_start;
    mret (i64 (LOCKOUT_TIMED_DURATION - Z.quot (i64 (now - start)) 1000000))
  else mret 0.

(** ** [Session.cpp] *)

Definition clearLockout_code (clearAttemptCounter : bool) : code unit :=
  reset_code clearAttemptCounter;;
  outside (emit cb_onLockoutCleared).

Definition startLockoutTimer_code (timeout : Z) : code unit :=
  store TimerAborted (set_aborted false);;
  outside (emit (spawn_lockout_timer timeout));;
  store TimerStarted (set_started true).

Definition lockoutTimerExpired_code : code unit :=
  aborted ← load TimerAborted mIsLockoutTimerAborted;
  (if aborted : bool then mret () else clearLockout_code false);;
  store TimerStarted (set_started false);;
  store TimerAborted (set_aborted false).

(** The release of the finger and the dark panel. *)
Definition release_code : code unit :=
  outside (udfps Udfps.onFingerUp);;
  outside (setFodHbm false).

Definition checkSensorLockout_code : code bool :=
  lockoutMode ← getMode_code;
  (if decide (lockoutMode ≠ NONE) then release_code else mret ());;
  if decide (lockoutMode = PERMANENT) then
    outside (emit cb_onLockoutPermanent);;
    store TimerAborted (set_aborted true);;
    mret true
  else if decide (lockoutMode = TIMED) then
    timeLeft ← getLockoutTimeLeft_code;
    outside (emit (cb_onLockoutTimed timeLeft));;
    started ← load TimerStarted mIsLockoutTimerStarted;
    (if started : bool then mret () else startLockoutTimer_code timeLeft);;
    mret true
  else mret false.

Definition resetLockout_code : code unit :=
  clearLockout_code true;;
  store TimerAborted (set_aborted true).

(** [notify] of [FINGERPRINT_AUTHENTICATED]. *)
Definition authenticated_code (finger : fingerprint_finger_id_t) (hat : Token.hw_auth_token_t)
    : code unit :=
  if decide (fid finger ≠ 0) then
    outside (emit (cb_onAuthenticationSucceeded (i32 (fid finger))
               (Token.translate_back hat Token.HardwareAuthToken_default)));;
    reset_code true;;
    release_code
  else
    outside (emit cb_onAuthenticationFailed);;
    addFailedAttempt_code;;
    _ ← checkSensorLockout_code;
    mret ().

(** [close] and [onClientDeath]. *)
Definition close_code : code unit :=
  release_code;;
  store Closed (set_closed true);;
  outside (emit cb_onSessionClosed);;
  outside delete_recipient.

Definition onClientDeath_code : code unit :=
  closed ← load Closed mClosed;
  if closed : bool then mret () else close_code.

(** [Session::notify], of which one message uses the members. *)
Definition notify_code (msg : fingerprint_msg_t) : code unit :=
  match msg with
  | FINGERPRINT_AUTHENTICATED finger hat => authenticated_code finger hat
  | _ => outside (notify env msg)
  end.

(** The code an event runs. A message comes through [Fingerprint::notify], which first asks
    whether the session is closed. *)
Definition code_of (l : label) : code unit :=
  match l with
  | ResetLockout => resetLockout_code
  | TimerFires => lockoutTimerExpired_code
  | Close => close_code
  | ClientDeath => onClientDeath_code
  | Notify msg =>
      closed ← load Closed mClosed;
      if closed : bool then mret () else notify_code msg
  | _ => outside (perform env l)
  end.
End operations.

(** ** Threads

    The session, and what is left to run of each thread. The [n]-th timer that woke up is the
    [n]-th of [timers]; the timers started and not yet in the list are asleep. *)
Record threads : Type := {
  shared : session_state;
  binder : code unit;
  device_thread : code unit;
  timers : list (code unit)
}.

Inductive thread : Set := Binder | Device | Timer (n : nat).

#[export] Instance thread_eq_dec : EqDecision thread.
Proof. solve_decision. Defined.

Definition races : Type := world threads fp_call.

Definition set_shared (x : session_state) (s : threads) : threads :=
  {| shared := x; binder := binder s; device_thread := device_thread s; timers := timers s |}.

(** What a thread has left; a timer that is asleep has nothing. *)
Definition code_at (t : thread) (s : threads) : code unit :=
  match t with
  | Binder => binder s
  | Device => device_thread s
  | Timer n => default (Return ()) (timers s !! n)
  end.

Definition set_code (t : thread) (c : code unit) (s : threads) : threads :=
  match t with
  | Binder => {| shared := shared s; binder := c; device_thread := device_thread s;
                 timers := timers s |}
  | Device => {| shared := shared s; binder := binder s; device_thread := c;
                 timers := timers s |}
  | Timer n => {| shared := shared s; binder := binder s; device_thread := device_thread s;
                  timers := <[n := c]> (timers s) |}
  end.

Definition session_part (w : races) : session_world := World (shared (st w)) (tr w).

Definition in_session {A} (m : M session_world A) : M races A := λ w,
  let (o, w') := m (session_part w) in (o, World (set_shared (st w') (st w)) (tr w')).

(** A thread begins the code of an event, a timer wakes up, the worker of the UDFPS handler
    runs a section, a thread makes its next access. *)
Inductive action : Set :=
| Begin (l : label)
| Wake
| Worker (o : Udfps.observation)
| Run (t : thread).

(** Which thread an event comes in on. *)
Definition thread_of (l : label) : thread := match l with Notify _ => Device | _ => Binder end.

Definition comes_in (l : label) : bool :=
  match l with TimerFires | UdfpsWorker _ => false | _ => true end.

Definition idle {A} (c : code A) : bool := match c with Return _ => true | _ => false end.

(** [None] where the action is not possible, or where it faults. *)
Definition race_act (env : environment) (w : races) (a : action) : option races :=
  match a with
  | Begin l =>
      if comes_in l && idle (code_at (thread_of l) (st w))
      then Some (World (set_code (thread_of l) (code_of env l) (st w)) (tr w))
      else None
  | Wake =>
      if decide (length (timers (st w)) < count is_spawn (tr w))%nat then
        Some (World {| shared := shared (st w); binder := binder (st w);
                       device_thread := device_thread (st w);
                       timers := timers (st w) ++ [lockoutTimerExpired_code] |} (tr w))
      else None
  | Worker o =>
      match in_session (perform env (UdfpsWorker o)) w with
      | (Done _, w') => Some w'
      | (Fault _, _) => None
      end
  | Run t =>
      match code_at t (st w) with
      | Return _ => None
      | Access x m k =>
          match in_session m w with
          | (Done b, w') => Some (World (set_code t (k b) (st w')) (tr w'))
          | (Fault _, _) => None
          end
      end
  end.

Fixpoint race_run (env : environment) (w : races) (acts : list action) : option races :=
  match acts with
  | [] => Some w
  | a :: acts' => w' ← race_act env w a; race_run env w' acts'
  end.

(** A session at rest: every thread idle, the timers that fired have run. *)
Definition at_rest (s : system) : races :=
  World {| shared := st (sys_world s); binder := Return (); device_thread := Return ();
           timers := replicate (fired s) (Return ()) |} (tr (sys_world s)).

Definition race_session (w : races) : Session := self (shared (st w)).
Definition race_mode (w : races) : LockoutMode :=
  mCurrentMode (mLockoutTracker (race_session w)).
Definition failed (w : races) : nat := count is_failure (tr w).

(** The access a thread makes next. *)
Definition next_access (t : thread) (s : threads) : option access :=
  match code_at t s with Return _ => None | Access x _ _ => Some x end.

(** Two threads about to use the same member, one of them to write it: a data race, which
    leaves the behaviour of the program undefined in C++. *)
Definition conflict (x y : access) : option member :=
  match x, y with
  | Writes m, Writes m' | Writes m, Reads m' | Reads m, Writes m' =>
      if decide (m = m') then Some m else None
  | _, _ => None
  end.

Definition racing (t t' : thread) (w : races) : option member :=
  x ← next_access t (st w); y ← next_access t' (st w); conflict x y.

(** ** Uninterrupted code is the code of the operations *)

Section alone.
Context (env : environment).

Lemma alone_bind {A B} (c : code A) (k : A → code B) w :
  alone (c ≫= k) w = (alone c ≫= λ a, alone (k a)) w.
Proof.
  revert w. induction c as [a|B' x m k' IH]; intros w; [done|].
  cbn [alone]. change (alone (Access x m k' ≫= k) w)
    with ((m ≫= λ b, alone (k' b ≫= k)) w).
  unfold mbind at 1 3 4, M_bind. destruct (m w) as [[b|e] w']; [apply IH|done].
Qed.

Lemma alone_access {A B} x m (k : B → code A) w :
  alone (Access x m k) w = (m ≫= λ b, alone (k b)) w.
Proof. done. Qed.
End alone.

(** Run a piece of code symbolically. *)
Ltac run_alone :=
  repeat (progress (cbn [alone mbind mret code_bind code_ret load store outside load_count
      load_start load_mode]
    || run_session)).

Section equations.
Context (env : environment).
Implicit Types (w : session_world) (b : bool).

Lemma alone_outside {A} (m : M session_world A) w : alone (outside m) w = m w.
Proof. cbn. unfold mbind, M_bind. by destruct (m w) as [[a|e] w']. Qed.

Lemma alone_reset b w : alone (reset_code b) w = tracker_reset b w.
Proof. unfold reset_code. destruct b; by run_alone. Qed.

Lemma alone_addFailedAttempt w :
  alone (addFailedAttempt_code env) w = tracker_addFailedAttempt env w.
Proof.
  unfold addFailedAttempt_code. run_alone. unfold addFailedAttempt.
  repeat (case_decide; run_alone); try done.
Qed.

Lemma alone_getMode w : alone (getMode_code env) w = tracker_getMode env w.
Proof.
  unfold getMode_code. run_alone. unfold getMode. case_decide; run_alone.
  - destruct (hasElapsed env _ _ _); run_alone; [done|].
    by destruct w as [[[] ?] ?].
  - by destruct w as [[[] ?] ?].
Qed.

Lemma alone_getLockoutTimeLeft w :
  alone (getLockoutTimeLeft_code env) w = tracker_getLockoutTimeLeft env w.
Proof.
  unfold getLockoutTimeLeft_code. run_alone. unfold getLockoutTimeLeft.
  case_decide; by run_alone.
Qed.

Lemma alone_release w : alone release_code w = (udfps Udfps.onFingerUp;; setFodHbm false) w.
Proof. unfold release_code. by run_alone. Qed.

(** Two sequences are equal part by part. *)
Lemma alone_seq {A B} (c : code A) (k : A → code B) m (f : A → M session_world B) w :
  (∀ w, alone c w = m w) → (∀ a w, alone (k a) w = f a w) →
  alone (c ≫= k) w = (m ≫= f) w.
Proof.
  intros Hc Hk. rewrite alone_bind. unfold mbind, M_bind. rewrite Hc.
  by destruct (m w) as [[a|e] w'].
Qed.

Lemma alone_ret {A} (a : A) w : alone (mret a) w = (mret a : M session_world A) w.
Proof. done. Qed.

Lemma alone_load {A} m (f : Session → A) w : alone (load m f) w = get f w.
Proof. done. Qed.

Lemma alone_store m f w : alone (store m f) w = put f w.
Proof. done. Qed.
End equations.

Create HintDb alone.

#[local] Hint Resolve alone_outside alone_reset alone_addFailedAttempt alone_getMode
  alone_getLockoutTimeLeft alone_release alone_ret alone_load alone_store : alone.

(** Compare code with the operation it is the code of. *)
Ltac alone_step :=
  match goal with
  | |- alone (if ?b then _ else _) _ = (if ?b then _ else _) _ => destruct b
  | |- alone (_ ≫= _) _ = (_ ≫= _) _ => apply alone_seq; [intros ?|intros ? ?]
  | _ => solve [eauto with alone]
  end.

Section operations_alone.
Context (env : environment).
Implicit Types (w : session_world) (b : bool).

Lemma alone_clearLockout b w : alone (clearLockout_code b) w = clearLockout b w.
Proof. unfold clearLockout_code, clearLockout. repeat alone_step. Qed.

#[local] Hint Resolve alone_clearLockout : alone.

Lemma alone_startLockoutTimer timeout w :
  alone (startLockoutTimer_code timeout) w = startLockoutTimer timeout w.
Proof. unfold startLockoutTimer_code, startLockoutTimer. repeat alone_step. Qed.

#[local] Hint Resolve alone_startLockoutTimer : alone.

Lemma alone_lockoutTimerExpired w : alone lockoutTimerExpired_code w = lockoutTimerExpired w.
Proof. unfold lockoutTimerExpired_code, lockoutTimerExpired. repeat alone_step. Qed.

Lemma alone_checkSensorLockout w :
  alone (checkSensorLockout_code env) w = checkSensorLockout env w.
Proof. unfold checkSensorLockout_code, checkSensorLockout. repeat alone_step. Qed.

#[local] Hint Resolve alone_lockoutTimerExpired alone_checkSensorLockout : alone.

Lemma alone_resetLockout w : alone resetLockout_code w = ignore resetLockout w.
Proof.
  unfold resetLockout_code, ignore, resetLockout, clearLockout_code, reset_code.
  by run_alone.
Qed.

Lemma alone_authenticated finger hat w :
  alone (authenticated_code env finger hat) w =
  notify env (FINGERPRINT_AUTHENTICATED finger hat) w.
Proof. unfold authenticated_code, notify. repeat alone_step. Qed.

Lemma alone_close w : alone close_code w = ignore close w.
Proof.
  unfold close_code, ignore, close, release_code, delete_recipient. run_alone.
  destruct (mDeathRecipient _); by run_alone.
Qed.

#[local] Hint Resolve alone_authenticated alone_close : alone.

(** An event as it comes in: a message only to a session that is open. *)
Definition incoming (l : label) : M session_world unit :=
  match l with
  | Notify msg => closed ← isClosed; if closed : bool then mret () else notify env msg
  | _ => perform env l
  end.

(** Without interference the accesses of an event are the event. *)
Lemma alone_code_of l w : alone (code_of env l) w = incoming l w.
Proof.
  destruct l as [| | | | | | | | | | | | | | | | | | | |msg| |]; cbn [code_of incoming];
    try apply alone_outside.
  - apply alone_resetLockout.
  - apply alone_close.
  - cbn [perform]. unfold onClientDeath_code, onClientDeath, isClosed. repeat alone_step.
  - unfold isClosed. apply alone_seq; [done|]. intros closed w'. alone_step; [apply alone_ret|].
    destruct msg; cbn [notify_code]; [apply alone_outside..| |apply alone_outside|apply alone_outside].
    apply alone_authenticated.
  - apply alone_lockoutTimerExpired.
Qed.
End operations_alone.

