(* ===== verification/SessionRaces.v ===== *)
(** * What survives the races of a session

    Every interleaving of [SessionThreads.v] is abstracted to a protocol: a phase of the
    device's thread, and for each timer that woke up whether it still owes the session the
    end of its mark. The code of each thread conforms to the protocol, the protocol has
    invariants, and so have all interleavings. At the end, the runs in which the races do
    harm. *)

From S2P Require Import Prelude Words Lockout Token Udfps FpTypes Session SessionSystem SessionThreads.
Import Lockout.

(** ** The protocol *)

Implicit Types w : session_world.

Definition tracker_of w : LockoutTracker := mLockoutTracker (self (st w)).
Definition count_of w : Z := mFailedCount (tracker_of w).
Definition mode_in w : LockoutMode := mCurrentMode (tracker_of w).
Definition started w : bool := mIsLockoutTimerStarted (self (st w)).
Definition spawned w : nat := count is_spawn (tr w).
Definition seen w : nat := count is_failure (tr w).

(** Calls that neither count as a failure, nor start a timer, nor announce a lockout. *)
Definition announces (c : fp_call) : option LockoutMode :=
  match c with
  | cb_onLockoutPermanent => Some PERMANENT
  | cb_onLockoutTimed _ => Some TIMED
  | _ => None
  end.

Definition plain (c : fp_call) : Prop :=
  is_spawn c = false ∧ is_failure c = false ∧ announces c = None.

(** [n] failures are enough for the mode. *)
Definition deserves (mode : LockoutMode) (n : Z) : Prop :=
  match mode with
  | NONE => True
  | TIMED => LOCKOUT_TIMED_THRESHOLD ≤ n
  | PERMANENT => LOCKOUT_PERMANENT_THRESHOLD ≤ n
  end.

(** What every thread may do at any time: clear the counter, end the lockout, change the
    time and the aborted mark, make plain calls. *)
Record calm w w' : Prop := {
  calm_count : count_of w' = count_of w ∨ count_of w' = 0;
  calm_mode : mode_in w' = mode_in w ∨ mode_in w' = NONE;
  calm_started : started w' = started w;
  calm_calls : ∃ h, tr w' = tr w ++ h ∧ Forall plain h
}.

(** Where the device's thread is: it has announced a failure it has not counted; it holds
    the counter it read to increment; it compares the counter it read; it holds the mode
    it read; it saw no timer; it started one and has not said so. *)
Inductive phase : Set :=
| Quiet
| Failed
| Counts (n : Z)
| Compares (n : Z)
| Sees (mode : LockoutMode)
| Starting
| Spawned.

Inductive device_move : phase → session_world → phase → session_world → Prop :=
| device_calm g w w' : calm w w' → device_move g w g w'
| device_rests g w : g ≠ Spawned → device_move g w Quiet w
| device_fails w : device_move Quiet w Failed (World (st w) (tr w ++ [cb_onAuthenticationFailed]))
| device_reads w : device_move Failed w (Counts (count_of w)) w
| device_counts n w :
    device_move (Counts n) w Quiet (World (over (set_count (i32 (n + 1))) (st w)) (tr w))
| device_compares w : device_move Quiet w (Compares (count_of w)) w
| device_compares_again n w : device_move (Compares n) w (Compares (count_of w)) w
| device_locks mode n w :
    deserves mode n →
    device_move (Compares n) w Quiet (World (over (set_mode mode) (st w)) (tr w))
| device_sees w : device_move Quiet w (Sees (mode_in w)) w
| device_announces mode c w :
    announces c = Some mode → is_spawn c = false → is_failure c = false →
    device_move (Sees mode) w Quiet (World (st w) (tr w ++ [c]))
| device_finds_none w : started w = false → device_move Quiet w Starting w
| device_spawns n w :
    device_move Starting w Spawned (World (st w) (tr w ++ [spawn_lockout_timer n]))
| device_marks w : device_move Spawned w Quiet (World (over (set_started true) (st w)) (tr w)).

(** A timer owes the end of its mark until it has cleared it. *)
Inductive timer_move : bool → session_world → bool → session_world → Prop :=
| timer_calm o w w' : calm w w' → timer_move o w o w'
| timer_clears w : timer_move true w false (World (over (set_started false) (st w)) (tr w)).

Definition binder_move (g : unit) w (g' : unit) w' : Prop := calm w w'.

(** Which members the thread may use. *)
Definition binder_uses (g : unit) (x : access) : bool :=
  match x with
  | Elsewhere | Writes FailedCount | Writes TimedStart | Writes CurrentMode
  | Writes TimerAborted | Reads Closed | Writes Closed => true
  | _ => false
  end.
Definition device_uses (g : phase) (x : access) : bool :=
  match x with Reads TimerAborted | Writes Closed => false | _ => true end.
Definition timer_uses (owes : bool) (x : access) : bool :=
  match x, owes with
  | Writes TimerAborted, false => true
  | Elsewhere, true | Reads TimerAborted, true | Writes TimedStart, true
  | Writes CurrentMode, true | Writes TimerStarted, true => true
  | _, _ => false
  end.

(** ** Code that conforms to a protocol *)

Section conforms.
Context {G : Type} (uses : G → access → bool).
Context (move : G → session_world → G → session_world → Prop).

(** From phase [g], each access is allowed and is a move of the protocol, and the code ends
    in a result and a phase of [Q]. *)
Fixpoint conforms {A} (c : code A) (g : G) (Q : A → G → Prop) : Prop :=
  match c with
  | Return a => Q a g
  | Access x m k =>
      uses g x = true ∧
      ∀ w b w', m w = (Done b, w') → ∃ g', move g w g' w' ∧ conforms (k b) g' Q
  end.

Lemma conforms_ret {A} (a : A) g (Q : A → G → Prop) : Q a g → conforms (mret a) g Q.
Proof. done. Qed.

Lemma conforms_bind {A B} (c : code A) (k : A → code B) g Q :
  conforms c g (λ a g', conforms (k a) g' Q) → conforms (c ≫= k) g Q.
Proof.
  revert g. induction c as [a|B' x m k' IH]; intros g Hc; [exact Hc|].
  destruct Hc as [Hu Hm]. split; [done|]. intros w b w' Hw.
  destruct (Hm w b w' Hw) as (g' & Hg & Hk). exists g'. split; [done|]. by apply IH.
Qed.

Lemma conforms_load {A} m (f : Session → A) g (Q : A → G → Prop) :
  uses g (Reads m) = true →
  (∀ w, ∃ g', move g w g' w ∧ Q (f (self (st w))) g') →
  conforms (load m f) g Q.
Proof. intros Hu Hq. split; [done|]. intros w b w' [= <- <-]. apply Hq. Qed.

Lemma conforms_store m f g (Q : unit → G → Prop) :
  uses g (Writes m) = true →
  (∀ w, ∃ g', move g w g' (World (over f (st w)) (tr w)) ∧ Q () g') →
  conforms (store m f) g Q.
Proof. intros Hu Hq. split; [done|]. intros w b w' [= <- <-]. apply Hq. Qed.

Lemma conforms_emit c g (Q : unit → G → Prop) :
  uses g Elsewhere = true →
  (∀ w, ∃ g', move g w g' (World (st w) (tr w ++ [c])) ∧ Q () g') →
  conforms (outside (emit c)) g Q.
Proof. intros Hu Hq. split; [done|]. intros w b w' [= <- <-]. apply Hq. Qed.

(** Code that stays in its phase. *)
Lemma conforms_outside {A} (m : M session_world A) g (Q : A → G → Prop) :
  uses g Elsewhere = true →
  (∀ w b w', m w = (Done b, w') → move g w g w') → (∀ b, Q b g) →
  conforms (outside m) g Q.
Proof. intros Hu Hm Hq. split; [done|]. intros w b w' Hw. exists g. split; [eauto|apply Hq]. Qed.

Lemma conforms_weaken {A} (c : code A) g (Q Q' : A → G → Prop) :
  conforms c g Q → (∀ a g', Q a g' → Q' a g') → conforms c g Q'.
Proof.
  intros Hc HQ. revert g Hc. induction c as [a|B' x m k IH]; intros g Hc; [by apply HQ|].
  destruct Hc as [Hu Hm]. split; [done|]. intros w b w' Hw.
  destruct (Hm w b w' Hw) as (g' & Hg & Hk). eauto.
Qed.
End conforms.

(** ** Calm code *)

Lemma calm_refl w : calm w w.
Proof. split; auto. exists []. by rewrite app_nil_r. Qed.

Definition calm_update (f : Session → Session) : Prop :=
  ∀ x, (mFailedCount (mLockoutTracker (f x)) = mFailedCount (mLockoutTracker x) ∨
        mFailedCount (mLockoutTracker (f x)) = 0) ∧
       (mCurrentMode (mLockoutTracker (f x)) = mCurrentMode (mLockoutTracker x) ∨
        mCurrentMode (mLockoutTracker (f x)) = NONE) ∧
       mIsLockoutTimerStarted (f x) = mIsLockoutTimerStarted x.

Lemma calm_store f w : calm_update f → calm w (World (over f (st w)) (tr w)).
Proof.
  intros Hf. destruct (Hf (self (st w))) as (Hc & Hm & Hs). split; [done..|].
  exists []. by rewrite app_nil_r.
Qed.

Lemma calm_emit c w : plain c → calm w (World (st w) (tr w ++ [c])).
Proof. intros Hc. split; auto. exists [c]. by rewrite Forall_singleton. Qed.

(** Code whose every run is calm. *)
Definition calm_run {A} (m : M session_world A) : Prop :=
  ∀ w b w', m w = (Done b, w') → calm w w'.

Lemma calm_run_keeps {A} (m : M session_world A) :
  keeps m → logs plain m → calm_run m.
Proof.
  intros Hk Hl w b w' Hw. specialize (Hk _ w eq_refl). destruct (Hl w) as (h & Hh & Hp).
  rewrite Hw in Hk, Hh. cbn in Hk, Hh. unfold SessionSystem.view in Hk. injection Hk as Ht Hs _ _ _.
  split; unfold count_of, mode_in, tracker_of, started; rewrite ?Ht, ?Hs; eauto.
Qed.

Lemma plain_perform env l : ¬ concerns_lockout l → logs plain (perform env l).
Proof.
  intros Hl. destruct l as [| | | | | | | | | | | | | | | | | | | |[]| |];
    try (by destruct Hl); cbn [perform]; solve_logs; done.
Qed.

Lemma calm_perform env l : ¬ concerns_lockout l → calm_run (perform env l).
Proof. intros Hl. apply calm_run_keeps; [by apply keeps_perform|by apply plain_perform]. Qed.

Section calm_code.
Context {G : Type} (uses : G → access → bool).
Context (move : G → session_world → G → session_world → Prop).
Context (g : G) (calm_move : ∀ w w', calm w w' → move g w g w').

Lemma conforms_calm_store m f (Q : unit → G → Prop) :
  uses g (Writes m) = true → calm_update f → Q () g → conforms uses move (store m f) g Q.
Proof.
  intros Hu Hf HQ. apply conforms_store; [done|]. intros w. exists g.
  split; [|done]. by apply calm_move, calm_store.
Qed.

Lemma conforms_calm_load {A} m (f : Session → A) (Q : A → G → Prop) :
  uses g (Reads m) = true → (∀ a, Q a g) → conforms uses move (load m f) g Q.
Proof.
  intros Hu HQ. apply conforms_load; [done|]. intros w. exists g.
  split; [apply calm_move, calm_refl|apply HQ].
Qed.

Lemma conforms_calm {A} (m : M session_world A) (Q : A → G → Prop) :
  uses g Elsewhere = true → calm_run m → (∀ b, Q b g) →
  conforms uses move (outside m) g Q.
Proof. intros Hu Hm HQ. apply conforms_outside; [done| |done]. intros. by eapply calm_move, Hm. Qed.

Lemma conforms_reset b (Q : unit → G → Prop) :
  (b = true → uses g (Writes FailedCount) = true) → uses g (Writes TimedStart) = true →
  uses g (Writes CurrentMode) = true → Q () g → conforms uses move (reset_code b) g Q.
Proof.
  intros Hc Ht Hm HQ. unfold reset_code. apply conforms_bind. destruct b.
  - apply conforms_calm_store; [by apply Hc|by intros x; cbn; auto|].
    apply conforms_bind, conforms_calm_store; [done|by intros x; cbn; auto|].
    apply conforms_calm_store; [done|by intros x; cbn; auto|done].
  - apply conforms_ret, conforms_bind, conforms_calm_store; [done|by intros x; cbn; auto|].
    apply conforms_calm_store; [done|by intros x; cbn; auto|done].
Qed.

Lemma conforms_clearLockout b (Q : unit → G → Prop) :
  uses g Elsewhere = true → (b = true → uses g (Writes FailedCount) = true) →
  uses g (Writes TimedStart) = true → uses g (Writes CurrentMode) = true →
  Q () g → conforms uses move (clearLockout_code b) g Q.
Proof.
  intros He Hc Ht Hm HQ. unfold clearLockout_code.
  apply conforms_bind, conforms_reset; [done..|].
  apply conforms_calm; [done| |by intros []].
  intros w [] w' [= <-]. by apply calm_emit.
Qed.

Lemma calm_release : calm_run (udfps Udfps.onFingerUp) ∧ calm_run (setFodHbm false).
Proof. split; (apply calm_run_keeps; [solve_keeps|repeat (done || solve_logs)]). Qed.

Lemma conforms_release (Q : unit → G → Prop) :
  uses g Elsewhere = true → Q () g → conforms uses move release_code g Q.
Proof.
  intros He HQ. destruct calm_release as [Hu Hs]. unfold release_code.
  apply conforms_bind, conforms_calm; [done..|]. intros _.
  apply conforms_calm; [done..|by intros []].
Qed.
End calm_code.

(** ** The three kinds of code *)

Abbreviation on_binder := (conforms binder_uses binder_move).
Abbreviation on_device := (conforms device_uses device_move).
Abbreviation on_timer := (conforms timer_uses timer_move).

Section conformance.
Context (env : environment).

Lemma calm_delete : calm_run delete_recipient.
Proof. apply calm_run_keeps; [solve_keeps|repeat (done || solve_logs)]. Qed.

Lemma close_conforms : on_binder close_code () (λ _ _, True).
Proof.
  unfold close_code. apply conforms_bind, conforms_release; [done..|].
  apply conforms_bind, conforms_calm_store; [done..|by intros x; cbn; auto|].
  apply conforms_bind, conforms_calm; [done..|by intros w [] w' [= <-]; apply calm_emit|intros _].
  by apply conforms_calm; [..|apply calm_delete|].
Qed.

Lemma binder_conforms l : comes_in l = true → thread_of l = Binder →
  on_binder (code_of env l) () (λ _ _, True).
Proof.
  intros Hin Ht.
  assert (l = ResetLockout ∨ l = Close ∨ l = ClientDeath ∨
    ¬ concerns_lockout l ∧ code_of env l = outside (perform env l))
    as [->|[->|[->|[Hl ->]]]] by (destruct l; auto 10; done).
  - cbn [code_of]. unfold resetLockout_code.
    apply conforms_bind, conforms_clearLockout; [done..|].
    apply conforms_calm_store; [done..| |done]. intros x. cbn. auto.
  - exact close_conforms.
  - apply conforms_bind, conforms_calm_load; [done..|]. intros [|]; [done|exact close_conforms].
  - apply conforms_calm; [done..|by apply calm_perform|done].
Qed.

Lemma timer_conforms : on_timer lockoutTimerExpired_code true (λ _ o, o = false).
Proof.
  unfold lockoutTimerExpired_code.
  apply conforms_bind, conforms_calm_load; [by constructor|done|]. intros aborted.
  apply conforms_bind.
  assert (Hrest : on_timer (store TimerStarted (set_started false);;
      store TimerAborted (set_aborted false)) true (λ _ o, o = false)).
  { apply conforms_bind, conforms_store; [done|]. intros w. eexists. split; [apply timer_clears|].
    apply conforms_calm_store; [by constructor|done|by intros x; cbn; auto|done]. }
  destruct aborted; [by apply conforms_ret|].
  by apply conforms_clearLockout; [by constructor|..].
Qed.
(** The calm steps of the device's thread keep its phase. *)
Definition device_calms g : ∀ w w', calm w w' → device_move g w g w' := device_calm g.
#[local] Hint Resolve device_calms : core.

(** An access that is the given move. *)
Ltac by_move H := eexists; split; [apply H; try done|].

Lemma conforms_addFailedAttempt :
  on_device (addFailedAttempt_code env) Failed (λ _ g, g = Quiet).
Proof.
  unfold addFailedAttempt_code.
  apply conforms_bind, conforms_load; [done|]. intros w. by_move device_reads.
  apply conforms_bind, conforms_store; [done|]. intros w1. by_move device_counts.
  apply conforms_bind, conforms_load; [done|]. intros w2. by_move device_compares.
  case_decide.
  { apply conforms_store; [done|]. intros w3. by by_move device_locks. }
  apply conforms_bind, conforms_load; [done|]. intros w3.
  destruct (decide (LOCKOUT_TIMED_THRESHOLD ≤ count_of w3)) as [Hn|Hn].
  - by_move device_compares_again. rewrite decide_True by done.
    apply conforms_bind, conforms_store; [done|]. intros w4. by_move device_locks.
    apply conforms_bind, conforms_calm; [auto|done| |].
    + intros w5 b w5' [= _ <-]. apply calm_refl.
    + intros now. apply conforms_calm_store; [auto|done|by intros x; cbn; auto|done].
  - by_move device_rests. by rewrite decide_False.
Qed.

(** The phase after the mode was read. *)
Definition after_mode (mode : LockoutMode) : phase :=
  match mode with NONE => Quiet | _ => Sees mode end.

Lemma conforms_getMode :
  on_device (getMode_code env) Quiet (λ mode g, g = after_mode mode).
Proof.
  unfold getMode_code.
  apply conforms_bind, conforms_calm_load; [auto|done|]. intros mode.
  apply conforms_bind.
  assert (Hlast : on_device load_mode Quiet (λ mode g, g = after_mode mode)).
  { apply conforms_load; [done|]. intros w. change (mCurrentMode _) with (mode_in w).
    destruct (decide (mode_in w = NONE)) as [Hm|Hm].
    - by_move device_rests. by rewrite Hm.
    - by_move device_sees. by destruct (mode_in w). }
  case_decide; [|by apply conforms_ret].
  apply conforms_bind, conforms_calm_load; [auto|done|]. intros start.
  apply conforms_bind, conforms_calm; [auto|done| |].
  { intros w b w' [= _ <-]. apply calm_refl. }
  intros elapsed. destruct (elapsed _ _); [|by apply conforms_ret].
  apply conforms_bind, conforms_calm_store; [auto|done|by intros x; cbn; auto|].
  apply conforms_calm_store; [auto|done|by intros x; cbn; auto|done].
Qed.

Lemma conforms_timeLeft g (Q : Z → phase → Prop) :
  (∀ n, Q n g) → on_device (getLockoutTimeLeft_code env) g Q.
Proof.
  intros HQ. unfold getLockoutTimeLeft_code.
  apply conforms_bind, conforms_calm_load; [auto|done|]. intros start.
  case_decide; [|by apply conforms_ret].
  apply conforms_bind, conforms_calm; [auto|done| |].
  { intros w b w' [= _ <-]. apply calm_refl. }
  intros now. apply conforms_bind, conforms_calm_load; [auto|done|]. intros start'.
  by apply conforms_ret.
Qed.

Lemma conforms_startLockoutTimer n :
  on_device (startLockoutTimer_code n) Starting (λ _ g, g = Quiet).
Proof.
  unfold startLockoutTimer_code.
  apply conforms_bind, conforms_calm_store; [auto|done|by intros x; cbn; auto|].
  apply conforms_bind, conforms_emit; [done|]. intros w. by_move device_spawns.
  apply conforms_store; [done|]. intros w1. by by_move device_marks.
Qed.

Lemma conforms_checkSensorLockout :
  on_device (checkSensorLockout_code env) Quiet (λ _ g, g = Quiet).
Proof.
  unfold checkSensorLockout_code.
  apply conforms_bind. eapply conforms_weaken; [apply conforms_getMode|].
  intros mode g ->. apply conforms_bind.
  destruct mode; decides; [by apply conforms_ret, conforms_ret|..];
    (apply conforms_release; [auto|done|]).
  - apply conforms_bind, conforms_timeLeft. intros n.
    apply conforms_bind, conforms_emit; [done|]. intros w. by_move device_announces.
    apply conforms_bind, conforms_load; [done|]. intros w1. change (mIsLockoutTimerStarted _)
      with (started w1). destruct (started w1) eqn:Hs.
    + by_move device_rests. apply conforms_bind, conforms_ret. by apply conforms_ret.
    + by_move device_finds_none. apply conforms_bind.
      eapply conforms_weaken; [apply conforms_startLockoutTimer|]. intros [] g ->.
      by apply conforms_ret.
  - apply conforms_bind, conforms_emit; [done|]. intros w. by_move device_announces.
    apply conforms_bind, conforms_calm_store; [auto|done|by intros x; cbn; auto|].
    by apply conforms_ret.
Qed.

Lemma notify_conforms msg : on_device (notify_code env msg) Quiet (λ _ g, g = Quiet).
Proof.
  assert ((∃ finger hat, msg = FINGERPRINT_AUTHENTICATED finger hat) ∨
    ¬ concerns_lockout (Notify msg) ∧ notify_code env msg = outside (notify env msg))
    as [(finger & hat & ->)|[Hl ->]] by (destruct msg; try (left; by eexists _, _); right; split; auto).
  - cbn [notify_code]. unfold authenticated_code. case_decide.
    + apply conforms_bind, conforms_calm; [auto|done| |].
      { intros w b w' [= _ <-]. by apply calm_emit. }
      intros []. apply conforms_bind, conforms_reset; [auto|done..|].
      by apply conforms_release; [auto|..].
    + apply conforms_bind, conforms_emit; [done|]. intros w. by_move device_fails.
      apply conforms_bind. eapply conforms_weaken; [apply conforms_addFailedAttempt|].
      intros [] g ->. apply conforms_bind.
      eapply conforms_weaken; [apply conforms_checkSensorLockout|]. intros b g ->.
      by apply conforms_ret.
  - apply conforms_calm; [auto|done|by apply (calm_perform env (Notify msg))|done].
Qed.

Lemma device_conforms l :
  thread_of l = Device → on_device (code_of env l) Quiet (λ _ g, g = Quiet).
Proof.
  intros Ht. destruct l as [| | | | | | | | | | | | | | | | | | | |msg| |]; try done. cbn [code_of].
  apply conforms_bind, conforms_calm_load; [auto|done|].
  intros [|]; [by apply conforms_ret|apply notify_conforms].
Qed.
End conformance.

(** ** Interleavings are runs of the protocol *)

(** What the members hold, the phase of the device's thread, and what each timer that woke
    up owes. *)
Record protocol : Set := {
  world_of : session_world;
  phase_of : phase;
  owes : list bool
}.

Inductive protocol_step : protocol → protocol → Prop :=
| by_anyone w w' g os : calm w w' →
    protocol_step {| world_of := w; phase_of := g; owes := os |}
                  {| world_of := w'; phase_of := g; owes := os |}
| by_device w w' g g' os : device_move g w g' w' →
    protocol_step {| world_of := w; phase_of := g; owes := os |}
                  {| world_of := w'; phase_of := g'; owes := os |}
| by_timer n o w w' g o' os : os !! n = Some o → timer_move o w o' w' →
    protocol_step {| world_of := w; phase_of := g; owes := os |}
                  {| world_of := w'; phase_of := g; owes := <[n := o']> os |}
| by_waking w g os : (length os < spawned w)%nat →
    protocol_step {| world_of := w; phase_of := g; owes := os |}
                  {| world_of := w; phase_of := g; owes := os ++ [true] |}.

(** The threads of a run are where the protocol says. *)
Record tracked (w : races) (p : protocol) : Prop := {
  tracked_world : session_part w = world_of p;
  tracked_binder : on_binder (binder (st w)) () (λ _ _, True);
  tracked_device : on_device (device_thread (st w)) (phase_of p) (λ _ g, g = Quiet);
  tracked_timers : Forall2 (λ c o, on_timer c o (λ _ o', o' = false)) (timers (st w)) (owes p)
}.

Definition protocol_start (s : system) : protocol :=
  {| world_of := sys_world s; phase_of := Quiet; owes := replicate (fired s) false |}.

Section simulation.
Context (env : environment).

Lemma tracked_at_rest s : tracked (at_rest s) (protocol_start s).
Proof.
  destruct s as [[x h] n]. split; [done..|]. cbn.
  by apply Forall2_replicate.
Qed.

(** What one access of a thread does to the world. *)
Lemma run_access t (w w' : races) :
  race_act env w (Run t) = Some w' →
  ∃ B x (m : M session_world B) k b y,
    code_at t (st w) = Access x m k ∧ m (session_part w) = (Done b, y) ∧
    w' = World (set_code t (k b) (set_shared (st y) (st w))) (tr y).
Proof.
  cbn. destruct (code_at t (st w)) as [|B x m k] eqn:Hc; [done|]. unfold in_session.
  destruct (m (session_part w)) as [[b|] y] eqn:Hm; [|done]. intros [= <-].
  by exists B, x, m, k, b, y.
Qed.

Lemma sim_begin (w w' : races) l p :
  tracked w p → race_act env w (Begin l) = Some w' →
  ∃ p', tracked w' p' ∧ protocol_step p p'.
Proof.
  intros [Hw Hb Hd Ht] Ha. cbn in Ha.
  destruct (comes_in l) eqn:Hin; [|done].
  destruct (code_at (thread_of l) (st w)) as [a|] eqn:Hc; [|done]. cbn in Ha.
  injection Ha as <-. exists p. destruct p as [y g os]. cbn [world_of phase_of owes] in *.
  split; [|apply by_anyone, calm_refl].
  destruct (thread_of l) eqn:Hl; cbn in Hc.
  - split; cbn; try done. by apply binder_conforms.
  - rewrite Hc in Hd. cbn in Hd. subst g. split; cbn; try done. by apply device_conforms.
  - by destruct l.
Qed.

Lemma sim_run (w w' : races) t p :
  tracked w p → race_act env w (Run t) = Some w' →
  ∃ p', tracked w' p' ∧ protocol_step p p'.
Proof.
  intros [Hw Hb Hd Ht] Ha. destruct p as [y g os]. cbn [world_of phase_of owes] in *. subst y.
  destruct (run_access _ _ _ Ha) as (B & x & m & k & b & y & Hc & Hm & ->).
  assert (Hy : World (st y) (tr y) = y) by by destruct y.
  destruct t as [| |n]; cbn in Hc.
  - rewrite Hc in Hb. destruct Hb as [_ Hb]. destruct (Hb _ _ _ Hm) as ([] & Hcalm & Hk).
    eexists. split; [|by apply by_anyone]. by split.
  - rewrite Hc in Hd. destruct Hd as [_ Hd]. destruct (Hd _ _ _ Hm) as (g' & Hmove & Hk).
    eexists. split; [|by apply by_device]. by split.
  - destruct (timers (st w) !! n) as [c|] eqn:Hn; [|done]. cbn in Hc. subst c.
    destruct (Forall2_lookup_l _ _ _ _ _ Ht Hn) as (o & Ho & Hto).
    destruct Hto as [_ Hto]. destruct (Hto _ _ _ Hm) as (o' & Hmove & Hk).
    eexists. split; [|by eapply by_timer]. split; try done.
    cbn. by apply Forall2_insert.
Qed.

Lemma sim_act (w w' : races) a p :
  tracked w p → race_act env w a = Some w' → ∃ p', tracked w' p' ∧ protocol_step p p'.
Proof.
  intros Hp Ha. destruct a as [l| |o|t]; [by eapply sim_begin| | |by eapply sim_run];
    destruct Hp as [Hw Hb Hd Ht]; destruct p as [y g os]; cbn [world_of phase_of owes] in *;
    subst y; cbn in Ha.
  - case_decide as Hl; [|done]. injection Ha as <-. eexists.
    split; [|apply by_waking; by rewrite <- (Forall2_length _ _ _ Ht)].
    split; cbn; try done. apply Forall2_app; [done|]. by repeat constructor; apply timer_conforms.
  - unfold in_session in Ha.
    destruct (runUdfpsWorker o (session_part w)) as [[[]|] y'] eqn:Hm; [|done].
    injection Ha as <-. eexists. split; [|apply by_anyone].
    2: { eapply (calm_perform env (UdfpsWorker o)); [by intros []|]. exact Hm. }
    split; cbn; try done. by destruct y'.
Qed.

(** An invariant of the protocol holds in every interleaving. *)
Lemma races_keep_from (I : protocol → Prop) acts (w w' : races) p :
  (∀ p p', I p → protocol_step p p' → I p') →
  tracked w p → I p → race_run env w acts = Some w' →
  ∃ p', tracked w' p' ∧ I p'.
Proof.
  intros Hstep. revert w p. induction acts as [|a acts IH]; intros w p Hp Hi Hr;
    cbn in Hr; [simplify_eq; eauto|].
  destruct (race_act env w a) as [w1|] eqn:Ha; [|done].
  destruct (sim_act _ _ _ _ Hp Ha) as (p' & Hp' & Hs). eauto.
Qed.

Lemma races_keep (I : protocol → Prop) s acts (w : races) :
  I (protocol_start s) → (∀ p p', I p → protocol_step p p' → I p') →
  race_run env (at_rest s) acts = Some w →
  ∃ p, tracked w p ∧ I p.
Proof. intros H0 Hstep. eapply races_keep_from; eauto using tracked_at_rest. Qed.
End simulation.

(** ** One timer at a time *)

Definition owed (os : list bool) : nat := sum_list_with Nat.b2n os.

(** The timers asleep, or awake and not yet done with the mark. *)
Definition owing (p : protocol) : nat :=
  (spawned (world_of p) - length (owes p)) + owed (owes p).

(** The timers asleep. *)
Definition sleeping (w : races) : nat := count is_spawn (tr w) - length (timers (st w)).

(** How many there can be: before a timer is started, while it is and nobody has marked
    it, and otherwise. *)
Definition most (g : phase) (mark : bool) : nat :=
  match g with Starting => 0 | Spawned => 1 | _ => if mark then 1 else 0 end.

Record timers_ok (p : protocol) : Prop := {
  timers_woken : (length (owes p) <= spawned (world_of p))%nat;
  timers_owing : (owing p <= most (phase_of p) (started (world_of p)))%nat
}.

Lemma count_none p h : Forall (λ c, p c = false) h → count p h = 0%nat.
Proof. induction 1 as [|c h Hc _ IH]; [done|]. by rewrite count_cons, Hc, IH. Qed.

Lemma calm_counts w w' : calm w w' → spawned w' = spawned w ∧ seen w' = seen w.
Proof.
  intros [_ _ _ (h & Hh & Hp)]. unfold spawned, seen. rewrite Hh, !count_app.
  rewrite (count_none is_spawn h), (count_none is_failure h); [lia|..];
    (eapply Forall_impl; [exact Hp|by intros c (H1 & H2 & _)]).
Qed.

Lemma owed_app os os' : owed (os ++ os') = (owed os + owed os')%nat.
Proof. apply sum_list_with_app. Qed.

Lemma owed_insert os n o o' :
  os !! n = Some o → (owed (<[n := o']> os) + Nat.b2n o = owed os + Nat.b2n o')%nat.
Proof.
  revert n. induction os as [|x os IH]; intros [|n] Hn; cbn in *; try done.
  - injection Hn as ->. lia.
  - rewrite <- !Nat.add_assoc. f_equal. exact (IH n Hn).
Qed.

Lemma spawned_snoc x h c :
  spawned (World x (h ++ [c])) = ((if is_spawn c then 1 else 0) + count is_spawn h)%nat.
Proof. unfold spawned. cbn. rewrite count_app, count_cons, count_nil. lia. Qed.

Lemma device_timers w g w' g' os :
  device_move g w g' w' →
  timers_ok {| world_of := w; phase_of := g; owes := os |} →
  timers_ok {| world_of := w'; phase_of := g'; owes := os |}.
Proof.
  intros Hm [Hl Ho]. unfold owing in Ho. cbn [world_of phase_of owes] in Hl, Ho.
  destruct Hm as [g w w' Hc|g w Hg| | | | | | | |mode c w Ha Hsp Hf|w Hst| |];
    [destruct (calm_counts _ _ Hc) as [Hs _]; destruct Hc as [_ _ Hst _]|..];
    (split; unfold owing; cbn [world_of phase_of owes];
     rewrite ?spawned_snoc, ?Hsp; cbn [is_spawn];
     unfold started, spawned in *; cbn in *; rewrite ?Hs, ?Hst in *; try lia).
  destruct g; try done; cbn in *; destruct (mIsLockoutTimerStarted _); lia.
Qed.

Lemma timers_step p p' : timers_ok p → protocol_step p p' → timers_ok p'.
Proof.
  intros Hp Hs. destruct Hs as [w w' g os Hc|w w' g g' os Hm|n o w w' g o' os Ho Hm|w g os Hl].
  - by eapply device_timers; [apply device_calm|].
  - by eapply device_timers.
  - pose proof (owed_insert os n o o' Ho) as Hw.
    destruct Hm as [o w w' Hc|w].
    + rewrite (list_insert_id os n o Ho). by eapply device_timers; [apply device_calm|].
    + destruct Hp as [Hl Hg]. unfold owing in Hg. cbn [world_of phase_of owes Nat.b2n] in *.
      split; unfold owing; cbn [world_of phase_of owes]; rewrite length_insert; [done|].
      unfold most, started, spawned in *. cbn [st over self set_started set_timer tr
        mIsLockoutTimerStarted].
      destruct g; try destruct (mIsLockoutTimerStarted _); lia.
  - destruct Hp as [Hl' Hg]. unfold owing in Hg. cbn [world_of phase_of owes] in *.
    split; unfold owing; cbn [world_of phase_of owes]; rewrite length_app; cbn [length]; [lia|].
    rewrite owed_app. cbn. lia.
Qed.

Lemma timers_start s : fired s = spawned (sys_world s) → timers_ok (protocol_start s).
Proof.
  intros Hf. split; unfold owing; cbn [protocol_start world_of phase_of owes];
    rewrite length_replicate; [lia|].
  replace (owed _) with 0%nat; [lia|]. clear Hf. by induction (fired s).
Qed.

Lemma timers_initial ptr uid start0 mode0 enrolled :
  timers_ok (protocol_start (initial ptr uid start0 mode0 enrolled)).
Proof. by apply timers_start. Qed.

(** ** A lockout is earned *)














(** ** Which members the threads race on *)

Inductive kind : Set := ABinder | ADevice | ATimer.

Definition kind_of (t : thread) : kind :=
  match t with Binder => ABinder | Device => ADevice | Timer _ => ATimer end.

Definition raceable (k k' : kind) (m : member) : bool :=
  match k, k' with
  | ABinder, ADevice | ADevice, ABinder => bool_decide (m ≠ TimerStarted)
  | ABinder, ATimer | ATimer, ABinder => bool_decide (m ∈ [TimedStart; CurrentMode; TimerAborted])
  | ADevice, ATimer | ATimer, ADevice => bool_decide (m ∉ [FailedCount; Closed])
  | ATimer, ATimer => bool_decide (m = TimerAborted)
  | _, _ => false
  end.

(** A thread's next access is one its phase allows. *)
Definition uses (p : protocol) (t : thread) (x : access) : Prop :=
  match t with
  | Binder => binder_uses () x = true
  | Device => device_uses (phase_of p) x = true
  | Timer n => ∃ o, owes p !! n = Some o ∧ timer_uses o x = true
  end.

Lemma tracked_uses (w : races) p t x :
  tracked w p → next_access t (st w) = Some x → uses p t x.
Proof.
  intros [_ Hb Hd Ht] Hx. unfold next_access in Hx.
  destruct (code_at t (st w)) as [|B y m k] eqn:Hc; [done|]. injection Hx as ->.
  destruct t as [| |n]; cbn in *.
  - rewrite Hc in Hb. by destruct Hb.
  - rewrite Hc in Hd. by destruct Hd.
  - destruct (timers (st w) !! n) as [c|] eqn:Hn; [|done]. cbn in Hc. subst c.
    destruct (Forall2_lookup_l _ _ _ _ _ Ht Hn) as (o & Ho & [Hu _]). eauto.
Qed.

Lemma owed_two os n n' :
  n ≠ n' → os !! n = Some true → os !! n' = Some true → (2 <= owed os)%nat.
Proof.
  intros Hn H1 H2. pose proof (owed_insert os n true false H1) as E1.
  pose proof (owed_insert (<[n := false]> os) n' true false) as E2.
  rewrite list_lookup_insert_ne in E2 by done. specialize (E2 H2). cbn [Nat.b2n] in *. lia.
Qed.

Lemma most_one g mark : (most g mark <= 1)%nat.
Proof. destruct g, mark; cbn; lia. Qed.

Lemma conflict_allowed p t t' x y m :
  timers_ok p → t ≠ t' → uses p t x → uses p t' y → conflict x y = Some m →
  raceable (kind_of t) (kind_of t') m = true.
Proof.
  intros [Hl Ho] Hne Hx Hy Hc. pose proof (most_one (phase_of p) (started (world_of p))) as H1.
  assert (H2 : ∀ n n', n ≠ n' → owes p !! n = Some true → owes p !! n' = Some true → False).
  { intros n n' Hn Hn1 Hn2. pose proof (owed_two _ _ _ Hn Hn1 Hn2). unfold owing in Ho. lia. }
  destruct t as [| |n], t' as [| |n']; try done; cbn [uses kind_of] in *;
    try destruct Hx as (o & Hn & Hx); try destruct Hy as (o' & Hn' & Hy).
  all: try (destruct o, o'; [exfalso; eapply (H2 n n'); congruence|..]).
  all: try destruct o; try destruct o'; destruct x as [[]|[]|]; try discriminate Hx;
    destruct y as [[]|[]|]; try discriminate Hy; try discriminate Hc;
    vm_compute in Hc; injection Hc as <-; reflexivity.
Qed.

(** ** Schedules

    In the environment [steady] a failure below the fifth takes eight accesses, the fifth
    twenty-three; [resetLockout] takes five, a timer six. *)

Definition runs (t : thread) (n : nat) : list action := replicate n (Run t).
Definition begin_failure (n : nat) : list action := Begin (result 0) :: runs Device n.
Definition begin_match (n : nat) : list action := Begin (result 1) :: runs Device n.
Definition begin_reset (n : nat) : list action := Begin ResetLockout :: runs Binder n.
Definition four_failures : list action := mjoin (replicate 4 (begin_failure 8)).
Definition five_failures : list action := four_failures ++ begin_failure 23.

(** Runs up to a race of the two kinds on the member. *)
Definition race_binder_device (m : member) : list action :=
  match m with
  | FailedCount => begin_failure 2 ++ begin_reset 0
  | TimedStart => begin_match 3 ++ begin_reset 1
  | CurrentMode => begin_match 4 ++ begin_reset 2
  | TimerAborted => four_failures ++ begin_failure 20 ++ begin_reset 4
  | TimerStarted => []
  | Closed => begin_failure 0 ++ Begin Close :: runs Binder 2
  end.

Definition race_binder_timer (m : member) : list action :=
  five_failures ++ [Wake] ++
  match m with
  | TimedStart => runs (Timer 0) 1 ++ begin_reset 1
  | CurrentMode => runs (Timer 0) 2 ++ begin_reset 2
  | TimerAborted => begin_reset 4
  | _ => []
  end.

Definition race_device_timer (m : member) : list action :=
  five_failures ++ [Wake] ++
  match m with
  | TimedStart => runs (Timer 0) 1 ++ begin_match 3
  | CurrentMode => runs (Timer 0) 2 ++ begin_match 4
  | TimerStarted => begin_failure 19 ++ runs (Timer 0) 4
  | TimerAborted => runs (Timer 0) 5 ++ begin_failure 20
  | FailedCount | Closed => []
  end.

(** A timer that has cleared its mark and not yet the aborted mark lets another one in. *)
Definition race_two_timers : list action :=
  race_device_timer TimerAborted ++ runs Device 3 ++ [Wake].

Definition race_to (k k' : kind) (m : member) : list action * thread * thread :=
  match k, k' with
  | ABinder, ADevice => (race_binder_device m, Binder, Device)
  | ADevice, ABinder => (race_binder_device m, Device, Binder)
  | ABinder, ATimer => (race_binder_timer m, Binder, Timer 0)
  | ATimer, ABinder => (race_binder_timer m, Timer 0, Binder)
  | ADevice, ATimer => (race_device_timer m, Device, Timer 0)
  | ATimer, ADevice => (race_device_timer m, Timer 0, Device)
  | ATimer, ATimer => (race_two_timers, Timer 0, Timer 1)
  | ABinder, ABinder | ADevice, ADevice => ([], Binder, Binder)
  end%nat.

Lemma race_to_races k k' m :
  raceable k k' m = true →
  let '(acts, t, t') := race_to k k' m in
  kind_of t = k ∧ kind_of t' = k' ∧ t ≠ t' ∧
  (race_run steady (at_rest new_session) acts ≫= racing t t') = Some m.
Proof. destruct k, k', m; intros H; try discriminate H; by vm_compute. Qed.

(** ** Properties *)

(** C7: the data races on a session's own members. Two threads can come to be about to access
    the same member, one of them to write it, exactly in these cases: the binder thread and
    the device's on any of the members that several threads use but the started mark, that
    the session is closed included; the binder thread and a timer on the time, the mode and
    the aborted mark; the device's thread and a timer on the time, the mode and the two
    marks; two timers on the aborted mark alone. Each of these happens in a run of a new
    session, and no environment and no interleaving has another. *)
Theorem session_races k k' m :
  raceable k k' m = true ↔
  ∃ env ptr uid start0 mode0 enrolled acts (w : races) t t',
    race_run env (at_rest (initial ptr uid start0 mode0 enrolled)) acts = Some w ∧
    kind_of t = k ∧ kind_of t' = k' ∧ t ≠ t' ∧ racing t t' w = Some m.
Proof.
  split.
  - intros Hr. pose proof (race_to_races k k' m Hr) as H.
    destruct (race_to k k' m) as [[acts t] t']. destruct H as (Hk & Hk' & Hne & H).
    apply bind_Some in H as (w & Hw & Hrace).
    by exists steady, 0%nat, 10, 0, NONE, [], acts, w, t, t'.
  - intros (env & ptr & uid & start0 & mode0 & enrolled & acts & w & t & t' & Hw & <- & <- & Hne & Hr).
    destruct (races_keep env timers_ok _ _ _ (timers_initial _ _ _ _ _) timers_step Hw) as (p & Hp & Hok).
    unfold racing in Hr. apply bind_Some in Hr as (x & Hx & Hr).
    apply bind_Some in Hr as (y & Hy & Hc).
    eapply conflict_allowed; eauto using tracked_uses.
Qed.

(** C8: at most one lockout timer sleeps, whatever the interleaving; and while the device's
    thread is not in the middle of a message, none sleeps unless the started mark is set. *)
Theorem one_timer_despite_races env ptr uid start0 mode0 enrolled acts (w : races) :
  race_run env (at_rest (initial ptr uid start0 mode0 enrolled)) acts = Some w →
  (sleeping w ≤ 1)%nat ∧
  (device_thread (st w) = Return () →
   (sleeping w ≤ if mIsLockoutTimerStarted (race_session w) then 1 else 0)%nat).
Proof.
  intros Hw.
  destruct (races_keep env timers_ok _ _ _ (timers_initial _ _ _ _ _) timers_step Hw)
    as (p & [Hs _ Hd Ht] & [Hl Ho]).
  pose proof (Forall2_length _ _ _ Ht) as Hlen.
  pose proof (most_one (phase_of p) (started (world_of p))) as H1.
  unfold owing in Ho. rewrite <- Hs in Ho, H1. rewrite <- Hlen in Ho.
  change (spawned (session_part w)) with (count is_spawn (tr w)) in Ho. unfold sleeping.
  split; [lia|]. intros Hidle. rewrite Hidle in Hd. cbn in Hd. rewrite Hd in Ho. cbn [most] in Ho.
  change (started (session_part w)) with (mIsLockoutTimerStarted (race_session w)) in Ho. lia.
Qed.


(** A schedule has a run, and its end a property that can be decided. *)
Lemma run_checked (x : option races) (P : races → Prop) `{∀ w : races, Decision (P w)} :
  (w ← x; mret (bool_decide (P w))) = Some true → ∃ w : races, x = Some w ∧ P w.
Proof.
  destruct x as [w|]; [|done]. cbn. intros [= HP]. exists w. split; [done|].
  by apply bool_decide_eq_true in HP.
Qed.

Example one_timer_despite_races_witness :
  ∃ w : races, race_run steady (at_rest new_session) race_two_timers = Some w ∧
    length (timers (st w)) = 2%nat ∧ (sleeping w ≤ 1)%nat.
Proof.
  destruct (run_checked (race_run steady (at_rest new_session) race_two_timers)
    (λ w : races, length (timers (st w)) = 2%nat)) as (w & Hw & Hl); [vm_compute; reflexivity|].
  exists w. split; [exact Hw|]. split; [exact Hl|].
  exact (proj1 (one_timer_despite_races steady 0%nat 10 0 NONE [] race_two_timers w Hw)).
Defined.



(** ** The harm of the races *)

(** Neither a reset nor a match begins. *)
Definition begins_no_unlock (a : action) : bool :=
  match a with Begin l => negb (unlocks l) | _ => true end.

Definition all_idle (w : races) : bool :=
  idle (binder (st w)) && idle (device_thread (st w)) && forallb idle (timers (st w)).

(** A timer of a timed lockout that has looked at the aborted mark when the twentieth
    failure comes. *)
Definition timer_against_permanent : list action :=
  five_failures ++ mjoin (replicate 14 (begin_failure 20)) ++
  [Wake] ++ runs (Timer 0) 1 ++ begin_failure 12 ++ runs (Timer 0) 5.

(** a permanent lockout can be lost. A timer of an earlier timed lockout wakes up and
    finds that it is not aborted; the twentieth failure then makes the lockout permanent,
    announces it and marks the timer aborted, too late: the timer clears the lockout. No
    reset and no match has begun, every thread has ended, the framework was told that the
    lockout is permanent and then that it is over. Where events run to completion this is
    impossible. *)
Theorem permanent_lockout_lost_by_race :
  forallb begins_no_unlock timer_against_permanent = true ∧
  ∃ w : races, race_run steady (at_rest new_session) timer_against_permanent = Some w ∧
    all_idle w = true ∧ race_mode w = NONE ∧ failed w = 20%nat ∧
    ∃ h, tr w = h ++ [cb_onLockoutPermanent; cb_onLockoutCleared].
Proof.
  split; [by vm_compute|].
  destruct (race_run steady (at_rest new_session) timer_against_permanent) as [w|] eqn:Hw;
    [|by vm_compute in Hw].
  exists w. split; [done|]. vm_compute in Hw.
  split; [|split; [|split; [|exists (take (length (tr w) - 2) (tr w))]]];
    injection Hw as <-; by vm_compute.
Qed.

(** [resetLockout] between the read and the write of [mFailedCount++]. *)
Definition reset_against_increment : list action :=
  four_failures ++ begin_failure 3 ++ begin_reset 5 ++ runs Device 20.

(** a reset can be lost. It comes while the fifth failure increments the counter,
    between its read and its write: the counter goes from zero to five and the sensor is
    locked out by a single failure after the reset. In either order of the two events, each
    run to completion, there is no lockout at the end. *)
Theorem reset_lost_by_race :
  (∃ w : races, race_run steady (at_rest new_session) reset_against_increment = Some w ∧
     all_idle w = true ∧ race_mode w = TIMED ∧
     mFailedCount (mLockoutTracker (race_session w)) = 5) ∧
  Forall (λ ls, ∃ s, sys_execs steady new_session (replicate 4 (result 0) ++ ls) = Some s ∧
      mode_of s = NONE)
    [[result 0; ResetLockout]; [ResetLockout; result 0]].
Proof.
  split.
  - destruct (run_checked (race_run steady (at_rest new_session) reset_against_increment)
      (λ w : races, all_idle w = true ∧ race_mode w = TIMED ∧
        mFailedCount (mLockoutTracker (race_session w)) = 5)) as (w & Hw & H);
      [vm_compute; reflexivity|].
    exists w. split; [exact Hw|exact H].
  - repeat constructor; (eexists; split; [vm_compute; reflexivity|vm_compute; reflexivity]).
Qed.

(** [resetLockout] while the fifth failure is handled, after the mode was read: the time left
    is then zero, and the timer wakes up before the device's thread has marked it. *)
Definition timer_against_mark : list action :=
  four_failures ++ begin_failure 13 ++ begin_reset 5 ++ runs Device 7 ++
  [Wake] ++ runs (Timer 0) 6 ++ runs Device 1.

(** The started mark is set and there is no timer. *)
Record marked_without_timer (k : nat) (p : protocol) : Prop := {
  marked_started : started (world_of p) = true;
  marked_spawned : spawned (world_of p) = k;
  marked_woken : length (owes p) = k;
  marked_done : Forall (λ o, o = false) (owes p);
  marked_phase : phase_of p ≠ Starting ∧ phase_of p ≠ Spawned
}.

Lemma marked_calm k w w' g os :
  calm w w' → marked_without_timer k {| world_of := w; phase_of := g; owes := os |} →
  marked_without_timer k {| world_of := w'; phase_of := g; owes := os |}.
Proof.
  intros Hc [Hst Hsp Hw Hd Hp]. destruct (calm_counts _ _ Hc) as [Hs _].
  destruct Hc as [_ _ Hs' _]. cbn [world_of phase_of owes] in *.
  split; cbn [world_of phase_of owes]; congruence.
Qed.

Lemma marked_step k p p' :
  marked_without_timer k p → protocol_step p p' → marked_without_timer k p'.
Proof.
  intros Hp Hs.
  destruct Hs as [w w' g os Hc|w w' g g' os Hm|n o w w' g o' os Ho Hm|w g os Hl].
  - by eapply marked_calm.
  - destruct Hm as [g w w' Hc| | | | | | | | |mode c w Ha Hns Hf|w Hs| |];
      [by eapply marked_calm|..]; destruct Hp as [Hst Hsp Hw Hd [Hp1 Hp2]];
      cbn [world_of phase_of owes] in *; try congruence;
      (split; cbn [world_of phase_of owes]; rewrite ?spawned_snoc, ?Hns; done).
  - destruct Hm as [o w w' Hc|w]; [rewrite (list_insert_id os n o Ho); by eapply marked_calm|].
    destruct Hp as [_ _ _ Hd _]. cbn in Hd. rewrite Forall_lookup in Hd.
    by specialize (Hd n true Ho).
  - destruct Hp as [_ Hsp Hw _ _]. cbn [world_of owes] in *. lia.
Qed.

Lemma tracked_rest s : (fired s = spawned (sys_world s))%nat → started (sys_world s) = true →
  tracked (at_rest s) (protocol_start s) ∧ marked_without_timer (fired s) (protocol_start s).
Proof.
  intros Hf Hs. split; [apply tracked_at_rest|]. split; cbn; try done.
  - by rewrite length_replicate.
  - by apply Forall_replicate.
Qed.

(** C39: the started mark can be stuck. If the timer wakes up between [startLockoutTimer]'s
    [detach] and its last line, which sets the mark, the mark outlives the timer: every
    thread has ended, no timer sleeps, and whatever happens from there, in any environment,
    the mark stays set and no lockout timer is ever started again. A later timed lockout is
    then never announced over. *)
Theorem started_mark_stuck_by_race :
  ∃ w : races, race_run steady (at_rest new_session) timer_against_mark = Some w ∧
    all_idle w = true ∧ sleeping w = 0%nat ∧
    ∀ env acts (w' : races), race_run env w acts = Some w' →
      mIsLockoutTimerStarted (race_session w') = true ∧
      count is_spawn (tr w') = count is_spawn (tr w) ∧ sleeping w' = 0%nat.
Proof.
  destruct (race_run steady (at_rest new_session) timer_against_mark) as [w|] eqn:Hw;
    [|by vm_compute in Hw].
  assert (H : w = at_rest {| sys_world := session_part w; fired := 1 |} ∧
    all_idle w = true ∧ sleeping w = 0%nat ∧ spawned (session_part w) = 1%nat ∧
    started (session_part w) = true).
  { vm_compute in Hw. injection Hw as <-. by vm_compute. }
  destruct H as (Hrest & Ha & Hsl & Hsp & Hst).
  exists w. split; [reflexivity|]. split; [exact Ha|]. split; [exact Hsl|].
  clear Hw. intros env acts w' Hr.
  set (s := {| sys_world := session_part w; fired := 1 |}) in *.
  destruct (tracked_rest s (eq_sym Hsp) Hst) as [Ht Hm]. rewrite Hrest in Hr.
  destruct (races_keep_from env (marked_without_timer 1) acts _ w' _
    (marked_step 1) Ht Hm Hr) as (p & [Hs _ _ Hto] & [Hst' Hsp' Hlen _ _]).
  rewrite <- Hs in Hst', Hsp'. pose proof (Forall2_length _ _ _ Hto) as Hl.
  change (count is_spawn (tr w)) with (spawned (session_part w)).
  change (count is_spawn (tr w')) with (spawned (session_part w')).
  repeat split; [exact Hst'|congruence|]. unfold sleeping.
  change (count is_spawn (tr w')) with (spawned (session_part w')). lia.
Qed.
