(* ===== verification/SessionCalls.v ===== *)
(** * What the operations of a session do to the outside

    The calls each operation of [fingerprint/Session.cpp] makes, in order: the panel and
    the finger it leaves behind, the answers of the device it passes on, the codes it
    translates, the lists it collects. *)

From S2P Require Import Prelude Words Lockout Token Udfps FpTypes Session SessionSystem.
Import Lockout.

(** ** What a trace says about the panel and the finger *)

(** Whether the last write to [force_fod_ui] lit the panel. *)
Definition panel (h : list fp_call) : bool :=
  foldl (λ lit c, match c with sysfs_fod_hbm v => bool_decide (v = "1"%string) | _ => lit end)
    false h.

(** Whether the last command told the sensor that the finger is down. *)
Definition sensor (h : list fp_call) : bool :=
  foldl (λ down c, match c with dev_goodixExtCmd cmd _ => bool_decide (cmd = 1) | _ => down end)
    false h.

Definition lights (c : fp_call) : bool :=
  match c with sysfs_fod_hbm v => bool_decide (v = "1"%string) | _ => false end.

(** The events that end the use of the sensor. *)
Definition ends_use (l : label) : bool :=
  match l with
  | RevokeChallenge _ | Cancel | Close => true
  | Notify (FINGERPRINT_TEMPLATE_ENROLLING _ n) => n =? 0
  | Notify (FINGERPRINT_AUTHENTICATED finger _) => negb (fid finger =? 0)
  | _ => false
  end.

(** The messages of one enumeration of the fingers [fids]: the device counts down. *)
Fixpoint enumeration (group : Z) (fids : list Z) : list fingerprint_msg_t :=
  match fids with
  | [] => []
  | f :: fids' =>
      FINGERPRINT_TEMPLATE_ENUMERATING {| gid := group; fid := f |} (Z.of_nat (length fids'))
        :: enumeration group fids'
  end.

#[global] Arguments panel : simpl never.
#[global] Arguments sensor : simpl never.

Section calls.
Context (env : environment).

Abbreviation world_t := (world session_state fp_call).

Lemma panel_snoc h c :
  panel (h ++ [c]) = match c with sysfs_fod_hbm v => bool_decide (v = "1"%string) | _ => panel h end.
Proof. unfold panel. by rewrite foldl_app. Qed.

Lemma panel_dark h l : Forall (λ c, lights c = false) l → panel h = false → panel (h ++ l) = false.
Proof.
  intros Hl. revert h. induction Hl as [|c l Hc Hl IH]; intros h Hh; [by rewrite app_nil_r|].
  rewrite (assoc_L _ h [c] l : h ++ c :: l = _). apply IH. rewrite panel_snoc.
  destruct c; done.
Qed.

(** Every event but the two that start an operation leaves a dark panel dark. *)
Lemma logs_dark l :
  match l with Enroll _ | Authenticate _ => False | _ => True end →
  logs (λ c, lights c = false) (perform env l).
Proof. intros Hl. destruct l; try done; cbn [perform]; solve_logs. Qed.

(** C29: whatever ends the use of the sensor (revoking the challenge, cancelling, closing,
    the last sample of an enrollment, a match) takes the finger off the sensor and turns
    the panel's illumination off: afterwards the last command sent is finger-up, the last
    write to the panel is dark, and the handler neither holds a finger nor waits for
    one. It is so even if a second close then deletes the recipient that is gone. *)
Theorem ending_releases_sensor l w :
  ends_use l = true →
  let w' := (perform env l w).2 in
  panel (tr w') = false ∧ sensor (tr w') = false ∧
  Udfps.mFingerDown (mUdfpsHandler (self (st w'))) = false ∧
  Udfps.mPending (mUdfpsHandler (self (st w'))) = false.
Proof.
  intros Hl. destruct l as [| | | | | | | | | | | | | | | | | | | |[]| |]; try done; cbn in Hl;
    cbv zeta; unfold perform, ignore, notify, revokeChallenge, cancel, close, delete_recipient.
  4: rewrite decide_True by lia.
  5: rewrite decide_True by lia.
  all: run_session; try (case_decide; run); try (destruct (mDeathRecipient _); run);
    unfold panel, sensor; cbn; by rewrite ?foldl_app.
Qed.

(** only starting an operation lights the panel. If an event finds the panel dark and
    leaves it lit, it is [enroll] or [authenticate], and the device took the request: the
    call it made for it answered 0. *)
Theorem panel_lit_by_start l w w' :
  perform env l w = (Done (), w') → panel (tr w) = false → panel (tr w') = true →
  ∃ c, (match l, c with
        | Enroll _, dev_enroll _ _ _ => True
        | Authenticate _, dev_authenticate _ _ => True
        | _, _ => False
        end) ∧
    tr w' = tr w ++ [c; sysfs_fod_hbm "1"] ∧ i32 (device env (tr w ++ [c])) = 0.
Proof.
  intros Hw Hd Hlit.
  destruct (match l with Enroll _ | Authenticate _ => true | _ => false end) eqn:Hl.
  2: { destruct (logs_dark l ltac:(by destruct l) w) as (h & Hh & Hdark).
       rewrite Hw in Hh. cbn in Hh. rewrite Hh, (panel_dark _ _ Hdark Hd) in Hlit. done. }
  destruct l; try done; clear Hl.
  all: revert Hw; unfold perform, ignore, enrollWithContext, authenticateWithContext,
    enroll, authenticate; run_session.
  all: try (destruct (Token.translate _ _); run; [|done]).
  all: case_decide as He; run; intros [= <-]; cbn in Hlit |- *.
  1, 3: rewrite panel_dark in Hlit; [done| |done]; by repeat constructor.
  all: eexists; split_and!; [|done|done]; done.
Qed.

(** ** Collecting an enumeration *)

Lemma enumerating_run finger n w :
  notify env (FINGERPRINT_TEMPLATE_ENUMERATING finger n) w =
  let found := enrollments (st w) ++ [i32 (fid finger)] in
  if decide (n = 0)
  then (Done (), World {| self := self (st w); enrollments := [] |}
                   (tr w ++ [cb_onEnrollmentsEnumerated found]))
  else (Done (), World {| self := self (st w); enrollments := found |} (tr w)).
Proof. unfold notify. run. case_decide; by run. Qed.

(** an enumeration is answered once and completely. The messages for the fingers
    [f :: fids], counted down to zero by the device, make the session call
    [onEnrollmentsEnumerated] exactly once, with the enrollments the shared vector held
    before followed by these, in order, and leave the vector empty: from an empty vector
    the framework sees exactly the enumerated fingers, and what an interrupted
    enumeration of any session left behind is reported with the next one. *)
Theorem enumeration_reported group f fids w :
  for_each (notify env) (enumeration group (f :: fids)) w =
  (Done (), World {| self := self (st w); enrollments := [] |}
     (tr w ++ [cb_onEnrollmentsEnumerated (enrollments (st w) ++ map i32 (f :: fids))])).
Proof.
  revert f w. induction fids as [|f' fids IH]; intros f w.
  - cbn [enumeration for_each length]. unfold_monad. by rewrite enumerating_run.
  - change (enumeration group (f :: f' :: fids)) with
      (FINGERPRINT_TEMPLATE_ENUMERATING {| gid := group; fid := f |}
         (Z.of_nat (length (f' :: fids))) :: enumeration group (f' :: fids)).
    cbn [for_each]. unfold_monad. rewrite enumerating_run. cbv zeta. decides.
    rewrite IH. cbn [st tr self enrollments fid]. by rewrite <- app_assoc.
Qed.

(** [removeEnrollments] asks the device to remove every given enrollment, once each
    and in order, for the session's user; an error of the device stops nothing and is
    not reported. *)
Theorem remove_visits_every_enrollment ids w :
  removeEnrollments env ids w =
  (Done status_ok,
   World (st w) (tr w ++ map (λ fid, dev_remove (u32 (mUserId (self (st w)))) (u32 fid)) ids)).
Proof.
  unfold removeEnrollments. unfold_monad.
  assert (H : ∀ l w0, self (st w0) = self (st w) →
    for_each (λ fid, userId ← get mUserId;
                     _ ← dev_int env (dev_remove (u32 userId) (u32 fid)); mret ()) l w0 =
    (Done (), World (st w0)
       (tr w0 ++ map (λ fid, dev_remove (u32 (mUserId (self (st w)))) (u32 fid)) l))).
  { induction l as [|x l IH]; intros w0 Hw0; [destruct w0; run; by rewrite app_nil_r|].
    cbn [for_each map]. run_session. rewrite IH by done. cbn [st tr]. rewrite Hw0.
    by rewrite <- app_assoc. }
  unfold mbind, M_bind, mret, M_ret in H. by rewrite H.
Qed.

(** ** Failed attempts *)

(** What the framework and the hardware see after a failed match. *)
Definition failure_report (mode : LockoutMode) (left : Z) (timer_runs : bool) : list fp_call :=
  cb_onAuthenticationFailed ::
  match mode with
  | NONE => []
  | PERMANENT => [finger_cmd false; sysfs_fod_hbm "0"; cb_onLockoutPermanent]
  | TIMED => [finger_cmd false; sysfs_fod_hbm "0"; cb_onLockoutTimed left] ++
             if timer_runs then [] else [spawn_lockout_timer left]
  end.

(** C17: a failed match is reported first, then counted, then the lockout it causes is
    announced, in whatever state the session is below 2^31 - 1 failures. The mode becomes the
    one the thresholds prescribe for the new count and below five failures stays what it was;
    a timed lockout that the clock says is already over is none, and only then. Without a
    lockout nothing more happens; in a timed one the finger is released, the panel goes dark,
    the time left is announced, and a timer of that length starts unless the session is
    marked as having one; in a permanent one the finger and the panel likewise, it is
    announced and any timer is aborted. *)
Theorem failure_reported finger hat w :
  let x := self (st w) in
  let t := mLockoutTracker x in
  let n := mFailedCount t + 1 in
  let h := tr w ++ [cb_onAuthenticationFailed] in
  let mode := match mode_for n with NONE => mCurrentMode t | m => m end in
  let start := match mode_for n with TIMED => getSystemNanoTime env h | _ => mLockoutTimedStart t end in
  let past := bool_decide (mode = TIMED) && hasElapsed env h start LOCKOUT_TIMED_DURATION in
  let answer := if past then NONE else mode in
  fid finger = 0 → 0 ≤ mFailedCount t < 2 ^ 31 - 1 →
  ∃ w',
    let x' := self (st w') in
    let left := getLockoutTimeLeft (getSystemNanoTime env
                  (h ++ [finger_cmd false; sysfs_fod_hbm "0"])) (mLockoutTracker x') in
    notify env (FINGERPRINT_AUTHENTICATED finger hat) w = (Done (), w') ∧
    tr w' = tr w ++ failure_report answer left (mIsLockoutTimerStarted x) ∧
    mLockoutTracker x' = {| mFailedCount := n; mLockoutTimedStart := if past then 0 else start;
                            mCurrentMode := answer |} ∧
    mIsLockoutTimerStarted x' = mIsLockoutTimerStarted x || bool_decide (answer = TIMED) ∧
    mIsLockoutTimerAborted x' = match answer with
                                | NONE => mIsLockoutTimerAborted x
                                | TIMED => mIsLockoutTimerStarted x && mIsLockoutTimerAborted x
                                | PERMANENT => true
                                end.
Proof.
  cbv zeta. intros Hf Hn. set (h := tr w ++ _).
  pose proof (addFailedAttempt_run (getSystemNanoTime env h) (mLockoutTracker (self (st w))) Hn) as Ht.
  unfold notify. decides. unfold checkSensorLockout. run_session. fold h. rewrite Ht.
  set (n := mFailedCount _ + 1). set (mode := match mode_for n with NONE => _ | m => m end).
  set (start := match mode_for n with TIMED => _ | _ => _ end).
  rewrite getMode_run. cbv zeta.
  cbn [mLockoutTracker set_tracker mCurrentMode mLockoutTimedStart mFailedCount].
  set (past := bool_decide (mode = TIMED) && _). cbn [fst snd].
  clear Ht. clearbody past start. clearbody mode n.
  destruct past, mode; decides; run_session; cbn;
    try destruct (mIsLockoutTimerStarted (self (st w))) eqn:Hs; run_session; cbn;
    eexists; (split; [reflexivity|]); cbn; rewrite ?Hs; split_and!; try done;
    unfold h; by rewrite <- app_assoc.
Qed.

(** the lockout does not gate authentication. Whatever the tracker holds, and so in a
    permanent lockout too, [authenticate] sends the device the same request and reports
    and answers the same; and a match that follows clears the lockout. *)
Theorem authenticate_ignores_lockout operationId finger hat t w :
  let locked := World (over (set_tracker t) (st w)) (tr w) in
  (authenticate env operationId locked).1 = (authenticate env operationId w).1 ∧
  tr (authenticate env operationId locked).2 = tr (authenticate env operationId w).2 ∧
  head (drop (length (tr w)) (tr (authenticate env operationId locked).2)) =
    Some (dev_authenticate (u64 operationId) (u32 (mUserId (self (st w))))) ∧
  (fid finger ≠ 0 →
   mLockoutTracker (self (st (notify env (FINGERPRINT_AUTHENTICATED finger hat) locked).2)) =
   reset true t).
Proof.
  cbv zeta. unfold authenticate. run_session. cbn.
  split_and!; [case_decide; by run..| |].
  - case_decide; run; cbn; by rewrite drop_app_length.
  - intros Hf. unfold notify. decides. by run_session.
Qed.

(** ** Starting and cancelling an operation *)

(** [enroll] hands the device the packed token for the session's user with a timeout of
    60 seconds. If the device refuses, the framework gets exactly one error with the
    device's code and the panel stays as it was; if it accepts, the panel is lit. In both
    cases the caller gets a signal for this session. A token code longer than the packed
    array is written past its end. *)
Theorem enroll_outcome hat w :
  let x := self (st w) in
  match Token.translate hat (stack_token env (tr w)) with
  | Fault e => e = OutOfBounds ∧ enroll env hat w = (Fault OutOfBounds, w) ∧
      (length (Token.hw_hmac (stack_token env (tr w))) < length (Token.mac hat))%nat
  | Done token =>
      let c := dev_enroll token (u32 (mUserId x)) 60 in
      let error := i32 (device env (tr w ++ [c])) in
      enroll env hat w =
      (Done (status_ok, {| mSession := this x |}),
       World (st w) (tr w ++ [c; if decide (error = 0) then sysfs_fod_hbm "1"
                                 else cb_onError Error.UNABLE_TO_PROCESS error]))
  end.
Proof.
  cbv zeta. unfold enroll. run_session.
  destruct (Token.translate _ _) as [token|e] eqn:Ht; run.
  - repeat case_decide; by run.
  - unfold Token.translate in Ht. case_decide; simplify_eq. split_and!; [done..|lia].
Qed.

(** [cancel] always releases the finger and darkens the panel, then asks the device. If
    it answers 0 the framework is told CANCELED and the call succeeds; any other answer is
    returned as a service-specific error and nothing is reported to the callback. *)
Theorem cancel_outcome w :
  let h := tr w ++ [finger_cmd false; sysfs_fod_hbm "0"; dev_cancel] in
  let ret := i32 (device env h) in
  ∃ w', cancel env w =
    (Done (if decide (ret = 0) then status_ok else status_service_specific ret), w') ∧
  tr w' = h ++ (if decide (ret = 0) then [cb_onError Error.CANCELED 0] else []) ∧
  mClosed (self (st w')) = mClosed (self (st w)).
Proof.
  cbv zeta. unfold cancel. run_session.
  destruct (decide (_ = 0)); run; eexists; (split; [reflexivity|]); by rewrite ?app_nil_r.
Qed.

(** the 64-bit identifiers cross the interface unharmed: a challenge the device
    generates reaches the framework as the signed number with the same 64 bits, and so
    does the authenticator's identifier; the operation a client authenticates reaches the
    device with the same bits. *)
Theorem identifiers_keep_their_bits w operationId :
  ∃ c a o,
    tr (generateChallenge env w).2 = tr w ++ [dev_pre_enroll; cb_onChallengeGenerated c] ∧
    u64 c = u64 (device env (tr w ++ [dev_pre_enroll])) ∧
    tr (getAuthenticatorId env w).2 =
      tr w ++ [dev_get_authenticator_id; cb_onAuthenticatorIdRetrieved a] ∧
    u64 a = u64 (device env (tr w ++ [dev_get_authenticator_id])) ∧
    head (drop (length (tr w)) (tr (authenticate env operationId w).2)) =
      Some (dev_authenticate o (u32 (mUserId (self (st w))))) ∧
    (in_s 64 operationId → i64 o = operationId).
Proof.
  exists (i64 (u64 (device env (tr w ++ [dev_pre_enroll])))),
    (i64 (u64 (device env (tr w ++ [dev_get_authenticator_id])))), (u64 operationId).
  unfold generateChallenge, getAuthenticatorId, authenticate. run_session.
  split_and!; try done.
  1, 2: by apply wrap_u_s, wrap_u_range.
  - case_decide; run; by rewrite drop_app_length.
  - intros. by apply wrap_s_u.
Qed.

(** ** Codes of the legacy HAL *)

(** The codes without a meaning of their own. *)
Definition unknown_error (e : Z) : bool :=
  (e <=? 0) || ((FINGERPRINT_ERROR_LOCKOUT <? e) && (e <? FINGERPRINT_ERROR_VENDOR_BASE)).

(** what the error translation keeps apart. Two codes of the device reach the framework
    as the same error exactly when they are equal, or both are unknown or
    UNABLE_TO_PROCESS, or they are the lockout code 7 and the vendor code 1007. *)
Theorem VendorErrorFilter_collisions e1 e2 :
  let vague e := unknown_error e = true ∨ e = FINGERPRINT_ERROR_UNABLE_TO_PROCESS in
  let seven e := e = FINGERPRINT_ERROR_LOCKOUT ∨
                 e = FINGERPRINT_ERROR_VENDOR_BASE + FINGERPRINT_ERROR_LOCKOUT in
  VendorErrorFilter e1 = VendorErrorFilter e2 ↔
  e1 = e2 ∨ (vague e1 ∧ vague e2) ∨ (seven e1 ∧ seven e2).
Proof.
  cbv zeta. unfold VendorErrorFilter, unknown_error, FINGERPRINT_ERROR_HW_UNAVAILABLE,
    FINGERPRINT_ERROR_UNABLE_TO_PROCESS, FINGERPRINT_ERROR_TIMEOUT,
    FINGERPRINT_ERROR_NO_SPACE, FINGERPRINT_ERROR_CANCELED,
    FINGERPRINT_ERROR_UNABLE_TO_REMOVE, FINGERPRINT_ERROR_LOCKOUT,
    FINGERPRINT_ERROR_VENDOR_BASE.
  rewrite !orb_true_iff, !andb_true_iff, !Z.leb_le, !Z.ltb_lt.
  repeat match goal with |- context [(?x =? ?y)] => destruct (Z.eqb_spec x y) end;
  repeat match goal with |- context [(?x <=? ?y)] => destruct (Z.leb_spec x y) end;
  split; intros; simplify_eq; try lia; f_equal; lia.
Qed.

(** what an acquisition message turns into. The framework is told of it unless the code
    is a vendor's (1000 and above), always with vendor code 0, and never as VENDOR; the
    session's state does not change. The code 6 of the legacy interface, and every other
    one without a translation, is reported as INSUFFICIENT. *)
Theorem acquired_reported info w :
  notify env (FINGERPRINT_ACQUIRED info) w =
  (Done (), World (st w) (tr w ++
     if decide (FINGERPRINT_ACQUIRED_VENDOR_BASE ≤ info) then []
     else [cb_onAcquired (VendorAcquiredFilter info).1 0])) ∧
  (info < FINGERPRINT_ACQUIRED_VENDOR_BASE →
   (VendorAcquiredFilter info).1 ≠ AcquiredInfo.VENDOR ∧
   ((VendorAcquiredFilter info).1 = AcquiredInfo.INSUFFICIENT ↔
    info = FINGERPRINT_ACQUIRED_INSUFFICIENT ∨ info < 0 ∨ FINGERPRINT_ACQUIRED_DETECTED ≤ info)).
Proof.
  unfold notify, VendorAcquiredFilter, FINGERPRINT_ACQUIRED_GOOD,
    FINGERPRINT_ACQUIRED_PARTIAL, FINGERPRINT_ACQUIRED_INSUFFICIENT,
    FINGERPRINT_ACQUIRED_IMAGER_DIRTY, FINGERPRINT_ACQUIRED_TOO_SLOW,
    FINGERPRINT_ACQUIRED_TOO_FAST, FINGERPRINT_ACQUIRED_DETECTED,
    FINGERPRINT_ACQUIRED_VENDOR_BASE.
  repeat match goal with |- context [(?x =? ?y)] => destruct (Z.eqb_spec x y) end;
  repeat match goal with |- context [(?x <=? ?y)] => destruct (Z.leb_spec x y) end;
  decides; run; destruct w; rewrite ?app_nil_r;
  (split; [done|]); intros; (split; [done || lia|]); split; intros; done || lia.
Qed.

(** ** The end of a session *)

(** the death of the client closes an open session and does nothing to a closed one. But
    [close] itself is not guarded: a client that closes a second time has the session report
    its end again, and delete a death recipient that no longer exists. *)
Theorem close_and_client_death w :
  let x := self (st w) in
  let first := [finger_cmd false; sysfs_fod_hbm "0"; cb_onSessionClosed] in
  (mClosed x = true → onClientDeath w = (Done (), w)) ∧
  (mClosed x = false → (onClientDeath w).2 = (close w).2) ∧
  mClosed (self (st (close w).2)) = true ∧
  onClientDeath (close w).2 = (Done (), (close w).2) ∧
  (mDeathRecipient x = true → (close w).1 = Done status_ok ∧
     tr (close w).2 = tr w ++ first ++ [death_recipient_delete]) ∧
  (mDeathRecipient x = false → (close w).1 = Fault UseAfterFree ∧
     tr (close w).2 = tr w ++ first) ∧
  (mDeathRecipient x = true → (close (close w).2).1 = Fault UseAfterFree).
Proof.
  cbv zeta. unfold onClientDeath, close, delete_recipient. run_session. cbn.
  destruct (mDeathRecipient (self (st w))) eqn:Hr; run; cbn;
    split_and!; intros; try done; try (rewrite H; run_session; cbn; rewrite ?Hr; by run).
Qed.
End calls.

(** ** Witnesses *)

Definition at_rest : world session_state fp_call := sys_world new_session.

Example ending_releases_sensor_witness :
  ∃ w', perform steady Close (perform steady (Authenticate 7) at_rest).2 = (Done (), w') ∧
  panel (tr (perform steady (Authenticate 7) at_rest).2) = true ∧ panel (tr w') = false.
Proof.
  destruct (ending_releases_sensor steady Close (perform steady (Authenticate 7) at_rest).2)
    as (H & _); [reflexivity|].
  eexists. split; [vm_compute; reflexivity|]. split; [vm_compute; reflexivity|]. exact H.
Defined.

Example panel_lit_by_start_witness :
  ∃ w' c, perform steady (Authenticate 7) at_rest = (Done (), w') ∧
  tr w' = tr at_rest ++ [c; sysfs_fod_hbm "1"] ∧
  i32 (device steady (tr at_rest ++ [c])) = 0.
Proof.
  destruct (panel_lit_by_start steady (Authenticate 7) at_rest
    (perform steady (Authenticate 7) at_rest).2) as (c & _ & Hc & Hd);
    [vm_compute; reflexivity..|].
  eexists _, c. split; [vm_compute; reflexivity|]. split; [exact Hc|exact Hd].
Defined.

(** The sixth failure, after a timer has ended the lockout of the fifth. *)
Example failure_reported_witness :
  let five := (for_each (perform steady) (repeat (result 0) 5 ++ [TimerFires]) at_rest).2 in
  mCurrentMode (mLockoutTracker (self (st five))) = NONE ∧
  ∃ w', drop (length (tr five)) (tr w') = [cb_onAuthenticationFailed; finger_cmd false;
          sysfs_fod_hbm "0"; cb_onLockoutTimed 30000; spawn_lockout_timer 30000] ∧
        mFailedCount (mLockoutTracker (self (st w'))) = 6.
Proof.
  intros five. split; [by vm_compute|].
  destruct (failure_reported steady {| gid := 0; fid := 0 |} (stack_token steady []) five)
    as (w' & _ & Ht & Hc & _); [reflexivity|by vm_compute|].
  exists w'. rewrite Ht, drop_app_length, Hc. split; by vm_compute.
Defined.
