(* ===== verification/SessionFinger.v ===== *)
(** * The session and its finger

    What a whole session tells the sensor about the finger: through all its operations, the
    notifications, the timers and the worker of its [UdfpsHandler], in any order, the
    commands are those of the abstract finger of [Udfps.v]. *)

From S2P Require Import Prelude Words Lockout Token Udfps FpTypes Session SessionSystem SessionCalls.
Import Lockout.

(** The finger commands in a trace. *)
Definition fingers (h : list fp_call) : list bool :=
  omap (λ c, match c with dev_goodixExtCmd cmd _ => Some (bool_decide (cmd = 1)) | _ => None end) h.

(** The handler of a session, with its worker. *)
Definition handler (w : world session_state fp_call) : Udfps.state :=
  (udfps_worker (self (st w)), mUdfpsHandler (self (st w))).

(** What an event of the session is to its handler. A failed match lifts the finger if it
    leads to a lockout, the death of the client if the session was still open. *)
Definition finger_events (l : label) (es : list Udfps.event) : Prop :=
  match l with
  | UiIsReady => ∃ b, es = [Udfps.UiReady b]
  | UdfpsWorker o => es = [Udfps.Worker o]
  | PointerUp _ | PointerCancel _ => es = [Udfps.FingerUp]
  | ClientDeath => es = [] ∨ es = [Udfps.FingerUp]
  | Notify (FINGERPRINT_AUTHENTICATED finger _) =>
      es = [Udfps.FingerUp] ∨ fid finger = 0 ∧ es = []
  | _ => es = if ends_use l then [Udfps.FingerUp] else []
  end.

(** The events that lift the finger in any case. *)
Definition lifts (l : label) : bool :=
  match l with PointerUp _ | PointerCancel _ => true | _ => ends_use l end.

Lemma fingers_app h1 h2 : fingers (h1 ++ h2) = fingers h1 ++ fingers h2.
Proof. apply omap_app. Qed.

Lemma fingers_commands cs : fingers (map finger_cmd cs) = cs.
Proof. induction cs as [|[] cs IH]; [done|..]; cbn; f_equal; exact IH. Qed.

Lemma lifts_events l es : lifts l = true → finger_events l es → es = [Udfps.FingerUp].
Proof.
  destruct l as [| | | | | | | | | | | | | | | | | | | |[]| |]; try done; cbn;
    intros Hl; [by rewrite Hl|]. intros [|[Hf _]]; [done|]. by rewrite Hf in Hl.
Qed.

Lemma ready_events l es b : l ≠ UiIsReady → finger_events l es → Udfps.UiReady b ∉ es.
Proof.
  intros Hl He. assert (es = [] ∨ es = [Udfps.FingerUp] ∨ ∃ o, es = [Udfps.Worker o]) as Hes.
  { destruct l as [| | | | | | | | | | | | | | | | | | | |[]| |]; cbn in He;
      repeat case_match; naive_solver. }
  destruct Hes as [->|[->|[o ->]]]; [apply not_elem_of_nil|..];
    by intros ?%list_elem_of_singleton.
Qed.

Section finger.
Context (env : environment).

Abbreviation world_t := (world session_state fp_call).

(** ** One event *)

(** What a program that has nothing to do with the finger keeps. *)
Definition apart {A} (m : M world_t A) : Prop :=
  ∀ v, preserves (λ w, (handler w, fingers (tr w)) = v) m.

Lemma apart_emit c : fingers [c] = [] → apart (emit c).
Proof. intros Hc v w <-. cbn. by rewrite fingers_app, Hc, app_nil_r. Qed.

Lemma apart_put f :
  (∀ x, mUdfpsHandler (f x) = mUdfpsHandler x ∧ udfps_worker (f x) = udfps_worker x) → apart (put f).
Proof.
  intros Hf v w <-. unfold handler. cbn. by destruct (Hf (self (st w))) as [-> ->].
Qed.

Lemma apart_silent {A} (m : M world_t A) : (∀ w, (m w).2 = w) → apart m.
Proof. intros Hm v w <-. by rewrite Hm. Qed.

Lemma apart_bind {A B} (m : M world_t A) (k : A → M world_t B) :
  apart m → (∀ a, apart (k a)) → apart (m ≫= k).
Proof. intros Hm Hk v. apply preserves_bind; [apply Hm|intros a; apply Hk]. Qed.

Lemma apart_each {A} (body : A → M world_t unit) l : (∀ x, apart (body x)) → apart (for_each body l).
Proof. intros Hb v. apply preserves_for_each. intros x. apply Hb. Qed.

Ltac apart_step :=
  match goal with
  | |- apart (_ ≫= _) => apply apart_bind
  | |- apart (for_each _ _) => apply apart_each; intros ?
  | |- apart (emit _) => by apply apart_emit
  | |- apart (call _ ?c) => exact (apart_emit c eq_refl)
  | |- apart (dev_int _ ?c) => exact (apart_emit c eq_refl)
  | |- apart (dev_u64 _ ?c) => exact (apart_emit c eq_refl)
  | |- apart (put _) => by apply apart_put
  | |- apart (modify _) => by intros ? ? <-
  | |- apart (match ?x with _ => _ end) => destruct x eqn:?
  | |- ∀ _, _ => intros ?
  | |- apart (mret _) => by apply apart_silent
  | |- apart (get _) => by apply apart_silent
  | |- apart (gets _) => by apply apart_silent
  | |- apart (ask _) => by apply apart_silent
  | |- apart (lift_outcome _) => by apply apart_silent
  | |- apart (faults _) => by apply apart_silent
  | |- apart ?m => let h := program_head m in unfold h
  end.

(** The program is to the handler the events [es]. *)
Definition moves (es : list Udfps.event) (w w' : world_t) : Prop :=
  handler w' = (Udfps.execs es (handler w)).2 ∧
  fingers (tr w') = fingers (tr w) ++ concat (Udfps.execs es (handler w)).1.

Definition does {A} (es : list Udfps.event) (m : M world_t A) : Prop :=
  ∀ w a w', m w = (Done a, w') → moves es w w'.

Lemma apart_does {A} (m : M world_t A) : apart m → does [] m.
Proof.
  intros Hm w a w' E. specialize (Hm _ w eq_refl). rewrite E in Hm. injection Hm as Hp Hh Hf.
  unfold moves, handler. cbn. by rewrite Hp, Hh, Hf, app_nil_r.
Qed.

Lemma moves_trans es1 es2 w1 w2 w3 : moves es1 w1 w2 → moves es2 w2 w3 → moves (es1 ++ es2) w1 w3.
Proof.
  intros [H1 F1] [H2 F2]. unfold moves. rewrite Udfps.execs_app. cbn [fst snd].
  rewrite <- H1, concat_app, app_assoc, <- F1. by split.
Qed.

Lemma does_bind {A B} es1 es2 (m : M world_t A) (k : A → M world_t B) :
  does es1 m → (∀ a, does es2 (k a)) → does (es1 ++ es2) (m ≫= k).
Proof.
  intros Hm Hk w b w' (a & w1 & E1 & E2)%bind_inv.
  eapply moves_trans; [by eapply Hm|by eapply Hk].
Qed.

Lemma does_first {A B} es (m : M world_t A) (k : A → M world_t B) :
  does es m → (∀ a, apart (k a)) → does es (m ≫= k).
Proof.
  intros Hm Hk. rewrite <- (app_nil_r es). apply does_bind; [done|].
  intros a. by apply apart_does.
Qed.

Lemma does_later {A B} es (m : M world_t A) (k : A → M world_t B) :
  apart m → (∀ a, does es (k a)) → does es (m ≫= k).
Proof. intros Hm Hk. apply (does_bind []); [by apply apart_does|done]. Qed.

Lemma does_up : does [Udfps.FingerUp] (udfps Udfps.onFingerUp).
Proof.
  intros w a w'. rewrite udfps_run. intros [= _ <-]. split; [done|]. cbn.
  by rewrite fingers_app.
Qed.

Lemma does_ready b : does [Udfps.UiReady b] (udfps (Udfps.onUiReady b)).
Proof.
  intros w a w'. rewrite udfps_run. intros [= _ <-]. unfold moves, handler. cbn.
  rewrite fingers_app, fingers_commands. by destruct (Udfps.onUiReady _ _) as [cs h]; cbn; rewrite app_nil_r.
Qed.

Lemma does_worker o : does [Udfps.Worker o] (runUdfpsWorker o).
Proof.
  intros w a w'. rewrite runUdfpsWorker_run. intros [= _ <-]. unfold moves, handler. cbn.
  rewrite fingers_app, fingers_commands. by destruct (Udfps.run _ _ _) as [cs [p h]]; cbn; rewrite app_nil_r.
Qed.

Lemma does_moves {A} es (m : M world_t A) w a w' : does es m → m w = (Done a, w') → moves es w w'.
Proof. intros Hm. apply Hm. Qed.

Lemma apart_moves {A} (m : M world_t A) w a w' : apart m → m w = (Done a, w') → moves [] w w'.
Proof. intros Hm%apart_does. apply Hm. Qed.

(** Up to the call of the handler, and on from it. *)
Ltac does_step :=
  match goal with
  | |- does _ (udfps Udfps.onFingerUp) => exact does_up
  | |- does _ (udfps Udfps.onFingerUp ≫= _) => apply does_first; [exact does_up|by repeat apart_step]
  | |- does [] _ => apply apart_does; by repeat apart_step
  | |- does _ (_ ≫= _) => first [apply does_later; [by repeat apart_step|intros ?]
                                |apply does_first; [|by repeat apart_step]]
  | |- does _ ?m => let h := program_head m in unfold h
  end.

Lemma does_event l es :
  match l with
  | ClientDeath | Notify _ | UiIsReady => False
  | _ => True
  end → finger_events l es → does es (perform env l).
Proof.
  intros Hl. destruct l as [| | | | | | | | | | | | | | | | | | | |msg| |]; try done; intros ->;
    cbn [perform ends_use]; try by repeat does_step.
  apply does_worker.
Qed.

Lemma lockout_moves w a w' :
  checkSensorLockout env w = (Done a, w') → ∃ es, (es = [Udfps.FingerUp] ∨ es = []) ∧ moves es w w'.
Proof.
  intros (mode & w1 & E1 & E)%bind_inv.
  assert (moves [] w w1) as H1 by (eapply apart_moves; [|exact E1]; by repeat apart_step).
  destruct (decide (mode = NONE)) as [->|Hm].
  - exists []. split; [by right|]. apply (moves_trans [] [] _ w1); [done|].
    revert E. apply apart_does. rewrite (decide_False (P := NONE ≠ NONE)) by tauto. by repeat apart_step.
  - exists [Udfps.FingerUp]. split; [by left|]. apply (moves_trans [] [_] _ w1); [done|].
    revert E. rewrite (decide_True (P := mode ≠ NONE)) by done. apply does_first; [by repeat does_step|].
    by repeat apart_step.
Qed.

Lemma notify_moves msg w w' :
  notify env msg w = (Done (), w') → ∃ es, finger_events (Notify msg) es ∧ moves es w w'.
Proof.
  assert (∀ es, does es (notify env msg) → finger_events (Notify msg) es →
    notify env msg w = (Done (), w') → ∃ es, finger_events (Notify msg) es ∧ moves es w w') as Hone
    by (intros es Hd He E; exists es; split; [done|by eapply Hd]).
  destruct msg as [error|info|finger n|finger n|finger hat|finger n|type];
    try (apply (Hone []); [by repeat does_step|done]); clear Hone; unfold notify.
  - intros ([] & w1 & E1 & E)%bind_inv. cbn [finger_events ends_use].
    assert (moves [] w w1) as H1 by (eapply apart_moves; [|exact E1]; by repeat apart_step).
    destruct (decide (n = 0)) as [->|Hn].
    + exists [Udfps.FingerUp]. split; [done|]. apply (moves_trans [] [_] _ w1); [done|].
      eapply does_moves; [|exact E]. by repeat does_step.
    + exists []. split; [by rewrite (proj2 (Z.eqb_neq _ _) Hn)|]. apply (moves_trans [] [] _ w1); [done|].
      eapply apart_moves; [|exact E]. by repeat apart_step.
  - case_decide as Hf.
    + intros E. exists [Udfps.FingerUp]. split; [by left|]. eapply does_moves; [|exact E]. by repeat does_step.
    + intros ([] & w1 & E1 & E)%bind_inv. apply bind_inv in E as ([] & w2 & E2 & E).
      apply bind_inv in E as (b & w3 & E3 & [= <-]).
      assert (moves [] w w1) as H1 by (eapply apart_moves; [|exact E1]; by repeat apart_step).
      assert (moves [] w1 w2) as H2 by (eapply apart_moves; [|exact E2]; by repeat apart_step).
      destruct (lockout_moves w2 b w3 E3) as (es & He & H3). exists es.
      split; [destruct He as [->| ->]; [by left|right; split; [lia|done]]|].
      apply (moves_trans [] es _ w1); [done|]. by apply (moves_trans [] es _ w2).
Qed.

Lemma perform_moves l w w' :
  perform env l w = (Done (), w') → ∃ es, finger_events l es ∧ moves es w w'.
Proof.
  assert (∀ es, match l with ClientDeath | Notify _ | UiIsReady => False | _ => True end →
    finger_events l es → perform env l w = (Done (), w') →
    ∃ es, finger_events l es ∧ moves es w w') as Hone
    by (intros es Hl He E; exists es; split; [done|by eapply (does_event l es)]).
  destruct l as [| | | | | | | | | | | | | | | | | | | |msg| |]; try (by eapply Hone);
    clear Hone; cbn [perform].
  - set (b := mIsAod (self (st w))).
    change (ignore onUiReady w) with ((_ ← (udfps (Udfps.onUiReady b);; mret status_ok); mret ()) w).
    intros E. exists [Udfps.UiReady b]. split; [by eexists|]. revert E.
    apply does_first; [|by repeat apart_step]. apply does_first; [apply does_ready|by repeat apart_step].
  - unfold onClientDeath. intros (closed & w1 & [= <- <-] & E)%bind_inv.
    destruct (mClosed (self (st w))).
    + exists []. split; [by left|]. revert E. apply apart_does. by repeat apart_step.
    + exists [Udfps.FingerUp]. split; [by right|].
      eapply does_moves; [|exact E]. by repeat does_step.
  - by apply notify_moves.
Qed.

(** ** Executions *)

Lemma step_moves s l s' :
  step env s l s' → ∃ es, finger_events l es ∧ moves es (sys_world s) (sys_world s').
Proof. intros [s0 l0 w' _ E|s0 w' _ E]; by apply perform_moves. Qed.

Lemma steps_moves s ls s' : steps env s ls s' →
  ∃ ess, Forall2 finger_events ls ess ∧ moves (concat ess) (sys_world s) (sys_world s').
Proof.
  induction 1 as [s|s ls s1 l s2 _ (ess & Hl & Hm) Hs].
  { exists []. split; [done|]. unfold moves. cbn. by rewrite app_nil_r. }
  destruct (step_moves s1 l s2 Hs) as (es & He & Hm2). exists (ess ++ [es]). split.
  - apply Forall2_app; [done|]. by constructor.
  - rewrite concat_app. cbn. rewrite app_nil_r. by eapply moves_trans.
Qed.

(** What moves the handler is, to the finger, a run of its promise. *)
Lemma moves_promise es f w w' : moves es w w' → Udfps.simulates (handler w).2 f →
  ∃ css f', Udfps.spec_run f es css f' ∧ Udfps.simulates (handler w').2 f' ∧
    fingers (tr w') = fingers (tr w) ++ concat css.
Proof.
  intros [Hh Hf] Hs. destruct (Udfps.simulates_execs es (handler w) f Hs) as (f' & Hr & Hs').
  exists (Udfps.execs es (handler w)).1, f'. rewrite Hh. by split.
Qed.

Lemma initial_up ptr uid start0 mode0 shared :
  Udfps.simulates (handler (sys_world (initial ptr uid start0 mode0 shared))).2 Udfps.Up.
Proof. done. Qed.

(** C12: a session keeps the promise of its finger. In every execution of a session, whatever
    operations, notifications, timers and sections of the handler's worker follow each
    other, the finger commands the sensor gets are those of the abstract finger, told of
    each ready interface, each lifted finger and each section of the worker, and of nothing
    else. In particular it is never told twice in a row that a finger is down. *)
Theorem session_refines_finger ptr uid start0 mode0 shared ls s :
  steps env (initial ptr uid start0 mode0 shared) ls s →
  ∃ ess css f, Forall2 finger_events ls ess ∧
    Udfps.spec_run Udfps.Up (concat ess) css f ∧ Udfps.simulates (handler (sys_world s)).2 f ∧
    fingers (tr (sys_world s)) = concat css ∧
    ∀ n, fingers (tr (sys_world s)) !! n = Some true →
         fingers (tr (sys_world s)) !! S n ≠ Some true.
Proof.
  intros Hs. destruct (steps_moves _ _ _ Hs) as (ess & Hl & Hm).
  destruct (moves_promise _ Udfps.Up _ _ Hm) as (css & f & Hr & Hf & Ht); [by apply initial_up|].
  exists ess, css, f. cbn in Ht. split; [done|]. split; [done|]. split; [done|]. split; [done|].
  intros n. rewrite Ht. apply (Udfps.no_double_lookup false).
  by apply (Udfps.spec_run_alternates _ _ _ _ _ Hr).
Qed.

(** C32: a lifted finger stays up until the interface is ready again. In every execution,
    after an event that lifts the finger (the pointer leaves, or the use of the sensor ends:
    by a match, the last sample, a cancellation, a revoked challenge or the session's
    close), and as long as [onUiReady] is not called, the sensor is told nothing but that
    the finger is up, whatever a worker still polls for and whatever else happens. *)
Theorem finger_stays_up ptr uid start0 mode0 shared ls0 s0 l s1 ls s2 :
  steps env (initial ptr uid start0 mode0 shared) ls0 s0 →
  step env s0 l s1 → lifts l = true → steps env s1 ls s2 → UiIsReady ∉ ls →
  ∃ h, fingers (tr (sys_world s2)) = fingers (tr (sys_world s1)) ++ h ∧
       Forall (λ down, down = false) h.
Proof.
  intros H0 H1 Hl H2 Hn.
  destruct (steps_moves _ _ _ H0) as (ess0 & _ & Hm0).
  destruct (moves_promise _ Udfps.Up _ _ Hm0) as (css0 & f0 & _ & Hf0 & _); [by apply initial_up|].
  destruct (step_moves _ _ _ H1) as (es & He & Hm1).
  apply (lifts_events l es Hl) in He as ->.
  destruct (moves_promise _ f0 _ _ Hm1 Hf0) as (css1 & f1 & Hr1 & Hf1 & _).
  assert (f1 = Udfps.Up) as -> by (inversion Hr1; subst;
    match goal with H : Udfps.spec_run _ [] _ _ |- _ => inversion H; subst end;
    match goal with H : Udfps.spec_step _ Udfps.FingerUp _ _ |- _ => inversion H; subst end; done).
  destruct (steps_moves _ _ _ H2) as (ess & Hes & Hm2).
  destruct (moves_promise _ Udfps.Up _ _ Hm2 Hf1) as (css & f2 & Hr2 & _ & Ht).
  exists (concat css). split; [done|]. apply Forall_concat.
  eapply Udfps.spec_run_quiet; [exact Hr2| |done]. intros b Hb.
  apply list_elem_of_In, in_concat in Hb as (es & Hes' & Hb%list_elem_of_In).
  apply list_elem_of_In, list_elem_of_lookup in Hes' as [n Hes'].
  destruct (Forall2_lookup_r _ _ _ _ _ Hes Hes') as (l' & Hl' & He').
  eapply ready_events; [|exact He'|exact Hb]. intros ->. apply Hn. by eapply list_elem_of_lookup_2.
Qed.
End finger.

(** ** A finger on an always-on display

    The panel lights up, the worker sees it and presses; the pointer leaves, and a section of
    the worker that follows does nothing. *)
Definition lit : Udfps.observation :=
  {| Udfps.started := 0; Udfps.node := Some "1"%string; Udfps.checked := 5 |}.

Definition touching : list label :=
  [Authenticate 7; PointerDown {| pointerId := 0; px := 3; py := 4; isAod := true |}; UiIsReady;
   UdfpsWorker lit].

Definition touched : system := default new_session (sys_execs steady new_session touching).

Lemma touched_reached : sys_execs steady new_session touching = Some touched.
Proof. vm_compute. reflexivity. Qed.

Example session_refines_finger_witness :
  ∃ ess css f, Forall2 finger_events touching ess ∧
    Udfps.spec_run Udfps.Up (concat ess) css f ∧ concat css = [true].
Proof.
  destruct (session_refines_finger steady 0%nat 10 0 NONE [] touching touched)
    as (ess & css & f & Hl & Hr & _ & Ht & _); [exact (sys_execs_steps _ _ _ _ touched_reached)|].
  exists ess, css, f. split; [exact Hl|]. split; [exact Hr|].
  rewrite <- Ht. vm_compute. reflexivity.
Defined.

Definition lifted : system := default new_session
  (sys_exec steady touched (PointerUp {| pointerId := 0; px := 3; py := 4; isAod := true |})).

Definition afterwards : list label := [UdfpsWorker lit; Cancel; UdfpsWorker lit].

Example finger_stays_up_witness :
  ∃ h, fingers (tr (sys_world (default lifted (sys_execs steady lifted afterwards))))
       = fingers (tr (sys_world lifted)) ++ h ∧ Forall (λ down, down = false) h.
Proof.
  apply (finger_stays_up steady 0%nat 10 0 NONE [] touching touched
    (PointerUp {| pointerId := 0; px := 3; py := 4; isAod := true |}) lifted afterwards).
  - exact (sys_execs_steps _ _ _ _ touched_reached).
  - apply sys_exec_step. vm_compute. reflexivity.
  - reflexivity.
  - apply sys_execs_steps. vm_compute. reflexivity.
  - intros H. repeat (apply elem_of_cons in H as [H|H]; [discriminate|]). by apply not_elem_of_nil in H.
Defined.
