(* ===== verification/Fingerprint.v ===== *)
(** * Fingerprint

    [fingerprint/Fingerprint.cpp] and [fingerprint/CancellationSignal.cpp]: the HAL object,
    which opens the legacy module, creates sessions and dispatches the device's
    notifications to the current one. Sessions live on a heap: the HAL, the framework and
    the cancellation signals share them by address. *)

From S2P Require Import Prelude Words Text Lockout Token Udfps FpTypes Session SessionSystem.
Import Lockout.

(** [common::SensorStrength] and [common::ComponentInfo] of the interface. *)
Inductive SensorStrength : Set := CONVENIENCE | WEAK | STRONG.

Record ComponentInfo : Set := {
  componentId : string; hardwareVersion : string; firmwareVersion : string;
  serialNumber : string; softwareVersion : string
}.

Definition SENSOR_ID : Z := 0.
Definition SENSOR_STRENGTH : SensorStrength := STRONG.
Definition MAX_ENROLLMENTS_PER_USER : Z := 5.
Definition HW_COMPONENT_ID : string := "fingerprintSensor".
Definition HW_VERSION : string := "vendor/model/revision".
Definition FW_VERSION : string := "1.01".
Definition SERIAL_NUMBER : string := "00000001".
Definition SW_COMPONENT_ID : string := "matchingAlgorithm".
Definition SW_VERSION : string := "vendor/version/revision".

Inductive FingerprintSensorType : Set :=
| UNKNOWN | REAR | UNDER_DISPLAY_ULTRASONIC | UNDER_DISPLAY_OPTICAL | POWER_BUTTON
| HOME_BUTTON.

#[global] Instance FingerprintSensorType_eq_dec : EqDecision FingerprintSensorType.
Proof. solve_decision. Defined.

Record Fingerprint : Set := {
  mSession : option session_ptr;
  mLockoutTracker : LockoutTracker;
  mSensorType : FingerprintSensorType;
  mMaxEnrollmentsPerUser : Z;
  mDevice : bool                 (* whether the pointer is not null *)
}.

(** The process: [sInstance] with the object it points to, the sessions some [shared_ptr]
    keeps alive, the ones the framework holds a reference to, and the static vector of
    [Session::notify]. *)
Record process : Set := {
  sInstance : option Fingerprint;
  sessions : gmap session_ptr Session;
  clients : gset session_ptr;
  shared_enrollments : list Z
}.

(** What [hw_get_module_by_class] leaves behind its pointer argument. *)
Record hw_module : Set := { module_found : bool; module_has_open : bool }.

(** The system properties: [None] where one is not set. *)
Record properties : Set := {
  type_prop : option string;
  max_enrollments_prop : option Z;
  sensor_location_prop : option string
}.

Record SensorLocation : Set := {
  sensorLocationX : Z; sensorLocationY : Z; sensorRadius : Z; display : string
}.

Record SensorProps : Set := {
  sensorId : Z;
  sensorStrength : SensorStrength;
  maxEnrollmentsPerUser : Z;
  componentInfo : list ComponentInfo;
  sensorType : FingerprintSensorType;
  sensorLocations : list SensorLocation;
  supportsNavigationGestures : bool;
  supportsDetectInteraction : bool;
  halHandlesDisplayTouches : bool;
  halControlsIllumination : bool
}.

Definition set_fp_device (b : bool) (f : Fingerprint) : Fingerprint :=
  {| mSession := mSession f; mLockoutTracker := mLockoutTracker f;
     mSensorType := mSensorType f; mMaxEnrollmentsPerUser := mMaxEnrollmentsPerUser f;
     mDevice := b |}.
Definition set_fp_session (p : option session_ptr) (f : Fingerprint) : Fingerprint :=
  {| mSession := p; mLockoutTracker := mLockoutTracker f; mSensorType := mSensorType f;
     mMaxEnrollmentsPerUser := mMaxEnrollmentsPerUser f; mDevice := mDevice f |}.

Definition set_instance (f : option Fingerprint) (s : process) : process :=
  {| sInstance := f; sessions := sessions s; clients := clients s;
     shared_enrollments := shared_enrollments s |}.
Definition set_sessions (m : gmap session_ptr Session) (s : process) : process :=
  {| sInstance := sInstance s; sessions := m; clients := clients s;
     shared_enrollments := shared_enrollments s |}.
Definition set_clients (c : gset session_ptr) (s : process) : process :=
  {| sInstance := sInstance s; sessions := sessions s; clients := c;
     shared_enrollments := shared_enrollments s |}.

(** Reference counting: a session lives while the HAL's [mSession] or the framework refers
    to it. *)
Definition referenced (s : process) (p : session_ptr) : Prop :=
  sInstance s ≫= mSession = Some p ∨ p ∈ clients s.

#[global] Instance referenced_dec s p : Decision (referenced s p).
Proof. unfold referenced. apply _. Defined.

Definition collect (s : process) : process :=
  set_sessions (filter (λ kv, referenced s kv.1) (sessions s)) s.

(** The mapping of the constructor's chain of comparisons. *)
Definition sensor_type_of (prop : string) : FingerprintSensorType :=
  if decide (prop = ""%string ∨ prop = "default"%string ∨ prop = "rear"%string) then REAR
  else if decide (prop = "udfps"%string) then UNDER_DISPLAY_ULTRASONIC
  else if decide (prop = "udfps_optical"%string) then UNDER_DISPLAY_OPTICAL
  else if decide (prop = "side"%string) then POWER_BUTTON
  else if decide (prop = "home"%string) then HOME_BUTTON
  else UNKNOWN.

Section hal.
Context (env : environment) (hw : hw_module) (props : properties).
(** [android::base::Split] and [ParseInt] ([None]: refused, the output untouched), and the
    values the AIDL compiler gives a new [SensorLocation]. *)
Context (Split : string → string → list string) (ParseInt : string → option Z)
        (SensorLocation_default : SensorLocation).

Abbreviation hal := (M (world process fp_call)).

(** A module or device function returning [int]. *)
Definition hal_int (c : fp_call) : hal Z := call (λ h, i32 (device env h)) c.

(** Code of the session at an address, in the world of the process; a call through a dangling
    pointer is a fault. *)
Definition on_session {A} (p : session_ptr) (m : M (world session_state fp_call) A) : hal A :=
  λ w, match sessions (st w) !! p with
       | None => (Fault UseAfterFree, w)
       | Some x =>
           let (o, w') := m (World {| self := x; enrollments := shared_enrollments (st w) |}
                               (tr w)) in
           (o, World {| sInstance := sInstance (st w);
                        sessions := <[p := self (st w')]> (sessions (st w));
                        clients := clients (st w);
                        shared_enrollments := enrollments (st w') |} (tr w'))
       end.

(** ** The HAL object *)

(** [true] where the code returns the device, [false] where it returns null. *)
Definition openHal : hal bool :=
  r ← hal_int hw_get_module_by_class;
  if decide (r ≠ 0) then mret false
  else if negb (module_found hw) then mret false
  else if negb (module_has_open hw) then mret false
  else
    r ← hal_int module_open;
    if decide (r ≠ 0) then mret false
    else
      r ← hal_int dev_set_notify;
      if decide (r ≠ 0) then mret false else mret true.

(** The constructor; its tracker's uninitialised members are [start0] and [mode0]. *)
Definition Fingerprint_new (start0 : Z) (mode0 : LockoutMode) : hal unit :=
  modify (set_instance (Some {| mSession := None;
    mLockoutTracker := tracker_init start0 mode0; mSensorType := UNKNOWN;
    mMaxEnrollmentsPerUser := MAX_ENROLLMENTS_PER_USER; mDevice := false |}));;
  opened ← openHal;
  modify (λ s, set_instance (set_fp_device opened <$> sInstance s) s);;
  modify (λ s, set_instance ((λ f,
    {| mSession := mSession f; mLockoutTracker := mLockoutTracker f;
       mSensorType := sensor_type_of (default "" (type_prop props))%string;
       mMaxEnrollmentsPerUser := default MAX_ENROLLMENTS_PER_USER (max_enrollments_prop props);
       mDevice := mDevice f |}) <$> sInstance s) s).

Definition notify (msg : fingerprint_msg_t) : hal unit :=
  thisPtr ← gets sInstance;
  match thisPtr ≫= mSession with
  | None => mret ()
  | Some p =>
      closed ← on_session p isClosed;
      if closed : bool then mret () else on_session p (Session.notify env msg)
  end.

Definition getSensorProps (f : Fingerprint) : SensorProps :=
  let loc := default ""%string (sensor_location_prop props) in
  let dim := Split loc "|" in
  let parsed i old := match dim !! i ≫= ParseInt with Some v => v | None => old end in
  let sensorLocation :=
    if decide (3 ≤ length dim ≤ 4)%nat then
      {| sensorLocationX := parsed 0%nat (sensorLocationX SensorLocation_default);
         sensorLocationY := parsed 1%nat (sensorLocationY SensorLocation_default);
         sensorRadius := parsed 2%nat (sensorRadius SensorLocation_default);
         display := if decide (4 ≤ length dim)%nat
                    then default ""%string (dim !! 3%nat)
                    else display SensorLocation_default |}
    else SensorLocation_default in
  {| sensorId := SENSOR_ID;
     sensorStrength := SENSOR_STRENGTH;
     maxEnrollmentsPerUser := mMaxEnrollmentsPerUser f;
     componentInfo :=
       [{| componentId := HW_COMPONENT_ID; hardwareVersion := HW_VERSION;
           firmwareVersion := FW_VERSION; serialNumber := SERIAL_NUMBER;
           softwareVersion := "" |};
        {| componentId := SW_COMPONENT_ID; hardwareVersion := ""; firmwareVersion := "";
           serialNumber := ""; softwareVersion := SW_VERSION |}];
     sensorType := mSensorType f;
     sensorLocations := [sensorLocation];
     supportsNavigationGestures := false;
     supportsDetectInteraction := false;
     halHandlesDisplayTouches := false;
     halControlsIllumination := false |}.

(** [make<Session>(mDevice, userId, cb, mLockoutTracker)]: the members are set and the
    UDFPS thread started, then the body calls through [mDevice]. *)
Definition make_session (f : Fingerprint) (userId : Z) : hal session_ptr :=
  heap ← gets sessions;
  let p := fresh (dom heap) in
  modify (λ s, set_sessions
    (<[p := Session_members p userId (mLockoutTracker f)]> (sessions s)) s);;
  (if mDevice f then on_session p (Session_body env)
   else emit death_recipient_new;; faults NullDeref);;
  mret p.

Definition createSession (userId : Z) : hal session_ptr :=
  thisPtr ← gets sInstance;
  match thisPtr with
  | None => faults NullDeref
  | Some f =>
      (match mSession f with
       | None => mret ()
       | Some p =>
           closed ← on_session p isClosed;
           if closed : bool then mret () else faults CheckFailed
       end);;
      p ← make_session f userId;
      modify (λ s, collect (set_instance (set_fp_session (Some p) <$> sInstance s)
                             (set_clients ({[p]} ∪ clients s) s)));;
      on_session p linkToDeath;;
      mret p
  end.

(** [CancellationSignal::cancel]. *)
Definition signal_cancel (signal : CancellationSignal) : hal ScopedAStatus :=
  on_session (Session.mSession signal) (Session.cancel env).

(** The framework drops its reference. *)
Definition release_session (p : session_ptr) : hal unit :=
  modify (λ s, collect (set_clients (clients s ∖ {[p]}) s)).

(** [~Fingerprint]: the object is gone afterwards, [sInstance] still points to it; the
    answer is whether the device was closed. *)
Definition Fingerprint_delete (f : Fingerprint) : hal bool :=
  if mDevice f then
    err ← hal_int dev_close;
    mret (bool_decide (err = 0))
  else mret false.
End hal.

(** ** Events and executions *)

Inductive hal_event : Set :=
| CreateSession (userId : Z)
| OnSession (p : session_ptr) (l : label)
| DeviceNotifies (msg : fingerprint_msg_t)
| SignalCancel (signal : CancellationSignal)
| ReleaseSession (p : session_ptr).

Section executions.
Context (env : environment).

Abbreviation hal_world := (world process fp_call).

Definition hal_perform (e : hal_event) : M hal_world unit :=
  match e with
  | CreateSession userId => _ ← createSession env userId; mret ()
  | OnSession p l => on_session p (perform env l)
  | DeviceNotifies msg => notify env msg
  | SignalCancel signal => _ ← signal_cancel env signal; mret ()
  | ReleaseSession p => release_session p
  end.

Fixpoint hal_performs (es : list hal_event) : M hal_world unit :=
  match es with
  | [] => mret ()
  | e :: es' => hal_perform e;; hal_performs es'
  end.

(** The death recipient is there until the session is closed. *)
Definition recipient_ok (x : Session) : Prop := mDeathRecipient x = negb (mClosed x).

(** A session keeps its address, and a closed one stays closed. *)
Definition session_grows (x x' : Session) : Prop :=
  this x' = this x ∧ (mClosed x = true → mClosed x' = true).

Lemma perform_grows l w : session_grows (self (st w)) (self (st (perform env l w).2)).
Proof.
  set (x := self (st w)).
  assert (H : preserves (of_state (λ s, session_grows x (self s))) (perform env l)).
  { destruct l; cbn [perform]; solve_state_invariant;
      match goal with H : session_grows _ _ |- _ => destruct H; split; cbn; auto end. }
  apply (H w). by split.
Qed.

(** Code after which the recipient is there or not as it should be. *)
Abbreviation keeps_recipient m := (preserves (of_state (λ s, recipient_ok (self s))) m).

Lemma close_recipient : keeps_recipient close.
Proof.
  intros w Hw. unfold of_state, recipient_ok in *. unfold close, delete_recipient. run_session. cbn.
  by destruct (mDeathRecipient (self (st w))) eqn:Hr; run; cbn; rewrite ?Hr.
Qed.

Lemma perform_recipient l : keeps_recipient (perform env l).
Proof.
  destruct l; try (cbn [perform]; solve_state_invariant; done).
  - apply preserves_bind; [apply close_recipient|intros; apply preserves_ret].
  - cbn [perform]. unfold onClientDeath. apply preserves_bind; [by intros w|intros []].
    + apply preserves_ret.
    + apply preserves_bind; [apply close_recipient|intros; apply preserves_ret].
Qed.

(** ** What the HAL keeps *)

(** The sessions are at their addresses, with their recipients; the only open one is the HAL's current one, which
    is alive, and the HAL's own lockout tracker is the one it was built with. *)
Record process_ok (t0 : LockoutTracker) (s : process) : Prop := {
  ok_this : ∀ p x, sessions s !! p = Some x → this x = p;
  ok_recipient : ∀ p x, sessions s !! p = Some x → recipient_ok x;
  ok_open : ∀ p x, sessions s !! p = Some x → mClosed x = false →
    sInstance s ≫= mSession = Some p;
  ok_current : ∀ p, sInstance s ≫= mSession = Some p → is_Some (sessions s !! p);
  ok_tracker : ∀ f, sInstance s = Some f → mLockoutTracker f = t0
}.

Lemma on_session_ok {A} t0 p (m : M (world session_state fp_call) A) w :
  (∀ w0, session_grows (self (st w0)) (self (st (m w0).2))) → keeps_recipient m →
  process_ok t0 (st w) → process_ok t0 (st (on_session p m w).2).
Proof.
  intros Hm Hmr [Ht Hr Ho Hc Hk]. unfold on_session.
  destruct (sessions (st w) !! p) as [x|] eqn:Hp; [|done].
  set (w0 := World _ _). specialize (Hm w0). specialize (Hmr w0 (Hr p x Hp)).
  destruct (m w0) as [o w'].
  destruct Hm as [Hthis Hclosed]. cbn in Hthis, Hclosed. split; cbn.
  - intros q y [[<- <-]|[Hne Hq]]%lookup_insert_Some; [rewrite Hthis|]; eauto.
  - intros q y [[<- <-]|[Hne Hq]]%lookup_insert_Some; [exact Hmr|eauto].
  - intros q y [[<- <-]|[Hne Hq]]%lookup_insert_Some Hy; [|eauto].
    apply (Ho p x Hp). destruct (mClosed x); [|done]. by rewrite Hclosed in Hy.
  - intros q Hq. apply Hc in Hq as [y Hy].
    destruct (decide (p = q)) as [<-|Hne].
    + rewrite lookup_insert_eq. eauto.
    + rewrite lookup_insert_ne by done. eauto.
  - eauto.
Qed.

Lemma collect_lookup s p x :
  sessions (collect s) !! p = Some x ↔ sessions s !! p = Some x ∧ referenced s p.
Proof. cbn. by rewrite map_lookup_filter_Some. Qed.

Lemma collect_ok t0 s : process_ok t0 s → process_ok t0 (collect s).
Proof.
  intros [Ht Hr Ho Hc Hk]. split; [| | | |done].
  - intros p x [Hp _]%collect_lookup. eauto.
  - intros p x [Hp _]%collect_lookup. eauto.
  - intros p x [Hp _]%collect_lookup. eauto.
  - intros p Hp. destruct (Hc p Hp) as [x Hx]. exists x. apply collect_lookup.
    split; [done|]. by left.
Qed.

(** The state [createSession] leaves behind when it succeeds. *)
Definition created (f : Fingerprint) (p : session_ptr) (userId : Z) (s : process) : process :=
  collect {| sInstance := Some (set_fp_session (Some p) f);
             sessions := <[p := Session_new p userId (mLockoutTracker f)]> (sessions s);
             clients := {[p]} ∪ clients s;
             shared_enrollments := shared_enrollments s |}.

Lemma created_lookup f p userId s :
  sessions (created f p userId s) !! p = Some (Session_new p userId (mLockoutTracker f)).
Proof. apply collect_lookup. cbn. split; [apply lookup_insert_eq|by left]. Qed.

Definition store_path (userId : Z) : string :=
  "/data/vendor_de/" +:+ pretty userId +:+ "/fpdata/".

(** Whether [createSession] may go on: there is no session or it is closed. *)
Definition no_open_session (s : process) (f : Fingerprint) : Prop :=
  match mSession f with
  | None => True
  | Some p => ∃ x, sessions s !! p = Some x ∧ mClosed x = true
  end.

(** Code that only reads the session and calls out changes nothing in the process. *)
Lemma on_session_reads {A} p x (m : M (world session_state fp_call) A) a l w :
  sessions (st w) !! p = Some x →
  (∀ s, self s = x → m (World s (tr w)) = (Done a, World s (tr w ++ l))) →
  on_session p m w = (Done a, World (st w) (tr w ++ l)).
Proof.
  intros Hp Hm. unfold on_session. rewrite Hp, Hm by done. cbn. rewrite insert_id by done.
  by destruct (st w).
Qed.

Lemma isClosed_run p x w :
  sessions (st w) !! p = Some x → on_session p isClosed w = (Done (mClosed x), w).
Proof.
  intros Hp. rewrite (on_session_reads p x isClosed (mClosed x) [] w Hp).
  - rewrite app_nil_r. by destruct w.
  - intros s <-. unfold isClosed, get. run. by rewrite app_nil_r.
Qed.

Lemma make_session_done f userId (w : hal_world) :
  mDevice f = true →
  let p := fresh (dom (sessions (st w))) in
  make_session env f userId w =
  (Done p, World (set_sessions (<[p := Session_new p userId (mLockoutTracker f)]>
                                  (sessions (st w))) (st w))
     (tr w ++ [death_recipient_new; dev_set_active_group (u32 userId) (store_path userId)])).
Proof.
  intros Hd. cbv zeta. unfold make_session. run. rewrite Hd.
  unfold on_session. cbn [st sessions set_sessions]. rewrite lookup_insert_eq.
  unfold Session_body. run_session. cbn. by rewrite insert_insert_eq.
Qed.

Lemma createSession_guard f w {A} (k : M hal_world A) :
  no_open_session (st w) f →
  ((match mSession f with
    | None => mret ()
    | Some p => closed ← on_session p isClosed;
                if closed : bool then mret () else faults CheckFailed
    end);; k) w = k w.
Proof.
  unfold no_open_session. destruct (mSession f) as [p|]; [|done].
  intros (x & Hp & Hx). unfold_monad. by rewrite (isClosed_run p x w Hp), Hx.
Qed.

Lemma createSession_done f userId (w : hal_world) :
  sInstance (st w) = Some f → no_open_session (st w) f → mDevice f = true →
  let p := fresh (dom (sessions (st w))) in
  createSession env userId w =
  (Done p, World (created f p userId (st w))
     (tr w ++ [death_recipient_new; dev_set_active_group (u32 userId) (store_path userId);
               death_recipient_link])).
Proof.
  intros Hf Hno Hd. cbv zeta. unfold createSession.
  rewrite bind_gets, Hf.
  rewrite createSession_guard, (bind_done _ _ _ _ _ (make_session_done f userId w Hd)) by done.
  run. cbn [set_sessions sInstance clients sessions shared_enrollments]. rewrite Hf.
  erewrite (on_session_reads _ _ linkToDeath); [cbn; by rewrite <- app_assoc|apply (created_lookup f _ userId (st w))|].
  done.
Qed.

Lemma createSession_null f userId (w : hal_world) :
  sInstance (st w) = Some f → no_open_session (st w) f → mDevice f = false →
  ∃ w', createSession env userId w = (Fault NullDeref, w') ∧
        tr w' = tr w ++ [death_recipient_new].
Proof.
  intros Hf Hno Hd. unfold createSession. rewrite bind_gets, Hf.
  rewrite createSession_guard by done. unfold make_session. run. rewrite Hd. run. eauto.
Qed.

Lemma createSession_open f p x userId (w : hal_world) :
  sInstance (st w) = Some f → mSession f = Some p → sessions (st w) !! p = Some x →
  mClosed x = false → createSession env userId w = (Fault CheckFailed, w).
Proof.
  intros Hf Hp Hx Hc. unfold createSession. rewrite bind_gets, Hf, Hp.
  apply bind_fault. by rewrite (bind_done _ _ _ _ _ (isClosed_run p x w Hx)), Hc.
Qed.

Lemma open_or_not f s :
  (∀ p, mSession f = Some p → is_Some (sessions s !! p)) →
  no_open_session s f ∨
  ∃ p x, mSession f = Some p ∧ sessions s !! p = Some x ∧ mClosed x = false.
Proof.
  unfold no_open_session. destruct (mSession f) as [p|]; [|by left].
  intros Hal. destruct (Hal p eq_refl) as [x Hx].
  destruct (mClosed x) eqn:Hc; [left|right]; eauto.
Qed.

(** [createSession] on each of its branches. If the current session is open the CHECK
    fails and nothing has happened; otherwise, if the legacy device never opened, the new
    session's constructor calls through a null pointer; otherwise a session at a fresh
    address is current, open, built from the HAL's tracker, and the device was given the
    user's storage path. *)
Theorem createSession_outcome f userId (w : hal_world) :
  sInstance (st w) = Some f →
  (∀ p, mSession f = Some p → is_Some (sessions (st w) !! p)) →
  let p := fresh (dom (sessions (st w))) in
  let x := Session_new p userId (mLockoutTracker f) in
  (no_open_session (st w) f → mDevice f = true →
     ∃ s', createSession env userId w =
       (Done p, World s' (tr w ++ [death_recipient_new;
          dev_set_active_group (u32 userId) (store_path userId); death_recipient_link])) ∧
     sInstance s' = Some (set_fp_session (Some p) f) ∧ sessions s' !! p = Some x ∧
     sessions (st w) !! p = None) ∧
  (no_open_session (st w) f → mDevice f = false →
     ∃ w', createSession env userId w = (Fault NullDeref, w') ∧
     tr w' = tr w ++ [death_recipient_new]) ∧
  (¬ no_open_session (st w) f → createSession env userId w = (Fault CheckFailed, w)).
Proof.
  intros Hf Hal. cbv zeta. split_and!.
  - intros Hno Hd. eexists. split; [by apply createSession_done|]. split_and!; [done|apply created_lookup|].
      apply not_elem_of_dom, is_fresh.
  - intros Hno Hd. by eapply createSession_null.
  - intros Hno. destruct (open_or_not f (st w) Hal) as [|(p & x & Hp & Hx & Hc)]; [done|].
    by eapply createSession_open.
Qed.

Lemma created_ok f p userId s :
  process_ok (mLockoutTracker f) s → sInstance s = Some f → no_open_session s f →
  process_ok (mLockoutTracker f) (created f p userId s).
Proof.
  intros [Ht Hr Ho Hc Hk] Hf Hno. apply collect_ok. split; cbn.
  - intros q y [[<- <-]|[_ Hq]]%lookup_insert_Some; [done|eauto].
  - intros q y [[<- <-]|[_ Hq]]%lookup_insert_Some; [done|eauto].
  - intros q y [[<- <-]|[Hne Hq]]%lookup_insert_Some Hy; [done|].
    specialize (Ho q y Hq Hy). rewrite Hf in Ho. cbn in Ho.
    unfold no_open_session in Hno. rewrite Ho in Hno. destruct Hno as (x & Hx & Hxc).
    congruence.
  - intros q [= <-]. rewrite lookup_insert_eq. eauto.
  - intros g [= <-]. done.
Qed.

Lemma createSession_ok t0 userId w p w' :
  createSession env userId w = (Done p, w') → process_ok t0 (st w) → process_ok t0 (st w').
Proof.
  intros Hw Hok. destruct (sInstance (st w)) as [f|] eqn:Hf.
  2: { unfold createSession in Hw. rewrite bind_gets, Hf in Hw. done. }
  pose proof (ok_tracker t0 (st w) Hok f Hf) as <-.
  destruct (open_or_not f (st w)) as [Hno|(q & x & Hq & Hx & Hc)].
  - intros q Hq. apply (ok_current _ _ Hok). by rewrite Hf.
  - destruct (mDevice f) eqn:Hd.
    + rewrite (createSession_done f) in Hw by done. simplify_eq. by apply created_ok.
    + destruct (createSession_null f userId w) as (w1 & H1 & _); congruence.
  - by rewrite (createSession_open f q x) in Hw.
Qed.

(** The HAL dispatches a message to its session or drops it. *)
Lemma notify_run msg (w : hal_world) :
  (∀ p, sInstance (st w) ≫= mSession = Some p → is_Some (sessions (st w) !! p)) →
  notify env msg w =
  match sInstance (st w) ≫= mSession with
  | Some p =>
      match sessions (st w) !! p with
      | Some x => if mClosed x then (Done (), w) else on_session p (Session.notify env msg) w
      | None => (Done (), w)
      end
  | None => (Done (), w)
  end.
Proof.
  intros Hal. unfold notify. rewrite bind_gets.
  destruct (sInstance (st w) ≫= mSession) as [p|]; [|done].
  destruct (Hal p eq_refl) as [x Hx]. rewrite Hx.
  rewrite (bind_done _ _ _ _ _ (isClosed_run p x w Hx)). by destruct (mClosed x).
Qed.

Lemma cancel_grows w0 :
  session_grows (self (st w0)) (self (st (Session.cancel env w0).2)).
Proof.
  pose proof (perform_grows Cancel w0) as H. cbn [perform] in H.
  unfold ignore in H. by rewrite bind_ret_state in H.
Qed.

Lemma cancel_recipient : keeps_recipient (Session.cancel env).
Proof. solve_state_invariant; done. Qed.

Lemma hal_perform_ok t0 e w w' :
  hal_perform e w = (Done (), w') → process_ok t0 (st w) → process_ok t0 (st w').
Proof.
  intros Hw Hok. destruct e as [uid|p l|msg|signal|p]; cbn [hal_perform] in Hw.
  - apply bind_inv in Hw as (p & w1 & Hw & [= <-]). by eapply createSession_ok.
  - pose proof (on_session_ok t0 p (perform env l) w (perform_grows l)
      (perform_recipient l) Hok) as H.
    by rewrite Hw in H.
  - rewrite notify_run in Hw by apply (ok_current _ _ Hok).
    destruct (sInstance (st w) ≫= mSession) as [p|]; [|by simplify_eq].
    destruct (sessions (st w) !! p) as [x|]; [|by simplify_eq].
    destruct (mClosed x); [by simplify_eq|].
    pose proof (on_session_ok t0 p _ w (perform_grows (Notify msg))
      (perform_recipient (Notify msg)) Hok) as Hn.
    cbn [perform] in Hn. by rewrite Hw in Hn.
  - apply bind_inv in Hw as (s & w1 & Hw & [= <-]).
    pose proof (on_session_ok t0 (Session.mSession signal) _ w cancel_grows
      cancel_recipient Hok) as H.
    unfold signal_cancel in Hw. by rewrite Hw in H.
  - unfold release_session in Hw. revert Hw. run. intros [= <-]. cbn.
    apply collect_ok. destruct Hok. by split.
Qed.

Lemma hal_performs_ok t0 es w w' :
  hal_performs es w = (Done (), w') → process_ok t0 (st w) → process_ok t0 (st w').
Proof.
  revert w. induction es as [|e es IH]; intros w Hw Hok; [by injection Hw as <-|].
  apply bind_inv in Hw as ([] & w1 & H1 & H2). eapply IH; [done|]. by eapply hal_perform_ok.
Qed.
End executions.

(** ** Properties *)

(** The HAL object before any session, and the process around it. *)
Definition built (t0 : LockoutTracker) (type : FingerprintSensorType) (max : Z) (opened : bool)
    : Fingerprint :=
  {| mSession := None; mLockoutTracker := t0; mSensorType := type;
     mMaxEnrollmentsPerUser := max; mDevice := opened |}.
Definition process_of (f : Fingerprint) : process :=
  {| sInstance := Some f; sessions := ∅; clients := ∅; shared_enrollments := [] |}.

Section hal_properties.
Context (env : environment).

Lemma process_of_ok t0 type max opened : process_ok t0 (process_of (built t0 type max opened)).
Proof. split; cbn; try done. by intros f [= <-]. Qed.

Lemma reachable_ok es t0 type max opened h w :
  hal_performs env es (World (process_of (built t0 type max opened)) h) = (Done (), w) →
  process_ok t0 (st w).
Proof. intros Hw. eapply hal_performs_ok; [exact Hw|]. apply process_of_ok. Qed.

Lemma session_grows_refl x : session_grows x x.
Proof. by split. Qed.
#[local] Hint Resolve session_grows_refl : core.

(** What one event leaves of a session that is still there afterwards. *)
Lemma hal_perform_grows t0 e w w' p x y :
  hal_perform env e w = (Done (), w') → process_ok t0 (st w) →
  sessions (st w) !! p = Some x → sessions (st w') !! p = Some y → session_grows x y.
Proof.
  intros Hw Hok Hx Hy.
  assert (∀ {A} q (m : M (world session_state fp_call) A) o,
    (∀ w0, session_grows (self (st w0)) (self (st (m w0).2))) →
    on_session q m w = (o, w') → session_grows x y) as Hon.
  { intros A q m o Hm. unfold on_session. destruct (sessions (st w) !! q) as [z|] eqn:Hz.
    - set (w0 := World _ _). specialize (Hm w0). destruct (m w0) as [o' w1]. intros [= <- <-].
      cbn in Hy. destruct (decide (q = p)) as [->|Hne].
      + rewrite lookup_insert_eq in Hy. by simplify_eq.
      + rewrite lookup_insert_ne in Hy by done. by simplify_eq.
    - intros [= <- <-]. by simplify_eq. }
  destruct e as [uid|q l|msg|signal|q]; cbn [hal_perform] in Hw.
  - apply bind_inv in Hw as (q & w1 & Hw & [= <-]).
    destruct (sInstance (st w)) as [f|] eqn:Hf.
    2: { unfold createSession in Hw. by rewrite bind_gets, Hf in Hw. }
    destruct (open_or_not f (st w)) as [Hno|(q' & x' & Hq & Hx' & Hc)].
    { intros q' Hq. apply (ok_current _ _ Hok). by rewrite Hf. }
    2: by rewrite (createSession_open env f q' x') in Hw.
    destruct (mDevice f) eqn:Hd.
    2: { destruct (createSession_null env f uid w) as (w2 & H2 & _); congruence. }
    rewrite (createSession_done env f) in Hw by done. injection Hw as <- <-. cbn [st] in Hy.
    apply collect_lookup in Hy as [Hy _]. cbn in Hy.
    rewrite lookup_insert_ne in Hy; [by simplify_eq|]. intros Hp.
    apply (is_fresh (dom (sessions (st w)))). rewrite Hp. apply elem_of_dom. by eexists.
  - exact (Hon _ q (perform env l) _ (perform_grows env l) Hw).
  - rewrite notify_run in Hw by apply (ok_current _ _ Hok).
    destruct (sInstance (st w) ≫= mSession) as [q|]; [|by simplify_eq].
    destruct (sessions (st w) !! q) as [z|]; [|by simplify_eq].
    destruct (mClosed z); [by simplify_eq|].
    exact (Hon _ q (Session.notify env msg) _ (perform_grows env (Notify msg)) Hw).
  - apply bind_inv in Hw as (s & w1 & Hw & [= <-]).
    exact (Hon _ _ (Session.cancel env) _ (cancel_grows env) Hw).
  - unfold release_session in Hw. revert Hw. run. intros [= <-]. cbn [st] in Hy.
    apply collect_lookup in Hy as [Hy _]. change (sessions (st w) !! p = Some y) in Hy.
    by simplify_eq.
Qed.

(** C10: there is at most one open session, and a closed one stays closed. After any sequence
    of session creations, calls on any session ever handed out, notifications,
    cancellations and releases that does not end the process: all open sessions are the
    HAL's current one; every session is at its own address; and whatever event comes next,
    a session that is still there after it is at the same address, and closed if it was. *)
Theorem one_open_session es t0 type max opened h w :
  hal_performs env es (World (process_of (built t0 type max opened)) h) = (Done (), w) →
  (∀ p q x y, sessions (st w) !! p = Some x → mClosed x = false →
     sessions (st w) !! q = Some y → mClosed y = false →
     p = q ∧ sInstance (st w) ≫= mSession = Some p) ∧
  ∀ p x, sessions (st w) !! p = Some x → this x = p ∧
    ∀ e w' y, hal_perform env e w = (Done (), w') → sessions (st w') !! p = Some y →
      this y = p ∧ (mClosed x = true → mClosed y = true).
Proof.
  intros Hw. pose proof (reachable_ok _ _ _ _ _ _ _ Hw) as Hok. split.
  - intros p q x y Hp Hx Hq Hy. pose proof (ok_open _ _ Hok p x Hp Hx).
    pose proof (ok_open _ _ Hok q y Hq Hy). split; [congruence|done].
  - intros p x Hp. split; [by apply (ok_this _ _ Hok)|]. intros e w' y He Hy.
    destruct (hal_perform_grows t0 e w w' p x y He Hok Hp Hy) as [-> ?].
    split; [by apply (ok_this _ _ Hok)|done].
Qed.

(** C34: a notification reaches the open session and no other code. In every reachable state
    the HAL hands a message to the session that is open, and when none is open it drops
    the message without any effect. *)
Theorem notification_dispatch es t0 type max opened h w msg :
  hal_performs env es (World (process_of (built t0 type max opened)) h) = (Done (), w) →
  (∀ p x, sessions (st w) !! p = Some x → mClosed x = false →
     notify env msg w = on_session p (Session.notify env msg) w) ∧
  ((∀ p x, sessions (st w) !! p = Some x → mClosed x = true) →
     notify env msg w = (Done (), w)).
Proof.
  intros Hw. destruct (reachable_ok _ _ _ _ _ _ _ Hw) as [_ _ Ho Hc _].
  rewrite notify_run by done. split.
  - intros p x Hp Hx. by rewrite (Ho p x Hp Hx), Hp, Hx.
  - intros Hall. destruct (sInstance (st w) ≫= mSession) as [p|]; [|done].
    destruct (sessions (st w) !! p) as [x|] eqn:Hp; [|done]. by rewrite (Hall p x Hp).
Qed.

(** a new session does not know the lockout of the one before. The HAL's own tracker is
    copied into each session and never fed back, so whatever happened before, a session
    just created has counted no failure and is in whatever mode the HAL's uninitialised
    tracker started with. *)
Theorem new_session_forgets_lockout es start0 mode0 type max opened h w userId p w' :
  hal_performs env es
    (World (process_of (built (tracker_init start0 mode0) type max opened)) h) = (Done (), w) →
  createSession env userId w = (Done p, w') →
  ∃ x, sessions (st w') !! p = Some x ∧ Session.mLockoutTracker x = tracker_init start0 mode0.
Proof.
  intros Hw Hs. pose proof (reachable_ok _ _ _ _ _ _ _ Hw) as Hok.
  destruct (sInstance (st w)) as [f|] eqn:Hf.
  2: { unfold createSession in Hs. by rewrite bind_gets, Hf in Hs. }
  pose proof (ok_tracker _ _ Hok f Hf) as Ht.
  destruct (open_or_not f (st w)) as [Hno|(q & x & Hq & Hx & Hc)].
  - intros q Hq. apply (ok_current _ _ Hok). by rewrite Hf.
  - destruct (mDevice f) eqn:Hd.
    + rewrite (createSession_done env f) in Hs by done. injection Hs as <- <-.
      eexists. split; [apply created_lookup|exact Ht].
    + destruct (createSession_null env f userId w) as (w1 & H1 & _); congruence.
  - by rewrite (createSession_open env f q x) in Hs.
Qed.

Lemma openHal_run hw (w : world process fp_call) :
  let h1 := tr w ++ [hw_get_module_by_class] in
  let h2 := h1 ++ [module_open] in
  let h3 := h2 ++ [dev_set_notify] in
  let ok h := bool_decide (i32 (device env h) = 0) in
  let found := ok h1 && module_found hw && module_has_open hw in
  openHal env hw w =
  (Done (found && ok h2 && ok h3),
   World (st w) (if found then if ok h2 then h3 else h2 else h1)).
Proof.
  cbv zeta. unfold openHal, hal_int. run.
  destruct (module_found hw), (module_has_open hw); cbn [negb];
    repeat (case_bool_decide || (case_decide; run)); done.
Qed.

(** building the HAL never fails, and it has a device exactly if every step of opening
    the module worked: the module was found and set, it has an open method, opening
    answered 0 and so did registering the callback. The calls are made in this order and
    stop at the first failure. *)
Theorem Fingerprint_new_outcome hw props start0 mode0 (w : world process fp_call) :
  let h1 := tr w ++ [hw_get_module_by_class] in
  let h2 := h1 ++ [module_open] in
  let h3 := h2 ++ [dev_set_notify] in
  let ok h := bool_decide (i32 (device env h) = 0) in
  let found := ok h1 && module_found hw && module_has_open hw in
  ∃ f, Fingerprint_new env hw props start0 mode0 w =
    (Done (), World (set_instance (Some f) (st w))
       (if found then if ok h2 then h3 else h2 else h1)) ∧
  mDevice f = found && ok h2 && ok h3 ∧
  mSession f = None ∧ mLockoutTracker f = tracker_init start0 mode0 ∧
  mMaxEnrollmentsPerUser f = default 5 (max_enrollments_prop props).
Proof.
  cbv zeta. unfold Fingerprint_new. unfold_monad. rewrite openHal_run. cbn.
  rewrite <- !app_assoc. cbn [app]. by eexists.
Qed.
End hal_properties.

(** ** Concrete executions *)

Definition sample_hal : world process fp_call :=
  World (process_of (built (tracker_init 0 NONE) UNDER_DISPLAY_OPTICAL 5 true)) [].

(** A session for user 10, used and closed, and a second one after it. *)
Definition two_sessions : list hal_event :=
  [CreateSession 10; OnSession 0%nat (Authenticate 7); OnSession 0%nat Close; CreateSession 10].

Definition after (es : list hal_event) : world process fp_call :=
  (hal_performs steady es sample_hal).2.

Example one_open_session_witness :
  (hal_performs steady two_sessions sample_hal).1 = Done () ∧
  (∃ x, sessions (st (after two_sessions)) !! 0%nat = Some x ∧ mClosed x = true ∧ this x = 0%nat) ∧
  sInstance (st (after two_sessions)) ≫= mSession = Some 1%nat.
Proof.
  destruct (one_open_session steady two_sessions (tracker_init 0 NONE) UNDER_DISPLAY_OPTICAL
    5 true [] (after two_sessions)) as [Hopen Hthis]; [vm_compute; reflexivity|].
  set (at_ p := default (Session_members 9%nat 0 (tracker_init 0 NONE))
    (sessions (st (after two_sessions)) !! p)).
  split; [vm_compute; reflexivity|]. split.
  - exists (at_ 0%nat). split; [vm_compute; reflexivity|]. split; [vm_compute; reflexivity|].
    apply (Hthis 0%nat (at_ 0%nat)). vm_compute. reflexivity.
  - apply (Hopen 1%nat 1%nat (at_ 1%nat) (at_ 1%nat)); vm_compute; reflexivity.
Defined.

Example notification_dispatch_witness :
  (hal_performs steady two_sessions sample_hal).1 = Done () ∧
  notify steady (FINGERPRINT_ERROR 3) (after two_sessions) =
  on_session 1%nat (Session.notify steady (FINGERPRINT_ERROR 3)) (after two_sessions).
Proof.
  split; [vm_compute; reflexivity|].
  destruct (notification_dispatch steady two_sessions (tracker_init 0 NONE)
    UNDER_DISPLAY_OPTICAL 5 true [] (after two_sessions) (FINGERPRINT_ERROR 3)) as [H _];
    [vm_compute; reflexivity|].
  apply (H 1%nat (default (Session_members 9%nat 0 (tracker_init 0 NONE))
    (sessions (st (after two_sessions)) !! 1%nat))); vm_compute; reflexivity.
Defined.

(** Twenty failures, the session closed, a new one. *)
Definition locked_out : list hal_event :=
  CreateSession 10 :: replicate 20 (OnSession 0%nat (result 0)) ++ [OnSession 0%nat Close].

Example new_session_forgets_lockout_witness :
  (hal_performs steady locked_out sample_hal).1 = Done () ∧
  (createSession steady 10 (after locked_out)).1 = Done 1%nat ∧
  ∃ x, sessions (st (createSession steady 10 (after locked_out)).2) !! 1%nat = Some x ∧
       mFailedCount (Session.mLockoutTracker x) = 0.
Proof.
  split; [vm_compute; reflexivity|]. split; [vm_compute; reflexivity|].
  destruct (new_session_forgets_lockout steady locked_out 0 NONE UNDER_DISPLAY_OPTICAL 5
    true [] (after locked_out) 10 1%nat (createSession steady 10 (after locked_out)).2)
    as (x & Hx & Ht); [vm_compute; reflexivity..|].
  exists x. split; [exact Hx|by rewrite Ht].
Defined.

(** a cancellation signal can outlive its session. The framework starts an
    authentication, closes the session and drops it, and opens another one; the signal it
    still holds points to freed memory, and cancelling through it is a call on an object
    that no longer exists. *)
Theorem signal_outlives_session :
  ∃ w, hal_performs steady
         [CreateSession 10; OnSession 0%nat (Authenticate 7); OnSession 0%nat Close;
          ReleaseSession 0%nat; CreateSession 10] sample_hal = (Done (), w) ∧
    sInstance (st w) ≫= mSession = Some 1%nat ∧
    sessions (st w) !! 0%nat = None ∧
    (signal_cancel steady {| Session.mSession := 0%nat |} w).1 = Fault UseAfterFree.
Proof. eexists. split; [vm_compute; reflexivity|]. by vm_compute. Qed.

(** an enumeration a session did not finish is reported by the next one. The first
    user's session sees one of two fingers and is closed; the second user's session
    enumerates its only finger and reports both. *)
Theorem enumeration_crosses_sessions :
  let finger n := {| gid := 0; fid := n |} in
  ∃ w, hal_performs steady
         [CreateSession 10; DeviceNotifies (FINGERPRINT_TEMPLATE_ENUMERATING (finger 3) 1);
          OnSession 0%nat Close; CreateSession 11;
          DeviceNotifies (FINGERPRINT_TEMPLATE_ENUMERATING (finger 5) 0)] sample_hal
       = (Done (), w) ∧
    last (tr w) = Some (cb_onEnrollmentsEnumerated [3; 5]).
Proof. eexists. split; [vm_compute; reflexivity|]. by vm_compute. Qed.

Example createSession_outcome_witness :
  ∃ s', createSession steady 10 sample_hal =
    (Done 0%nat, World s' [death_recipient_new;
       dev_set_active_group 10 "/data/vendor_de/10/fpdata/"; death_recipient_link]).
Proof.
  destruct (createSession_outcome steady (built (tracker_init 0 NONE) UNDER_DISPLAY_OPTICAL 5 true)
    10 sample_hal eq_refl ltac:(intros p H; discriminate H)) as (H & _ & _).
  destruct (H I eq_refl) as (s' & Hs & _). exists s'. rewrite Hs. vm_compute. reflexivity.
Defined.

(** the sensor's position is read from a property of three or four parts separated by
    bars: each coordinate that parses replaces the default one, a fourth part names the
    display, and with any other number of parts the position is the default one. *)
Theorem sensor_location_read props Split ParseInt dflt f loc :
  sensor_location_prop props = Some loc →
  let read old s := match ParseInt s with Some v => v | None => old end in
  sensorLocations (getSensorProps props Split ParseInt dflt f) =
  [match Split loc "|"%string with
   | [x; y; r] =>
       {| sensorLocationX := read (sensorLocationX dflt) x;
          sensorLocationY := read (sensorLocationY dflt) y;
          sensorRadius := read (sensorRadius dflt) r; display := display dflt |}
   | [x; y; r; d] =>
       {| sensorLocationX := read (sensorLocationX dflt) x;
          sensorLocationY := read (sensorLocationY dflt) y;
          sensorRadius := read (sensorRadius dflt) r; display := d |}
   | _ => dflt
   end].
Proof.
  intros Hl. cbv zeta. unfold getSensorProps. cbn [sensorLocations]. rewrite Hl. cbn [default from_option id].
  destruct (Split loc "|"%string) as [|x [|y [|r [|d [|e l]]]]]; cbn [length]; decides; try done.
Qed.

Example sensor_location_read_witness :
  sensorLocations (getSensorProps
    {| type_prop := None; max_enrollments_prop := None;
       sensor_location_prop := Some "720|2174|104"%string |}
    (λ _ _, ["720"; "2174"; "104"]%string) istream_int
    {| sensorLocationX := 0; sensorLocationY := 0; sensorRadius := 0; display := "" |}
    (built (tracker_init 0 NONE) REAR 5 true)) =
  [{| sensorLocationX := 720; sensorLocationY := 2174; sensorRadius := 104; display := "" |}].
Proof. rewrite (sensor_location_read _ _ _ _ _ "720|2174|104"); [vm_compute|]; reflexivity. Defined.
