(* ===== verification/FingerprintSystem.v ===== *)
(** * The fingerprint process

    The HAL object of [Fingerprint.v] with everything that can call into its sessions, and
    what each of these callers holds: the framework holds references, which keep a session
    alive; a cancellation signal, a sleeping lockout timer and a linked death recipient hold
    its bare address. The worker of the UDFPS handler ends with its session, whose destructor
    joins it. An event runs to completion before the next. *)

From stdpp Require Import gmultiset.
From S2P Require Import Prelude Words Lockout Token Udfps FpTypes Session SessionSystem Fingerprint.
Import Lockout.

(** ** State and events *)

Record fp_system : Set := {
  hal : world process fp_call;
  asleep_timers : gmultiset session_ptr;   (* the session that started each *)
  signals : gset session_ptr;              (* the sessions signals were made for *)
  linked : gset session_ptr                (* recipients linked and not deleted *)
}.

Inductive fp_event : Set :=
| Creates (userId : Z)
| Calls (p : session_ptr) (l : label)
| Cancels (p : session_ptr)
| Releases (p : session_ptr)
| Notifies (msg : fingerprint_msg_t)
| Dies (p : session_ptr)
| Fires (p : session_ptr)
| Works (p : session_ptr) (o : Udfps.observation).

(** The operations of [ISession], and those that answer a signal. *)
Definition framework_call (l : label) : bool :=
  match l with
  | Notify _ | TimerFires | UdfpsWorker _ | ClientDeath | Cancel => false
  | _ => true
  end.

Definition gives_signal (l : label) : bool :=
  match l with Enroll _ | Authenticate _ | DetectInteraction => true | _ => false end.

(** What each caller needs to hold. *)
Definition allowed (s : fp_system) (e : fp_event) : Prop :=
  match e with
  | Creates _ | Notifies _ => True
  | Calls p l => p ∈ clients (st (hal s)) ∧ framework_call l = true
  | Cancels p => p ∈ signals s
  | Releases p => p ∈ clients (st (hal s))
  | Dies p => p ∈ linked s
  | Fires p => p ∈ asleep_timers s
  | Works p _ => is_Some (sessions (st (hal s)) !! p)
  end.

#[export] Instance allowed_dec s e : Decision (allowed s e).
Proof. destruct e; cbn; apply _. Defined.

(** The session an event is about; a notification is about the current one. *)
Definition about (s : fp_system) (e : fp_event) : option session_ptr :=
  match e with
  | Creates _ | Releases _ => None
  | Calls p _ | Cancels p | Dies p | Fires p | Works p _ => Some p
  | Notifies _ => sInstance (st (hal s)) ≫= mSession
  end.

Definition is_delete (c : fp_call) : bool :=
  match c with death_recipient_delete => true | _ => false end.

Section system.
Context (env : environment).

Definition event_of (e : fp_event) : hal_event :=
  match e with
  | Creates userId => CreateSession userId
  | Calls p l => OnSession p l
  | Cancels p => SignalCancel {| Session.mSession := p |}
  | Releases p => ReleaseSession p
  | Notifies msg => DeviceNotifies msg
  | Dies p => OnSession p ClientDeath
  | Fires p => OnSession p TimerFires
  | Works p o => OnSession p (UdfpsWorker o)
  end.

(** The calls an event made. *)
Definition made (s : fp_system) (w' : world process fp_call) : list fp_call :=
  drop (length (tr (hal s))) (tr w').

(** Who holds what after an event: a timer that fired is gone, each one started sleeps; a
    new session is linked, a deleted recipient is not. *)
Definition holders (s : fp_system) (e : fp_event) (w' : world process fp_call) : fp_system :=
  let h := made s w' in
  let rest := match e with
              | Fires p => asleep_timers s ∖ {[+ p +]}
              | _ => asleep_timers s
              end in
  {| hal := w';
     asleep_timers := match about s e with
                      | Some p => rest ⊎ count is_spawn h *: {[+ p +]}
                      | None => rest
                      end;
     signals := match e with
                | Calls p l => if gives_signal l then {[p]} ∪ signals s else signals s
                | _ => signals s
                end;
     linked := match e, about s e with
               | Creates _, _ =>
                   match sInstance (st w') ≫= mSession with
                   | Some p => {[p]} ∪ linked s
                   | None => linked s
                   end
               | _, Some p => if existsb is_delete h then linked s ∖ {[p]} else linked s
               | _, None => linked s
               end |}.

(** [None] where the event cannot happen; a fault ends the process. *)
Definition fp_act (s : fp_system) (e : fp_event) : option (outcome fp_system) :=
  if decide (allowed s e) then
    match hal_perform env (event_of e) (hal s) with
    | (Done _, w') => Some (Done (holders s e w'))
    | (Fault f, _) => Some (Fault f)
    end
  else None.

Fixpoint fp_run (s : fp_system) (es : list fp_event) : option fp_system :=
  match es with
  | [] => Some s
  | e :: es' =>
      match fp_act s e with Some (Done s') => fp_run s' es' | _ => None end
  end.
End system.

(** A process whose HAL object has just been built. *)
Definition fp_start (t0 : LockoutTracker) (type : FingerprintSensorType) (max : Z)
    (opened : bool) : fp_system :=
  {| hal := World (process_of (built t0 type max opened)) []; asleep_timers := ∅;
     signals := ∅; linked := ∅ |}.

(** ** What an event does to a session *)

#[local] Existing Instance concerns_lockout_dec.

Section sessions.
Context (env : environment).
Implicit Types w : world session_state fp_call.

(** The mark of the timer and the number of timers started, in the lockout's view. *)
Definition marks (w : world session_state fp_call) : bool * nat :=
  (mIsLockoutTimerStarted (self (st w)), count is_spawn (tr w)).

Lemma marks_view w v : SessionSystem.view w = v → marks w = (v.1.1.1.2, v.1.2).
Proof. by intros <-. Qed.

(** The mark of the lockout timer is set by whoever starts one and cleared by the timer. *)
Lemma perform_timer l w :
  l ≠ TimerFires →
  let (mark', n') := marks (perform env l w).2 in
  let (mark, n) := marks w in
  (n' + Nat.b2n mark = n + Nat.b2n mark')%nat.
Proof.
  intros Hl. destruct (decide (concerns_lockout l)) as [Hc|Hc].
  2: { by rewrite (marks_view _ _ (keeps_perform env l Hc _ w eq_refl)). }
  destruct l as [| | | | | | | | | | | | | | | | | | | |[]| |]; try done.
  - by rewrite (marks_view _ _ (reset_view env w)).
  - destruct (decide (fid finger = 0)) as [Hf|Hf].
    + destruct (failure_view env finger hat w Hf) as (now & elapsed & Hv).
      cbv zeta in Hv. destruct (getMode _ _) as [mode t']. rewrite (marks_view _ _ Hv).
      unfold marks. destruct mode, (mIsLockoutTimerStarted (self (st w))); cbn; lia.
    + by rewrite (marks_view _ _ (success_view env finger hat w Hf)).
Qed.

Lemma perform_fires w :
  marks (perform env TimerFires w).2 = (false, count is_spawn (tr w)).
Proof. by rewrite (marks_view _ _ (timer_view env w)). Qed.

(** The recipient is deleted exactly when the session is closed. *)
Definition closes {A} (m : M (world session_state fp_call) A) : Prop :=
  ∀ w a w', m w = (Done a, w') → ∃ h, tr w' = tr w ++ h ∧
    mClosed (self (st w')) = mClosed (self (st w)) || existsb is_delete h.

Lemma closes_silent {A} (m : M (world session_state fp_call) A) : (∀ w, (m w).2 = w) → closes m.
Proof.
  intros Hm w a w' E. exists []. specialize (Hm w). rewrite E in Hm. cbn in Hm. subst w'.
  by rewrite app_nil_r, orb_false_r.
Qed.

Lemma closes_bind {A B} (m : M (world session_state fp_call) A) (k : A → M _ B) :
  closes m → (∀ a, closes (k a)) → closes (m ≫= k).
Proof.
  intros Hm Hk w b w' (a & w1 & E1 & E2)%bind_inv.
  destruct (Hm w a w1 E1) as (h & Hh & Hc). destruct (Hk a w1 b w' E2) as (h' & Hh' & Hc').
  exists (h ++ h'). by rewrite Hh', Hh, Hc', Hc, existsb_app, app_assoc, orb_assoc.
Qed.

Lemma closes_emit c : is_delete c = false → closes (emit c).
Proof. intros Hc w a w' [= _ <-]. exists [c]. cbn. by rewrite Hc, orb_false_r. Qed.

Lemma closes_call {R} (f : list fp_call → R) c : is_delete c = false → closes (call f c).
Proof. intros Hc w a w' [= _ <-]. exists [c]. cbn. by rewrite Hc, orb_false_r. Qed.

Lemma closes_put f : (∀ x, mClosed (f x) = mClosed x) → closes (put f).
Proof. intros Hf w a w' [= _ <-]. exists []. cbn. by rewrite Hf, app_nil_r, orb_false_r. Qed.

Lemma closes_share f : closes (modify (λ s, {| self := self s; enrollments := f s |})).
Proof. intros w a w' [= _ <-]. exists []. cbn. by rewrite app_nil_r, orb_false_r. Qed.

Lemma closes_each {A} (body : A → M _ unit) l : (∀ x, closes (body x)) → closes (for_each body l).
Proof.
  intros Hb. induction l as [|x l IH]; [by apply closes_silent|].
  apply closes_bind; [apply Hb|done].
Qed.

Lemma closes_close : closes close.
Proof.
  intros w a w'. unfold close, delete_recipient. run_session. cbn.
  destruct (mDeathRecipient (self (st w))); run; [|done]. intros [= _ <-]. eexists. cbn.
  split; [done|]. by rewrite !orb_true_r.
Qed.
End sessions.

Ltac closes_step :=
  match goal with
  | |- closes close => apply closes_close
  | |- closes (_ ≫= _) => apply closes_bind
  | |- closes (for_each _ _) => apply closes_each; intros ?
  | |- closes (emit _) => apply closes_emit; done
  | |- closes (call _ _) => apply closes_call; done
  | |- closes (dev_int _ _) => apply closes_call; done
  | |- closes (dev_u64 _ _) => apply closes_call; done
  | |- closes (put _) => apply closes_put; done
  | |- closes (modify _) => apply closes_share
  | |- closes (match ?x with _ => _ end) => destruct x eqn:?
  | |- ∀ _, _ => intros ?
  | |- closes (mret _) => apply closes_silent; done
  | |- closes (get _) => apply closes_silent; done
  | |- closes (gets _) => apply closes_silent; done
  | |- closes (ask _) => apply closes_silent; done
  | |- closes (lift_outcome _) => apply closes_silent; done
  | |- closes (faults _) => apply closes_silent; done
  | |- closes ?m => let h := program_head m in unfold h
  end.

Lemma closes_perform env l : closes (perform env l).
Proof. destruct l; cbn [perform]; repeat closes_step. Qed.

(** ** What can fault in a session *)

Definition total {A} (m : M (world session_state fp_call) A) : Prop :=
  ∀ w, ∃ a, (m w).1 = Done a.

Lemma total_bind {A B} (m : M (world session_state fp_call) A) (k : A → M _ B) :
  total m → (∀ a, total (k a)) → total (m ≫= k).
Proof.
  intros Hm Hk w. destruct (Hm w) as [a Ha]. unfold mbind, M_bind.
  destruct (m w) as [o w1]. cbn in Ha. subst o. apply Hk.
Qed.

Lemma total_each {A} (body : A → M _ unit) l : (∀ x, total (body x)) → total (for_each body l).
Proof.
  intros Hb. induction l as [|x l IH]; [by intros w; exists ()|].
  apply total_bind; [apply Hb|done].
Qed.

Ltac total_step :=
  match goal with
  | |- total (_ ≫= _) => apply total_bind
  | |- total (for_each _ _) => apply total_each; intros ?
  | |- total (match ?x with _ => _ end) => destruct x eqn:?
  | |- ∀ _, _ => intros ?
  | |- total (mret _) => intros ?; eexists; reflexivity
  | |- total (emit _) => intros ?; eexists; reflexivity
  | |- total (call _ _) => intros ?; eexists; reflexivity
  | |- total (modify _) => intros ?; eexists; reflexivity
  | |- total (gets _) => intros ?; eexists; reflexivity
  | |- total (ask _) => intros ?; eexists; reflexivity
  | |- total ?m => let h := program_head m in unfold h
  end.

(** Only the token of an enrolment, if its code is longer than the packed array. *)
Definition overflows (env : environment) (l : label) (h : list fp_call) : Prop :=
  match l with
  | Enroll hat => (length (Token.hw_hmac (stack_token env h)) < length (Token.mac hat))%nat
  | _ => False
  end.

Lemma close_faults w f w' : close w = (Fault f, w') →
  f = UseAfterFree ∧ mDeathRecipient (self (st w)) = false.
Proof.
  unfold close, delete_recipient. run_session. cbn.
  destruct (mDeathRecipient (self (st w))); run; [done|]. by intros [= <- _].
Qed.

(** And the recipient of a session that is closed again. *)
Lemma perform_faults env l w f w' :
  perform env l w = (Fault f, w') → recipient_ok (self (st w)) →
  (f = OutOfBounds ∧ overflows env l (tr w)) ∨
  (f = UseAfterFree ∧ l = Close ∧ mClosed (self (st w)) = true).
Proof.
  intros Hw Hok. unfold recipient_ok in Hok.
  assert (H : (∃ hat, l = Enroll hat) ∨ l = Close ∨ l = ClientDeath ∨ total (perform env l)).
  { destruct l; eauto 6; do 3 right; cbn [perform]; repeat total_step. }
  destruct H as [[hat ->]|[->|[->|Ht]]]; [| | |destruct (Ht w) as [a Ha]; by rewrite Hw in Ha].
  - left. revert Hw. cbn [perform overflows]. unfold ignore, enrollWithContext, enroll. run_session.
    unfold Token.translate. case_decide as Hlen; [|intros [= <- _]; split; [done|lia]].
    run. case_decide; run; done.
  - right. cbn [perform] in Hw. unfold ignore, mbind, M_bind in Hw.
    destruct (close w) as [[]] eqn:Hc; [done|]. injection Hw as -> ->.
    destruct (close_faults w f w' Hc) as [-> Hr]. rewrite Hr in Hok.
    by destruct (mClosed (self (st w))).
  - cbn [perform] in Hw. unfold onClientDeath, isClosed, get in Hw. rewrite bind_gets in Hw.
    destruct (mClosed (self (st w))); [done|]. unfold mbind, M_bind in Hw.
    destruct (close w) as [[]] eqn:Hc; [done|]. injection Hw as -> ->.
    destruct (close_faults w f w' Hc) as [_ Hr]. by rewrite Hr in Hok.
Qed.

(** ** An event on a session *)

Section events.
Context (env : environment).
Implicit Types (s : fp_system) (w : world process fp_call).

(** What the session at [p] runs in an event. *)
Definition label_of (e : fp_event) : label :=
  match e with
  | Calls _ l => l
  | Cancels _ => Cancel
  | Notifies msg => Notify msg
  | Dies _ => ClientDeath
  | Fires _ => TimerFires
  | Works _ o => UdfpsWorker o
  | Creates _ | Releases _ => Close
  end.

Definition on_one_session (e : fp_event) : bool :=
  match e with Creates _ | Releases _ => false | _ => true end.

(** An event on one session runs its code there, unless it is a notification that finds no
    open session. *)
Lemma event_on_session t0 s e :
  process_ok t0 (st (hal s)) → on_one_session e = true →
  (∃ p, about s e = Some p ∧
     hal_perform env (event_of e) (hal s) = on_session p (perform env (label_of e)) (hal s)) ∨
  (∃ msg, e = Notifies msg) ∧ hal_perform env (event_of e) (hal s) = (Done (), hal s).
Proof.
  intros Hok Hon. destruct e as [uid|p l|p|p|msg|p|p|p o]; try done; try (left; by exists p).
  - left. exists p. split; [done|]. cbn. unfold signal_cancel, on_session, ignore.
    unfold_monad. cbn. destruct (sessions (st (hal s)) !! p); [|done].
    destruct (Session.cancel env _) as [[a|e] w']; done.
  - cbn [event_of hal_perform about label_of]. rewrite notify_run by apply (ok_current _ _ Hok).
    destruct (sInstance (st (hal s)) ≫= mSession) as [p|]; [|right; eauto].
    destruct (sessions (st (hal s)) !! p) as [x|]; [|right; eauto].
    destruct (mClosed x); [right; eauto|left; by exists p].
Qed.

(** The session an event ran in, before and after. *)
Record ran (p : session_ptr) (l : label) w w' : Prop := {
  ran_calls : ∃ x y h,
    sessions (st w) !! p = Some x ∧ sessions (st w') = <[p := y]> (sessions (st w)) ∧
    tr w' = tr w ++ h ∧
    mClosed y = mClosed x || existsb is_delete h ∧
    (l ≠ TimerFires → (count is_spawn h + Nat.b2n (mIsLockoutTimerStarted x) =
       Nat.b2n (mIsLockoutTimerStarted y))%nat) ∧
    (l = TimerFires → count is_spawn h = 0%nat ∧ mIsLockoutTimerStarted y = false);
  ran_instance : sInstance (st w') = sInstance (st w);
  ran_clients : clients (st w') = clients (st w)
}.

Lemma on_session_ran p l w w' : on_session p (perform env l) w = (Done (), w') → ran p l w w'.
Proof.
  unfold on_session. destruct (sessions (st w) !! p) as [x|] eqn:Hp; [|done].
  set (w0 := World {| self := x; enrollments := shared_enrollments (st w) |} (tr w)).
  pose proof (perform_timer env l w0) as Hm. pose proof (perform_fires env w0) as Hf.
  pose proof (closes_perform env l w0) as Hc0.
  destruct (perform env l w0) as [o y] eqn:Hr. intros [= -> <-].
  destruct (Hc0 () y eq_refl) as (h & Hh & Hc).
  split; [|done..]. exists x, (self (st y)), h. cbn in Hh, Hc |- *.
  split; [done|]. split; [done|]. split; [done|]. split; [exact Hc|]. unfold marks in Hm, Hf.
  split.
  - intros Hl. specialize (Hm Hl). cbn in Hm. rewrite Hh, count_app in Hm. lia.
  - intros ->. rewrite Hr in Hf. injection Hf as -> Hs. cbn in Hs.
    rewrite Hh, count_app in Hs. split; [lia|done].
Qed.

(** ** The invariant *)

(** What is held: the framework's references keep sessions alive; the recipients linked are
    those of the open sessions; a session whose mark is set has a timer asleep. *)
Record fp_ok (t0 : LockoutTracker) s : Prop := {
  fp_process : process_ok t0 (st (hal s));
  fp_clients : ∀ p, p ∈ clients (st (hal s)) → is_Some (sessions (st (hal s)) !! p);
  fp_linked : ∀ p, p ∈ linked s ↔
    ∃ x, sessions (st (hal s)) !! p = Some x ∧ mClosed x = false;
  fp_timers : ∀ p x, sessions (st (hal s)) !! p = Some x →
    (Nat.b2n (mIsLockoutTimerStarted x) ≤ multiplicity p (asleep_timers s))%nat
}.

Lemma made_app s w' h : tr w' = tr (hal s) ++ h → made s w' = h.
Proof. intros Hh. unfold made. by rewrite Hh, drop_app_length. Qed.

(** After an event on the session at [p]. *)
Lemma holders_linked s e w' p :
  on_one_session e = true → about s e = Some p →
  linked (holders s e w') =
  if existsb is_delete (made s w') then linked s ∖ {[p]} else linked s.
Proof.
  intros Hon Ha. destruct e; try done; cbn in Ha; simplify_eq; cbn [holders linked about]; [done..| |done|done|done].
  by rewrite Ha.
Qed.

Definition fires (e : fp_event) : bool := match e with Fires _ => true | _ => false end.

Lemma holders_timers s e w' p q :
  on_one_session e = true → about s e = Some p →
  multiplicity q (asleep_timers (holders s e w')) =
  (multiplicity q (asleep_timers s) - (if fires e && bool_decide (q = p) then 1 else 0) +
   (if bool_decide (q = p) then count is_spawn (made s w') else 0))%nat.
Proof.
  intros Hon Ha. unfold holders. cbn [asleep_timers].
  rewrite Ha, multiplicity_disj_union, multiplicity_scalar_mul. f_equal.
  - destruct e; cbn in Ha; simplify_eq; cbn [fires andb]; rewrite ?Nat.sub_0_r; try done.
    rewrite multiplicity_difference. f_equal.
    rewrite multiplicity_singleton. by case_bool_decide; decides.
  - rewrite multiplicity_singleton. case_bool_decide; decides; lia.
Qed.

Lemma fp_ok_ran t0 s e p w' :
  on_one_session e = true → about s e = Some p → ran p (label_of e) (hal s) w' →
  process_ok t0 (st w') → fp_ok t0 s → fp_ok t0 (holders s e w').
Proof.
  intros Hon Ha [(x & y & h & Hx & Hs & Hh & Hc & Hm & Hf) Hi Hcl] Hok [_ Hcs Hl Ht].
  split.
  - done.
  - cbn. rewrite Hcl, Hs. intros q Hq. rewrite lookup_insert_is_Some.
    destruct (decide (p = q)); auto.
  - intros q. rewrite (holders_linked _ _ _ _ Hon Ha), (made_app _ _ _ Hh).
    cbn [hal holders]. rewrite Hs.
    destruct (decide (p = q)) as [<-|Hne].
    + rewrite lookup_insert_eq. specialize (Hl p). rewrite Hx in Hl.
      destruct (existsb is_delete h); rewrite ?orb_true_r, ?orb_false_r in Hc.
      * rewrite elem_of_difference, elem_of_singleton.
        split; [by intros [_ []]|]. intros (z & [= <-] & Hz). congruence.
      * rewrite Hl. split; intros (z & [= <-] & Hz); eexists; (split; [done|congruence]).
    + rewrite lookup_insert_ne by done. rewrite <- Hl.
      destruct (existsb is_delete h); [|done].
      rewrite elem_of_difference, elem_of_singleton. intuition congruence.
  - intros q z Hz. rewrite (holders_timers _ _ _ _ _ Hon Ha), (made_app _ _ _ Hh).
    cbn [hal holders] in Hz. rewrite Hs in Hz.
    destruct (decide (p = q)) as [<-|Hne].
    + rewrite lookup_insert_eq in Hz. injection Hz as <-. specialize (Ht p x Hx).
      rewrite (bool_decide_true (p = p)) by done.
      assert (Hl' : label_of e = TimerFires ∨ label_of e ≠ TimerFires ∧ fires e = false)
        by (destruct e as [|q l| | | | | |]; auto; destruct l; auto).
      destruct Hl' as [Hl'|[Hl' ->]].
      * destruct (Hf Hl') as [_ ->]. cbn. lia.
      * specialize (Hm Hl'). cbn. lia.
    + rewrite lookup_insert_ne in Hz by done. rewrite (bool_decide_false (q = p)), andb_false_r by congruence.
      specialize (Ht q z Hz). lia.
Qed.

(** The other two kinds of events. *)
Lemma created_sessions f p userId (s : process) q y :
  sessions (created f p userId s) !! q = Some y →
  (q = p ∧ y = Session_new p userId (mLockoutTracker f)) ∨
  (q ≠ p ∧ sessions s !! q = Some y).
Proof.
  intros [H _]%collect_lookup. cbn in H.
  apply lookup_insert_Some in H as [[<- <-]|[Hne H]]; auto.
Qed.

Lemma created_clients f p userId (s : process) q :
  (∀ q, q ∈ clients s → is_Some (sessions s !! q)) → q ∈ {[p]} ∪ clients s →
  is_Some (sessions (created f p userId s) !! q).
Proof.
  intros Hcs Hq. destruct (decide (q = p)) as [->|Hne].
  { rewrite created_lookup. eauto. }
  apply elem_of_union in Hq as [Hq|Hq]; [by apply elem_of_singleton in Hq|].
  destruct (Hcs q Hq) as [y Hy]. exists y. apply collect_lookup. cbn.
  split; [by rewrite lookup_insert_ne|]. right. by apply elem_of_union_r.
Qed.

Lemma fp_ok_creates t0 s userId w' :
  hal_perform env (CreateSession userId) (hal s) = (Done (), w') →
  fp_ok t0 s → fp_ok t0 (holders s (Creates userId) w').
Proof.
  intros Hw Hok. pose proof (fp_process _ _ Hok) as Hp.
  pose proof (hal_perform_ok env t0 (CreateSession userId) _ _ Hw Hp) as Hp'.
  cbn in Hw. apply bind_inv in Hw as (p & w1 & Hw & [= <-]).
  destruct (sInstance (st (hal s))) as [f|] eqn:Hf.
  2: { unfold createSession in Hw. by rewrite bind_gets, Hf in Hw. }
  destruct (open_or_not f (st (hal s))) as [Hno|(q & x & Hq & Hx & Hc)].
  { intros q Hq. apply (ok_current _ _ Hp). by rewrite Hf. }
  2: by rewrite (createSession_open env f q x) in Hw.
  destruct (mDevice f) eqn:Hd.
  2: { destruct (createSession_null env f userId (hal s)) as (w2 & H2 & _); congruence. }
  rewrite (createSession_done env f) in Hw by done. injection Hw as <- <-.
  destruct Hok as [_ Hcs Hl Ht].
  set (p := fresh (dom (sessions (st (hal s))))) in *.
  assert (Hnone : ∀ q x, sessions (st (hal s)) !! q = Some x → mClosed x = true).
  { intros q x Hq. destruct (mClosed x) eqn:Hx; [done|].
    pose proof (ok_open _ _ Hp q x Hq Hx) as Hcur. rewrite Hf in Hcur. cbn in Hcur.
    unfold no_open_session in Hno. rewrite Hcur in Hno. destruct Hno as (y & Hy & Hyc).
    congruence. }
  split.
  - done.
  - intros q. by apply created_clients.
  - intros q. cbn [holders hal st linked created collect set_sessions sInstance mbind option_bind
      mSession set_fp_session]. fold (created f p userId (st (hal s))).
    rewrite elem_of_union, elem_of_singleton, Hl. split.
    + intros [->|(x & Hx & Hc)]; [|by rewrite (Hnone q x Hx) in Hc].
      eexists. split; [apply created_lookup|done].
    + intros (x & [[-> _]|[_ Hx]]%created_sessions & Hc); [by left|right; eauto].
  - intros q x [[-> ->]|[_ Hx]]%created_sessions; [cbn; lia|]. by apply Ht.
Qed.

Lemma fp_ok_releases t0 s p w' :
  hal_perform env (ReleaseSession p) (hal s) = (Done (), w') →
  fp_ok t0 s → fp_ok t0 (holders s (Releases p) w').
Proof.
  intros Hw Hok. pose proof (fp_process _ _ Hok) as Hp.
  pose proof (hal_perform_ok env t0 (ReleaseSession p) _ _ Hw Hp) as Hp'.
  cbn in Hw. unfold release_session in Hw. revert Hw. run. intros [= <-].
  destruct Hok as [_ Hcs Hl Ht].
  set (s1 := set_clients (clients (st (hal s)) ∖ {[p]}) (st (hal s))) in *.
  split.
  - done.
  - intros q Hq. change (q ∈ clients (st (hal s)) ∖ {[p]}) in Hq.
    destruct (Hcs q) as [x Hx]; [by apply elem_of_difference in Hq as [? _]|].
    exists x. apply collect_lookup. split; [done|by right].
  - intros q. cbn [holders hal linked about]. rewrite Hl. split.
    + intros (x & Hx & Hc). exists x. split; [|done]. apply collect_lookup.
      split; [done|]. left. exact (ok_open _ _ Hp q x Hx Hc).
    + intros (x & [Hx _]%collect_lookup & Hc). eauto.
  - intros q x [Hx _]%collect_lookup. by apply Ht.
Qed.

(** A message nobody gets changes nothing. *)
Lemma holders_dropped s msg : holders s (Notifies msg) (hal s) = s.
Proof.
  unfold holders, made. rewrite drop_all. cbn [existsb]. rewrite count_nil.
  destruct s as [w ts sg l]. cbn [about hal asleep_timers signals linked].
  destruct (sInstance (st w) ≫= mSession); [|done].
  by rewrite gmultiset_scalar_mul_0, gmultiset_disj_union_right_id.
Qed.

Lemma fp_ok_act t0 s e s' : fp_act env s e = Some (Done s') → fp_ok t0 s → fp_ok t0 s'.
Proof.
  unfold fp_act. intros Ha Hok. case_decide as Hal; [|done].
  destruct (hal_perform env (event_of e) (hal s)) as [[[]|] w'] eqn:Hw; [|done].
  injection Ha as <-. pose proof (fp_process _ _ Hok) as Hp.
  destruct (on_one_session e) eqn:Hon.
  - destruct (event_on_session t0 s e Hp Hon) as [(p & Hp1 & Hrun)|[[msg ->] Hrun]].
    + pose proof (hal_perform_ok env t0 _ _ _ Hw Hp) as Hp'. rewrite Hrun in Hw.
      eapply fp_ok_ran; [done..|by apply on_session_ran|done|done].
    + rewrite Hrun in Hw. injection Hw as <-. by rewrite holders_dropped.
  - destruct e; try done; [by eapply fp_ok_creates|by eapply fp_ok_releases].
Qed.

Lemma fp_ok_run t0 s es s' : fp_run env s es = Some s' → fp_ok t0 s → fp_ok t0 s'.
Proof.
  revert s. induction es as [|e es IH]; intros s Hr Hok; cbn in Hr; [by simplify_eq|].
  destruct (fp_act env s e) as [[s1|]|] eqn:Ha; try done.
  eapply IH; [exact Hr|]. by eapply fp_ok_act.
Qed.

Lemma fp_ok_start t0 type max opened : fp_ok t0 (fp_start t0 type max opened).
Proof.
  split; cbn; try done.
  - apply process_of_ok.
  - intros p. split; [set_solver|]. by intros (x & Hx & _).
Qed.
End events.

(** ** Properties *)

Section properties.
Context (env : environment).

Lemma reachable_fp_ok t0 type max opened es s :
  fp_run env (fp_start t0 type max opened) es = Some s → fp_ok t0 s.
Proof. intros Hr. eapply fp_ok_run; [exact Hr|apply fp_ok_start]. Qed.

Lemma on_session_faults t0 p l w f w' :
  process_ok t0 (st w) → on_session p (perform env l) w = (Fault f, w') →
  (sessions (st w) !! p = None ∧ f = UseAfterFree) ∨
  (∃ x, sessions (st w) !! p = Some x ∧
     (f = OutOfBounds ∧ overflows env l (tr w) ∨ f = UseAfterFree ∧ l = Close ∧ mClosed x = true)).
Proof.
  intros Hok. unfold on_session. destruct (sessions (st w) !! p) as [x|] eqn:Hp.
  - destruct (perform env l _) as [o y] eqn:Hr. intros [= -> <-]. right. exists x. split; [done|].
    apply perform_faults in Hr; [exact Hr|]. by apply (ok_recipient _ _ Hok p).
  - intros [= <- _]. by left.
Qed.

Lemma createSession_faults userId w f w' :
  createSession env userId w = (Fault f, w') →
  (∀ f0 p, sInstance (st w) = Some f0 → mSession f0 = Some p → is_Some (sessions (st w) !! p)) →
  (f = CheckFailed ∧ ∃ p x, sessions (st w) !! p = Some x ∧ mClosed x = false) ∨
  (f = NullDeref ∧ (mDevice <$> sInstance (st w)) ≠ Some true).
Proof.
  intros Hw Hal. destruct (sInstance (st w)) as [f0|] eqn:Hf.
  2: { unfold createSession in Hw. rewrite bind_gets, Hf in Hw. injection Hw as <- _. by right. }
  destruct (open_or_not f0 (st w)) as [Hno|(q & x & Hq & Hx & Hc)]; [by eauto| |].
  - destruct (mDevice f0) eqn:Hd.
    + by rewrite (createSession_done env f0) in Hw.
    + destruct (createSession_null env f0 userId w Hf Hno Hd) as (w2 & H2 & _).
      right. split; [congruence|]. cbn. rewrite Hd. by intros [=].
  - rewrite (createSession_open env f0 q x) in Hw by done. injection Hw as <- _. left. eauto.
Qed.

(** C11: what can end the fingerprint process. In every run of the HAL object, its sessions
    and all their callers (the framework with the references it holds, the cancellation
    signals it was given, the device's notifications, the death of clients, the lockout
    timers that sleep and the workers of live handlers) whose events run to completion, an
    event faults only so: creating a session while one is open fails the CHECK, and without
    a device calls through a null pointer; an enrolment whose token has too long a code
    overflows the packed array; closing a session that is closed already deletes the death
    recipient that is gone; and a timer or a signal whose session is gone calls through a
    dangling pointer. No other call of the framework on a session, no notification, no death
    notification and no worker does. *)
Theorem fingerprint_faults t0 type max opened es s e f :
  fp_run env (fp_start t0 type max opened) es = Some s →
  fp_act env s e = Some (Fault f) →
  match e with
  | Creates _ =>
      (f = CheckFailed ∧ ∃ p x, sessions (st (hal s)) !! p = Some x ∧ mClosed x = false) ∨
      (f = NullDeref ∧ (mDevice <$> sInstance (st (hal s))) ≠ Some true)
  | Calls p l =>
      f = OutOfBounds ∧ overflows env l (tr (hal s)) ∨
      f = UseAfterFree ∧ l = Close ∧
        ∃ x, sessions (st (hal s)) !! p = Some x ∧ mClosed x = true
  | Cancels p | Fires p => f = UseAfterFree ∧ sessions (st (hal s)) !! p = None
  | Releases _ | Notifies _ | Dies _ | Works _ _ => False
  end.
Proof.
  intros Hr Ha. destruct (reachable_fp_ok _ _ _ _ _ _ Hr) as [Hp Hcs Hl _].
  unfold fp_act in Ha. case_decide as Hal; [|done].
  destruct (hal_perform env (event_of e) (hal s)) as [[[]|f'] w'] eqn:Hw; [done|].
  injection Ha as ->.
  destruct (on_one_session e) eqn:Hon.
  - destruct (event_on_session env t0 s e Hp Hon) as [(p & Hp1 & Hrun)|[[msg ->] Hrun]];
      [|congruence].
    rewrite Hrun in Hw. apply (on_session_faults t0) in Hw; [|done].
    destruct e as [|q l|q|q|msg|q|q|q o]; try done; cbn in Hp1, Hal; simplify_eq;
      cbn [label_of overflows] in Hw;
      destruct Hw as [[Hn ->]|(x & Hx & [[-> Ho]|(-> & Hc & Hx')])]; try done.
    + destruct Hal as [Hq _]. destruct (Hcs p Hq) as [x Hx]. congruence.
    + by left.
    + right. by eauto.
    + destruct (ok_current _ _ Hp p Hp1) as [x Hx]. congruence.
    + apply Hl in Hal as (x & Hx & _). congruence.
    + destruct Hal as [x Hx]. congruence.
  - destruct e as [uid| | |p| | | |]; try done. cbn in Hw.
    destruct (createSession env uid (hal s)) as [[p|f'] w1] eqn:Hc; unfold mbind, M_bind in Hw;
      rewrite Hc in Hw; [done|]. injection Hw as <- <-.
    eapply createSession_faults; [exact Hc|]. intros f0 p Hf0 Hp0. apply (ok_current _ _ Hp).
    by rewrite Hf0.
Qed.

(** C33: a mark has its timer, which clears it, where events run to completion. In every
    reachable state each live session whose [mIsLockoutTimerStarted] is set has a timer
    asleep; the timer can fire, and when it does it returns and the mark of that session is
    cleared. (Where the threads race, the mark can be left without one.) *)
Theorem marked_session_has_timer t0 type max opened es s p x :
  fp_run env (fp_start t0 type max opened) es = Some s →
  sessions (st (hal s)) !! p = Some x →
  mIsLockoutTimerStarted x = true →
  p ∈ asleep_timers s ∧
  ∃ s' y, fp_act env s (Fires p) = Some (Done s') ∧
    sessions (st (hal s')) !! p = Some y ∧ mIsLockoutTimerStarted y = false.
Proof.
  intros Hr Hx Hm. destruct (reachable_fp_ok _ _ _ _ _ _ Hr) as [_ _ _ Ht].
  specialize (Ht p x Hx). rewrite Hm in Ht. cbn in Ht.
  assert (Hin : p ∈ asleep_timers s) by (apply elem_of_multiplicity; lia).
  split; [done|]. unfold fp_act. rewrite decide_True by done. cbn [event_of hal_perform].
  assert (∃ w', on_session p (perform env TimerFires) (hal s) = (Done (), w')) as [w' Hw].
  { unfold on_session. rewrite Hx. set (w0 := World _ _).
    assert (total (perform env TimerFires)) as Htot by (cbn [perform]; repeat total_step).
    destruct (Htot w0) as [[] Ha]. destruct (perform env TimerFires w0) as [o w1]. cbn in Ha. subst o.
    by eexists. }
  rewrite Hw. destruct (on_session_ran env p TimerFires (hal s) w' Hw)
    as [(x' & y & h & _ & Hs & _ & _ & _ & Hf) _ _].
  eexists _, y. split; [reflexivity|]. split; [cbn; by rewrite Hs, lookup_insert_eq|].
  by apply Hf.
Qed.
End properties.

(** ** Concrete runs *)

Definition steady_process : fp_system :=
  fp_start (tracker_init 0 NONE) UNDER_DISPLAY_OPTICAL 5 true.

Definition failures_at (n : nat) : list fp_event :=
  replicate n (Notifies (FINGERPRINT_AUTHENTICATED {| gid := 0; fid := 0 |} (stack_token steady []))).

(** Five failures, the session is closed and dropped, and another one created. *)
Definition locked_and_left : list fp_event :=
  [Creates 10; Calls 0%nat (Authenticate 7)] ++ failures_at 5 ++
  [Calls 0%nat Close; Releases 0%nat; Creates 10].

(** a lockout timer outlives its session. Five failures start a timer; the framework
    closes the session, drops it and opens the next one within its thirty seconds, which
    frees the first; then the timer fires and calls [lockoutTimerExpired] on it. *)
Theorem timer_outlives_session :
  ∃ s, fp_run steady steady_process locked_and_left = Some s ∧
    sessions (st (hal s)) !! 0%nat = None ∧
    sInstance (st (hal s)) ≫= mSession = Some 1%nat ∧
    fp_act steady s (Fires 0%nat) = Some (Fault UseAfterFree).
Proof.
  destruct (fp_run steady steady_process locked_and_left) as [s|] eqn:Hr; [|by vm_compute in Hr].
  exists s. split; [done|]. vm_compute in Hr. injection Hr as <-. by vm_compute.
Qed.

Example fingerprint_faults_witness :
  ∃ s, fp_run steady steady_process locked_and_left = Some s ∧
    fp_act steady s (Fires 0%nat) = Some (Fault UseAfterFree) ∧
    UseAfterFree = UseAfterFree ∧ sessions (st (hal s)) !! 0%nat = None.
Proof.
  destruct (fp_run steady steady_process locked_and_left) as [s|] eqn:Hr; [|by vm_compute in Hr].
  assert (Ha : fp_act steady s (Fires 0%nat) = Some (Fault UseAfterFree))
    by (vm_compute in Hr; injection Hr as <-; by vm_compute).
  exists s. split; [reflexivity|]. split; [exact Ha|].
  exact (fingerprint_faults steady (tracker_init 0 NONE) UNDER_DISPLAY_OPTICAL 5 true
    locked_and_left s (Fires 0%nat) UseAfterFree Hr Ha).
Defined.

Example marked_session_has_timer_witness :
  ∃ s, fp_run steady steady_process (Creates 10 :: failures_at 5) = Some s ∧
    0%nat ∈ asleep_timers s ∧
    ∃ s' y, fp_act steady s (Fires 0%nat) = Some (Done s') ∧
      sessions (st (hal s')) !! 0%nat = Some y ∧ mIsLockoutTimerStarted y = false.
Proof.
  destruct (fp_run steady steady_process (Creates 10 :: failures_at 5)) as [s|] eqn:Hr;
    [|by vm_compute in Hr].
  assert (Hx : ∃ x, sessions (st (hal s)) !! 0%nat = Some x ∧ mIsLockoutTimerStarted x = true)
    by (vm_compute in Hr; injection Hr as <-; eexists; split; by vm_compute).
  destruct Hx as (x & Hx & Hm). exists s. split; [reflexivity|].
  exact (marked_session_has_timer steady (tracker_init 0 NONE) UNDER_DISPLAY_OPTICAL 5
    true (Creates 10 :: failures_at 5) s 0%nat x Hr Hx Hm).
Defined.
