(* ===== verification/UdfpsExtension.v ===== *)
(** * The compositor's fingerprint layers

    [fingerprint/UdfpsExtension.cpp]: the three functions the compositor asks about the
    layers of the fingerprint area. The flag of a pressed layer is defined in the display
    driver's header, outside the repository. *)

From S2P Require Import Prelude Words.

Section udfps_extension.
Context (FOD_PRESSED_LAYER_ZORDER : Z).

Definition getUdfpsDimZOrder (z : Z) : Z := z.

Definition getUdfpsZOrder (z : Z) (touched : bool) : Z :=
  if touched then Z.lor z FOD_PRESSED_LAYER_ZORDER else z.

Definition getUdfpsUsageBits (usageBits : Z) (touched : bool) : Z := usageBits.

(** A touched layer keeps its order and carries the flag, however often it is asked for. *)
Lemma touched_layer_flagged z :
  Z.land (getUdfpsZOrder z true) FOD_PRESSED_LAYER_ZORDER = FOD_PRESSED_LAYER_ZORDER ∧
  Z.ldiff (getUdfpsZOrder z true) FOD_PRESSED_LAYER_ZORDER
  = Z.ldiff (getUdfpsZOrder z false) FOD_PRESSED_LAYER_ZORDER ∧
  getUdfpsZOrder (getUdfpsZOrder z true) true = getUdfpsZOrder z true.
Proof.
  unfold getUdfpsZOrder. split_and!; apply Z.bits_inj'; intros n Hn;
    rewrite ?Z.ldiff_spec, ?Z.land_spec, ?Z.lor_spec by done;
    rewrite ?Z.lor_spec by done;
    by destruct (Z.testbit z n), (Z.testbit FOD_PRESSED_LAYER_ZORDER n).
Qed.
End udfps_extension.
