(* ===== verification/Charging.v ===== *)
(** * ChargeStatusListener

    [charging/charging-control.cpp]: limits the charging current by the temperature of the
    phone. A binder callback follows the battery's status and starts a thread that
    rewrites the limit twice a second while the phone charges. *)

From Stdlib Require Import Ascii.
From S2P Require Import Prelude Words Text.

(** ** Tables *)

Definition CHG_VOLT_TBL : list Z :=
  [9000; 8500; 8000; 7500; 7000; 6500; 6000; 5500; 5000; 4500; 4000; 3500;
   3000; 2500; 2400; 2000; 1600; 1500; 1200; 1000; 500; 0].
Definition ppsTempThresholds : list Z := [35000; 37000; 39000; 41000; 43000; 48000].
Definition ppsVoltLimit : list Z := [4; 6; 10; 12; 15; 21].
Definition qcTempThresholds : list Z := [35000; 37000; 39000; 41000; 48000].
Definition qcVoltLimit : list Z := [8; 12; 15; 16; 21].
Definition wlsTempThresholds : list Z := [35000; 41000; 48000].
Definition wlsVoltLimit : list Z := [15; 19; 21].

Definition THERMAL_SYSFS : string := "/sys/class/thermal/".
Definition TZ_DIR_NAME : string := "thermal_zone".
Definition TZ_TYPE : string := "type".
Definition USB_CHG_ONLINE : string := "/sys/class/power_supply/usb/online".
Definition USB_CHG_TYPE : string := "/sys/class/power_supply/usb/usb_type".
Definition BATTERY_SCENARIO_FCC : string := "/sys/class/qcom-battery/scenario_fcc".
Definition WLS_CHG_ONLINE : string := "/sys/class/power_supply/wireless/online".
Definition MAX_PATH : nat := 256.
Definition CHG_LIMIT_INTERVAL : Z := 500.

(** ** State *)

(** The AIDL enumeration, with its values. *)
Definition BatteryStatus : Set := Z.
Definition CHARGING : BatteryStatus := 2.

Record ChargeStatusListener : Set := {
  mStatus : BatteryStatus;
  usbChgActive : bool;
  usingPps : bool;
  wlsChgActive : bool;
  enableChgLimit : bool
}.

(** The byte 0 at the end of a C string, which [write_value] writes too. *)
Definition terminator : string := String "000"%char EmptyString.

(** Calls to the outside, in order: every read is one, so what a file holds may change at
    any time. *)
Inductive chg_call : Set :=
| file_read (path : string)
| dir_read (path : string)
| file_open (path : string)
| file_write (path bytes : string)
| sleep_for (millis : Z)
| spawn_limiter.

(** What the file system answers the last call of a history: the text of a file ([None]: it
    cannot be opened), the entries of a directory, the error of opening a file for writing
    and of writing to it. *)
Record chg_environment : Type := {
  content : list chg_call → string → option string;
  entries : list chg_call → string → option (list string);
  open_error : list chg_call → string → option Z;
  write_error : list chg_call → string → option Z
}.

(** A limiter thread between two of its sections: not started or asleep, or between reading
    the thresholds and reading the limits, or returned. *)
Inductive limiter : Set :=
| Asleep
| HasThresholds (last_volt_limit current_temp : Z) (tempThresholds : list Z)
| Returned.

Record chg_state : Set := { listener : ChargeStatusListener; limiters : list limiter }.

Definition set_flags (status : BatteryStatus) (usb pps wls enable : bool)
    (s : chg_state) : chg_state :=
  {| listener := {| mStatus := status; usbChgActive := usb; usingPps := pps;
                    wlsChgActive := wls; enableChgLimit := enable |};
     limiters := limiters s |}.

(** [s.find(sub) != npos]. *)
Fixpoint contains (sub s : string) : bool :=
  starts_with sub s || match s with String _ s' => contains sub s' | EmptyString => false end.

(** [sscanf(s, "thermal_zone%d", &tzn)] with [tzn] set to 0 before. *)
Definition sscanf_tz (s : string) : Z :=
  if starts_with TZ_DIR_NAME s then
    match scan_int 10 (String.substring (String.length TZ_DIR_NAME)
                         (String.length s - String.length TZ_DIR_NAME) s) with
    | Some (n, _) => i32 n
    | None => 0
    end
  else 0.

Section charging.
Context (env : chg_environment).

Abbreviation prog := (M (world chg_state chg_call)).

Definition get {A} (f : ChargeStatusListener → A) : prog A := gets (λ s, f (listener s)).

(** ** Files *)

Definition read_line (file : string) : prog string :=
  text ← call (λ h, content env h file) (file_read file);
  mret (match text with Some t => first_line t | None => EmptyString end).

(** Both overloads; the answer is 0 or minus the error. *)
Definition write_value (file value : string) : prog Z :=
  error ← call (λ h, open_error env h file) (file_open file);
  match error with
  | Some errno => mret (- errno)
  | None =>
      error ← call (λ h, write_error env h file) (file_write file (value +:+ terminator));
      mret (match error with Some errno => - errno | None => 0 end)
  end.

Definition write_value_int (file : string) (value : Z) : prog Z :=
  write_value file (to_string value).

(** ** Temperatures *)

(** The loop over the directory's entries: the first whose type begins with the sensor's
    name. *)
Fixpoint find_tz (sensor_name : string) (names : list string) : prog (option string) :=
  match names with
  | [] => mret None
  | d_name :: names' =>
      if starts_with TZ_DIR_NAME d_name then
        buf ← read_line (snprintf MAX_PATH (THERMAL_SYSFS +:+ d_name +:+ "/" +:+ TZ_TYPE));
        if decide (buf = EmptyString) then find_tz sensor_name names'
        else if starts_with sensor_name buf then mret (Some d_name)
        else find_tz sensor_name names'
      else find_tz sensor_name names'
  end.

Definition get_tzn (sensor_name : string) : prog Z :=
  tdir ← call (λ h, entries env h THERMAL_SYSFS) (dir_read THERMAL_SYSFS);
  match tdir with
  | None => mret (-1)
  | Some names =>
      found ← find_tz sensor_name names;
      mret (match found with Some d_name => sscanf_tz d_name | None => -1 end)
  end.

Definition temp_path (tzn : Z) : string :=
  snprintf MAX_PATH (THERMAL_SYSFS +:+ "thermal_zone" +:+ to_string tzn +:+ "/temp").

Definition read_temp (tzn : Z) : prog Z :=
  line ← read_line (temp_path tzn);
  lift_outcome (stoi line).

(** The two halves of [get_charge_temp]: a sensor on the shell, another behind it. *)
Definition temp_from (shell fallback : string) : prog Z :=
  tzn ← get_tzn shell;
  temp ← (if decide (0 ≤ tzn) then
            temp ← read_temp tzn;
            mret (if decide (0 < temp) then Some temp else None)
          else mret None);
  match temp with
  | Some temp => mret temp
  | None => tzn ← get_tzn fallback; read_temp tzn
  end.

Definition get_charge_temp : prog Z :=
  usb ← get usbChgActive;
  if usb : bool then temp_from "shell_front" "battery"
  else
    wls ← get wlsChgActive;
    if wls : bool then temp_from "shell_back" "wls-therm" else mret 0.

Definition get_charge_tempThresholds (x : ChargeStatusListener) : list Z :=
  if usbChgActive x then if usingPps x then ppsTempThresholds else qcTempThresholds
  else if wlsChgActive x then wlsTempThresholds
  else [].

Definition get_charge_voltLimits (x : ChargeStatusListener) : list Z :=
  if usbChgActive x then if usingPps x then ppsVoltLimit else qcVoltLimit
  else if wlsChgActive x then wlsVoltLimit
  else [].

(** ** The limiter *)

(** The loop over the thresholds from index [i]. *)
Fixpoint volt_index (current_temp : Z) (i : nat) (tempThresholds voltLimits : list Z)
    (volt_limit_index : Z) : outcome Z :=
  match tempThresholds with
  | [] => Done volt_limit_index
  | t :: tempThresholds' =>
      if decide (t ≤ current_temp) then
        match voltLimits !! i with
        | Some v => volt_index current_temp (S i) tempThresholds' voltLimits v
        | None => Fault OutOfBounds
        end
      else Done volt_limit_index
  end.

(** A read of the table at an index of type [int]. *)
Definition CHG_VOLT_TBL_at (i : Z) : outcome Z :=
  match CHG_VOLT_TBL !! Z.to_nat i with
  | Some v => if decide (0 ≤ i) then Done v else Fault OutOfBounds
  | None => Fault OutOfBounds
  end.

(** The loop and the table. *)
Definition volt_limit (current_temp : Z) (tempThresholds voltLimits : list Z) : outcome Z :=
  match volt_index current_temp 0 tempThresholds voltLimits 0 with
  | Done volt_limit_index => CHG_VOLT_TBL_at volt_limit_index
  | Fault e => Fault e
  end.

(** From the head of the loop to the thresholds. *)
Definition limit_read : prog limiter :=
  enable ← get enableChgLimit;
  if enable : bool then
    line ← read_line BATTERY_SCENARIO_FCC;
    last_volt_limit ← lift_outcome (stoi line);
    current_temp ← get_charge_temp;
    tempThresholds ← get get_charge_tempThresholds;
    mret (HasThresholds last_volt_limit current_temp tempThresholds)
  else mret Returned.

(** From the limits to the sleep. *)
Definition limit_write (last_volt_limit current_temp : Z) (tempThresholds : list Z)
    : prog limiter :=
  voltLimits ← get get_charge_voltLimits;
  current_volt_limit ← lift_outcome (volt_limit current_temp tempThresholds voltLimits);
  (if decide (current_volt_limit ≠ last_volt_limit)
   then _ ← write_value_int BATTERY_SCENARIO_FCC current_volt_limit; mret ()
   else mret ());;
  emit (sleep_for CHG_LIMIT_INTERVAL);;
  mret Asleep.

(** [limitCharge], one section at a time; the check after the sleep is the loop's own. *)
Definition limitCharge (pc : limiter) : prog limiter :=
  match pc with
  | Asleep => limit_read
  | HasThresholds last temp thresholds => limit_write last temp thresholds
  | Returned => mret Returned
  end.

(** ** The callback *)

Definition nonzero (n : Z) : bool := negb (n =? 0).

Definition online (path : string) : prog bool :=
  line ← read_line path;
  n ← lift_outcome (stoi line);
  mret (nonzero n).

Definition healthInfoChanged (batteryStatus : BatteryStatus) : prog unit :=
  old ← get mStatus;
  if decide (batteryStatus ≠ old) then
    modify (λ s, let x := listener s in
      set_flags batteryStatus (usbChgActive x) (usingPps x) (wlsChgActive x)
        (enableChgLimit x) s);;
    usb ← online USB_CHG_ONLINE;
    modify (λ s, let x := listener s in
      set_flags (mStatus x) usb (usingPps x) (wlsChgActive x) (enableChgLimit x) s);;
    wls ← online WLS_CHG_ONLINE;
    modify (λ s, let x := listener s in
      set_flags (mStatus x) (usbChgActive x) (usingPps x) wls (enableChgLimit x) s);;
    if decide (batteryStatus = CHARGING) then
      pps ← (if usb : bool then usbChgType ← read_line USB_CHG_TYPE;
                                mret (contains "[PD_PPS]" usbChgType)
             else mret false);
      modify (λ s, let x := listener s in
        {| listener := {| mStatus := mStatus x; usbChgActive := usbChgActive x;
                          usingPps := pps; wlsChgActive := wlsChgActive x;
                          enableChgLimit := true |};
           limiters := limiters s ++ [Asleep] |});;
      emit spawn_limiter
    else
      modify (λ s, let x := listener s in
        set_flags (mStatus x) (usbChgActive x) false (wlsChgActive x) false s)
  else mret ().

(** ** The process *)

Inductive chg_event : Set :=
| HealthInfo (batteryStatus : BatteryStatus)
| LimiterRuns (n : nat).

(** A section of the [n]-th limiter thread. *)
Definition run_limiter (n : nat) : prog unit :=
  pcs ← gets limiters;
  match pcs !! n with
  | Some pc =>
      pc' ← limitCharge pc;
      modify (λ s, {| listener := listener s; limiters := <[n := pc']> (limiters s) |})
  | None => mret ()
  end.

Definition chg_perform (e : chg_event) : prog unit :=
  match e with
  | HealthInfo status => healthInfoChanged status
  | LimiterRuns n => run_limiter n
  end.

Fixpoint chg_performs (es : list chg_event) : prog unit :=
  match es with
  | [] => mret ()
  | e :: es' => chg_perform e;; chg_performs es'
  end.
End charging.

(** ** The limit as a function of the temperature *)

(** What the limiter computes when the flags do not change under it. *)
Definition limit_of (x : ChargeStatusListener) (temp : Z) : outcome Z :=
  volt_limit temp (get_charge_tempThresholds x) (get_charge_voltLimits x).

(** The policy in milliamperes: for each kind of charger the temperatures, in thousandths of
    a degree, from which each limit holds, hottest first. *)
Definition policy (x : ChargeStatusListener) : list (Z * Z) :=
  if usbChgActive x then
    if usingPps x then [(48000, 0); (43000, 2000); (41000, 3000); (39000, 4000);
                        (37000, 6000); (35000, 7000)]
    else [(48000, 0); (41000, 1600); (39000, 2000); (37000, 3000); (35000, 5000)]
  else if wlsChgActive x then [(48000, 0); (41000, 1000); (35000, 2000)]
  else [].

Fixpoint lookup_policy (rows : list (Z * Z)) (temp : Z) : Z :=
  match rows with
  | [] => 9000
  | (t, limit) :: rows' => if decide (t ≤ temp) then limit else lookup_policy rows' temp
  end.

Definition charge_limit (x : ChargeStatusListener) (temp : Z) : Z :=
  lookup_policy (policy x) temp.

Lemma limit_of_policy x temp : limit_of x temp = Done (charge_limit x temp).
Proof.
  unfold limit_of, volt_limit, charge_limit, policy, get_charge_tempThresholds, get_charge_voltLimits.
  destruct (usbChgActive x), (usingPps x), (wlsChgActive x); cbn;
    repeat (case_decide; cbn; try lia); done.
Qed.

(** Hottest row first, with limits that grow down the table and stay below the default. *)
Fixpoint descending (rows : list (Z * Z)) : Prop :=
  match rows with
  | [] => True
  | (t, limit) :: rows' => (∀ temp, limit ≤ lookup_policy rows' temp) ∧ descending rows'
  end.

Lemma lookup_policy_antitone rows t1 t2 :
  descending rows → t1 ≤ t2 → lookup_policy rows t2 ≤ lookup_policy rows t1.
Proof.
  induction rows as [|[t limit] rows IH]; cbn; [lia|]. intros [Hl Hd] Ht.
  specialize (IH Hd Ht). specialize (Hl t1). repeat case_decide; lia.
Qed.

Lemma lookup_policy_limits rows temp :
  lookup_policy rows temp = 9000 ∨ lookup_policy rows temp ∈ rows.*2.
Proof.
  induction rows as [|[t limit] rows IH]; cbn; [by left|].
  rewrite elem_of_cons. case_decide; tauto.
Qed.

Lemma policy_descending x : descending (policy x).
Proof.
  unfold policy. destruct (usbChgActive x), (usingPps x), (wlsChgActive x); cbn;
    try split_and!; intros; repeat case_decide; done || lia.
Qed.

Lemma charge_limit_in_table x temp : charge_limit x temp ∈ CHG_VOLT_TBL.
Proof.
  unfold charge_limit.
  assert (H : Forall (λ v, v ∈ CHG_VOLT_TBL) (9000 :: (policy x).*2)).
  { unfold policy. destruct (usbChgActive x), (usingPps x), (wlsChgActive x); cbn;
      repeat (constructor; [by apply (bool_decide_unpack _); vm_compute|]); constructor. }
  rewrite Forall_forall in H. apply H. rewrite elem_of_cons. apply lookup_policy_limits.
Qed.

Lemma charge_limit_range x temp : 0 ≤ charge_limit x temp ≤ 9000.
Proof.
  assert (H : Forall (λ v, 0 ≤ v ≤ 9000) CHG_VOLT_TBL) by (repeat constructor; lia).
  rewrite Forall_forall in H. apply H, charge_limit_in_table.
Qed.

Lemma charge_limit_cold x temp : temp < 35000 → charge_limit x temp = 9000.
Proof.
  intros Ht. unfold charge_limit, policy.
  destruct (usbChgActive x), (usingPps x), (wlsChgActive x); cbn; by decides.
Qed.

Lemma charge_limit_hot x temp :
  48000 ≤ temp → usbChgActive x || wlsChgActive x = true → charge_limit x temp = 0.
Proof.
  intros Ht. unfold charge_limit, policy.
  destruct (usbChgActive x), (usingPps x), (wlsChgActive x); cbn; intros; try done; by decides.
Qed.

Section charging_properties.
Context (env : chg_environment).

(** C19: the charging limit never leaves its table and never rises with the temperature. For
    every combination of the flags and every two temperatures the index stays inside the
    table; the hotter of the two gets at most the limit of the cooler one; limits lie
    between 0 and 9000 mA; below 35 degrees there is no limit, and from 48 degrees an
    active charger is stopped. *)
Theorem limit_antitone x t1 t2 :
  t1 ≤ t2 →
  ∃ v1 v2, limit_of x t1 = Done v1 ∧ limit_of x t2 = Done v2 ∧
  0 ≤ v2 ≤ v1 ∧ v1 ≤ 9000 ∧ v1 ∈ CHG_VOLT_TBL ∧ v2 ∈ CHG_VOLT_TBL ∧
  (t2 < 35000 → v2 = 9000) ∧
  (48000 ≤ t1 → usbChgActive x || wlsChgActive x = true → v1 = 0).
Proof.
  intros Ht. exists (charge_limit x t1), (charge_limit x t2). rewrite !limit_of_policy.
  pose proof (charge_limit_range x t1). pose proof (charge_limit_range x t2).
  pose proof (lookup_policy_antitone (policy x) t1 t2 (policy_descending x) Ht).
  split_and!; try done; try lia; eauto using charge_limit_in_table, charge_limit_cold,
    charge_limit_hot; unfold charge_limit; lia.
Qed.

Lemma limit_write_run last temp (w : world chg_state chg_call) :
  let x := listener (st w) in
  let limit := charge_limit x temp in
  limit_write env last temp (get_charge_tempThresholds x) w =
  (Done Asleep, World (st w)
     (tr w ++ (if decide (limit = last) then []
               else file_open BATTERY_SCENARIO_FCC ::
                    match open_error env (tr w ++ [file_open BATTERY_SCENARIO_FCC])
                            BATTERY_SCENARIO_FCC with
                    | Some _ => []
                    | None => [file_write BATTERY_SCENARIO_FCC (to_string limit +:+ terminator)]
                    end) ++ [sleep_for CHG_LIMIT_INTERVAL])).
Proof.
  cbv zeta. unfold limit_write, get. run.
  change (volt_limit _ _ _) with (limit_of (listener (st w)) temp).
  rewrite limit_of_policy. unfold write_value_int, write_value. run.
  repeat case_decide; run; try done. destruct (open_error _ _ _); by run.
Qed.

(** one round of the limiter. When the flags have not changed since the thresholds were
    read, it compares the policy's limit for the temperature with the one the node held
    and writes it, as text with its terminator, only if they differ and the node can be
    opened; then it sleeps 500 ms. *)
Theorem limit_round last temp (w : world chg_state chg_call) :
  let x := listener (st w) in
  let limit := charge_limit x temp in
  let opening := tr w ++ [file_open BATTERY_SCENARIO_FCC] in
  limit_write env last temp (get_charge_tempThresholds x) w =
  (Done Asleep, World (st w)
     (tr w ++ (if decide (limit = last) then []
               else file_open BATTERY_SCENARIO_FCC ::
                    match open_error env opening BATTERY_SCENARIO_FCC with
                    | Some _ => []
                    | None => [file_write BATTERY_SCENARIO_FCC (to_string limit +:+ terminator)]
                    end) ++ [sleep_for 500])).
Proof.
  apply limit_write_run.
Qed.

(** ** Reading *)

(** Reading the temperature changes nothing. *)
Lemma find_tz_pure (P : chg_state → Prop) sensor names :
  preserves (of_state P) (find_tz env sensor names).
Proof. induction names as [|d names IH]; cbn [find_tz]; solve_state_invariant. Qed.
#[local] Hint Resolve find_tz_pure : prog.

Lemma get_charge_temp_pure (P : chg_state → Prop) :
  preserves (of_state P) (get_charge_temp env).
Proof. solve_state_invariant. Qed.

Lemma get_charge_temp_state w o w' : get_charge_temp env w = (o, w') → st w' = st w.
Proof.
  intros Hw. pose proof (get_charge_temp_pure (λ s, s = st w) w eq_refl) as H.
  by rewrite Hw in H.
Qed.

(** C35: the limiter settles. Once the node reads back the limit the policy asks for, with
    anything but a digit after it (the terminator [write_value] sends, a line end), a full
    round at a temperature with the same limit writes nothing: it reads, and sleeps. *)
Theorem limit_settles w temp w1 rest :
  let x := listener (st w) in
  let reading := tr w ++ [file_read BATTERY_SCENARIO_FCC] in
  enableChgLimit x = true →
  content env reading BATTERY_SCENARIO_FCC = Some (to_string (charge_limit x temp) +:+ rest) →
  no_digit rest →
  get_charge_temp env (World (st w) reading) = (Done temp, w1) →
  (pc ← limitCharge env Asleep; limitCharge env pc) w =
  (Done Asleep, World (st w) (tr w1 ++ [sleep_for 500])).
Proof.
  cbv zeta. intros He Hc Hr Ht. pose proof (get_charge_temp_state _ _ _ Ht) as Hs. cbn in Hs.
  cbn [limitCharge]. unfold limit_read, get, read_line. unfold_monad. rewrite He. run.
  rewrite Hc, first_line_to_string, stoi_to_string, Ht; [run| |].
  - cbn [limitCharge]. rewrite <- Hs, limit_write_run, Hs. by decides.
  - pose proof (charge_limit_range (listener (st w)) temp). unfold in_s. lia.
  - destruct rest as [|c rest]; [done|]. cbn. by destruct (Ascii.eqb c "010").
Qed.

(** What the limiter itself wrote reads back as the number it wrote. *)
Lemma written_limit_reads_back x temp :
  stoi (first_line (to_string (charge_limit x temp) +:+ terminator)) =
  Done (charge_limit x temp).
Proof.
  rewrite first_line_to_string. apply stoi_to_string; [|done].
  pose proof (charge_limit_range x temp). unfold in_s. lia.
Qed.

(** ** Thermal zones

    For files that hold the same text whenever they are read. *)
Section static_files.
Context (files : string → option string).
Context (static : ∀ h path, content env h path = files path).

Definition type_path (d_name : string) : string :=
  snprintf MAX_PATH (THERMAL_SYSFS +:+ d_name +:+ "/" +:+ TZ_TYPE).
Definition line_of (path : string) : string :=
  match files path with Some t => first_line t | None => EmptyString end.

(** Whether an entry is a zone whose type is readable and begins with the sensor's name. *)
Definition zone_matches (sensor d_name : string) : bool :=
  starts_with TZ_DIR_NAME d_name &&
  negb (bool_decide (line_of (type_path d_name) = EmptyString)) &&
  starts_with sensor (line_of (type_path d_name)).

Lemma read_line_run path w :
  read_line env path w = (Done (line_of path), World (st w) (tr w ++ [file_read path])).
Proof. unfold read_line, line_of. run. by rewrite static. Qed.

Lemma find_tz_run sensor names w :
  ∃ w', find_tz env sensor names w = (Done (List.find (zone_matches sensor) names), w') ∧
        st w' = st w.
Proof.
  revert w. induction names as [|d names IH]; intros w; cbn [find_tz List.find]; [by exists w|].
  unfold zone_matches at 1. fold (type_path d).
  destruct (starts_with TZ_DIR_NAME d); [|apply IH].
  rewrite (bind_done _ _ _ _ _ (read_line_run (type_path d) w)).
  case_decide as Hd; [rewrite bool_decide_true by done|rewrite bool_decide_false by done]; cbn.
  - destruct (IH (World (st w) (tr w ++ [file_read (type_path d)]))) as (w' & Hw & Hs). eauto.
  - destruct (starts_with sensor _); [by eexists|].
    destruct (IH (World (st w) (tr w ++ [file_read (type_path d)]))) as (w' & Hw & Hs). eauto.
Qed.

Lemma get_tzn_run sensor names w :
  entries env (tr w ++ [dir_read THERMAL_SYSFS]) THERMAL_SYSFS = Some names →
  ∃ w', get_tzn env sensor w =
    (Done (match List.find (zone_matches sensor) names with
           | Some d_name => sscanf_tz d_name
           | None => -1
           end), w') ∧ st w' = st w.
Proof.
  intros He. unfold get_tzn. unfold_monad. rewrite He.
  destruct (find_tz_run sensor names (World (st w) (tr w ++ [dir_read THERMAL_SYSFS])))
    as (w' & -> & Hs). by eexists.
Qed.
End static_files.

(** The name of a zone's directory gives its number back. *)
Lemma sscanf_tz_name n :
  0 ≤ n < 2 ^ 31 → sscanf_tz (TZ_DIR_NAME +:+ to_string n) = n.
Proof.
  intros Hn. unfold sscanf_tz.
  rewrite starts_with_app, substring_app.
  pose proof (scan_int_pretty n EmptyString I) as Hs. rewrite string_app_empty in Hs.
  rewrite Hs. apply wrap_s_nonneg; lia.
Qed.

(** [get_tzn] finds a thermal zone by its type. With readable, unchanging type files it
    answers the number of the first listed zone whose type begins with the sensor's name,
    and -1 exactly when there is none, whatever the order of the listing and whatever the
    other types are. *)
Theorem get_tzn_finds files sensor ns w :
  (∀ h path, content env h path = files path) →
  (∀ h, entries env h THERMAL_SYSFS = Some (map (λ n, TZ_DIR_NAME +:+ to_string n) ns)) →
  Forall (λ n, 0 ≤ n < 2 ^ 31) ns →
  let is_sensor n := zone_matches files sensor (TZ_DIR_NAME +:+ to_string n) in
  ∃ w', get_tzn env sensor w =
    (Done (match List.find is_sensor ns with Some n => n | None => -1 end), w').
Proof.
  intros Hf He Hns. cbv zeta.
  destruct (get_tzn_run files Hf sensor _ w (He _)) as (w' & -> & _). eexists. f_equal. f_equal.
  clear He. induction Hns as [|n ns Hn Hns IH]; cbn; [done|].
  destruct (zone_matches _ _ _); [by apply sscanf_tz_name|apply IH].
Qed.

(** a missing sensor ends the service. While a charger is plugged in, if neither the
    shell's sensor nor the fallback has a thermal zone, the limiter reads the temperature
    of zone -1; there is no such file, [stoi] throws on the empty line, and nothing in the
    thread catches it. *)
Theorem missing_zone_throws files names w :
  let x := listener (st w) in
  let sensor := if usbChgActive x then "shell_front"%string else "shell_back"%string in
  let fallback := if usbChgActive x then "battery"%string else "wls-therm"%string in
  (∀ h path, content env h path = files path) →
  (∀ h, entries env h THERMAL_SYSFS = Some names) →
  usbChgActive x || wlsChgActive x = true →
  List.find (zone_matches files sensor) names = None →
  List.find (zone_matches files fallback) names = None →
  files "/sys/class/thermal/thermal_zone-1/temp"%string = None →
  (get_charge_temp env w).1 = Fault InvalidArgument.
Proof.
  cbv zeta. intros Hf He Hchg H1 H2 Hno.
  assert (H : ∀ shell fallback,
    List.find (zone_matches files shell) names = None →
    List.find (zone_matches files fallback) names = None →
    (temp_from env shell fallback w).1 = Fault InvalidArgument).
  { intros shell fallback Hs Hfb. unfold temp_from.
    destruct (get_tzn_run files Hf shell names w (He _)) as (w1 & Hw1 & _).
    rewrite (bind_done _ _ _ _ _ Hw1), Hs. decides. rewrite bind_ret.
    destruct (get_tzn_run files Hf fallback names w1 (He _)) as (w2 & Hw2 & _).
    rewrite (bind_done _ _ _ _ _ Hw2), Hfb. unfold read_temp.
    rewrite (bind_done _ _ _ _ _ (read_line_run files Hf _ w2)). unfold line_of.
    change (temp_path (-1)) with "/sys/class/thermal/thermal_zone-1/temp"%string.
    by rewrite Hno. }
  unfold get_charge_temp, get. rewrite bind_gets.
  destruct (usbChgActive (listener (st w))); [by apply H|].
  rewrite bind_gets. destruct (wlsChgActive (listener (st w))); [by apply H|done].
Qed.

(** ** The callback *)

Lemma online_run files path n w :
  (∀ h path, content env h path = files path) → stoi (line_of files path) = Done n →
  online env path w = (Done (nonzero n), World (st w) (tr w ++ [file_read path])).
Proof.
  intros Hf Hn. unfold online. rewrite (bind_done _ _ _ _ _ (read_line_run files Hf path w)).
  rewrite Hn. by run.
Qed.

(** [healthInfoChanged] reacts to a change of the status only. With the same status it
    does nothing at all. With a new one, if both nodes hold numbers, the flags follow
    them; charging turns the limiter on, recognises a PPS charger by the text of its type
    and starts one more thread; any other status turns the limiter off and starts none. *)
Theorem health_info_outcome files status usb wls w :
  (∀ h path, content env h path = files path) →
  stoi (line_of files USB_CHG_ONLINE) = Done usb →
  stoi (line_of files WLS_CHG_ONLINE) = Done wls →
  let x := listener (st w) in
  let charging := bool_decide (status = CHARGING) in
  ∃ w', healthInfoChanged env status w = (Done (), w') ∧
  (status = mStatus x → w' = w) ∧
  (status ≠ mStatus x →
   listener (st w') =
     {| mStatus := status; usbChgActive := nonzero usb;
        usingPps := charging && nonzero usb && contains "[PD_PPS]" (line_of files USB_CHG_TYPE);
        wlsChgActive := nonzero wls; enableChgLimit := charging |} ∧
   limiters (st w') = limiters (st w) ++ (if charging then [Asleep] else [])).
Proof.
  intros Hf Hu Hw. cbv zeta. unfold healthInfoChanged, get. rewrite bind_gets.
  case_decide as Hne; [|eexists; split; [reflexivity|]; by split].
  unfold_monad. rewrite (online_run files USB_CHG_ONLINE usb) by done.
  rewrite (online_run files WLS_CHG_ONLINE wls) by done. run.
  case_decide as Hc; [rewrite bool_decide_true by done|rewrite bool_decide_false by done].
  - destruct (nonzero usb); run; [rewrite (read_line_run files Hf); run|];
      (eexists; split; [reflexivity|]); by subst.
  - eexists. split; [reflexivity|]. split; [done|]. intros _. cbn. by rewrite app_nil_r.
Qed.
End charging_properties.

(** ** Concrete executions *)

(** A phone at 36 degrees with one thermal zone; the USB charger is unplugged after it was
    seen [plugged] times. *)
Definition sample_files (path : string) : option string :=
  if decide (path = BATTERY_SCENARIO_FCC) then Some "9000"%string
  else if decide (path = USB_CHG_ONLINE) then Some "1"%string
  else if decide (path = WLS_CHG_ONLINE) then Some "0"%string
  else if decide (path = USB_CHG_TYPE) then Some "Unknown SDP [PD_PPS]"%string
  else if decide (path = "/sys/class/thermal/thermal_zone7/type"%string)
  then Some "shell_front"%string
  else if decide (path = "/sys/class/thermal/thermal_zone7/temp"%string)
  then Some "36000"%string
  else None.

Definition unplugged (path : string) (h : list chg_call) : nat :=
  length (List.filter (λ c, match c with
    | file_read p => bool_decide (p = path)
    | _ => false
    end) h).

Definition phone (plugged : nat) : chg_environment := {|
  content := λ h path,
    if decide (path = USB_CHG_ONLINE ∧ (plugged < unplugged path h)%nat) then Some "0"%string
    else sample_files path;
  entries := λ _ _, Some ["thermal_zone7"%string];
  open_error := λ _ _, None;
  write_error := λ _ _, None
|}.

Definition idle : world chg_state chg_call :=
  World {| listener := {| mStatus := 1; usbChgActive := false; usingPps := false;
                          wlsChgActive := false; enableChgLimit := false |};
           limiters := [] |} [].

(** unplugging the charger can make the limiter read past a table. The limiter takes the
    thresholds of a PPS charger, the callback then clears the flags, and the limits the
    limiter takes next are the empty table: at 36 degrees it reads its element 0. *)
Theorem unplugging_races_the_limiter :
  (chg_performs (phone 1) [HealthInfo CHARGING; LimiterRuns 0; HealthInfo 3; LimiterRuns 0]
     idle).1 = Fault OutOfBounds.
Proof. by vm_compute. Qed.

(** stopping and starting within one sleep doubles the limiter. The thread of the first
    charging period is asleep while the status changes to not charging and back; it finds
    the limiter enabled when it wakes and goes on, beside the thread of the second
    period. *)
Theorem restart_doubles_the_limiter :
  let '(o, w) := chg_performs (phone 9)
    [HealthInfo CHARGING; LimiterRuns 0; LimiterRuns 0; HealthInfo 4; HealthInfo CHARGING;
     LimiterRuns 0; LimiterRuns 0; LimiterRuns 1; LimiterRuns 1] idle in
  o = Done () ∧ limiters (st w) = [Asleep; Asleep] ∧ enableChgLimit (listener (st w)) = true.
Proof. by vm_compute. Qed.

(** ** Witnesses *)

Definition static_phone : chg_environment := {|
  content := λ _, sample_files;
  entries := λ _ _, Some ["thermal_zone7"%string];
  open_error := λ _ _, None;
  write_error := λ _ _, None
|}.

Definition charging_phone (fcc : string) : chg_environment := {|
  content := λ _ path, if decide (path = BATTERY_SCENARIO_FCC) then Some fcc
                       else sample_files path;
  entries := λ _ _, Some ["thermal_zone7"%string];
  open_error := λ _ _, None;
  write_error := λ _ _, None
|}.

Definition usb_pps : ChargeStatusListener :=
  {| mStatus := CHARGING; usbChgActive := true; usingPps := true; wlsChgActive := false;
     enableChgLimit := true |}.

Example limit_antitone_witness :
  ∃ v1 v2, limit_of usb_pps 36000 = Done v1 ∧ limit_of usb_pps 47000 = Done v2 ∧ v2 ≤ v1.
Proof.
  destruct (limit_antitone usb_pps 36000 47000 ltac:(lia)) as (v1 & v2 & H1 & H2 & Hle & _).
  exists v1, v2. split; [exact H1|]. split; [exact H2|lia].
Defined.

Definition charging_world : world chg_state chg_call :=
  World {| listener := usb_pps; limiters := [Asleep] |} [].

Example limit_settles_witness :
  let env := charging_phone (to_string 7000 +:+ terminator) in
  ∃ w', (pc ← limitCharge env Asleep; limitCharge env pc) charging_world = (Done Asleep, w') ∧
  last (tr w') = Some (sleep_for 500).
Proof.
  eexists. split.
  - apply (limit_settles (charging_phone (to_string 7000 +:+ terminator)) charging_world 36000
      (get_charge_temp (charging_phone (to_string 7000 +:+ terminator))
         (World (st charging_world) (tr charging_world ++ [file_read BATTERY_SCENARIO_FCC]))).2
      terminator); vm_compute; reflexivity.
  - vm_compute. reflexivity.
Defined.

Example get_tzn_finds_witness :
  (get_tzn static_phone "shell_front" idle).1 = Done 7.
Proof.
  destruct (get_tzn_finds static_phone sample_files "shell_front" [7] idle) as (w' & Hw);
    [reflexivity|intros h; vm_compute; reflexivity|repeat constructor; lia|].
  rewrite Hw. vm_compute. reflexivity.
Defined.

Example missing_zone_throws_witness :
  let w := World {| listener := {| mStatus := CHARGING; usbChgActive := false; usingPps := false;
                                   wlsChgActive := true; enableChgLimit := true |};
                    limiters := [] |} [] in
  (get_charge_temp static_phone w).1 = Fault InvalidArgument.
Proof.
  apply (missing_zone_throws static_phone sample_files ["thermal_zone7"%string]
    (World {| listener := {| mStatus := CHARGING; usbChgActive := false; usingPps := false;
                             wlsChgActive := true; enableChgLimit := true |};
              limiters := [] |} []));
    try reflexivity; vm_compute; reflexivity.
Defined.

Example health_info_outcome_witness :
  ∃ w', healthInfoChanged static_phone CHARGING idle = (Done (), w') ∧
  usingPps (listener (st w')) = true ∧ limiters (st w') = [Asleep].
Proof.
  destruct (health_info_outcome static_phone sample_files CHARGING 1 0 idle) as (w' & Hw & _ & H);
    [reflexivity|vm_compute; reflexivity|vm_compute; reflexivity|].
  destruct H as [Hl Hn]; [vm_compute; discriminate|].
  exists w'. rewrite Hl, Hn. split; [exact Hw|]. split; vm_compute; reflexivity.
Defined.
