(* ===== verification/Torch.v ===== *)
(** * CameraProviderExtension

    [configs/camera/CameraProviderExtension.cpp]: the torch's strength through three sysfs
    nodes, two LEDs and a switch. *)

From S2P Require Import Prelude Words Text.

Definition led_path : string :=
  "/sys/devices/platform/soc/c42d000.qcom,spmi/spmi-0/0-02/c42d000.qcom,spmi:qcom,pm8350c@2:qcom,flash_led@ee00/leds/led:".
Definition TORCH_BRIGHTNESS : string := "brightness".
Definition TOGGLE_SWITCH : string := led_path +:+ "switch_0/brightness".
Definition kTorchLedPaths : list string := [led_path +:+ "torch_0"; led_path +:+ "torch_1"].

(** A write of a whole node, in order. *)
Record torch_call : Set := torch_write { node : string; text : string }.

Definition brightness_node (path : string) : string := path +:+ "/" +:+ TORCH_BRIGHTNESS.

Section torch.
(** The text of a node after a history of writes; [None]: it cannot be opened. *)
Context (content : list torch_call → string → option string).

Abbreviation prog := (M (world unit torch_call)).

(** [set<int>]: the stream is not checked, a node that cannot be opened is skipped; the
    attempt is recorded. *)
Definition set (path : string) (value : Z) : prog unit :=
  emit (torch_write path (to_string value)).

(** [get<int>]. *)
Definition get (path : string) (def : Z) : prog Z :=
  text ← ask (λ h, content h path);
  mret (match text ≫= istream_int with Some n => n | None => def end).

Definition supportsTorchStrengthControlExt : bool := true.
Definition supportsSetTorchModeExt : bool := false.
Definition getTorchDefaultStrengthLevelExt : Z := 50.
Definition getTorchMaxStrengthLevelExt : Z := 230.

Definition getTorchStrengthLevelExt : prog Z :=
  match kTorchLedPaths !! 0%nat with
  | Some path => get (brightness_node path) 0
  | None => faults OutOfBounds
  end.

Definition setTorchStrengthLevelExt (torchStrength : Z) (enabled : bool) : prog unit :=
  set TOGGLE_SWITCH 0;;
  for_each (λ path, set (brightness_node path) torchStrength) kTorchLedPaths;;
  if enabled then set TOGGLE_SWITCH 255 else mret ().

Definition setTorchModeExt (enabled : bool) : prog unit :=
  setTorchStrengthLevelExt (if enabled then getTorchDefaultStrengthLevelExt else 0) enabled.

(** ** Lemmas *)

(** The last text written to a node. *)
Definition written (h : list torch_call) (path : string) : option string :=
  text <$> last (filter (λ c, node c = path) h).

Lemma setTorchStrengthLevelExt_run s enabled w :
  setTorchStrengthLevelExt s enabled w =
  (Done (), World (st w) (tr w ++ torch_write TOGGLE_SWITCH "0" ::
     map (λ path, torch_write (brightness_node path) (to_string s)) kTorchLedPaths ++
     (if enabled then [torch_write TOGGLE_SWITCH "255"] else []))).
Proof.
  unfold setTorchStrengthLevelExt, set, kTorchLedPaths. cbn [for_each map].
  destruct enabled; by run.
Qed.

Lemma written_app h l path v :
  written l path = Some v → written (h ++ l) path = Some v.
Proof.
  unfold written. rewrite filter_app. intros Hl.
  destruct (filter _ l) as [|c l'] using rev_ind; [done|].
  by rewrite last_snoc in Hl; rewrite (assoc_L app), last_snoc.
Qed.

(** ** Properties *)

(** C37: the torch is never on with LEDs at different or stale levels. Setting a strength
    switches the torch off before it touches the LEDs and on, if asked, after both have
    the new value: at every moment after the first write of the call, the switch is off or
    both LEDs were last set to the new strength. *)
Theorem torch_switch_guards_leds s enabled w n :
  let calls := drop (length (tr w)) (tr (setTorchStrengthLevelExt s enabled w).2) in
  let h := tr w ++ take (S n) calls in
  written h TOGGLE_SWITCH = Some "0"%string ∨
  (enabled = true ∧ written h TOGGLE_SWITCH = Some "255"%string ∧
   Forall (λ path, written h (brightness_node path) = Some (to_string s)) kTorchLedPaths).
Proof.
  cbv zeta. rewrite setTorchStrengthLevelExt_run. cbn [snd tr]. rewrite drop_app_length.
  unfold kTorchLedPaths. cbn [map app].
  destruct n as [|[|[|n]]]; cbn [take]; [left; by apply written_app..|].
  destruct enabled; cbn [take].
  - right. split; [done|]. rewrite take_nil.
    split; [by apply written_app|]. repeat constructor; by apply written_app.
  - left. by apply written_app.
Qed.

(** the strength reads back. After a strength was set, a node that returns what was last
    written to it, possibly with a line end, gives the same strength back; one that cannot
    be opened gives 0. *)
Theorem torch_strength_reads_back s enabled w rest :
  in_s 32 s → no_digit rest →
  (∀ h path, content h path = (λ t, t +:+ rest) <$> written h path) →
  (getTorchStrengthLevelExt (setTorchStrengthLevelExt s enabled w).2).1 = Done s.
Proof.
  intros Hs Hr Hc. rewrite setTorchStrengthLevelExt_run.
  unfold getTorchStrengthLevelExt, get. cbn [lookup kTorchLedPaths list_lookup snd]. run.
  rewrite Hc, (written_app _ _ _ (to_string s)); [|by destruct enabled].
  cbn. by rewrite istream_int_to_string.
Qed.
End torch.

Example torch_strength_reads_back_witness :
  let content h path := (λ t, t +:+ "") <$> written h path in
  (getTorchStrengthLevelExt content
     (setTorchStrengthLevelExt 120 true (World () [])).2).1 = Done 120.
Proof.
  apply (torch_strength_reads_back (λ h path, (λ t, t +:+ "") <$> written h path) 120 true
    (World () []) ""); [vm_compute; split; congruence|exact I|reflexivity].
Defined.
