(* ===== verification/Vibrator.v ===== *)
(** * Vibrator

    [vibrator/Vibrator.cpp]: the vibrator HAL over the vendor's haptics library. The values
    of the AIDL enumerations and the library's answers are not part of the repository:
    the former are a class with the documented instance, the latter an environment. *)

From Stdlib Require Import SpecFloat.
From S2P Require Import Prelude Words.

Definition RICHTAP_LIGHT_STRENGTH : Z := 82.
Definition RICHTAP_MEDIUM_STRENGTH : Z := 91.
Definition RICHTAP_STRONG_STRENGTH : Z := 100.

(** [static vibrationMode sLastMode]. *)
Inductive vibrationMode : Set := MODE_NONE | MODE_TIMEOUT | MODE_PREBAKED | MODE_STREAM.

#[global] Instance vibrationMode_eq_dec : EqDecision vibrationMode.
Proof. solve_decision. Defined.

(** The AIDL [Effect] and [EffectStrength], integers on the wire. *)
Class EffectEnum : Set := {
  CLICK : Z; DOUBLE_CLICK : Z; TICK : Z; THUD : Z; POP : Z; HEAVY_CLICK : Z;
  LIGHT : Z; MEDIUM : Z; STRONG : Z;
  CAP_ON_CALLBACK : Z; CAP_PERFORM_CALLBACK : Z; CAP_AMPLITUDE_CONTROL : Z
}.

(** What the interface documents of them: the six effects are the first ones, in this
    order, and the strengths differ. *)
Class EffectEnumLaws (V : EffectEnum) : Prop := {
  effects_in_order : DOUBLE_CLICK = CLICK + 1 ∧ TICK = CLICK + 2 ∧ THUD = CLICK + 3 ∧
                     POP = CLICK + 4 ∧ HEAVY_CLICK = CLICK + 5;
  effects_first : CLICK = 0;
  strengths_differ : LIGHT ≠ MEDIUM ∧ LIGHT ≠ STRONG ∧ MEDIUM ≠ STRONG
}.

Inductive status : Set := ok | EX_SERVICE_SPECIFIC | EX_UNSUPPORTED_OPERATION.

Inductive vib_call : Set :=
| aac_vibra_init
| aac_vibra_looper_start
| aac_vibra_looper_stopPerformHe
| aac_vibra_off
| aac_vibra_looper_on (time_out : Z)
| aac_vibra_looper_prebaked_effect (effect_id strength : Z)
| aac_vibra_setAmplitude (amplitude : Z)
| complete_after (micros : Z).        (* the thread that sleeps and calls back *)

(** The build flag [USE_RICHTAP_EFFECT_REMAP] and the library's answers. *)
Record vib_environment : Type := {
  USE_RICHTAP_EFFECT_REMAP : bool;
  aac : list vib_call → Z
}.

(** [amplitude] is a binary32 float. *)
Definition float_prec : Z := 24.
Definition float_emax : Z := 128.
Definition float_0xff : spec_float := S754_finite false 16711680 (-16).

(** [(uint8_t)f]: the fraction is dropped; undefined where the result does not fit. *)
Definition float_to_u8 (f : spec_float) : outcome Z :=
  match f with
  | S754_zero _ => Done 0
  | S754_finite s m e =>
      let n := Z.shiftl (Zpos m) e in
      let n := if s then - n else n in
      if decide (in_u 8 n) then Done n else Fault OutOfBounds
  | _ => Fault OutOfBounds
  end.

Section vibrator.
Context {V : EffectEnum} (env : vib_environment).

Abbreviation prog := (M (world vibrationMode vib_call)).

Definition lib (c : vib_call) : prog Z := call (λ h, i32 (aac env h)) c.

Definition Vibrator_new : prog unit :=
  ret ← lib aac_vibra_init;
  if decide (ret ≠ 0) then mret () else emit aac_vibra_looper_start.

Definition getCapabilities : Z :=
  Z.lor (Z.lor CAP_ON_CALLBACK CAP_PERFORM_CALLBACK) CAP_AMPLITUDE_CONTROL.

(** The library's second answer is stored in a [bool]: only whether it is zero is kept. *)
Definition off : prog status :=
  _ ← lib aac_vibra_looper_stopPerformHe;
  ret ← lib aac_vibra_off;
  if decide (ret ≠ 0) then mret EX_SERVICE_SPECIFIC else mret ok.

(** [usleep(ret * 1000)] on a thread of its own; the product is an [int]. *)
Definition call_back (callback : bool) (ret : Z) : prog unit :=
  if callback then emit (complete_after (u32 (i32 (ret * 1000)))) else mret ().

Definition on (timeoutMs : Z) (callback : bool) : prog status :=
  ret ← lib (aac_vibra_looper_on (u32 timeoutMs));
  if decide (ret < 0) then mret EX_SERVICE_SPECIFIC
  else
    call_back callback ret;;
    modify (λ _, MODE_TIMEOUT);;
    mret ok.

Definition mapEffectToPrebakedId (effect : Z) : option Z :=
  if decide (effect = CLICK ∨ effect = DOUBLE_CLICK ∨ effect = TICK) then
    Some (u32 (u32 effect + 0x1000))
  else if decide (effect = THUD ∨ effect = POP ∨ effect = HEAVY_CLICK) then
    Some (u32 (u32 effect + 0x3002))
  else None.

Definition strength_of (es : Z) : option Z :=
  if decide (es = LIGHT) then Some RICHTAP_LIGHT_STRENGTH
  else if decide (es = MEDIUM) then Some RICHTAP_MEDIUM_STRENGTH
  else if decide (es = STRONG) then Some RICHTAP_STRONG_STRENGTH
  else None.

(** The answer carries [*_aidl_return] where the code sets it. *)
Definition perform (effect es : Z) (callback : bool) : prog (status * option Z) :=
  let effect := if decide (effect = TICK ∨ effect = CLICK) then THUD else effect in
  if decide (effect < CLICK ∨ HEAVY_CLICK < effect) then mret (EX_UNSUPPORTED_OPERATION, None)
  else
    match strength_of es with
    | None => mret (EX_UNSUPPORTED_OPERATION, None)
    | Some strength =>
        mode ← gets id;
        (if decide (mode = MODE_STREAM)
         then _ ← lib (aac_vibra_setAmplitude 0xFF); mret ()
         else mret ());;
        match (if USE_RICHTAP_EFFECT_REMAP env then mapEffectToPrebakedId effect
               else Some (u32 effect)) with
        | None => mret (EX_UNSUPPORTED_OPERATION, None)
        | Some id =>
            ret ← lib (aac_vibra_looper_prebaked_effect id strength);
            if decide (ret < 0) then mret (EX_SERVICE_SPECIFIC, None)
            else
              call_back callback ret;;
              modify (λ _, MODE_PREBAKED);;
              mret (ok, Some ret)
        end
    end.

Definition getSupportedEffects : list Z := [CLICK; DOUBLE_CLICK; TICK; THUD; POP; HEAVY_CLICK].

Definition setAmplitude (amplitude : spec_float) : prog status :=
  tmp ← lift_outcome (float_to_u8 (SFmul float_prec float_emax amplitude float_0xff));
  ret ← lib (aac_vibra_setAmplitude tmp);
  if decide (ret ≠ 0) then mret EX_SERVICE_SPECIFIC
  else
    modify (λ _, MODE_STREAM);;
    mret ok.

(** Every other method of the interface answers unsupported, but for one that reports an
    empty list. *)
Definition unsupported : prog status := mret EX_UNSUPPORTED_OPERATION.
Definition getSupportedPrimitives : prog status := mret ok.

(** ** Properties *)

Context {laws : EffectEnumLaws V}.

(** What reaches the library for an effect: tick and click feel like a thud. *)
Definition felt (effect : Z) : Z :=
  if bool_decide (effect = TICK ∨ effect = CLICK) then THUD else effect.

(** The number of the effect in the library. *)
Definition prebaked_id (effect : Z) : Z :=
  if USE_RICHTAP_EFFECT_REMAP env then
    if bool_decide (effect = DOUBLE_CLICK) then effect + 0x1000 else effect + 0x3002
  else effect.

Lemma supported_range effect :
  effect ∈ getSupportedEffects ↔ 0 ≤ effect ≤ 5.
Proof.
  unfold getSupportedEffects. rewrite !elem_of_cons, elem_of_nil.
  destruct effects_in_order as (-> & -> & -> & -> & ->). rewrite effects_first. lia.
Qed.

(** The range check after the substitution passes exactly the supported effects. *)
Lemma felt_range effect :
  (felt effect < CLICK ∨ HEAVY_CLICK < felt effect) ↔ ¬ 0 ≤ effect ≤ 5.
Proof.
  unfold felt. destruct effects_in_order as (_ & -> & -> & _ & ->). rewrite effects_first.
  case_bool_decide; lia.
Qed.

(** No effect that passes the check is without a number. *)
Lemma felt_mapped effect :
  0 ≤ effect ≤ 5 →
  (if USE_RICHTAP_EFFECT_REMAP env then mapEffectToPrebakedId (felt effect)
   else Some (u32 (felt effect))) = Some (prebaked_id (felt effect)).
Proof.
  intros He.
  assert (Hf : felt effect = 1 ∨ felt effect = 3 ∨ felt effect = 4 ∨ felt effect = 5).
  { unfold felt. destruct effects_in_order as (_ & -> & -> & _). rewrite effects_first.
    case_bool_decide; lia. }
  unfold mapEffectToPrebakedId, prebaked_id.
  destruct effects_in_order as (-> & -> & -> & -> & ->). rewrite effects_first.
  destruct (USE_RICHTAP_EFFECT_REMAP env).
  - destruct Hf as [->|[->|[->| ->]]]; decides; by vm_compute.
  - destruct Hf as [->|[->|[->| ->]]]; by vm_compute.
Qed.

(** C36: [perform] works for exactly the effects it lists as supported and the three
    strengths. For these it first restores the full amplitude if the amplitude was
    streamed, then plays one effect; it succeeds and remembers the mode exactly if the
    library does not answer a negative number, and then reports the library's duration
    and schedules the callback. For anything else it is unsupported and nothing reaches
    the library. A tick or a click plays the thud. *)
Theorem perform_outcome effect es callback w :
  let play strength :=
    (if decide (st w = MODE_STREAM) then [aac_vibra_setAmplitude 0xFF] else []) ++
    [aac_vibra_looper_prebaked_effect (prebaked_id (felt effect)) strength] in
  (∀ strength, effect ∈ getSupportedEffects → strength_of es = Some strength →
     let ret := i32 (aac env (tr w ++ play strength)) in
     perform effect es callback w =
     if decide (ret < 0) then (Done (EX_SERVICE_SPECIFIC, None), World (st w) (tr w ++ play strength))
     else (Done (ok, Some ret), World MODE_PREBAKED (tr w ++ play strength ++
             if callback then [complete_after (u32 (i32 (ret * 1000)))] else []))) ∧
  (effect ∉ getSupportedEffects ∨ strength_of es = None →
     perform effect es callback w = (Done (EX_UNSUPPORTED_OPERATION, None), w)).
Proof.
  cbv zeta. unfold perform.
  replace (if decide (effect = TICK ∨ effect = CLICK) then THUD else effect) with (felt effect)
    by (unfold felt; case_bool_decide; by decides).
  split.
  - intros strength He%supported_range Hs. rewrite (decide_False (P := felt effect < _ ∨ _)) by (intros Hf; by apply felt_range in Hf).
    rewrite Hs, felt_mapped by done. unfold lib, call_back, id. run.
    destruct (decide (st w = MODE_STREAM)); run; case_decide; run; try done;
      destruct callback; run; by rewrite ?app_nil_r.
  - rewrite supported_range. intros Hno. destruct (decide (0 ≤ effect ≤ 5)) as [He|He].
    + destruct Hno as [|Hs]; [done|]. rewrite (decide_False (P := felt effect < _ ∨ _)) by (intros Hf; by apply felt_range in Hf).
      by rewrite Hs.
    + by rewrite (decide_True (P := felt effect < _ ∨ _)) by (rewrite felt_range; done).
Qed.

(** the mode follows the calls. In every run of the driver the remembered mode is that
    of the last operation the library accepted: a timeout for [on], an effect for
    [perform], a stream for [setAmplitude]; an operation that fails, and [off], leave it. *)
Theorem mode_follows_success effect es timeoutMs amplitude callback w :
  let after {A} (m : prog A) := st (m w).2 in
  (after (perform effect es callback) =
     match (perform effect es callback w).1 with Done (ok, _) => MODE_PREBAKED | _ => st w end) ∧
  (after (on timeoutMs callback) =
     match (on timeoutMs callback w).1 with Done ok => MODE_TIMEOUT | _ => st w end) ∧
  (after (setAmplitude amplitude) =
     match (setAmplitude amplitude w).1 with Done ok => MODE_STREAM | _ => st w end) ∧
  after off = st w.
Proof.
  cbv zeta. split_and!.
  - unfold perform. cbv zeta. case_decide; [done|]. destruct (strength_of es); [|done].
    destruct (if USE_RICHTAP_EFFECT_REMAP env then _ else _); unfold lib, call_back, id; run;
      repeat (case_decide; run); try destruct callback; by run.
  - unfold on, lib, call_back. run. case_decide; run; try destruct callback; by run.
  - unfold setAmplitude, lib. run. destruct (float_to_u8 _); run; [|done]. case_decide; by run.
  - unfold off, lib. run. case_decide; by run.
Qed.
End vibrator.

(** The documented values. *)
#[global] Instance aidl_effects : EffectEnum := {
  CLICK := 0; DOUBLE_CLICK := 1; TICK := 2; THUD := 3; POP := 4; HEAVY_CLICK := 5;
  LIGHT := 0; MEDIUM := 1; STRONG := 2;
  CAP_ON_CALLBACK := 1; CAP_PERFORM_CALLBACK := 2; CAP_AMPLITUDE_CONTROL := 4
}.

#[global] Instance aidl_effects_laws : EffectEnumLaws aidl_effects.
Proof. split; cbn; lia. Qed.

(** Full, half and no amplitude, and two the conversion is not defined for. *)
Example amplitudes :
  let to_u8 a := float_to_u8 (SFmul float_prec float_emax a float_0xff) in
  to_u8 (S754_finite false 8388608 (-23)) = Done 255 ∧
  to_u8 (S754_finite false 8388608 (-24)) = Done 127 ∧
  to_u8 (S754_zero false) = Done 0 ∧
  to_u8 (S754_finite true 8388608 (-23)) = Fault OutOfBounds ∧
  to_u8 S754_nan = Fault OutOfBounds.
Proof. by vm_compute. Qed.

Example perform_outcome_witness :
  let env := {| USE_RICHTAP_EFFECT_REMAP := true; aac := λ _, 30 |} in
  perform env CLICK STRONG true (World MODE_STREAM []) =
  (Done (ok, Some 30), World MODE_PREBAKED
     [aac_vibra_setAmplitude 255; aac_vibra_looper_prebaked_effect 0x3005 100;
      complete_after 30000]).
Proof.
  destruct (perform_outcome {| USE_RICHTAP_EFFECT_REMAP := true; aac := λ _, 30 |} CLICK STRONG
    true (World MODE_STREAM [])) as [H _].
  specialize (H RICHTAP_STRONG_STRENGTH ltac:(repeat constructor) eq_refl).
  cbv zeta in H |- *. rewrite H. vm_compute. reflexivity.
Defined.
