(* ===== verification/Services.v ===== *)
(** * The services' entry points

    The four [service.cpp]: each process constructs its object, makes it known and serves
    calls. What binder and the service manager answer is an environment; the object's
    constructor is the component's, run inside the process. *)

From S2P Require Import Prelude Words Lockout FpTypes Session SessionSystem Fingerprint Vibrator.

(** The calls of a process: its component's and its own. *)
Inductive main_call (E : Type) : Type :=
| component (c : E)
| setThreadPoolMaxThreadCount (numThreads : Z)
| configureRpcThreadpool (maxThreads : Z) (callerWillJoin : bool)
| addService (instance : string)
| registerAsService
| waitForService (name : string)
| registerCallback
| joinThreadPool.
Arguments component {E} c.
Arguments setThreadPoolMaxThreadCount {E} numThreads.
Arguments configureRpcThreadpool {E} maxThreads callerWillJoin.
Arguments addService {E} instance.
Arguments registerAsService {E}.
Arguments waitForService {E} name.
Arguments registerCallback {E}.
Arguments joinThreadPool {E}.

Definition to_component {E} (c : main_call E) : option E :=
  match c with component c => Some c | _ => None end.

(** The status [addService] and [registerAsService] answer, and whether [waitForService]
    finds the service. *)
Record binder (E : Type) : Type := {
  service_status : list (main_call E) → Z;
  service_found : list (main_call E) → bool
}.
Arguments service_status {E} b h.
Arguments service_found {E} b h.

Definition EXIT_FAILURE : Z := 1.
Definition STATUS_OK : Z := 0.

Section mains.
Context {S E : Type} (b : binder E) (descriptor : string).

Abbreviation prog := (M (world S (main_call E))).

Definition in_component {A} : M (world S E) A → prog A :=
  zoom id (λ s _, s) component to_component.

(** [std::string() + descriptor + "/default"]. *)
Definition default_instance : string := descriptor +:+ "/default".

(** [CHECK(status == STATUS_OK)] aborts. *)
Definition fingerprint_main (construct : M (world S E) unit) : prog Z :=
  emit (setThreadPoolMaxThreadCount 0);;
  in_component construct;;
  status ← call (service_status b) (addService default_instance);
  if decide (status = STATUS_OK) then
    emit joinThreadPool;;
    mret EXIT_FAILURE
  else faults CheckFailed.

Definition vibrator_main (construct : M (world S E) unit) : prog Z :=
  emit (setThreadPoolMaxThreadCount 0);;
  in_component construct;;
  status ← call (service_status b) (addService default_instance);
  if decide (status = STATUS_OK) then
    emit joinThreadPool;;
    mret EXIT_FAILURE
  else faults CheckFailed.

(** What [registerCallback] answers is not looked at. *)
Definition charging_main (construct : M (world S E) unit) : prog Z :=
  mHealth ← call (service_found b) (waitForService default_instance);
  if negb mHealth then mret (-1)
  else
    in_component construct;;
    emit registerCallback;;
    emit (setThreadPoolMaxThreadCount 0);;
    emit joinThreadPool;;
    mret 0.

Definition sensors_main (construct : M (world S E) unit) : prog Z :=
  emit (configureRpcThreadpool 1 true);;
  in_component construct;;
  status ← call (service_status b) registerAsService;
  if decide (status ≠ STATUS_OK) then mret (-1)
  else
    emit joinThreadPool;;
    mret 1.

(** ** What the processes do *)

(** The component's history is its own calls. *)
Lemma in_component_after {A} (m : M (world S E) A) s o s' t l :
  omap to_component l = [] → m (World s []) = (o, World s' t) →
  in_component m (World s l) = (o, World s' (l ++ map component t)).
Proof.
  intros Hl E1. unfold in_component, zoom, Prelude.view. cbn [st tr]. rewrite Hl.
  change (id s) with s. rewrite E1. cbn. by rewrite drop_0.
Qed.

(** a binder service is known only once its object exists, and serves only once it is known.
    If the constructor returns, the fingerprint and the vibrator service have made its calls
    before they add the service under the descriptor's default instance; if that fails the
    process aborts before it joins the thread pool, and otherwise it joins it, after which
    it could only fail. If the constructor faults nothing is added. *)
Theorem binder_main_outcome main construct s s' t o :
  main = fingerprint_main ∨ main = vibrator_main →
  construct (World s []) = (o, World s' t) →
  let l := setThreadPoolMaxThreadCount 0 :: map component t in
  let added := l ++ [addService default_instance] in
  main construct (World s []) =
  match o with
  | Done _ =>
      if decide (service_status b added = STATUS_OK)
      then (Done EXIT_FAILURE, World s' (added ++ [joinThreadPool]))
      else (Fault CheckFailed, World s' added)
  | Fault e => (Fault e, World s' l)
  end.
Proof.
  intros Hmain E1 l added.
  assert (fingerprint_main construct (World s []) = match o with
    | Done _ =>
        if decide (service_status b added = STATUS_OK)
        then (Done EXIT_FAILURE, World s' (added ++ [joinThreadPool]))
        else (Fault CheckFailed, World s' added)
    | Fault e => (Fault e, World s' l)
    end) as Hf; [|by destruct Hmain as [->| ->]].
  unfold fingerprint_main. erewrite bind_done by reflexivity. cbn [st tr app].
  pose proof (in_component_after construct s o s' t [setThreadPoolMaxThreadCount 0] eq_refl E1)
    as E2. destruct o as [[]|e].
  - rewrite (bind_done _ _ _ _ _ E2). erewrite bind_done by reflexivity. cbn [st tr].
    change (([setThreadPoolMaxThreadCount 0] ++ map component t) ++ [addService default_instance])
      with added. by case_decide.
  - by rewrite (bind_fault _ _ _ _ _ E2).
Qed.

(** the sensors service answers a failed registration by its exit code, not by aborting. *)
Theorem sensors_main_outcome construct s s' t :
  construct (World s []) = (Done (), World s' t) →
  let l := configureRpcThreadpool 1 true :: map component t in
  let registered := l ++ [registerAsService] in
  sensors_main construct (World s []) =
  if decide (service_status b registered = STATUS_OK)
  then (Done 1, World s' (registered ++ [joinThreadPool]))
  else (Done (-1), World s' registered).
Proof.
  intros E1 l registered. unfold sensors_main. erewrite bind_done by reflexivity. cbn [st tr app].
  rewrite (bind_done _ _ _ _ _ (in_component_after construct s _ s' t
    [configureRpcThreadpool 1 true] eq_refl E1)).
  erewrite bind_done by reflexivity. cbn [st tr].
  change (([configureRpcThreadpool 1 true] ++ map component t) ++ [registerAsService])
    with registered.
  destruct (decide (service_status b registered = STATUS_OK)) as [Hs|Hs].
  - by rewrite decide_False by tauto.
  - by rewrite decide_True by done.
Qed.

(** the charging service listens only to a health service that exists. Without one it
    returns an error and constructs nothing; otherwise the listener is constructed before
    it is registered, whatever the registration answers. *)
Theorem charging_main_outcome construct s s' t :
  let waited := [waitForService default_instance] in
  let registered := waited ++ map component t ++ [registerCallback] in
  (service_found b waited = false →
   charging_main construct (World s []) = (Done (-1), World s waited)) ∧
  (service_found b waited = true → construct (World s []) = (Done (), World s' t) →
   charging_main construct (World s []) =
   (Done 0, World s' (registered ++ [setThreadPoolMaxThreadCount 0; joinThreadPool]))).
Proof.
  intros waited registered. unfold charging_main. split.
  - intros Hf. erewrite bind_done by reflexivity. cbn [st tr app]. fold waited. by rewrite Hf.
  - intros Hf E1. erewrite bind_done by reflexivity. cbn [st tr app]. fold waited. rewrite Hf.
    cbn [negb]. rewrite (bind_done _ _ _ _ _ (in_component_after construct s _ s' t waited eq_refl E1)).
    run. unfold registered. by rewrite <- !app_assoc.
Qed.
End mains.

(** ** Two services *)

(** the fingerprint service is offered without a fingerprint device. If the vendor's module
    is not found the constructor returns all the same; the service is added and serves, with
    an object that has no device. *)
Theorem fingerprint_service_without_device env hw props start0 mode0 b descriptor s :
  i32 (device env [hw_get_module_by_class]) ≠ 0 →
  service_status b [setThreadPoolMaxThreadCount 0; component hw_get_module_by_class;
    addService (default_instance descriptor)] = STATUS_OK →
  ∃ f, fingerprint_main b descriptor (Fingerprint_new env hw props start0 mode0) (World s [])
    = (Done EXIT_FAILURE, World (set_instance (Some f) s)
        [setThreadPoolMaxThreadCount 0; component hw_get_module_by_class;
         addService (default_instance descriptor); joinThreadPool]) ∧ mDevice f = false.
Proof.
  intros Hfail Hadd.
  destruct (Fingerprint_new_outcome env hw props start0 mode0 (World s [])) as (f & E1 & Hd & _).
  cbn [tr app] in E1. rewrite bool_decide_eq_false_2 in E1, Hd by done. cbn in E1, Hd.
  exists f. split; [|done].
  rewrite (binder_main_outcome b descriptor (fingerprint_main b descriptor) _ s _ _ _
    (or_introl eq_refl) E1). cbn [map app]. by rewrite decide_True.
Qed.

(** the vibrator service is offered without its library. If the library cannot be
    initialised its looper is not started, and the service is added and serves all the same. *)
Theorem vibrator_service_without_library vib (b : binder vib_call) descriptor mode :
  i32 (aac vib [aac_vibra_init]) ≠ 0 →
  service_status b [setThreadPoolMaxThreadCount 0; component aac_vibra_init;
    addService (default_instance descriptor)] = STATUS_OK →
  vibrator_main b descriptor (Vibrator_new vib) (World mode [])
  = (Done EXIT_FAILURE, World mode [setThreadPoolMaxThreadCount 0; component aac_vibra_init;
       addService (default_instance descriptor); joinThreadPool]).
Proof.
  intros Hfail Hadd.
  assert (Vibrator_new vib (World mode []) = (Done (), World mode [aac_vibra_init])) as E1
    by (unfold Vibrator_new, lib; run; by rewrite decide_True).
  rewrite (binder_main_outcome b descriptor (vibrator_main b descriptor) _ mode _ _ _
    (or_intror eq_refl) E1). cbn [map app]. by rewrite decide_True.
Qed.

(** A service manager that accepts, a module that is not found, and a new process. *)
Definition sample_binder : binder fp_call :=
  {| service_status _ := 0; service_found _ := true |}.

Definition no_module : environment := {|
  device _ := -2;
  getSystemNanoTime _ := 0;
  hasElapsed _ _ _ := false;
  stack_token := stack_token steady
|}.

Definition new_process : process :=
  {| sInstance := None; sessions := ∅; clients := ∅; shared_enrollments := [] |}.

Example fingerprint_service_without_device_witness : ∃ f,
  fingerprint_main sample_binder "IFingerprint" (Fingerprint_new no_module
    {| module_found := true; module_has_open := true |}
    {| type_prop := None; max_enrollments_prop := None; sensor_location_prop := None |} 0 Lockout.NONE)
    (World new_process [])
  = (Done EXIT_FAILURE, World (set_instance (Some f) new_process)
      [setThreadPoolMaxThreadCount 0; component hw_get_module_by_class;
       addService "IFingerprint/default"; joinThreadPool]) ∧ mDevice f = false.
Proof.
  by apply (fingerprint_service_without_device no_module
    {| module_found := true; module_has_open := true |}
    {| type_prop := None; max_enrollments_prop := None; sensor_location_prop := None |} 0 Lockout.NONE
    sample_binder "IFingerprint" new_process).
Defined.
