(* ===== verification/Handles.v ===== *)
(** * Sensor handles

    The handle arithmetic of [sensors/HalProxy.cpp] and [sensors/HalProxyCallback.cpp]: the
    first byte of a sensor's 32-bit handle names the sub-HAL it belongs to. The mask and
    the other constants of [HalProxy.h] and of the interface are not part of the
    repository: they are a class, with what is documented of them as its laws. *)

From S2P Require Import Prelude Words.

(** [HalProxy.h] and the interface's types, as far as the code uses them. *)
Class SensorsConstants : Set := {
  kSensorHandleSubHalIndexMask : Z;          (* int32_t *)
  kMaxSizePendingWriteEventsQueue : Z;       (* size_t *)
  kWakelockTimeoutNs : Z;                    (* int64_t *)
  WAKE_UP : Z;                               (* flag bits *)
  MASK_DIRECT_REPORT : Z;
  MASK_DIRECT_CHANNEL : Z;
  ONE_SHOT_MODE : Z;
  DATA_INJECTION_FLAG : Z;                   (* [SensorFlagBits::DATA_INJECTION] *)
  PICK_UP_GESTURE : Z;                       (* sensor types *)
  DEVICE_PRIVATE_BASE : Z;
  ADDITIONAL_INFO : Z;
  META_DATA : Z;
  META_DATA_FLUSH_COMPLETE : Z;              (* a kind of meta event *)
  SENSOR_STRING_TYPE_PICK_UP_GESTURE : string
}.

(** The mask covers the first byte; the bound on the pending events and the time a wakelock
    is held at most are positive numbers far from the end of their types; the flags are
    different bits. *)
Class SensorsLaws (C : SensorsConstants) : Prop := {
  mask_first_byte : kSensorHandleSubHalIndexMask = - 2 ^ 24;
  pending_bound : 0 ≤ kMaxSizePendingWriteEventsQueue < 2 ^ 63;
  timeout_positive : 0 < kWakelockTimeoutNs;
  wake_up_not_direct : Z.land WAKE_UP (Z.lor MASK_DIRECT_REPORT MASK_DIRECT_CHANNEL) = 0;
  private_not_pick_up k : 0 ≤ k → PICK_UP_GESTURE < DEVICE_PRIVATE_BASE + k;
  wake_up_bit : Z.land (Z.lor ONE_SHOT_MODE WAKE_UP) WAKE_UP ≠ 0;
  injection_bit : Z.land (Z.lor ONE_SHOT_MODE WAKE_UP) DATA_INJECTION_FLAG = 0
}.

Definition kBitsAfterSubHalIndex : Z := 24.

Definition setSubHalIndex (sensorHandle subHalIndex : Z) : Z :=
  Z.lor sensorHandle (i32 (Z.shiftl (i32 subHalIndex) kBitsAfterSubHalIndex)).

(** The signed shift keeps the sign; the result is a [size_t]. *)
Definition extractSubHalIndex (sensorHandle : Z) : Z :=
  u64 (Z.shiftr sensorHandle kBitsAfterSubHalIndex).

Definition clearSubHalIndex `{SensorsConstants} (sensorHandle : Z) : Z :=
  Z.land sensorHandle (Z.lnot kSensorHandleSubHalIndexMask).

Definition subHalIndexIsClear `{SensorsConstants} (sensorHandle : Z) : bool :=
  bool_decide (Z.land sensorHandle kSensorHandleSubHalIndexMask = 0).

Section handles.
Context `{C : SensorsConstants} {laws : SensorsLaws C}.

(** Below the index's byte. *)
Definition in_handle (h : Z) : Prop := 0 ≤ h < 2 ^ 24.

Lemma index_clear h : subHalIndexIsClear h = true ↔ in_handle h.
Proof.
  unfold subHalIndexIsClear, in_handle. rewrite bool_decide_eq_true, mask_first_byte.
  change (- 2 ^ 24) with (Z.lnot (Z.ones 24)).
  rewrite <- Z.ldiff_land, Z.ldiff_ones_r, Z.shiftl_mul_pow2, Z.shiftr_div_pow2 by lia.
  change (2 ^ 24) with 16777216.
  pose proof (Z_div_mod_eq_full h 16777216). pose proof (Z.mod_pos_bound h 16777216).
  lia.
Qed.

Lemma clear_mod h : clearSubHalIndex h = h `mod` 2 ^ 24.
Proof.
  unfold clearSubHalIndex. rewrite mask_first_byte.
  change (Z.lnot (- 2 ^ 24)) with (Z.ones 24). by rewrite Z.land_ones.
Qed.

Lemma lor_high h k : in_handle h → Z.lor h (k * 2 ^ 24) = k * 2 ^ 24 + h.
Proof.
  intros Hh. rewrite Z.lor_comm, <- Z.add_nocarry_lor; [done|].
  rewrite <- Z.shiftl_mul_pow2 by lia. apply Z.bits_inj'. intros n Hn.
  rewrite Z.land_spec, Z.bits_0. unfold in_handle in Hh.
  destruct (decide (n < 24)).
  - by rewrite Z.shiftl_spec_low.
  - rewrite <- (Z.mod_small h (2 ^ 24)), Z.mod_pow2_bits_high by lia. apply andb_false_r.
Qed.

(** The shifted index as a signed number. *)
Definition signed_index (i : Z) : Z := if decide (i < 128) then i else i - 256.

Lemma shifted_index i : 0 ≤ i < 256 → i32 (Z.shiftl (i32 i) 24) = signed_index i * 2 ^ 24.
Proof.
  intros Hi. rewrite (wrap_s_nonneg 32 ltac:(lia) i) by lia.
  rewrite Z.shiftl_mul_pow2 by lia. unfold signed_index, wrap_s.
  change (2 ^ (32 - 1)) with (128 * 2 ^ 24). change (2 ^ 32) with (256 * 2 ^ 24).
  case_decide.
  - rewrite Z.mod_small; lia.
  - replace (i * 2 ^ 24 + 128 * 2 ^ 24)
      with ((i - 128) * 2 ^ 24 + 1 * (256 * 2 ^ 24)) by lia.
    rewrite Z_mod_plus_full, Z.mod_small; lia.
Qed.

Lemma set_index h i :
  in_handle h → 0 ≤ i < 256 → setSubHalIndex h i = signed_index i * 2 ^ 24 + h.
Proof.
  intros Hh Hi. unfold setSubHalIndex, kBitsAfterSubHalIndex.
  rewrite shifted_index by done. by apply lor_high.
Qed.

Lemma clear_set h i : in_handle h → 0 ≤ i < 256 → clearSubHalIndex (setSubHalIndex h i) = h.
Proof.
  intros Hh Hi. rewrite clear_mod, set_index by done.
  rewrite Z.add_comm, Z_mod_plus_full. by apply Z.mod_small.
Qed.

Lemma extract_set h i :
  in_handle h → 0 ≤ i < 256 → extractSubHalIndex (setSubHalIndex h i) = u64 (signed_index i).
Proof.
  intros Hh Hi. unfold extractSubHalIndex, kBitsAfterSubHalIndex.
  rewrite set_index by done. f_equal.
  rewrite Z.shiftr_div_pow2, Z.add_comm, Z.div_add by lia.
  unfold in_handle in Hh. rewrite Z.div_small; lia.
Qed.

Lemma set_index_range h i : in_handle h → 0 ≤ i < 256 → in_s 32 (setSubHalIndex h i).
Proof.
  intros Hh Hi. rewrite set_index by done. unfold in_handle, signed_index, in_s in *.
  change (2 ^ (32 - 1)) with (128 * 2 ^ 24). case_decide; lia.
Qed.

(** Whatever the index and the handle are. *)
Lemma set_index_typed h i : in_handle h → in_s 32 (setSubHalIndex h i).
Proof.
  intros Hh. unfold setSubHalIndex, kBitsAfterSubHalIndex.
  assert (i32 (Z.shiftl (i32 i) 24) = wrap_s 8 (i32 i) * 2 ^ 24) as ->.
  { rewrite Z.shiftl_mul_pow2 by lia. unfold wrap_s at 1 3. change (2 ^ (8 - 1)) with 128.
    change (2 ^ 8) with 256. change (2 ^ (32 - 1)) with (128 * 2 ^ 24).
    change (2 ^ 32) with (256 * 2 ^ 24).
    rewrite <- Z.mul_add_distr_r, Zmult_mod_distr_r. lia. }
  rewrite lor_high by done. pose proof (wrap_s_range 8 ltac:(lia) (i32 i)) as Hr.
  unfold in_handle, in_s in *. change (2 ^ (32 - 1)) with (128 * 2 ^ 24).
  change (2 ^ (8 - 1)) with 128 in Hr. lia.
Qed.

Lemma clear_typed h : in_handle (clearSubHalIndex h).
Proof. rewrite clear_mod. by apply Z.mod_pos_bound. Qed.

Lemma set_index_inj h1 h2 i1 i2 :
  in_handle h1 → in_handle h2 → 0 ≤ i1 < 256 → 0 ≤ i2 < 256 →
  setSubHalIndex h1 i1 = setSubHalIndex h2 i2 → h1 = h2 ∧ i1 = i2.
Proof.
  intros Hh1 Hh2 Hi1 Hi2 Heq.
  assert (h1 = h2) as <- by (rewrite <- (clear_set h1 i1), Heq; [by apply clear_set|done..]).
  rewrite !set_index in Heq by done. unfold signed_index in Heq.
  split; [done|]. repeat case_decide; lia.
Qed.

(** a handle carries its sub-HAL's index and gives both parts back, for the indices a
    signed byte can hold. Marking a clear handle with an index from 0 to 255 yields a
    32-bit handle whose cleared part is the original one; different pairs yield different
    handles; and the index comes back exactly if it is below 128, while from 128 on the
    sign makes it a number above every list's size, so that a proxy with that many sub-HALs
    would reject its own sensors. *)
Theorem handle_roundtrip h i :
  subHalIndexIsClear h = true → 0 ≤ i < 256 →
  in_s 32 (setSubHalIndex h i) ∧
  clearSubHalIndex (setSubHalIndex h i) = h ∧
  (i < 128 → extractSubHalIndex (setSubHalIndex h i) = i) ∧
  (128 ≤ i → 2 ^ 63 ≤ extractSubHalIndex (setSubHalIndex h i)) ∧
  (∀ h' i', subHalIndexIsClear h' = true → 0 ≤ i' < 256 →
     setSubHalIndex h i = setSubHalIndex h' i' → h = h' ∧ i = i').
Proof.
  intros Hh%index_clear Hi. rewrite extract_set by done.
  split_and!; [by apply set_index_range|by apply clear_set| | |].
  - intros Hlt. unfold signed_index. decides. apply wrap_u_id. unfold in_u. lia.
  - intros Hge. unfold signed_index. decides. unfold wrap_u.
    rewrite <- (Z_mod_plus_full _ 1), Z.mod_small; lia.
  - intros h' i' Hh'%index_clear Hi' Heq. by apply set_index_inj.
Qed.
End handles.

(** Values for the examples. *)
#[global] Instance aosp_sensors : SensorsConstants := {
  kSensorHandleSubHalIndexMask := -16777216;
  kMaxSizePendingWriteEventsQueue := 100000;
  kWakelockTimeoutNs := 1000000000;
  WAKE_UP := 1;
  ONE_SHOT_MODE := 4;
  DATA_INJECTION_FLAG := 0x10;
  MASK_DIRECT_REPORT := 0x380;
  MASK_DIRECT_CHANNEL := 0xC00;
  PICK_UP_GESTURE := 25;
  DEVICE_PRIVATE_BASE := 0x10000;
  ADDITIONAL_INFO := 33;
  META_DATA := 0;
  META_DATA_FLUSH_COMPLETE := 1;
  SENSOR_STRING_TYPE_PICK_UP_GESTURE := "android.sensor.pick_up_gesture"
}.

#[global] Instance aosp_sensors_laws : SensorsLaws aosp_sensors.
Proof. split; try done. cbn. lia. Qed.

Example handle_roundtrip_witness :
  setSubHalIndex 5 3 = 0x3000005 ∧ clearSubHalIndex 0x3000005 = 5 ∧
  extractSubHalIndex (setSubHalIndex 5 3) = 3.
Proof.
  destruct (handle_roundtrip (C := aosp_sensors) 5 3 ltac:(vm_compute; reflexivity) ltac:(lia)) as (_ & Hc & He & _).
  split; [reflexivity|]. split; [exact Hc|apply He; lia].
Defined.
