(* ===== verification/SensorTypes.v ===== *)
(** * The types of the sensors interface

    The structures of the interface the proxy, the callback and the sub-HAL exchange. A
    [float] is the number it stands for: those the code writes are whole. The members of an
    event's union are kept apart: the code never reads one it has not written. *)

From S2P Require Import Prelude.

Inductive Result : Set := OK | BAD_VALUE | INVALID_OPERATION | OtherResult (n : Z).

#[global] Instance Result_eq_dec : EqDecision Result.
Proof. solve_decision. Defined.

Inductive OperationMode : Set := NORMAL | DATA_INJECTION.

#[global] Instance OperationMode_eq_dec : EqDecision OperationMode.
Proof. solve_decision. Defined.

Record SensorInfo : Set := {
  sensorHandle : Z;
  name : string;
  vendor : string;
  version : Z;
  type : Z;
  typeAsString : string;
  maxRange : Z;                 (* float *)
  resolution : Z;               (* float *)
  power : Z;                    (* float *)
  minDelay : Z;
  fifoReservedEventCount : Z;
  fifoMaxEventCount : Z;
  requiredPermission : string;
  maxDelay : Z;
  flags : Z                     (* uint32_t *)
}.

(** The [SensorInfo] that [std::map::operator[]] creates. *)
Definition no_sensor : SensorInfo := {|
  sensorHandle := 0; name := ""; vendor := ""; version := 0; type := 0; typeAsString := "";
  maxRange := 0; resolution := 0; power := 0; minDelay := 0; fifoReservedEventCount := 0;
  fifoMaxEventCount := 0; requiredPermission := ""; maxDelay := 0; flags := 0
|}.

Definition set_handle (h : Z) (s : SensorInfo) : SensorInfo := {|
  sensorHandle := h; name := name s; vendor := vendor s; version := version s; type := type s;
  typeAsString := typeAsString s; maxRange := maxRange s; resolution := resolution s;
  power := power s; minDelay := minDelay s; fifoReservedEventCount := fifoReservedEventCount s;
  fifoMaxEventCount := fifoMaxEventCount s; requiredPermission := requiredPermission s;
  maxDelay := maxDelay s; flags := flags s |}.
Definition set_flags (f : Z) (s : SensorInfo) : SensorInfo := {|
  sensorHandle := sensorHandle s; name := name s; vendor := vendor s; version := version s;
  type := type s; typeAsString := typeAsString s; maxRange := maxRange s;
  resolution := resolution s; power := power s; minDelay := minDelay s;
  fifoReservedEventCount := fifoReservedEventCount s; fifoMaxEventCount := fifoMaxEventCount s;
  requiredPermission := requiredPermission s; maxDelay := maxDelay s; flags := f |}.
Definition set_type (t : Z) (str : string) (s : SensorInfo) : SensorInfo := {|
  sensorHandle := sensorHandle s; name := name s; vendor := vendor s; version := version s;
  type := t; typeAsString := str; maxRange := maxRange s; resolution := resolution s;
  power := power s; minDelay := minDelay s; fifoReservedEventCount := fifoReservedEventCount s;
  fifoMaxEventCount := fifoMaxEventCount s; requiredPermission := requiredPermission s;
  maxDelay := maxDelay s; flags := flags s |}.
Definition set_delays (min max : Z) (s : SensorInfo) : SensorInfo := {|
  sensorHandle := sensorHandle s; name := name s; vendor := vendor s; version := version s;
  type := type s; typeAsString := typeAsString s; maxRange := maxRange s;
  resolution := resolution s; power := power s; minDelay := min;
  fifoReservedEventCount := fifoReservedEventCount s; fifoMaxEventCount := fifoMaxEventCount s;
  requiredPermission := requiredPermission s; maxDelay := max; flags := flags s |}.

Record Event : Set := {
  ev_handle : Z;
  ev_timestamp : Z;             (* int64_t *)
  ev_type : Z;
  ev_scalar : Z;                (* float *)
  ev_data : list Z;             (* the floats written *)
  ev_meta : Z                   (* the kind of a meta event *)
}.

Definition set_event_handle (h : Z) (e : Event) : Event := {|
  ev_handle := h; ev_timestamp := ev_timestamp e; ev_type := ev_type e;
  ev_scalar := ev_scalar e; ev_data := ev_data e; ev_meta := ev_meta e |}.

(** An event that carries numbers only. *)
Definition data_event (handle timestamp type : Z) (data : list Z) : Event := {|
  ev_handle := handle; ev_timestamp := timestamp; ev_type := type; ev_scalar := 0;
  ev_data := data; ev_meta := 0 |}.
Definition scalar_event (handle timestamp type scalar : Z) : Event := {|
  ev_handle := handle; ev_timestamp := timestamp; ev_type := type; ev_scalar := scalar;
  ev_data := []; ev_meta := 0 |}.
