(* ===== verification/HalProxy.v ===== *)
(** * HalProxy

    [sensors/HalProxy.cpp]: the proxy that presents several sub-HALs as one sensors HAL. It
    collects their sensors under marked handles, dispatches calls by handle, keeps the
    sub-HALs in one operation mode, lets one of them have direct channels and forwards the
    dynamic sensors. The event queue and the wakelock are a file of their own. *)

From stdpp Require Import sorting.
From S2P Require Import Prelude Words Text Handles SensorTypes.

(** Calls of the proxy to sub-HAL [i] and to the framework. *)
Inductive sub_op : Set :=
| sub_setOperationMode (mode : OperationMode)
| sub_activate (handle : Z) (enabled : bool)
| sub_batch (handle samplingPeriodNs maxReportLatencyNs : Z)
| sub_flush (handle : Z)
| sub_injectSensorData (event : Event)
| sub_registerDirectChannel
| sub_unregisterDirectChannel (channelHandle : Z)
| sub_configDirectReport (handle channelHandle : Z) (stop : bool).

Inductive proxy_call : Set :=
| sub_call (i : nat) (op : sub_op)
| cb_onDynamicSensorsConnected (sensors : list SensorInfo)
| cb_onDynamicSensorsDisconnected (handles : list Z).

(** The answer of a sub-HAL to the last call of a history, and the value besides the result
    where the call answers one (a channel, a token). *)
Record sub_environment : Type := {
  answer : list proxy_call → Result;
  answer_value : list proxy_call → Z
}.

Record HalProxy : Set := {
  mSubHalList : list string;              (* the sub-HALs' names *)
  mSensors : gmap Z SensorInfo;
  mDynamicSensors : gmap Z SensorInfo;
  mCurrentOperationMode : OperationMode;
  mDirectChannelSubHal : option nat       (* the sub-HAL the pointer is equal to *)
}.

Definition set_sensors (m : gmap Z SensorInfo) (x : HalProxy) : HalProxy :=
  {| mSubHalList := mSubHalList x; mSensors := m; mDynamicSensors := mDynamicSensors x;
     mCurrentOperationMode := mCurrentOperationMode x;
     mDirectChannelSubHal := mDirectChannelSubHal x |}.
Definition set_dynamic (m : gmap Z SensorInfo) (x : HalProxy) : HalProxy :=
  {| mSubHalList := mSubHalList x; mSensors := mSensors x; mDynamicSensors := m;
     mCurrentOperationMode := mCurrentOperationMode x;
     mDirectChannelSubHal := mDirectChannelSubHal x |}.
Definition set_mode (mode : OperationMode) (x : HalProxy) : HalProxy :=
  {| mSubHalList := mSubHalList x; mSensors := mSensors x;
     mDynamicSensors := mDynamicSensors x; mCurrentOperationMode := mode;
     mDirectChannelSubHal := mDirectChannelSubHal x |}.
Definition set_direct (d : option nat) (x : HalProxy) : HalProxy :=
  {| mSubHalList := mSubHalList x; mSensors := mSensors x;
     mDynamicSensors := mDynamicSensors x;
     mCurrentOperationMode := mCurrentOperationMode x; mDirectChannelSubHal := d |}.

(** The keys of a [std::map], in its order. *)
Definition keys {A} (m : gmap Z A) : list Z := merge_sort Z.le (elements (dom m)).

Section proxy.
Context `{C : SensorsConstants} (env : sub_environment).

Abbreviation prog := (M (world HalProxy proxy_call)).

Definition sub (i : nat) (op : sub_op) : prog Result := call (answer env) (sub_call i op).

(** ** Building the list of sensors *)

Definition direct_mask : Z := Z.lor MASK_DIRECT_REPORT MASK_DIRECT_CHANNEL.

Definition setDirectChannelFlags (i : nat) (sensor : SensorInfo) (x : HalProxy)
    : SensorInfo * HalProxy :=
  let sensorSupportsDirectChannel := negb (Z.land (flags sensor) direct_mask =? 0) in
  match mDirectChannelSubHal x with
  | None => if sensorSupportsDirectChannel then (sensor, set_direct (Some i) x) else (sensor, x)
  | Some j =>
      if decide (i ≠ j) then (set_flags (Z.land (flags sensor) (Z.lnot direct_mask)) sensor, x)
      else (sensor, x)
  end.

(** The body of the loop over the sensors sub-HAL [i] lists. *)
Definition add_sensor (i : nat) (sensor : SensorInfo) (x : HalProxy) : HalProxy :=
  if subHalIndexIsClear (sensorHandle sensor) then
    let sensor := set_handle (setSubHalIndex (sensorHandle sensor) (Z.of_nat i)) sensor in
    let (sensor, x) := setDirectChannelFlags i sensor x in
    let sensor :=
      if decide (typeAsString sensor = "android.sensor.wrist_tilt_gesture"%string)
      then set_type PICK_UP_GESTURE SENSOR_STRING_TYPE_PICK_UP_GESTURE sensor
      else sensor in
    set_sensors (<[sensorHandle sensor := sensor]> (mSensors x)) x
  else x.

(** [lists] holds what each sub-HAL's [getSensorsList] passes to the callback, the empty
    list where the call fails. *)
Fixpoint initializeSensorList (i : nat) (lists : list (list SensorInfo)) (x : HalProxy)
    : HalProxy :=
  match lists with
  | [] => x
  | l :: lists' =>
      initializeSensorList (S i) lists' (foldl (λ x sensor, add_sensor i sensor x) x l)
  end.

(** *** Loading the sub-HALs *)

(** A shared library: the versions its two entry points report, where it has them, and the
    sub-HAL it gives. The handle [dlopen] answers stands for the library. *)
Record library : Set := {
  sensorsHalGetSubHal : option Z;
  sensorsHalGetSubHal_2_1 : option Z;
  lib_name : string;
  lib_sensors : list SensorInfo
}.

(** [stream >> word] until it fails: the words of a text, [word] being the one under way. *)
Fixpoint stream_words (word s : string) : list string :=
  let flush := if decide (word = EmptyString) then [] else [word] in
  match s with
  | EmptyString => flush
  | String c s' =>
      if is_blank c then flush ++ stream_words EmptyString s'
      else stream_words (word +:+ String c EmptyString) s'
  end.

(** On a 64-bit build. *)
Definition kSubHalShareObjectLocations : list string :=
  [""; "/vendor/lib64/hw/"; "/odm/lib64/hw/"]%string.

Fixpoint open_first (dlopen : string → option library) (filename : string)
    (dirs : list string) : option library :=
  match dirs with
  | [] => None
  | dir :: dirs' =>
      match dlopen (dir +:+ filename) with
      | Some handle => Some handle
      | None => open_first dlopen filename dirs'
      end
  end.

Definition getHandleForSubHalSharedObject (dlopen : string → option library)
    (filename : string) : option library :=
  open_first dlopen filename kSubHalShareObjectLocations.

(** [v20] and [v21] are [SUB_HAL_2_0_VERSION] and [SUB_HAL_2_1_VERSION]. *)
Definition load_subhal (v20 v21 : Z) (handle : library) : option library :=
  match sensorsHalGetSubHal handle with
  | Some version => if decide (version ≠ v20) then None else Some handle
  | None =>
      match sensorsHalGetSubHal_2_1 handle with
      | None => None
      | Some version => if decide (version ≠ v21) then None else Some handle
      end
  end.

Definition initializeSubHalListFromConfigFile (v20 v21 : Z) (dlopen : string → option library)
    (config : option string) : list library :=
  match config with
  | None => []
  | Some text =>
      omap (λ file, getHandleForSubHalSharedObject dlopen file ≫= load_subhal v20 v21)
        (stream_words EmptyString text)
  end.

(** [init], after the sub-HALs are loaded. *)
Definition HalProxy_new (names : list string) (lists : list (list SensorInfo)) : HalProxy :=
  initializeSensorList 0 lists
    {| mSubHalList := names; mSensors := ∅; mDynamicSensors := ∅;
       mCurrentOperationMode := NORMAL; mDirectChannelSubHal := None |}.

Definition HalProxy_from_config (v20 v21 : Z) (dlopen : string → option library)
    (config : option string) : HalProxy :=
  let libraries := initializeSubHalListFromConfigFile v20 v21 dlopen config in
  HalProxy_new (map lib_name libraries) (map lib_sensors libraries).

(** The constructors that are given the sub-HALs, by name and list of sensors: those of
    version 2.0 come first. *)
Definition HalProxy_from_lists (subHalList subHalListV2_1 : list (string * list SensorInfo))
    : HalProxy :=
  HalProxy_new (map fst subHalList ++ map fst subHalListV2_1)
    (map snd subHalList ++ map snd subHalListV2_1).
Definition HalProxy_from_list (subHalList : list (string * list SensorInfo)) : HalProxy :=
  HalProxy_new (map fst subHalList) (map snd subHalList).

Definition getSensorsList_2_1 (x : HalProxy) : list SensorInfo :=
  omap (mSensors x !!.) (keys (mSensors x)).

Definition getSensorsList (convertToOldSensorInfo : SensorInfo → SensorInfo) (x : HalProxy)
    : list SensorInfo :=
  map convertToOldSensorInfo (getSensorsList_2_1 x).

(** ** Dispatch *)

Definition isSubHalIndexValid (handle : Z) (x : HalProxy) : bool :=
  bool_decide (extractSubHalIndex handle < Z.of_nat (length (mSubHalList x))).

(** The guard and the dispatch the handle-based operations share. *)
Definition dispatch (handle : Z) (op : Z → sub_op) : prog Result :=
  valid ← gets (isSubHalIndexValid handle);
  if valid : bool
  then sub (Z.to_nat (extractSubHalIndex handle)) (op (clearSubHalIndex handle))
  else mret BAD_VALUE.

Definition activate (handle : Z) (enabled : bool) : prog Result :=
  dispatch handle (λ h, sub_activate h enabled).
Definition batch (handle samplingPeriodNs maxReportLatencyNs : Z) : prog Result :=
  dispatch handle (λ h, sub_batch h samplingPeriodNs maxReportLatencyNs).
Definition flush (handle : Z) : prog Result := dispatch handle sub_flush.

Definition injectSensorData (event : Event) : prog Result :=
  mode ← gets mCurrentOperationMode;
  if decide (mode = NORMAL ∧ ev_type event ≠ ADDITIONAL_INFO) then mret BAD_VALUE
  else dispatch (ev_handle event) (λ h, sub_injectSensorData (set_event_handle h event)).

Definition injectSensorData_2_1 (convertToOldEvent : Event → Event) (event : Event)
    : prog Result :=
  injectSensorData (convertToOldEvent event).

(** ** The operation mode *)

(** The loop over the sub-HALs from index [i] while [n] remain: the result and the index
    where it stopped. *)
Fixpoint flip_modes (mode : OperationMode) (i n : nat) : prog (Result * nat) :=
  match n with
  | O => mret (OK, i)
  | S n' =>
      result ← sub i (sub_setOperationMode mode);
      if decide (result ≠ OK) then mret (result, i) else flip_modes mode (S i) n'
  end.

Definition setOperationMode (mode : OperationMode) : prog Result :=
  subHals ← gets mSubHalList;
  '(result, subHalIndex) ← flip_modes mode 0 (length subHals);
  (if decide (result ≠ OK) then
     for_each (λ i, current ← gets mCurrentOperationMode;
                    _ ← sub i (sub_setOperationMode current); mret ()) (seq 0 subHalIndex)
   else modify (set_mode mode));;
  mret result.

(** ** Direct channels *)

Definition registerDirectChannel : prog (Result * Z) :=
  direct ← gets mDirectChannelSubHal;
  match direct with
  | None => mret (INVALID_OPERATION, -1)
  | Some i =>
      result ← sub i sub_registerDirectChannel;
      value ← ask (answer_value env);
      mret (result, value)
  end.

Definition unregisterDirectChannel (channelHandle : Z) : prog Result :=
  direct ← gets mDirectChannelSubHal;
  match direct with
  | None => mret INVALID_OPERATION
  | Some i => sub i (sub_unregisterDirectChannel channelHandle)
  end.

(** [stop]: whether the rate is [RateLevel::STOP]. *)
Definition configDirectReport (handle channelHandle : Z) (stop : bool) : prog (Result * Z) :=
  direct ← gets mDirectChannelSubHal;
  match direct with
  | None => mret (INVALID_OPERATION, -1)
  | Some i =>
      if decide (handle = -1 ∧ stop = false) then mret (BAD_VALUE, -1)
      else
        result ← sub i (sub_configDirectReport
                   (if decide (handle ≠ -1) then clearSubHalIndex handle else handle)
                   channelHandle stop);
        value ← ask (answer_value env);
        mret (result, value)
  end.

(** ** Sensors that come and go *)

(** The sensors kept by a notification of sub-HAL [i], marked. *)
Definition mark_sensors (i : Z) (sensors : list SensorInfo) : list SensorInfo :=
  map (λ s, set_handle (setSubHalIndex (sensorHandle s) i) s)
    (List.filter (λ s, subHalIndexIsClear (sensorHandle s)) sensors).

Definition insert_sensors (m : gmap Z SensorInfo) (l : list SensorInfo) : gmap Z SensorInfo :=
  foldl (λ m s, <[sensorHandle s := s]> m) m l.

Definition onDynamicSensorsConnected (added : list SensorInfo) (subHalIndex : Z) : prog unit :=
  modify (λ x, set_dynamic
    (insert_sensors (mDynamicSensors x) (mark_sensors subHalIndex added)) x);;
  emit (cb_onDynamicSensorsConnected (mark_sensors subHalIndex added)).

(** The loop over the removed handles: the map after it and the handles it erased. *)
Fixpoint erase_sensors (i : Z) (removed : list Z) (m : gmap Z SensorInfo)
    : gmap Z SensorInfo * list Z :=
  match removed with
  | [] => (m, [])
  | h :: removed' =>
      if subHalIndexIsClear h then
        let h := setSubHalIndex h i in
        match m !! h with
        | Some _ => let (m', hs) := erase_sensors i removed' (delete h m) in (m', h :: hs)
        | None => erase_sensors i removed' m
        end
      else erase_sensors i removed' m
  end.

Definition onDynamicSensorsDisconnected (removed : list Z) (subHalIndex : Z) : prog unit :=
  m ← gets mDynamicSensors;
  modify (set_dynamic (erase_sensors subHalIndex removed m).1);;
  emit (cb_onDynamicSensorsDisconnected (erase_sensors subHalIndex removed m).2).

Definition disableAllSensors : prog unit :=
  sensors ← gets mSensors;
  for_each (λ h, _ ← activate h false; mret ()) (keys sensors);;
  dynamic ← gets mDynamicSensors;
  for_each (λ h, _ ← activate h false; mret ()) (keys dynamic).
End proxy.

(** ** Lemmas *)

Section lemmas.
Context `{C : SensorsConstants} {laws : SensorsLaws C} (env : sub_environment).

Abbreviation world_t := (world HalProxy proxy_call).

Lemma direct_land f : Z.land (Z.land f (Z.lnot direct_mask)) direct_mask = 0.
Proof.
  rewrite <- Z.land_assoc, (Z.land_comm (Z.lnot _)), Z.land_lnot_diag. apply Z.land_0_r.
Qed.

(** What [mSensors] holds after the sensors in [added] were offered, each with the index of
    its sub-HAL. *)
Record collected (added : list (nat * SensorInfo)) (x : HalProxy) : Prop := {
  collected_sound : ∀ h s, mSensors x !! h = Some s → ∃ i s0,
    (i, s0) ∈ added ∧ subHalIndexIsClear (sensorHandle s0) = true ∧
    h = setSubHalIndex (sensorHandle s0) (Z.of_nat i) ∧ sensorHandle s = h ∧
    name s = name s0 ∧
    (typeAsString s0 ≠ "android.sensor.wrist_tilt_gesture"%string → type s = type s0) ∧
    (flags s = flags s0 ∨ flags s = Z.land (flags s0) (Z.lnot direct_mask)) ∧
    (Z.land (flags s) direct_mask ≠ 0 → mDirectChannelSubHal x = Some i ∧ flags s = flags s0);
  collected_complete : ∀ i s0, (i, s0) ∈ added → subHalIndexIsClear (sensorHandle s0) = true →
    is_Some (mSensors x !! setSubHalIndex (sensorHandle s0) (Z.of_nat i))
}.

Lemma setDirectChannelFlags_spec i s x s' x' :
  setDirectChannelFlags i s x = (s', x') →
  sensorHandle s' = sensorHandle s ∧ name s' = name s ∧ mSensors x' = mSensors x ∧
  type s' = type s ∧ typeAsString s' = typeAsString s ∧
  (flags s' = flags s ∨ flags s' = Z.land (flags s) (Z.lnot direct_mask)) ∧
  (∀ j, mDirectChannelSubHal x = Some j → mDirectChannelSubHal x' = Some j) ∧
  (Z.land (flags s') direct_mask ≠ 0 → mDirectChannelSubHal x' = Some i ∧ flags s' = flags s).
Proof.
  unfold setDirectChannelFlags. intros Heq.
  destruct (mDirectChannelSubHal x) as [j|] eqn:Hd;
    [destruct (decide (i = j)) as [->|];
       [rewrite decide_False in Heq by tauto|rewrite decide_True in Heq by done]
    |destruct (Z.eqb_spec (Z.land (flags s) direct_mask) 0)];
    injection Heq as <- <-; cbn; rewrite ?direct_land; split_and!;
    (done || congruence || (by left) || by right).
Qed.

Lemma collected_more added a x :
  collected added x → subHalIndexIsClear (sensorHandle a.2) = false →
  collected (added ++ [a]) x.
Proof.
  intros [Hs Hc] Ha. split.
  - intros h s (i & s0 & Hin & ?)%Hs. exists i, s0. by rewrite elem_of_app; eauto.
  - intros i s0 [?|Heq%list_elem_of_singleton]%elem_of_app Hcl; [by eapply Hc|].
    subst a. cbn in Ha. congruence.
Qed.

Lemma add_sensor_collected added i s x :
  collected added x → collected (added ++ [(i, s)]) (add_sensor i s x).
Proof.
  intros HC. unfold add_sensor. destruct (subHalIndexIsClear (sensorHandle s)) eqn:Hclear;
    [|by apply collected_more].
  destruct (setDirectChannelFlags i _ x) as [s' x'] eqn:Hf.
  apply setDirectChannelFlags_spec in Hf as (Hh & Hn & Hm & Ht & Hts & Hor & Hd & Hfl).
  destruct HC as [Hs Hc]. cbn in Hh, Hn, Ht, Hts, Hor, Hfl.
  set (s'' := if decide _ then _ else s').
  assert (sensorHandle s'' = sensorHandle s' ∧ name s'' = name s' ∧ flags s'' = flags s' ∧
    (typeAsString s ≠ "android.sensor.wrist_tilt_gesture"%string → type s'' = type s))
    as (Hh2 & Hn2 & Hf2 & Ht2)
    by (unfold s''; case_decide; split_and!; done || (intros; congruence)).
  clearbody s''. split; cbn.
  - intros h t. rewrite Hm, Hh2, Hh. intros [[<- <-]|[Hne Hlook]]%lookup_insert_Some.
    + exists i, s. rewrite Hh2, Hn2, Hf2. split_and!; try done. set_solver.
    + destruct (Hs _ _ Hlook) as (j & s0 & Hin & Hcl & Hhs & Hst & Hnm & Htn & Hfn & Hdir).
      exists j, s0. split_and!; try done; [set_solver|].
      intros [Hx%Hd ?]%Hdir. by split.
  - intros j s0 Hin Hcl. rewrite Hm, Hh2, Hh.
    destruct (decide (setSubHalIndex (sensorHandle s) (Z.of_nat i)
      = setSubHalIndex (sensorHandle s0) (Z.of_nat j))) as [<-|Hne].
    + rewrite lookup_insert_eq. by eexists.
    + rewrite lookup_insert_ne by done. apply Hc; [|done].
      apply elem_of_app in Hin as [?|[= -> ->]%list_elem_of_singleton]; done.
Qed.

(** The sensors of [lists] with the indices of their sub-HALs, from [i] on. *)
Fixpoint offered (i : nat) (lists : list (list SensorInfo)) : list (nat * SensorInfo) :=
  match lists with
  | [] => []
  | l :: lists' => map (pair i) l ++ offered (S i) lists'
  end.

Lemma elem_of_offered i lists j s :
  (j, s) ∈ offered i lists ↔ ∃ k l, j = (i + k)%nat ∧ lists !! k = Some l ∧ s ∈ l.
Proof.
  revert i. induction lists as [|l lists IH]; intros i; cbn.
  - split; [by intros ?%elem_of_nil|]. by intros (k & l & _ & Hk & _).
  - rewrite elem_of_app, IH. split.
    + intros [(s' & [= -> ->] & Hs)%list_elem_of_fmap|(k & l' & -> & Hk & Hs)].
      * exists 0%nat, l. by split_and!; [lia| |].
      * exists (S k), l'. by split_and!; [lia| |].
    + intros ([|k] & l' & -> & Hk & Hs); cbn in Hk.
      * injection Hk as ->. left. rewrite Nat.add_0_r. by apply list_elem_of_fmap_2.
      * right. exists k, l'. by split_and!; [lia| |].
Qed.

Lemma add_sensors_collected i l added x :
  collected added x →
  collected (added ++ map (pair i) l) (foldl (λ x sensor, add_sensor i sensor x) x l).
Proof.
  revert added x. induction l as [|s l IH]; intros added x HC; cbn; [by rewrite app_nil_r|].
  rewrite cons_middle, app_assoc. apply IH. by apply add_sensor_collected.
Qed.

Lemma initializeSensorList_collected i lists added x :
  collected added x → collected (added ++ offered i lists) (initializeSensorList i lists x).
Proof.
  revert i added x. induction lists as [|l lists IH]; intros i added x HC; cbn;
    [by rewrite app_nil_r|].
  rewrite app_assoc. apply IH. by apply add_sensors_collected.
Qed.

Lemma HalProxy_new_collected names lists :
  collected (offered 0 lists) (HalProxy_new names lists).
Proof.
  apply (initializeSensorList_collected 0 lists []). split; [|set_solver].
  intros h s. cbn. by rewrite lookup_empty.
Qed.

Lemma elem_of_keys {A} (m : gmap Z A) h : h ∈ keys m ↔ is_Some (m !! h).
Proof. unfold keys. by rewrite merge_sort_Permutation, elem_of_elements, elem_of_dom. Qed.

Lemma keys_NoDup {A} (m : gmap Z A) : NoDup (keys m).
Proof. unfold keys. rewrite merge_sort_Permutation. apply NoDup_elements. Qed.

Lemma elem_of_getSensorsList x s :
  s ∈ getSensorsList_2_1 x ↔ ∃ h, mSensors x !! h = Some s.
Proof.
  unfold getSensorsList_2_1. rewrite list_elem_of_omap. split; [naive_solver|].
  intros (h & Hh). exists h. rewrite elem_of_keys. naive_solver.
Qed.

Lemma initializeSensorList_names i lists x :
  mSubHalList (initializeSensorList i lists x) = mSubHalList x.
Proof.
  revert i x. induction lists as [|l lists IH]; intros i x; cbn; [done|].
  rewrite IH. clear. revert x. induction l as [|s l IH]; intros x; cbn; [done|].
  rewrite IH. unfold add_sensor, setDirectChannelFlags. by repeat case_match; simplify_eq.
Qed.

Lemma initializeSensorList_mode i lists x :
  mCurrentOperationMode (initializeSensorList i lists x) = mCurrentOperationMode x.
Proof.
  revert i x. induction lists as [|l lists IH]; intros i x; cbn; [done|].
  rewrite IH. clear. revert x. induction l as [|s l IH]; intros x; cbn; [done|].
  rewrite IH. unfold add_sensor, setDirectChannelFlags. by repeat case_match; simplify_eq.
Qed.

Lemma dispatch_valid handle i h op w :
  extractSubHalIndex handle = Z.of_nat i → (i < length (mSubHalList (st w)))%nat →
  clearSubHalIndex handle = h →
  let w' := World (st w) (tr w ++ [sub_call i (op h)]) in
  dispatch env handle op w = (Done (answer env (tr w')), w').
Proof.
  intros Hi Hlt <-. unfold dispatch, isSubHalIndexValid, sub. run.
  rewrite Hi, bool_decide_eq_true_2, Nat2Z.id by lia. by run.
Qed.

Lemma dispatch_invalid handle op w :
  Z.of_nat (length (mSubHalList (st w))) ≤ extractSubHalIndex handle →
  dispatch env handle op w = (Done BAD_VALUE, w).
Proof.
  intros Hi. unfold dispatch, isSubHalIndexValid. run.
  by rewrite bool_decide_eq_false_2 by lia.
Qed.

(** C16: a sensor of the list is operated at the sub-HAL that listed it, under the handle
    that sub-HAL gave it. For every sensor the proxy lists, with at most 128 sub-HALs, one
    of them listed a sensor with the same name, and every activate, batch and flush of the
    listed handle is one call to that sub-HAL with its own handle, whose answer is the
    proxy's. *)
Theorem listed_sensor_reaches_its_hal names lists s w :
  (length lists ≤ length names ≤ 128)%nat →
  st w = HalProxy_new names lists → s ∈ getSensorsList_2_1 (st w) →
  ∃ i l s0, lists !! i = Some l ∧ s0 ∈ l ∧ name s = name s0 ∧
    let reaches (m : M (world HalProxy proxy_call) Result) op :=
      let w' := World (st w) (tr w ++ [sub_call i op]) in
      m w = (Done (answer env (tr w')), w') in
    (∀ enabled, reaches (activate env (sensorHandle s) enabled)
                        (sub_activate (sensorHandle s0) enabled)) ∧
    (∀ period latency, reaches (batch env (sensorHandle s) period latency)
                               (sub_batch (sensorHandle s0) period latency)) ∧
    reaches (flush env (sensorHandle s)) (sub_flush (sensorHandle s0)).
Proof.
  intros [Hlen H128] Hst Hs. rewrite Hst in Hs. apply elem_of_getSensorsList in Hs as (h & Hh).
  apply (collected_sound _ _ (HalProxy_new_collected names lists)) in Hh
    as (i & s0 & Hin & Hcl%index_clear & -> & Hsh & Hname & _ & _ & _).
  apply elem_of_offered in Hin as (k & l & -> & Hl & Hs0). cbn in Hsh, Hl.
  pose proof (lookup_lt_Some _ _ _ Hl) as Hk.
  exists k, l, s0. do 3 (split; [done|]). rewrite Hsh.
  assert (∀ op, dispatch env (setSubHalIndex (sensorHandle s0) (Z.of_nat k)) op w =
    let w' := World (st w) (tr w ++ [sub_call k (op (sensorHandle s0))]) in
    (Done (answer env (tr w')), w')) as D.
  { intros op. apply dispatch_valid.
    - rewrite extract_set by (done || lia). unfold signed_index. decides.
      apply wrap_u_id. unfold in_u. lia.
    - rewrite Hst. unfold HalProxy_new. rewrite initializeSensorList_names. cbn. lia.
    - apply clear_set; [done|lia]. }
  split_and!; intros.
  - apply (D (λ h, sub_activate h enabled)).
  - apply (D (λ h, sub_batch h period latency)).
  - apply D.
Qed.

(** What a library contributes to the list of sub-HALs. *)
Lemma elem_of_loaded v20 v21 dlopen text lib :
  lib ∈ initializeSubHalListFromConfigFile v20 v21 dlopen (Some text) ↔
  ∃ file, file ∈ stream_words EmptyString text ∧
    getHandleForSubHalSharedObject dlopen file = Some lib ∧
    (sensorsHalGetSubHal lib = Some v20 ∨
     sensorsHalGetSubHal lib = None ∧ sensorsHalGetSubHal_2_1 lib = Some v21).
Proof.
  cbn. rewrite list_elem_of_omap. split; intros (file & Hin & Hlib); exists file;
    (split; [done|]).
  - apply bind_Some in Hlib as (lib' & Hd & Hl). revert Hl. unfold load_subhal.
    destruct (sensorsHalGetSubHal lib') as [v|] eqn:E0; [|destruct (sensorsHalGetSubHal_2_1 lib')
      as [v|] eqn:E1; [|done]]; (case_decide as Hv; [done|]);
      intros [= <-]; rewrite ?E0, ?E1; subst; tauto.
  - destruct Hlib as (-> & Hv). cbn. unfold load_subhal.
    destruct Hv as [->|[-> ->]]; by rewrite decide_False by (intros H; by apply H).
Qed.

(** the proxy of a configuration file offers the sensors of every library it lists. If
    a listed library can be opened in one of the three places and reports the version its
    entry point stands for, a sensor it lists under a handle with a clear first byte is in
    the proxy's list, marked with the place of a sub-HAL of that library; and every sensor
    of the proxy's list comes from such a library. *)
Theorem configured_sensors v20 v21 dlopen text :
  let x := HalProxy_from_config v20 v21 dlopen (Some text) in
  let listed file lib := file ∈ stream_words EmptyString text ∧
    getHandleForSubHalSharedObject dlopen file = Some lib ∧
    (sensorsHalGetSubHal lib = Some v20 ∨
     sensorsHalGetSubHal lib = None ∧ sensorsHalGetSubHal_2_1 lib = Some v21) in
  (∀ file lib s, listed file lib → s ∈ lib_sensors lib →
     subHalIndexIsClear (sensorHandle s) = true →
     ∃ i s', s' ∈ getSensorsList_2_1 x ∧ mSubHalList x !! i = Some (lib_name lib) ∧
             sensorHandle s' = setSubHalIndex (sensorHandle s) (Z.of_nat i)) ∧
  (∀ s', s' ∈ getSensorsList_2_1 x →
     ∃ file lib s, listed file lib ∧ s ∈ lib_sensors lib ∧ name s' = name s).
Proof.
  intros x listed. unfold x, HalProxy_from_config.
  pose proof (elem_of_loaded v20 v21 dlopen text) as Hloaded. revert Hloaded.
  generalize (initializeSubHalListFromConfigFile v20 v21 dlopen (Some text)). intros libs Hloaded.
  destruct (HalProxy_new_collected (map lib_name libs) (map lib_sensors libs))
    as [Hsound Hcomplete]. split.
  - intros file lib s Hfile Hs Hcl.
    assert (lib ∈ libs) as Hlib by (apply Hloaded; by exists file).
    apply list_elem_of_lookup in Hlib as [i Hi].
    destruct (Hcomplete i s) as [s' Hs']; [|done|].
    { apply elem_of_offered. exists i, (lib_sensors lib).
      split_and!; [lia| |done]. by rewrite list_lookup_fmap, Hi. }
    exists i, s'. split_and!.
    + apply elem_of_getSensorsList. by eexists.
    + unfold HalProxy_new. rewrite initializeSensorList_names. cbn.
      by rewrite list_lookup_fmap, Hi.
    + by destruct (Hsound _ _ Hs') as (? & ? & _ & _ & _ & ? & _).
  - intros s' (h & Hh)%elem_of_getSensorsList.
    destruct (Hsound _ _ Hh) as (i & s & Hin & _ & _ & _ & Hname & _).
    apply elem_of_offered in Hin as (k & l & _ & Hl & Hs).
    rewrite list_lookup_fmap in Hl. apply fmap_Some in Hl as (lib & Hlib & ->).
    apply list_elem_of_lookup_2, Hloaded in Hlib as (file & Hfile).
    by exists file, lib, s.
Qed.

(** the list of sensors is complete, and one sub-HAL at most has direct channels. Every
    sensor a sub-HAL lists under a handle with a clear first byte is listed under that
    handle marked with the sub-HAL's index; and any two listed sensors that still have a
    direct channel or direct report flag belong to the same sub-HAL, the one direct channel
    calls go to. *)
Theorem sensor_list_complete_one_direct names lists :
  let x := HalProxy_new names lists in
  (∀ i l s, lists !! i = Some l → s ∈ l → subHalIndexIsClear (sensorHandle s) = true →
     ∃ s', s' ∈ getSensorsList_2_1 x ∧
           sensorHandle s' = setSubHalIndex (sensorHandle s) (Z.of_nat i)) ∧
  (∀ s, s ∈ getSensorsList_2_1 x → Z.land (flags s) direct_mask ≠ 0 →
     ∃ i l s0, mDirectChannelSubHal x = Some i ∧ lists !! i = Some l ∧ s0 ∈ l ∧
       sensorHandle s = setSubHalIndex (sensorHandle s0) (Z.of_nat i) ∧ flags s = flags s0).
Proof.
  intros x. destruct (HalProxy_new_collected names lists) as [Hsound Hcomplete]. split.
  - intros i l s Hl Hs Hcl. destruct (Hcomplete i s) as [s' Hs']; [|done|].
    { apply elem_of_offered. by exists i, l. }
    exists s'. split; [apply elem_of_getSensorsList; by eexists|].
    by destruct (Hsound _ _ Hs') as (? & ? & _ & _ & _ & ? & _).
  - intros s (h & Hh)%elem_of_getSensorsList Hf.
    destruct (Hsound _ _ Hh) as (i & s0 & Hin & _ & -> & Hsh & _ & _ & _ & Hd). destruct (Hd Hf).
    apply elem_of_offered in Hin as (k & l & -> & Hl & Hs0). by exists k, l, s0.
Qed.

(** ** The operation mode *)

(** The calls that set [mode] in the sub-HALs [0 .. k-1]. *)
Definition mode_calls (mode : OperationMode) (k : nat) : list proxy_call :=
  map (λ i, sub_call i (sub_setOperationMode mode)) (seq 0 k).

Lemma mode_calls_S mode k :
  mode_calls mode (S k) = mode_calls mode k ++ [sub_call k (sub_setOperationMode mode)].
Proof. unfold mode_calls. by rewrite seq_S, map_app. Qed.

Lemma flip_modes_ok mode i n t w :
  tr w = t ++ mode_calls mode i →
  (∀ k, (i ≤ k < i + n)%nat → answer env (t ++ mode_calls mode (S k)) = OK) →
  flip_modes env mode i n w
  = (Done (OK, (i + n)%nat), World (st w) (t ++ mode_calls mode (i + n))).
Proof.
  revert i w. induction n as [|n IH]; intros i [x tw] Ht Hok; cbn in Ht; subst tw; cbn [flip_modes].
  - run. by rewrite Nat.add_0_r.
  - unfold sub. run. rewrite <- mode_calls_S, Hok by lia. cbn.
    rewrite (IH (S i)) by (done || (intros; apply Hok; lia)). by rewrite Nat.add_succ_comm.
Qed.

Lemma flip_modes_fails mode i n k t w :
  tr w = t ++ mode_calls mode i → (i ≤ k < i + n)%nat →
  (∀ j, (i ≤ j < k)%nat → answer env (t ++ mode_calls mode (S j)) = OK) →
  answer env (t ++ mode_calls mode (S k)) ≠ OK →
  flip_modes env mode i n w
  = (Done (answer env (t ++ mode_calls mode (S k)), k),
     World (st w) (t ++ mode_calls mode (S k))).
Proof.
  revert i w. induction n as [|n IH]; intros i [x tw] Ht Hk Hok Hbad; [lia|].
  cbn in Ht; subst tw; cbn [flip_modes]. unfold sub. run. rewrite <- mode_calls_S.
  destruct (decide (i = k)) as [->|]; [by decides|].
  rewrite Hok by lia. cbn.
  rewrite (IH (S i)) by (done || lia || (intros; apply Hok; lia)). done.
Qed.

Lemma reset_modes l w :
  for_each (λ i, current ← gets mCurrentOperationMode;
                 _ ← sub env i (sub_setOperationMode current); mret ()) l w
  = (Done (), World (st w)
      (tr w ++ map (λ i, sub_call i (sub_setOperationMode (mCurrentOperationMode (st w)))) l)).
Proof.
  revert w. induction l as [|i l IH]; intros [x t]; [by run; rewrite app_nil_r|].
  unfold sub in *. run. rewrite IH. by run.
Qed.

(** C18: the operation mode changes everywhere or nowhere. If every sub-HAL accepts the mode,
    each is asked once, in order, and the proxy's mode is the new one. If sub-HAL [k] is the
    first to refuse, those before it, and only those, are set back to the proxy's mode,
    which does not change, no later sub-HAL hears of the request and the refusal is the
    answer. *)
Theorem set_mode_all_or_nothing mode w :
  (∀ t x, w = World x t →
   (∀ k, (k < length (mSubHalList x))%nat → answer env (t ++ mode_calls mode (S k)) = OK) →
   setOperationMode env mode w
   = (Done OK, World (set_mode mode x) (t ++ mode_calls mode (length (mSubHalList x))))) ∧
  (∀ t x k r, w = World x t → (k < length (mSubHalList x))%nat →
   (∀ j, (j < k)%nat → answer env (t ++ mode_calls mode (S j)) = OK) →
   answer env (t ++ mode_calls mode (S k)) = r → r ≠ OK →
   setOperationMode env mode w
   = (Done r, World x (t ++ mode_calls mode (S k) ++ mode_calls (mCurrentOperationMode x) k))).
Proof.
  split.
  - intros t x -> Hok. unfold setOperationMode. rewrite bind_gets.
    erewrite bind_done; [|apply (flip_modes_ok _ 0 _ t); [cbn; by rewrite app_nil_r|]];
      [by run|intros; apply Hok; cbn in *; lia].
  - intros t x k r -> Hk Hok Hr Hbad. unfold setOperationMode. rewrite bind_gets.
    erewrite bind_done; [|apply (flip_modes_fails _ 0 _ k t);
      [cbn; by rewrite app_nil_r|cbn; lia|intros; apply Hok; lia|congruence]].
    rewrite Hr. cbn beta iota. decides. erewrite bind_done; [|apply reset_modes].
    cbn. by rewrite <- app_assoc.
Qed.

(** ** Dynamic sensors *)

Lemma insert_sensors_lookup_ne m l h :
  h ∉ map sensorHandle l → insert_sensors m l !! h = m !! h.
Proof.
  revert m. induction l as [|s l IH]; intros m Hh; cbn in *; [done|].
  apply not_elem_of_cons in Hh as [Hne Hh]. fold (insert_sensors (<[sensorHandle s := s]> m) l).
  by rewrite IH, lookup_insert_ne.
Qed.

Lemma insert_sensors_insert m l s :
  sensorHandle s ∉ map sensorHandle l →
  insert_sensors m (s :: l) = <[sensorHandle s := s]> (insert_sensors m l).
Proof.
  cbn. revert m. induction l as [|s' l IH]; intros m Hs; [done|].
  apply not_elem_of_cons in Hs as [Hne Hs]. cbn. rewrite insert_insert_ne by done. by apply IH.
Qed.

Lemma mark_sensors_cons i s l :
  mark_sensors i (s :: l) =
  if subHalIndexIsClear (sensorHandle s)
  then set_handle (setSubHalIndex (sensorHandle s) i) s :: mark_sensors i l
  else mark_sensors i l.
Proof. unfold mark_sensors. cbn. by destruct (subHalIndexIsClear (sensorHandle s)). Qed.

Lemma elem_of_marked i h l :
  0 ≤ i < 256 → subHalIndexIsClear h = true →
  setSubHalIndex h i ∈ map sensorHandle (mark_sensors i l) → h ∈ map sensorHandle l.
Proof.
  intros Hi Hh. induction l as [|s l IH]; [by cbn; intros ?%elem_of_nil|].
  rewrite mark_sensors_cons. cbn. rewrite elem_of_cons.
  destruct (subHalIndexIsClear (sensorHandle s)) eqn:Hs; cbn; rewrite ?elem_of_cons; [|tauto].
  intros [Heq|]; [left|tauto].
  apply set_index_inj in Heq as [? _]; try done; by apply index_clear.
Qed.

Lemma erase_connected i l m :
  0 ≤ i < 256 → NoDup (map sensorHandle l) →
  Forall (λ s, m !! setSubHalIndex (sensorHandle s) i = None) l →
  erase_sensors i (map sensorHandle l) (insert_sensors m (mark_sensors i l))
  = (m, map sensorHandle (mark_sensors i l)).
Proof.
  intros Hi. induction l as [|s l IH]; intros Hnd Hm; [done|].
  apply NoDup_cons in Hnd as [Hs Hnd]. apply Forall_cons in Hm as [Hms Hm].
  specialize (IH Hnd Hm). rewrite mark_sensors_cons. cbn [map erase_sensors].
  destruct (subHalIndexIsClear (sensorHandle s)) eqn:Hcl; [|done].
  assert (setSubHalIndex (sensorHandle s) i ∉ map sensorHandle (mark_sensors i l)) as Hni
    by (by intros ?%elem_of_marked).
  rewrite insert_sensors_insert by done. cbn [sensorHandle set_handle].
  rewrite lookup_insert_eq, delete_insert_eq, delete_id, IH; [done|].
  by rewrite insert_sensors_lookup_ne.
Qed.

(** dynamic sensors that come and go leave no trace in the proxy, and the framework
    hears of both. If a sub-HAL connects sensors with different handles that it had not
    connected before, and then disconnects them, the proxy's dynamic sensors are what they
    were; the framework was called twice, with the marked sensors and with their handles,
    both without those whose first byte was not clear. *)
Theorem dynamic_sensors_round_trip i l w :
  0 ≤ i < 256 → NoDup (map sensorHandle l) →
  Forall (λ s, mDynamicSensors (st w) !! setSubHalIndex (sensorHandle s) i = None) l →
  (onDynamicSensorsConnected l i;; onDynamicSensorsDisconnected (map sensorHandle l) i) w
  = (Done (), World (st w) (tr w ++
       [cb_onDynamicSensorsConnected (mark_sensors i l);
        cb_onDynamicSensorsDisconnected (map sensorHandle (mark_sensors i l))])).
Proof.
  intros Hi Hnd Hm. destruct w as [[] t]. cbn in Hm.
  unfold onDynamicSensorsConnected, onDynamicSensorsDisconnected, set_dynamic. run.
  cbn -[insert_sensors erase_sensors mark_sensors]. by rewrite (erase_connected i l).
Qed.

(** data is injected only in the injection mode. While the proxy's mode is NORMAL an
    event that is not additional information is refused and reaches no sub-HAL; otherwise
    an event of a sensor of sub-HAL [i] is passed to it, unchanged but for its handle, which
    is the sub-HAL's own. *)
Theorem injection_gated event w :
  (mCurrentOperationMode (st w) = NORMAL → ev_type event ≠ ADDITIONAL_INFO →
   injectSensorData env event w = (Done BAD_VALUE, w)) ∧
  (∀ h i, in_handle h → (i < length (mSubHalList (st w)))%nat → (i < 128)%nat →
   mCurrentOperationMode (st w) = DATA_INJECTION ∨ ev_type event = ADDITIONAL_INFO →
   ev_handle event = setSubHalIndex h (Z.of_nat i) →
   let w' := World (st w) (tr w ++ [sub_call i (sub_injectSensorData
     (set_event_handle h event))]) in
   injectSensorData env event w = (Done (answer env (tr w')), w')).
Proof.
  unfold injectSensorData. rewrite bind_gets. split.
  - intros Hm Ht. by decides.
  - intros h i Hh Hi H128 Hgate Hev. rewrite decide_False by (destruct Hgate; intros []; congruence).
    rewrite Hev. apply (dispatch_valid _ _ h
      (λ h, sub_injectSensorData (set_event_handle h event))); [|done|].
    + rewrite extract_set by (done || lia). unfold signed_index. decides.
      apply wrap_u_id. unfold in_u. lia.
    + apply clear_set; [done|lia].
Qed.
End lemmas.

(** ** Two sub-HALs *)

Section example.
Context (accept : bool).

Definition sample_sensor (h : Z) (n : string) (f : Z) : SensorInfo :=
  {| sensorHandle := h; name := n; vendor := "vendor"; version := 1; type := 1;
     typeAsString := ""; maxRange := 1; resolution := 1; power := 0; minDelay := 0;
     fifoReservedEventCount := 0; fifoMaxEventCount := 0; requiredPermission := "";
     maxDelay := 0; flags := f |}.

Definition sample_lists : list (list SensorInfo) :=
  [[sample_sensor 1 "accel" 0; sample_sensor 2 "gyro" 0x400];
   [sample_sensor 1 "udfps" 0x481; sample_sensor 0x1000001 "bad" 0]].

Definition sample_proxy : HalProxy := HalProxy_new ["sensors.a"; "sensors.b"]%string sample_lists.

(** The second sub-HAL accepts the injection mode only if [accept]. *)
Definition sample_env : sub_environment := {|
  answer t := match last t with
              | Some (sub_call 1 (sub_setOperationMode DATA_INJECTION)) =>
                  if accept then OK else INVALID_OPERATION
              | _ => OK
              end;
  answer_value _ := 7
|}.
End example.

Example listed_sensor_reaches_its_hal_witness :
  activate (sample_env true) (setSubHalIndex 1 1) true (World sample_proxy [])
  = (Done OK, World sample_proxy [sub_call 1 (sub_activate 1 true)]).
Proof.
  destruct (listed_sensor_reaches_its_hal (sample_env true) ["sensors.a"; "sensors.b"]%string
    sample_lists (sample_sensor 0x1000001 "udfps" 1) (World sample_proxy []))
    as (i & l & s0 & Hl & Hs0 & Hn & Ha & _).
  - cbn. lia.
  - reflexivity.
  - apply elem_of_getSensorsList. exists 0x1000001. vm_compute. reflexivity.
  - assert (i = 1%nat ∧ sensorHandle s0 = 1) as [-> Hh].
    { destruct i as [|[|i]]; [| |done]; cbn in Hl; injection Hl as <-;
        cbn in Hn, Hs0; rewrite !elem_of_cons, elem_of_nil in Hs0;
        destruct Hs0 as [->|[->|[]]]; cbn in *; by auto || discriminate. }
    rewrite Hh in Ha. exact (Ha true).
Defined.

Example set_mode_all_or_nothing_witness :
  setOperationMode (sample_env false) DATA_INJECTION (World sample_proxy [])
  = (Done INVALID_OPERATION, World sample_proxy
      [sub_call 0 (sub_setOperationMode DATA_INJECTION);
       sub_call 1 (sub_setOperationMode DATA_INJECTION);
       sub_call 0 (sub_setOperationMode NORMAL)]).
Proof.
  destruct (set_mode_all_or_nothing (sample_env false) DATA_INJECTION (World sample_proxy []))
    as [_ Hfails].
  apply (Hfails [] sample_proxy 1%nat INVALID_OPERATION); try reflexivity; try done.
  - unfold sample_proxy, HalProxy_new. rewrite initializeSensorList_names. cbn. lia.
  - intros [|j] Hj; [reflexivity|lia].
Defined.

Example dynamic_sensors_round_trip_witness :
  (onDynamicSensorsConnected [sample_sensor 9 "mouse" 0] 1;;
   onDynamicSensorsDisconnected [9] 1) (World sample_proxy [])
  = (Done (), World sample_proxy
      [cb_onDynamicSensorsConnected [sample_sensor 0x1000009 "mouse" 0];
       cb_onDynamicSensorsDisconnected [0x1000009]]).
Proof.
  apply (dynamic_sensors_round_trip (C := aosp_sensors) 1 [sample_sensor 9 "mouse" 0]
    (World sample_proxy [])).
  - lia.
  - apply NoDup_singleton.
  - apply Forall_singleton. reflexivity.
Defined.

Example injection_gated_witness :
  injectSensorData (sample_env true) (scalar_event 0x1000001 0 1 5) (World (set_mode DATA_INJECTION sample_proxy) [])
  = (Done OK, World (set_mode DATA_INJECTION sample_proxy)
      [sub_call 1 (sub_injectSensorData
         (scalar_event 1 0 1 5))]).
Proof.
  destruct (injection_gated (sample_env true) (scalar_event 0x1000001 0 1 5) (World (set_mode DATA_INJECTION sample_proxy) []))
    as [_ Hpassed].
  apply (Hpassed 1 1%nat); try reflexivity; try lia.
  - unfold in_handle. lia.
  - vm_compute. lia.
  - by left.
Defined.

Example sensor_list_complete_one_direct_witness :
  ∃ s', s' ∈ getSensorsList_2_1 sample_proxy ∧ sensorHandle s' = 0x1000001.
Proof.
  destruct (sensor_list_complete_one_direct (C := aosp_sensors) ["sensors.a"; "sensors.b"]%string
    sample_lists) as [Hcomplete _].
  destruct (Hcomplete 1%nat [sample_sensor 1 "udfps" 0x481; sample_sensor 0x1000001 "bad" 0]
    (sample_sensor 1 "udfps" 0x481)) as (s' & Hin & Hh).
  - reflexivity.
  - apply elem_of_cons. by left.
  - reflexivity.
  - by exists s'.
Defined.
