(* ===== verification/EventQueue.v ===== *)
(** * The event queue and the shared wakelock

    The rest of [sensors/HalProxy.cpp]: events the sub-HALs post are written to the
    framework's message queue or wait in [mPendingWriteEventsQueue] for a writer thread; a
    reference-counted wakelock is held while wake-up events are on their way, watched over
    by a second thread. The message queue, the clock and the wakelock of the kernel are an
    environment. The threads are programs of sections, each of which the code runs without
    releasing the mutex it holds, or outside of any mutex in one call; the sections of all
    threads and the calls of the sub-HALs run in any order.

    A thread that waits for its condition variable is asleep until it is notified. It looks
    at its predicate in one section and falls asleep, releasing its mutex, in the next;
    a notification only wakes a thread that is asleep. Where the code notifies under the
    mutex, the thread cannot be between the two. (It can be there at an operation that takes
    the mutex and does not notify; such an operation neither reads nor writes where the
    thread is, so that it may as well have come before the thread looked.) The threads are
    not woken for any other reason. A post that finds the message queue or its flag missing
    dereferences a null pointer. *)

From S2P Require Import Prelude Words Handles SensorTypes HalProxy.

(** The calls, with the results of those that write. *)
Inductive queue_call : Set :=
| fmq_write (events : list Event) (ok : bool)
| fmq_writeBlocking (events : list Event) (ok : bool)
| wake_reader
| acquire_wake_lock
| release_wake_lock
| notify_wakelock_thread
| notify_writer.

Record queue_environment : Type := {
  getTimeNow : list queue_call → Z;
  availableToWrite : list queue_call → nat;
  write_ok : list queue_call → bool;
  writeBlocking_ok : list queue_call → bool;
  readBlocking : list queue_call → option Z;   (* the number read; [None] on a timeout *)
  getQuantumCount : nat
}.

(** Where the two threads are. *)
Inductive writer_pc : Set :=
| WriterIdle                                      (* at the loop's head, or just woken *)
| WriterChecked                                   (* about to sleep, with the mutex *)
| WriterWaiting                                   (* asleep in [mEventQueueWriteCV.wait] *)
| Writing (numWakeupEvents : Z) (numToWrite : nat) (* before [writeBlocking] *)
| WriteFailed (numWakeupEvents : Z) (numToWrite : nat)
| Written (numToWrite : nat)                      (* before [lock.lock()] *)
| WriterExited.

Inductive waker_pc : Set :=
| WakerIdle
| WakerChecked
| WakerWaiting                                    (* asleep in [mWakelockCV.wait] *)
| Reading (timeLeft : Z)
| WakerExited.

Record Wakelock : Set := {
  mWakelockRefCount : Z;                (* size_t *)
  mWakelockTimeoutStartTime : Z;        (* int64_t *)
  mWakelockTimeoutResetTime : Z
}.

Record Pending : Set := {
  mPendingWriteEventsQueue : list (list Event * Z);
  mSizePendingWriteEventsQueue : Z;     (* size_t *)
  mMostEventsObservedPendingWriteEventsQueue : Z
}.

Record Queues : Set := {
  mThreadsRun : bool;
  pending : Pending;
  wakelock : Wakelock;
  known_sensors : gmap Z SensorInfo;    (* [mSensors] *)
  mEventQueue : bool;                   (* the pointers, where not null *)
  mEventQueueFlag : bool;
  writer : writer_pc;
  waker : waker_pc
}.

Definition with_pending (p : Pending) (x : Queues) : Queues :=
  {| mThreadsRun := mThreadsRun x; pending := p; wakelock := wakelock x;
     known_sensors := known_sensors x; mEventQueue := mEventQueue x;
     mEventQueueFlag := mEventQueueFlag x; writer := writer x; waker := waker x |}.
Definition with_wakelock (l : Wakelock) (x : Queues) : Queues :=
  {| mThreadsRun := mThreadsRun x; pending := pending x; wakelock := l;
     known_sensors := known_sensors x; mEventQueue := mEventQueue x;
     mEventQueueFlag := mEventQueueFlag x; writer := writer x; waker := waker x |}.
Definition with_sensors (m : gmap Z SensorInfo) (x : Queues) : Queues :=
  {| mThreadsRun := mThreadsRun x; pending := pending x; wakelock := wakelock x;
     known_sensors := m; mEventQueue := mEventQueue x;
     mEventQueueFlag := mEventQueueFlag x; writer := writer x; waker := waker x |}.
Definition with_writer (pc : writer_pc) (x : Queues) : Queues :=
  {| mThreadsRun := mThreadsRun x; pending := pending x; wakelock := wakelock x;
     known_sensors := known_sensors x; mEventQueue := mEventQueue x;
     mEventQueueFlag := mEventQueueFlag x; writer := pc; waker := waker x |}.
Definition with_waker (pc : waker_pc) (x : Queues) : Queues :=
  {| mThreadsRun := mThreadsRun x; pending := pending x; wakelock := wakelock x;
     known_sensors := known_sensors x; mEventQueue := mEventQueue x;
     mEventQueueFlag := mEventQueueFlag x; writer := writer x; waker := pc |}.
Definition with_threads (run : bool) (x : Queues) : Queues :=
  {| mThreadsRun := run; pending := pending x; wakelock := wakelock x;
     known_sensors := known_sensors x; mEventQueue := mEventQueue x;
     mEventQueueFlag := mEventQueueFlag x; writer := writer x; waker := waker x |}.

Definition with_event_queue (queue flag : bool) (x : Queues) : Queues :=
  {| mThreadsRun := mThreadsRun x; pending := pending x; wakelock := wakelock x;
     known_sensors := known_sensors x; mEventQueue := queue; mEventQueueFlag := flag;
     writer := writer x; waker := waker x |}.

(** [notify_one] on the threads' condition variables, without their mutexes: a thread that
    is about to sleep is not woken. *)
Definition wake_writer (x : Queues) : Queues :=
  match writer x with WriterWaiting => with_writer WriterIdle x | _ => x end.
Definition wake_waker (x : Queues) : Queues :=
  match waker x with WakerWaiting => with_waker WakerIdle x | _ => x end.

(** The same with the mutex: a thread that was about to sleep has gone to sleep before. *)
Definition wake_writer_locked (x : Queues) : Queues :=
  match writer x with WriterChecked | WriterWaiting => with_writer WriterIdle x | _ => x end.
Definition wake_waker_locked (x : Queues) : Queues :=
  match waker x with WakerChecked | WakerWaiting => with_waker WakerIdle x | _ => x end.

Definition no_pending (most : Z) : Pending :=
  {| mPendingWriteEventsQueue := []; mSizePendingWriteEventsQueue := 0;
     mMostEventsObservedPendingWriteEventsQueue := most |}.

Section queue.
Context `{C : SensorsConstants} (env : queue_environment).

Abbreviation prog := (M (world Queues queue_call)).

(** ** The wakelock *)

Definition set_ref (n : Z) (l : Wakelock) : Wakelock :=
  {| mWakelockRefCount := n; mWakelockTimeoutStartTime := mWakelockTimeoutStartTime l;
     mWakelockTimeoutResetTime := mWakelockTimeoutResetTime l |}.

(** Answers the start time if it succeeds. *)
Definition incrementRefCountAndMaybeAcquireWakelock (delta : Z) : prog (option Z) :=
  run ← gets mThreadsRun;
  if run : bool then
    l ← gets wakelock;
    (if decide (mWakelockRefCount l = 0)
     then emit acquire_wake_lock;; emit notify_wakelock_thread;; modify wake_waker_locked
     else mret ());;
    now ← ask (getTimeNow env);
    modify (with_wakelock {| mWakelockRefCount := u64 (mWakelockRefCount l + delta);
      mWakelockTimeoutStartTime := now;
      mWakelockTimeoutResetTime := mWakelockTimeoutResetTime l |});;
    mret (Some now)
  else mret None.

Definition decrementRefCountAndMaybeReleaseWakelock (delta timeoutStart : Z) : prog unit :=
  run ← gets mThreadsRun;
  if run : bool then
    l ← gets wakelock;
    let timeoutStart :=
      if decide (timeoutStart = -1) then mWakelockTimeoutResetTime l else timeoutStart in
    if decide (mWakelockRefCount l = 0 ∨ timeoutStart < mWakelockTimeoutResetTime l)
    then mret ()
    else
      let n := u64 (mWakelockRefCount l - Z.min (mWakelockRefCount l) delta) in
      modify (with_wakelock (set_ref n l));;
      if decide (n = 0) then emit release_wake_lock else mret ()
  else mret ().

Definition resetSharedWakelock : prog unit :=
  l ← gets wakelock;
  decrementRefCountAndMaybeReleaseWakelock (mWakelockRefCount l) (-1);;
  now ← ask (getTimeNow env);
  modify (λ x, with_wakelock
    {| mWakelockRefCount := mWakelockRefCount (wakelock x);
       mWakelockTimeoutStartTime := mWakelockTimeoutStartTime (wakelock x);
       mWakelockTimeoutResetTime := now |} x).

(** The time left, [None] if the wakelock timed out. *)
Definition sharedWakelockDidTimeout : prog (option Z) :=
  now ← ask (getTimeNow env);
  l ← gets wakelock;
  let duration := now - mWakelockTimeoutStartTime l in
  mret (if decide (kWakelockTimeoutNs < duration) then None
        else Some (kWakelockTimeoutNs - duration)).

(** The sections of the wakelock thread: up to the [readBlocking] or the wait, into the wait,
    and from the return of the [readBlocking] on. *)
Definition handleWakelocks : prog unit :=
  x ← gets id;
  match waker x with
  | WakerIdle =>
      if mThreadsRun x then
        if decide (0 < mWakelockRefCount (wakelock x)) then
          left ← sharedWakelockDidTimeout;
          match left with
          | None => resetSharedWakelock
          | Some timeLeft => modify (with_waker (Reading timeLeft))
          end
        else modify (with_waker WakerChecked)
      else resetSharedWakelock;; modify (with_waker WakerExited)
  | WakerChecked => modify (with_waker WakerWaiting)   (* releases the mutex *)
  | WakerWaiting => mret ()                            (* asleep *)
  | Reading _ =>
      numWakeLocksProcessed ← ask (readBlocking env);
      (match numWakeLocksProcessed with
       | Some n => decrementRefCountAndMaybeReleaseWakelock n (-1)
       | None => mret ()
       end);;
      modify (with_waker WakerIdle)
  | WakerExited => mret ()
  end.

(** ** Events *)

(** [mSensors[handle]] adds a sensor where there is none. *)
Fixpoint countNumWakeupEvents (events : list Event) (n : nat) : prog Z :=
  match n, events with
  | O, _ => mret 0
  | S _, [] => faults OutOfBounds
  | S n', event :: events' =>
      m ← gets known_sensors;
      let sensor := default no_sensor (m !! ev_handle event) in
      modify (with_sensors (<[ev_handle event := sensor]> m));;
      count ← countNumWakeupEvents events' n';
      mret (if decide (Z.land (flags sensor) WAKE_UP ≠ 0) then u64 (count + 1) else count)
  end.

(** The write of [postEventsToMessageQueue] that comes before anything is queued. *)
Definition write_now (events : list Event) : prog nat :=
  queue ← gets mEventQueue;
  if queue : bool then
    available ← ask (availableToWrite env);
    let numToWrite := Nat.min (length events) available in
    if decide (0 < numToWrite)%nat then
      ok ← ask (write_ok env);
      emit (fmq_write (take numToWrite events) ok);;
      if ok : bool then
        flag ← gets mEventQueueFlag;
        (if flag : bool then emit wake_reader else faults NullDeref);;  (* [mEventQueueFlag->] *)
        mret numToWrite
      else mret O
    else mret O
  else faults NullDeref.                                                (* [mEventQueue->] *)

Definition postEventsToMessageQueue (events : list Event) (numWakeupEvents : Z)
    (locked : bool) : prog unit :=
  (if locked
   then _ ← incrementRefCountAndMaybeAcquireWakelock numWakeupEvents; mret ()
   else mret ());;
  p ← gets pending;
  numToWrite ← match mPendingWriteEventsQueue p with
               | [] => write_now events
               | _ => mret O
               end;
  let numLeft := Z.of_nat (length events - numToWrite) in
  let size := u64 (mSizePendingWriteEventsQueue p + numLeft) in
  if decide ((numToWrite < length events)%nat ∧ size ≤ kMaxSizePendingWriteEventsQueue) then
    modify (with_pending {|
      mPendingWriteEventsQueue :=
        mPendingWriteEventsQueue p ++ [(drop numToWrite events, numWakeupEvents)];
      mSizePendingWriteEventsQueue := size;
      mMostEventsObservedPendingWriteEventsQueue :=
        Z.max (mMostEventsObservedPendingWriteEventsQueue p) size |});;
    emit notify_writer;;
    modify wake_writer_locked
  else mret ().

(** The sections of the writer thread: up to [lock.unlock()] or the wait, into the wait, the
    [writeBlocking], to which a null flag is an argument like any other, what follows where
    it fails, and from [lock.lock()] on. [pendingWriteEvents] is a reference
    to the front of the queue in all of them. *)
Definition handlePendingWrites : prog unit :=
  x ← gets id;
  let p := pending x in
  match writer x, mPendingWriteEventsQueue p with
  | WriterIdle, q =>
      if mThreadsRun x then
        match q with
        | [] => modify (with_writer WriterChecked)
        | (pendingWriteEvents, numWakeupEvents) :: _ =>
            modify (with_writer (Writing numWakeupEvents
              (Nat.min (length pendingWriteEvents) (getQuantumCount env))))
        end
      else modify (with_writer WriterExited)
  | WriterChecked, _ => modify (with_writer WriterWaiting)    (* releases the mutex *)
  | WriterWaiting, _ => mret ()                               (* asleep *)
  | Writing numWakeupEvents numToWrite, (pendingWriteEvents, _) :: _ =>
      ok ← ask (writeBlocking_ok env);
      emit (fmq_writeBlocking (take numToWrite pendingWriteEvents) ok);;
      modify (with_writer (if ok : bool then Written numToWrite
                           else WriteFailed numWakeupEvents numToWrite))
  | WriteFailed numWakeupEvents numToWrite, (pendingWriteEvents, _) :: _ =>
      (if decide (0 < numWakeupEvents) then
         if decide (getQuantumCount env < length pendingWriteEvents)%nat then
           n ← countNumWakeupEvents pendingWriteEvents (getQuantumCount env);
           decrementRefCountAndMaybeReleaseWakelock n (-1)
         else decrementRefCountAndMaybeReleaseWakelock numWakeupEvents (-1)
       else mret ());;
      modify (with_writer (Written numToWrite))
  | Written numToWrite, (pendingWriteEvents, numWakeupEvents) :: q =>
      modify (with_pending {|
        mPendingWriteEventsQueue :=
          if decide (getQuantumCount env < length pendingWriteEvents)%nat
          then (drop (getQuantumCount env) pendingWriteEvents, numWakeupEvents) :: q
          else q;
        mSizePendingWriteEventsQueue :=
          u64 (mSizePendingWriteEventsQueue p - Z.of_nat numToWrite);
        mMostEventsObservedPendingWriteEventsQueue :=
          mMostEventsObservedPendingWriteEventsQueue p |});;
      modify (with_writer WriterIdle)
  | WriterExited, _ => mret ()
  | _, [] => faults OutOfBounds                        (* the reference dangles *)
  end.

(** What [HalProxy::initializeCommon] does to this state after both threads have been joined: the
    wakelock is reset, the pending events are discarded, the new queue, which is not null,
    and its flag, which is null where it could not be made, take their places, and the
    threads start again. *)
Definition initialize_queues (flag : bool) : prog unit :=
  resetSharedWakelock;;
  modify (λ x, with_pending
    (no_pending (mMostEventsObservedPendingWriteEventsQueue (pending x))) x);;
  modify (with_event_queue true flag);;
  modify (with_threads true);;
  modify (with_writer WriterIdle);;
  modify (with_waker WakerIdle).

(** ** The system *)

Inductive action : Set :=
| Post (events : list Event) (numWakeupEvents : Z) (locked : bool)
| Increment (delta : Z)                     (* a sub-HAL's scoped wakelock *)
| Decrement (delta timeoutStart : Z)
| Writer
| Waker
| Stop                                      (* [stopThreads] up to the joins *)
| Initialize (flag : bool).                 (* after the joins *)

Definition act (a : action) : prog unit :=
  match a with
  | Post events n locked => postEventsToMessageQueue events n locked
  | Increment delta => _ ← incrementRefCountAndMaybeAcquireWakelock delta; mret ()
  | Decrement delta start => decrementRefCountAndMaybeReleaseWakelock delta start
  | Writer => handlePendingWrites
  | Waker => handleWakelocks
  | Stop => modify (with_threads false);; modify wake_waker;; modify wake_writer
  | Initialize flag =>
      x ← gets id;
      match writer x, waker x with
      | WriterExited, WakerExited => initialize_queues flag
      | _, _ => mret ()
      end
  end.
End queue.

(** Before the first [initialize]: no thread, no queue, nothing pending, no reference. Whether
    [mThreadsRun] is set then and the two times are initial values of [HalProxy.h], which is
    not part of the repository. *)
Definition Queues_init (run : bool) (start reset : Z) (sensors : gmap Z SensorInfo) : Queues :=
  {| mThreadsRun := run; pending := no_pending 0;
     wakelock := {| mWakelockRefCount := 0; mWakelockTimeoutStartTime := start;
                    mWakelockTimeoutResetTime := reset |};
     known_sensors := sensors; mEventQueue := false; mEventQueueFlag := false;
     writer := WriterExited; waker := WakerExited |}.

(** Whether posts find the queue and its flag. *)
Definition ready (x : Queues) : bool := mEventQueue x && mEventQueueFlag x.

(** How runs can end: they return, or stop at a post that finds a null pointer. *)
Definition faults_unready (o : outcome unit) (x : Queues) : Prop :=
  o = Done () ∨ o = Fault NullDeref ∧ ready x = false.

(** ** What the parts do to each other *)

(** The events handed to the message queue, in order: those of each write that succeeded
    and of each blocking write, whose failure drops them. *)
Definition handled (t : list queue_call) : list Event :=
  concat (map (λ c, match c with
                    | fmq_write events true => events
                    | fmq_writeBlocking events _ => events
                    | _ => []
                    end) t).

Definition pending_events (x : Queues) : list Event :=
  concat (map fst (mPendingWriteEventsQueue (pending x))).

(** The pending events that are not handed over yet: the writer removes what it has written
    only after it has the mutex again. *)
Definition in_flight (x : Queues) : nat :=
  match writer x with WriteFailed _ k | Written k => k | _ => O end.

Definition waiting (x : Queues) : list Event := drop (in_flight x) (pending_events x).

Definition stream (w : world Queues queue_call) : list Event := handled (tr w) ++ waiting (st w).

Arguments handled : simpl never.
Arguments waiting : simpl never.

Lemma handled_app t1 t2 : handled (t1 ++ t2) = handled t1 ++ handled t2.
Proof. unfold handled. by rewrite map_app, concat_app. Qed.

Section queue_lemmas.
Context `{C : SensorsConstants} {laws : SensorsLaws C} (env : queue_environment).

Abbreviation world_t := (world Queues queue_call).

(** The state beside the queue: the wakelock, its thread and the known sensors. *)
Definition beside (l : Wakelock) (sensors : gmap Z SensorInfo) (pc : waker_pc) (x : Queues)
    : Queues := with_waker pc (with_sensors sensors (with_wakelock l x)).

(** A part of an operation that touches only that and hands nothing over. *)
Definition aside {A} (m : M world_t A) : Prop := ∀ w, ∃ a l sensors pc t,
  m w = (Done a, World (beside l sensors pc (st w)) (tr w ++ t)) ∧ handled t = [].

Lemma aside_intro {A} (m : M world_t A) w a l sensors pc t w' :
  m w = (Done a, w') →
  w' = World (beside l sensors pc (st w)) (tr w ++ t) →
  handled t = [] →
  ∃ a l sensors pc t,
  m w = (Done a, World (beside l sensors pc (st w)) (tr w ++ t)) ∧ handled t = [].
Proof. intros -> -> ?. by repeat eexists. Qed.

Lemma aside_ret {A} (a : A) : aside (mret a).
Proof.
  intros [[] t]. eapply (aside_intro _ _ a _ _ _ []); [done| |done]. cbn. by rewrite app_nil_r.
Qed.

Lemma aside_bind {A B} (m : M world_t A) (k : A → M world_t B) :
  aside m → (∀ a, aside (k a)) → aside (m ≫= k).
Proof.
  intros Hm Hk w. destruct (Hm w) as (a & l & s & pc & t & E & Ht).
  destruct (Hk a (World (beside l s pc (st w)) (tr w ++ t)))
    as (b & l' & s' & pc' & t' & E' & Ht').
  eapply (aside_intro _ _ b l' s' pc' (t ++ t')).
  - erewrite bind_done by exact E. exact E'.
  - cbn. by rewrite app_assoc.
  - by rewrite handled_app, Ht, Ht'.
Qed.

Lemma aside_gets {A} (f : Queues → A) : aside (gets f).
Proof. intros w. destruct (aside_ret (f (st w)) w) as (a & l & s & pc & t & E & Ht).
  exists a, l, s, pc, t. split; [|done]. revert E. run. by intros [= <- <-]. Qed.

Lemma aside_ask {R} (f : list queue_call → R) : aside (ask f).
Proof. intros w. destruct (aside_ret (f (tr w)) w) as (a & l & s & pc & t & E & Ht).
  exists a, l, s, pc, t. split; [|done]. revert E. run. by intros [= <- <-]. Qed.

Lemma aside_emit c : handled [c] = [] → aside (emit c).
Proof. intros Hc [[] t]. by eapply (aside_intro _ _ tt _ _ _ [c]). Qed.

Lemma aside_modify (f : Queues → Queues) :
  (∀ x, mThreadsRun (f x) = mThreadsRun x ∧ pending (f x) = pending x ∧
        writer (f x) = writer x ∧ mEventQueue (f x) = mEventQueue x ∧
        mEventQueueFlag (f x) = mEventQueueFlag x) → aside (modify f).
Proof.
  intros Hf w. destruct (Hf (st w)) as (E1 & E2 & E3 & E4 & E5).
  eapply (aside_intro _ _ tt (wakelock (f (st w))) (known_sensors (f (st w)))
    (waker (f (st w))) []); [done| |done].
  rewrite app_nil_r. f_equal. unfold beside, with_waker, with_sensors, with_wakelock. cbn.
  rewrite <- E1, <- E2, <- E3, <- E4, <- E5. by destruct (f (st w)).
Qed.

Lemma aside_wake : aside (modify wake_waker_locked).
Proof. apply aside_modify. intros x. unfold wake_waker_locked. by destruct (waker x). Qed.

(** Follow an operation's text to its steps. *)
Ltac solve_aside :=
  repeat match goal with
  | |- aside (_ ≫= _) => apply aside_bind
  | |- aside (mret _) => apply aside_ret
  | |- aside (gets _) => apply aside_gets
  | |- aside (ask _) => apply aside_ask
  | |- aside (emit _) => by apply aside_emit
  | |- aside (modify wake_waker_locked) => apply aside_wake
  | |- aside (modify _) => by apply aside_modify
  | |- aside (match ?x with _ => _ end) => destruct x
  | |- ∀ _, _ => intros ?
  end.

Lemma increment_aside delta : aside (incrementRefCountAndMaybeAcquireWakelock env delta).
Proof. unfold incrementRefCountAndMaybeAcquireWakelock. solve_aside. Qed.

Lemma decrement_aside delta start : aside (decrementRefCountAndMaybeReleaseWakelock delta start).
Proof. unfold decrementRefCountAndMaybeReleaseWakelock. solve_aside. Qed.

Lemma reset_aside : aside (resetSharedWakelock env).
Proof.
  unfold resetSharedWakelock. apply aside_bind; [solve_aside|intros l].
  apply aside_bind; [apply decrement_aside|solve_aside].
Qed.

Lemma count_aside events n :
  (n ≤ length events)%nat → aside (countNumWakeupEvents events n).
Proof.
  revert n. induction events as [|e events IH]; intros [|n] Hn; cbn in *; try lia;
    [apply aside_ret..|].
  do 2 (apply aside_bind; [solve_aside|intros ?]).
  apply aside_bind; [apply IH; lia|solve_aside].
Qed.

(** ** The invariant of the queue *)

(** Where the writer is, as far as the queue tells: what it handles is the front, and it does
    not sleep while anything is there. *)
Definition at_front (pc : writer_pc) (q : list (list Event * Z)) : Prop :=
  match pc with
  | Writing _ k | WriteFailed _ k | Written k => ∃ events n q',
      q = (events, n) :: q' ∧ k = Nat.min (length events) (getQuantumCount env)
  | WriterChecked | WriterWaiting => q = []
  | WriterIdle | WriterExited => True
  end.

Record queue_inv (x : Queues) : Prop := {
  inv_size : mSizePendingWriteEventsQueue (pending x) = Z.of_nat (length (pending_events x));
  inv_bound : mSizePendingWriteEventsQueue (pending x) ≤ kMaxSizePendingWriteEventsQueue;
  inv_nonempty : Forall (λ p, p.1 ≠ []) (mPendingWriteEventsQueue (pending x));
  inv_front : at_front (writer x) (mPendingWriteEventsQueue (pending x))
}.

(** What every step does but [Initialize]: it finishes, keeps the invariant, and the stream
    of handed over and waiting events only grows, by [part]. *)
Definition steps (m : M world_t unit) (w : world_t) (part : list Event) : Prop :=
  ∃ w', m w = (Done (), w') ∧ queue_inv (st w') ∧ stream w' = stream w ++ part.

Lemma aside_steps m w : aside m → queue_inv (st w) → steps m w [].
Proof.
  intros Hm [Hs Hb Hn Hf]. destruct (Hm w) as ([] & l & s & pc & t & E & Ht).
  eexists. split; [exact E|]. split; [by split|].
  unfold stream. cbn. by rewrite handled_app, Ht, !app_nil_r.
Qed.

(** A step that continues an aside one. *)
Lemma aside_then {A} (m : M world_t A) (k : A → M world_t unit) w part :
  aside m → queue_inv (st w) →
  (∀ a w1, queue_inv (st w1) → writer (st w1) = writer (st w) →
     mPendingWriteEventsQueue (pending (st w1)) = mPendingWriteEventsQueue (pending (st w)) →
     stream w1 = stream w → steps (k a) w1 part) →
  steps (m ≫= k) w part.
Proof.
  intros Hm [Hs Hb Hn Hf] Hk. destruct (Hm w) as (a & l & s & pc & t & E & Ht).
  set (w1 := World (beside l s pc (st w)) (tr w ++ t)) in E.
  assert (stream w1 = stream w) as Hst
    by (unfold stream; cbn; by rewrite handled_app, Ht, app_nil_r).
  destruct (Hk a w1) as (w' & E' & ? & Hw'); [by split|done..|].
  exists w'. erewrite bind_done by exact E. by rewrite Hw', Hst.
Qed.

Lemma steps_gets {A} (f : Queues → A) (k : A → M world_t unit) w part :
  steps (k (f (st w))) w part → steps (gets f ≫= k) w part.
Proof. done. Qed.

(** A change of what the queue does not depend on. *)
Lemma modify_steps f w :
  queue_inv (st w) → pending (f (st w)) = pending (st w) →
  in_flight (f (st w)) = in_flight (st w) →
  at_front (writer (f (st w))) (mPendingWriteEventsQueue (pending (st w))) →
  steps (modify f) w [].
Proof.
  intros [Hs Hb Hn _] Hp Hi Hf. eexists. split; [done|]. cbn.
  split; [split; unfold pending_events in *; by rewrite ?Hp|].
  unfold stream, waiting, pending_events. cbn. by rewrite Hi, Hp, app_nil_r.
Qed.

Lemma waker_steps w : queue_inv (st w) → steps (handleWakelocks env) w [].
Proof.
  intros HI. apply steps_gets. cbn [id].
  destruct (waker (st w)); [destruct (mThreadsRun (st w))| | | |].
  - case_decide; [|by apply aside_steps; [solve_aside|]].
    apply aside_then; [unfold sharedWakelockDidTimeout; solve_aside|done|].
    intros [timeLeft|] w1 HI1 Hw Hq Hst; [|by apply aside_steps; [apply reset_aside|]].
    apply modify_steps; [done..|]. exact (inv_front _ HI1).
  - apply aside_then; [apply reset_aside|done|]. intros _ w1 HI1 _ _ _.
    apply modify_steps; [done..|]. exact (inv_front _ HI1).
  - by apply aside_steps; [solve_aside|].
  - by apply aside_steps; [solve_aside|].
  - apply aside_then; [solve_aside|done|]. intros o w1 HI1 _ _ _.
    apply aside_then; [destruct o; [apply decrement_aside|solve_aside]|done|].
    intros _ w2 HI2 _ _ _. apply modify_steps; [done..|]. exact (inv_front _ HI2).
  - by apply aside_steps; [solve_aside|].
Qed.

(** ** Posting *)

(** With a null pointer it may stop. *)
Definition stops {A} (m : M world_t A) (w : world_t) : Prop :=
  ready (st w) = false ∧ ∃ w', m w = (Fault NullDeref, w').

Lemma write_now_spec events w :
  stops (write_now env events) w ∨
  ∃ k t, write_now env events w = (Done k, World (st w) (tr w ++ t)) ∧
         (k ≤ length events)%nat ∧ handled t = take k events.
Proof.
  destruct w as [x t]. unfold stops, ready, write_now. run.
  destruct (mEventQueue x); [|left; split; [done|by eexists]]. cbn [andb]. run.
  set (k := Nat.min _ _).
  case_decide; [|right; by exists O, []; rewrite app_nil_r; split_and!; [|lia|]].
  destruct (write_ok env t) eqn:Hok; run; rewrite ?Hok; run.
  - destruct (mEventQueueFlag x); [right|left; split; [done|by eexists]].
    exists k, [fmq_write (take k events) true; wake_reader]. split_and!; [by cbn; rewrite <- app_assoc|lia|].
    unfold handled. cbn. by rewrite app_nil_r.
  - right. exists O, [fmq_write (take k events) false]. by split_and!; [|lia|].
Qed.

Lemma in_flight_le x : queue_inv x → (in_flight x ≤ length (pending_events x))%nat.
Proof.
  intros [_ _ _ Hf]. unfold in_flight, pending_events. destruct (writer x); try lia;
    destruct Hf as (events & n & q & -> & ->); cbn; rewrite length_app; lia.
Qed.

Lemma in_flight_empty x :
  queue_inv x → mPendingWriteEventsQueue (pending x) = [] → in_flight x = O.
Proof.
  intros [_ _ _ Hf] Hq. unfold in_flight. rewrite Hq in Hf.
  destruct (writer x); try done; by destruct Hf as (? & ? & ? & ? & _).
Qed.

Lemma in_flight_woken x : in_flight (wake_writer_locked x) = in_flight x.
Proof. unfold wake_writer_locked. destruct (writer x) eqn:E; unfold in_flight; cbn; by rewrite ?E. Qed.

Lemma pending_woken x : pending (wake_writer_locked x) = pending x.
Proof. unfold wake_writer_locked. by destruct (writer x). Qed.

Lemma waiting_woken x : waiting (wake_writer_locked x) = waiting x.
Proof. unfold waiting, pending_events. by rewrite in_flight_woken, pending_woken. Qed.

Lemma waiting_push x p extra :
  queue_inv x → mPendingWriteEventsQueue p = mPendingWriteEventsQueue (pending x) ++ [extra] →
  waiting (with_pending p x) = waiting x ++ extra.1.
Proof.
  intros Hle%in_flight_le Hp. unfold waiting, pending_events in *. cbn.
  rewrite Hp, map_app, concat_app. cbn. by rewrite app_nil_r, drop_app_le.
Qed.

(** The events of a post that are handed over or queued: all of them, or those handed over
    at once where the rest would exceed the bound. *)
Definition accepted (x : Queues) (events part : list Event) : Prop :=
  part = events ∨
  part `prefix_of` events ∧ kMaxSizePendingWriteEventsQueue
    < mSizePendingWriteEventsQueue (pending x) + Z.of_nat (length events).

(** The last part of a post, after [k] events were handed over. *)
Lemma enqueue_steps events n k t w :
  queue_inv (st w) → (k ≤ length events)%nat → Z.of_nat (length events) < 2 ^ 63 →
  handled t = take k events →
  k = O ∨ mPendingWriteEventsQueue (pending (st w)) = [] →
  let p := pending (st w) in
  let size := u64 (mSizePendingWriteEventsQueue p + Z.of_nat (length events - k)) in
  ∃ part, accepted (st w) events part ∧ ∃ w',
  (if decide ((k < length events)%nat ∧ size ≤ kMaxSizePendingWriteEventsQueue)
   then modify (with_pending {|
          mPendingWriteEventsQueue := mPendingWriteEventsQueue p ++ [(drop k events, n)];
          mSizePendingWriteEventsQueue := size;
          mMostEventsObservedPendingWriteEventsQueue :=
            Z.max (mMostEventsObservedPendingWriteEventsQueue p) size |});;
        emit notify_writer;;
        modify wake_writer_locked
   else mret ()) (World (st w) (tr w ++ t)) = (Done (), w') ∧
  queue_inv (st w') ∧ stream w' = stream w ++ part.
Proof.
  intros HI Hk Hlen Ht Hor p size. pose proof HI as HI'.
  destruct HI as [Hs Hb Hn Hf]. pose proof pending_bound.
  assert (size = mSizePendingWriteEventsQueue p + Z.of_nat (length events - k)) as Esize.
  { apply wrap_u_id. unfold in_u, p. rewrite Hs in *. pose proof pow_values. lia. }
  assert (k = O ∨ waiting (st w) = []) as Hwait.
  { destruct Hor as [|Hq]; [by left|right]. unfold waiting, pending_events. rewrite Hq.
    by destruct (in_flight _). }
  destruct (decide _) as [[Hlt Hsize]|Hnot].
  - exists events. split; [by left|]. eexists. split; [done|]. cbn. split.
    + split; rewrite ?pending_woken; unfold pending_events; rewrite ?pending_woken;
        cbn; rewrite Esize in *.
      * unfold pending_events. cbn. rewrite map_app, concat_app, length_app. cbn.
        rewrite app_nil_r, length_drop. unfold p. rewrite Hs. unfold pending_events. lia.
      * done.
      * apply Forall_app; split; [done|]. apply Forall_singleton. cbn.
        intros Hd%(f_equal length). rewrite length_drop in Hd. cbn in Hd. lia.
      * unfold wake_writer_locked. cbn. destruct (writer (st w)) eqn:Hpc; cbn; rewrite ?Hpc;
          try done; destruct Hf as (ev & m & q & Hq & ->);
          exists ev, m, (q ++ [(drop k events, n)]); unfold p; by rewrite Hq.
    + unfold stream. cbn. rewrite waiting_woken, (waiting_push _ _ (drop k events, n)) by done.
      rewrite !handled_app, Ht. change (handled [notify_writer]) with (@nil Event).
      rewrite app_nil_r. cbn [fst].
      destruct Hwait as [->| ->]; [by rewrite app_nil_r, app_assoc|].
      by rewrite app_nil_r, <- app_assoc, app_nil_l, take_drop.
  - exists (take k events). split.
    { destruct (decide (k = length events)) as [->|]; [left; by rewrite take_ge|right].
      split; [exists (drop k events); by rewrite take_drop|]. fold p. lia. }
    eexists. split; [done|]. cbn. split; [by split|].
    unfold stream. cbn. rewrite handled_app, Ht.
    destruct Hwait as [->| ->]; [by rewrite !app_nil_r|]. by rewrite !app_nil_r.
Qed.

(** What a post does: it stops at a null pointer, or what it accepts joins the stream. *)
Definition lands (m : M world_t unit) (w : world_t) (events : list Event) : Prop :=
  stops m w ∨ ∃ part, accepted (st w) events part ∧ steps m w part.

(** An aside part and then a post. *)
Lemma aside_post (m : M world_t unit) (k : M world_t unit) w events :
  aside m → queue_inv (st w) →
  (∀ w1, queue_inv (st w1) → lands k w1 events) → lands (m;; k) w events.
Proof.
  intros Hm HI Hk. destruct (Hm w) as ([] & l & s & pc & t & E & Ht).
  set (w1 := World (beside l s pc (st w)) (tr w ++ t)) in E.
  destruct (Hk w1) as [(Hr & w' & E')|(part & Hpart & w' & E' & HI' & Hw')];
    [destruct HI; by split|left|right].
  - split; [done|]. exists w'. by erewrite bind_done by exact E.
  - exists part. split; [done|]. exists w'. erewrite bind_done by exact E.
    split_and!; [done..|]. rewrite Hw'. f_equal. unfold stream. cbn.
    by rewrite handled_app, Ht, app_nil_r.
Qed.

Lemma post_lands events n locked w :
  queue_inv (st w) → Z.of_nat (length events) < 2 ^ 63 →
  lands (postEventsToMessageQueue env events n locked) w events.
Proof.
  intros HI Hlen. unfold postEventsToMessageQueue.
  assert (aside (if locked then
    _ ← incrementRefCountAndMaybeAcquireWakelock env n; mret () else mret ())) as Ha
    by (destruct locked; [apply aside_bind; [apply increment_aside|]|]; solve_aside).
  apply aside_post; [done..|]. intros w1 HI1.
  set (p := pending (st w1)).
  assert (stops (match mPendingWriteEventsQueue p with
                 | [] => write_now env events | _ => mret O end) w1 ∨
    ∃ k t, match mPendingWriteEventsQueue p with
           | [] => write_now env events | _ => mret O end w1
           = (Done k, World (st w1) (tr w1 ++ t)) ∧
      (k ≤ length events)%nat ∧ handled t = take k events ∧
      (k = O ∨ mPendingWriteEventsQueue p = [])) as [(Hr & w' & E)|(k & t & E & Hk & Ht & Hor)].
  { destruct (mPendingWriteEventsQueue p).
    - destruct (write_now_spec events w1) as [?|(k & t & ? & ? & ?)]; [by left|right].
      exists k, t. tauto.
    - right. exists O, []. destruct w1. cbn. rewrite app_nil_r. split_and!; (done || lia || tauto). }
  - left. split; [done|]. exists w'. rewrite bind_gets. fold p. unfold mbind, M_bind in *.
    by rewrite E.
  - destruct (enqueue_steps events n k t w1) as (part & Hacc & w' & Ew & Hw'); [done..|].
    right. exists part. split; [done|]. exists w'. split; [|done].
    rewrite bind_gets. erewrite bind_done by exact E. exact Ew.
Qed.

(** ** The writer *)

Lemma waiting_front x events n q :
  mPendingWriteEventsQueue (pending x) = (events, n) :: q → (in_flight x ≤ length events)%nat →
  waiting x = drop (in_flight x) events ++ concat (map fst q).
Proof. intros Hq Hk. unfold waiting, pending_events. rewrite Hq. cbn. by rewrite drop_app_le. Qed.

Lemma write_steps w nw k events n q :
  queue_inv (st w) → writer (st w) = Writing nw k →
  mPendingWriteEventsQueue (pending (st w)) = (events, n) :: q →
  steps (ok ← ask (writeBlocking_ok env);
         emit (fmq_writeBlocking (take k events) ok);;
         modify (with_writer (if ok : bool then Written k else WriteFailed nw k))) w [].
Proof.
  intros [Hs Hb Hn Hf] Hpc Hq. rewrite Hpc in Hf.
  assert (k = Nat.min (length events) (getQuantumCount env)) as Hk
    by (destruct Hf as (? & ? & ? & Hq' & ?); congruence).
  eexists. split; [by run|]. cbn. split.
  - split; cbn; [done..|]. destruct (writeBlocking_ok _ _); by exists events, n, q.
  - unfold stream. cbn. rewrite app_nil_r, handled_app. unfold handled at 2. cbn.
    rewrite app_nil_r, <- app_assoc. f_equal.
    rewrite (waiting_front (with_writer _ _) events n q) by
      (cbn; done || (unfold in_flight; cbn; destruct (writeBlocking_ok _ _); lia)).
    rewrite (waiting_front (st w) events n q) by (done || (unfold in_flight; rewrite Hpc; lia)).
    unfold in_flight. cbn. rewrite Hpc, drop_0.
    destruct (writeBlocking_ok _ _); by rewrite app_assoc, take_drop.
Qed.

Lemma commit_steps w k events n q :
  queue_inv (st w) → writer (st w) = Written k →
  mPendingWriteEventsQueue (pending (st w)) = (events, n) :: q →
  let p := pending (st w) in
  steps (modify (with_pending {|
           mPendingWriteEventsQueue :=
             if decide (getQuantumCount env < length events)%nat
             then (drop (getQuantumCount env) events, n) :: q else q;
           mSizePendingWriteEventsQueue := u64 (mSizePendingWriteEventsQueue p - Z.of_nat k);
           mMostEventsObservedPendingWriteEventsQueue :=
             mMostEventsObservedPendingWriteEventsQueue p |});;
         modify (with_writer WriterIdle)) w [].
Proof.
  intros [Hs Hb Hn Hf] Hpc Hq p. rewrite Hpc in Hf. pose proof pending_bound.
  assert (k = Nat.min (length events) (getQuantumCount env)) as Hk
    by (destruct Hf as (? & ? & ? & Hq' & ?); congruence).
  set (q' := if decide _ then _ else q).
  assert (concat (map fst q') = drop k events ++ concat (map fst q)) as Hq'.
  { unfold q'. case_decide.
    - cbn. by replace k with (getQuantumCount env) by lia.
    - by rewrite drop_ge by lia. }
  assert (length (pending_events (st w)) = k + length (concat (map fst q')))%nat as Hlen.
  { unfold pending_events. rewrite Hq', Hq. cbn. rewrite !length_app, length_drop. lia. }
  eexists. split; [by run|]. cbn. split.
  - assert (u64 (mSizePendingWriteEventsQueue p - Z.of_nat k)
      = Z.of_nat (length (concat (map fst q')))) as Hsize.
    { unfold p. rewrite wrap_u_id; [lia|]. unfold in_u. pose proof pow_values. lia. }
    split; cbn; rewrite ?Hsize.
    + done.
    + lia.
    + rewrite Hq in Hn. apply Forall_cons in Hn as [_ Hn]. unfold q'. case_decide; [|done].
      apply Forall_cons. split; [|done]. cbn.
      intros Hd%(f_equal length). rewrite length_drop in Hd. cbn in Hd. lia.
    + done.
  - unfold stream. cbn. rewrite app_nil_r. f_equal.
    rewrite (waiting_front (st w) events n q) by (done || (unfold in_flight; rewrite Hpc; lia)).
    unfold in_flight. rewrite Hpc. unfold waiting, in_flight, pending_events. cbn. done.
Qed.

Lemma stop_steps w : queue_inv (st w) → steps (act env Stop) w [].
Proof.
  intros [Hs Hb Hn Hf]. eexists. split; [done|]. unfold stream, wake_writer, wake_waker. cbn.
  rewrite app_nil_r.
  destruct (waker (st w)), (writer (st w)) eqn:Hw; cbn; rewrite ?Hw;
    (split; [split; cbn; by rewrite ?Hw|]); unfold waiting, in_flight, pending_events; cbn;
    by rewrite ?Hw.
Qed.

Lemma writer_steps w : queue_inv (st w) → steps (handlePendingWrites env) w [].
Proof.
  intros HI. pose proof (inv_front _ HI) as Hf. apply steps_gets. cbn [id].
  destruct (writer (st w)) as [| | |nw k|nw k|k|] eqn:Hpc.
  - destruct (mThreadsRun (st w)).
    + destruct (mPendingWriteEventsQueue (pending (st w))) as [|[events n] q] eqn:Hq.
      { apply modify_steps; [done..| |done]. unfold in_flight. by rewrite Hpc. }
      apply modify_steps; [done..| |]; cbn.
      * unfold in_flight. by rewrite Hpc.
      * by exists events, n, q.
    + apply modify_steps; [done..| |done]. unfold in_flight. by rewrite Hpc.
  - apply modify_steps; [done..| |done]. unfold in_flight. by rewrite Hpc.
  - apply aside_steps; [apply aside_ret|done].
  - destruct Hf as (events & n & q & Hq & Hk). rewrite Hq. by eapply write_steps.
  - destruct Hf as (events & n & q & Hq & Hk). rewrite Hq.
    apply aside_then; [|done|].
    + case_decide; [|solve_aside]. case_decide; [|apply decrement_aside].
      apply aside_bind; [apply count_aside; lia|intros; apply decrement_aside].
    + intros _ w1 HI1 Hpc1 Hq1 _. apply modify_steps; [done..| |]; cbn.
      * unfold in_flight. by rewrite Hpc1, Hpc.
      * rewrite Hq1, Hq. by exists events, n, q.
  - destruct Hf as (events & n & q & Hq & Hk). rewrite Hq. by apply commit_steps.
  - apply aside_steps; [apply aside_ret|done].
Qed.

(** ** Runs *)

Definition exec (acts : list action) : M world_t unit := for_each (act env) acts.

Lemma exec_fault a acts w w1 e : act env a w = (Fault e, w1) → exec (a :: acts) w = (Fault e, w1).
Proof. intros E. unfold exec. cbn. unfold mbind, M_bind. by rewrite E. Qed.

Lemma ready_count b events n :
  preserves (of_state (λ x, ready x = b)) (countNumWakeupEvents events n).
Proof.
  revert events. induction n as [|n IH]; intros [|e events]; cbn;
    repeat (prog_step || (apply preserves_modify; by intros)); apply IH.
Qed.

(** A vector has fewer elements than [size_t] has values. *)
Definition sized (a : action) : Prop :=
  match a with Post events _ _ => Z.of_nat (length events) < 2 ^ 63 | _ => True end.

Definition posted (a : action) : list Event :=
  match a with Post events _ _ => events | _ => [] end.

Definition initializes (a : action) : bool :=
  match a with Initialize _ => true | _ => false end.

Definition posts (a : action) : bool := match a with Post _ _ _ => true | _ => false end.

Lemma act_steps a w :
  queue_inv (st w) → sized a → initializes a = false →
  posts a = true ∧ stops (act env a) w ∨
  ∃ part, accepted (st w) (posted a) part ∧ steps (act env a) w part.
Proof.
  intros HI Hsized Ha. destruct a as [events n locked| | | | | |]; [|right..|done].
  { destruct (post_lands events n locked w HI Hsized); [by left|by right]. }
  all: exists []; (split; [by left|]); cbn [act].
  - apply aside_steps; [|done]. apply aside_bind; [apply increment_aside|solve_aside].
  - by apply aside_steps; [apply decrement_aside|].
  - by apply writer_steps.
  - by apply waker_steps.
  - by apply stop_steps.
Qed.

(** The pointers only change with an initialisation. *)
Lemma ready_act b a : initializes a = false →
  preserves (of_state (λ x, ready x = b)) (act env a).
Proof.
  intros Ha. destruct a; try done; cbn [act]; unfold postEventsToMessageQueue, write_now,
    handlePendingWrites, handleWakelocks, resetSharedWakelock, sharedWakelockDidTimeout,
    incrementRefCountAndMaybeAcquireWakelock, decrementRefCountAndMaybeReleaseWakelock;
    repeat (prog_step || apply ready_count || (apply preserves_modify; intros x Hx; revert Hx;
      unfold ready, wake_waker_locked, wake_writer_locked, wake_waker, wake_writer;
      by repeat case_match)).
Qed.

Lemma initialize_inv flag w :
  queue_inv (st w) → ∃ w', act env (Initialize flag) w = (Done (), w') ∧ queue_inv (st w').
Proof.
  intros HI. cbn [act]. rewrite bind_gets. cbn [id]. pose proof pending_bound.
  destruct (writer (st w)); try by exists w. destruct (waker (st w)); try by exists w.
  unfold initialize_queues. destruct (reset_aside w) as ([] & l & s & pc & t & E & _).
  erewrite bind_done by exact E. eexists. split; [by run|]. cbn. split; cbn; (done || lia).
Qed.

Lemma act_inv a w :
  queue_inv (st w) → sized a →
  posts a = true ∧ stops (act env a) w ∨
  ∃ w', act env a w = (Done (), w') ∧ queue_inv (st w').
Proof.
  intros HI Hs. destruct (initializes a) eqn:Ha.
  - destruct a; try done. right. by apply initialize_inv.
  - destruct (act_steps a w) as [?|(_ & _ & w' & ? & ? & _)]; [done..|by left|].
    right. by exists w'.
Qed.

(** Of what was handed over or waits an initialisation keeps the first part. *)
Lemma initialize_stream flag w w' :
  act env (Initialize flag) w = (Done (), w') → stream w' `prefix_of` stream w.
Proof.
  cbn [act]. rewrite bind_gets. cbn [id].
  destruct (writer (st w)); try by intros [= <-]. destruct (waker (st w)); try by intros [= <-].
  unfold initialize_queues. destruct (reset_aside w) as ([] & l & s & pc & t & E & Ht).
  rewrite (bind_done _ _ _ _ _ E). intros [= <-]. unfold stream, waiting. cbn.
  rewrite handled_app, Ht, !app_nil_r. by eexists.
Qed.

(** Whatever the action: what is left of the stream, then a part of what was posted. *)
Lemma act_stream a w w' :
  queue_inv (st w) → sized a → act env a w = (Done (), w') →
  ∃ l part, stream w' = l ++ part ∧ l `prefix_of` stream w ∧ part `prefix_of` posted a.
Proof.
  intros HI Hs E. destruct (initializes a) eqn:Ha.
  - destruct a; try done. exists (stream w'), []. rewrite app_nil_r. split; [done|].
    split; [by eapply initialize_stream|apply prefix_nil].
  - destruct (act_steps a w HI Hs Ha) as [[_ (_ & w1 & E1)]|(part & Hacc & w1 & E1 & _ & Hst)];
      rewrite E in E1; [done|].
    injection E1 as <-. exists (stream w), part. split; [done|].
    split; [done|]. by destruct Hacc as [->|[]].
Qed.

Lemma exec_cons_done a acts w w1 :
  act env a w = (Done (), w1) → exec (a :: acts) w = exec acts w1.
Proof. intros E. unfold exec. cbn. by rewrite (bind_done _ _ _ _ _ E). Qed.

(** A run returns, or stops at a post. *)
Lemma exec_inv acts w :
  queue_inv (st w) → Forall sized acts → ∃ o w', exec acts w = (o, w') ∧
    faults_unready o (st w') ∧ (o = Done () → queue_inv (st w')).
Proof.
  intros HI Hs. revert w HI. induction Hs as [|a acts Ha Hs IH]; intros w HI.
  { exists (Done ()), w. split; [done|]. split; [by left|done]. }
  destruct (act_inv a w) as [(Hp & Hr & w1 & E)|(w1 & E & HI1)]; [done..| |].
  - exists (Fault NullDeref), w1. split; [by apply exec_fault|]. split; [right|done].
    split; [done|]. pose proof (ready_act false a ltac:(by destruct a) w Hr) as Hr1.
    by rewrite E in Hr1.
  - rewrite (exec_cons_done _ _ _ _ E). by apply IH.
Qed.

Lemma exec_stream acts w :
  queue_inv (st w) → Forall sized acts → Forall (λ a, initializes a = false) acts →
  ready (st w) = false ∧ (∃ w', exec acts w = (Fault NullDeref, w') ∧ ready (st w') = false) ∨
  ∃ w' parts, exec acts w = (Done (), w') ∧
    Forall2 (λ part events, part `prefix_of` events) parts (map posted acts) ∧
    stream w' = stream w ++ concat parts.
Proof.
  intros HI Hs Hn. revert w HI. induction Hs as [|a acts Ha Hs IH]; intros w HI.
  { right. exists w, []. cbn. by rewrite app_nil_r. }
  apply Forall_cons in Hn as [Hna Hn]. pose proof (ready_act (ready (st w)) a Hna w eq_refl) as Hr.
  unfold of_state in Hr.
  destruct (act_steps a w) as [(_ & Hr0 & w1 & E)|(part & Hacc & w1 & E & HI1 & Hst)];
    [done..| |]; rewrite E in Hr; cbn [snd] in Hr.
  { left. split; [done|]. exists w1. split; [by apply exec_fault|congruence]. }
  rewrite (exec_cons_done _ _ _ _ E).
  destruct (IH Hn w1 HI1) as [(Hr1 & Hf)|(w2 & parts & E2 & Hparts & Hst2)];
    [left; split; [congruence|done]|right]. exists w2, (part :: parts).
  split_and!; [done| |].
  - cbn. constructor; [|done]. by destruct Hacc as [->|[]].
  - rewrite Hst2, Hst. cbn. by rewrite app_assoc.
Qed.

Lemma init_inv run start reset sensors : queue_inv (Queues_init run start reset sensors).
Proof. pose proof pending_bound. split; cbn; (done || lia). Qed.

(** C13: events reach the framework in the order in which they were posted, each at most
    once, and a run only stops at a post without the queue or its flag. In every run from
    the construction on, whatever the threads, the message queue and the sub-HALs do, every
    step returns, or the run ends with the null dereference of a post while the message
    queue, or the flag of the message queue, is missing. Of a part of the run without
    initialisations that returns, what has been handed to the message queue followed by
    what still waits grows exactly by a prefix of each post, in the order of the posts; and
    it does return if the queue and its flag are there at its start. *)
Theorem events_in_order run start reset sensors before after :
  Forall sized (before ++ after) → Forall (λ a, initializes a = false) after →
  ∃ o1 w1, exec before (World (Queues_init run start reset sensors) []) = (o1, w1) ∧
    faults_unready o1 (st w1) ∧
    (o1 = Done () → ∃ o2 w2, exec after w1 = (o2, w2) ∧ faults_unready o2 (st w2) ∧
       (ready (st w1) = true → o2 = Done ()) ∧
       (o2 = Done () → ∃ parts,
          Forall2 (λ part events, part `prefix_of` events) parts (map posted after) ∧
          handled (tr w2) ++ waiting (st w2)
          = handled (tr w1) ++ waiting (st w1) ++ concat parts)).
Proof.
  intros [Hb Ha]%Forall_app Hn.
  destruct (exec_inv before (World (Queues_init run start reset sensors) []))
    as (o1 & w1 & E1 & Ho1 & HI1); [apply init_inv|done|].
  exists o1, w1. split; [done|]. split; [done|]. intros Hd. specialize (HI1 Hd).
  destruct (exec_stream after w1) as [(Hr & w2 & E2 & Hr2)|(w2 & parts & E2 & Hp & Hst)];
    [done..| |].
  - exists (Fault NullDeref), w2. split; [done|]. split; [by right|].
    split; [by rewrite Hr|done].
  - exists (Done ()), w2. split; [done|]. split; [by left|]. split; [done|]. intros _.
    exists parts. split; [done|]. by rewrite app_assoc.
Qed.

(** C31: the count of the pending events is exact and bounded, and a post loses nothing
    while its events fit. In every reachable state [mSizePendingWriteEventsQueue] is the
    number of events in the queue, at most the bound, so that its subtractions never wrap;
    and a post whose events fit within the bound is handed over or queued whole, or stops
    because the queue or its flag is missing. *)
Theorem pending_accounted run start reset sensors acts w :
  Forall sized acts →
  exec acts (World (Queues_init run start reset sensors) []) = (Done (), w) →
  mSizePendingWriteEventsQueue (pending (st w)) = Z.of_nat (length (pending_events (st w))) ∧
  mSizePendingWriteEventsQueue (pending (st w)) ≤ kMaxSizePendingWriteEventsQueue ∧
  ∀ events n locked,
    mSizePendingWriteEventsQueue (pending (st w)) + Z.of_nat (length events)
      ≤ kMaxSizePendingWriteEventsQueue →
    ∃ o w', postEventsToMessageQueue env events n locked w = (o, w') ∧
      (o = Done () ∧
       handled (tr w') ++ waiting (st w') = handled (tr w) ++ waiting (st w) ++ events ∨
       o = Fault NullDeref ∧ ready (st w) = false).
Proof.
  intros Hs E. destruct (exec_inv acts (World (Queues_init run start reset sensors) []))
    as (o & w1 & E1 & _ & HI); [apply init_inv|done|]. rewrite E in E1. injection E1 as <- <-.
  specialize (HI eq_refl). split; [apply HI|]. split; [apply HI|].
  intros events n locked Hfits. pose proof pending_bound. pose proof (inv_size _ HI).
  destruct (post_lands events n locked w) as [(Hr & w' & E')|(part & Hacc & w' & E' & _ & Hst)];
    [done|lia| |].
  - exists (Fault NullDeref), w'. split; [done|by right].
  - exists (Done ()), w'. split; [done|left]. split; [done|].
    destruct Hacc as [->|[_ Hover]]; [|lia]. by rewrite app_assoc.
Qed.

(** ** The writer makes progress *)

(** How many sections of the writer are left at most. *)
Definition remaining (x : Queues) : nat :=
  4 * length (pending_events x) -
  match writer x with Writing _ _ => 1 | WriteFailed _ _ => 2 | Written _ => 3 | _ => 0 end.

Definition draining (x : Queues) : Prop := mThreadsRun x = true ∧ writer x ≠ WriterExited.

Lemma writer_progress w :
  (0 < getQuantumCount env)%nat → queue_inv (st w) → draining (st w) →
  mPendingWriteEventsQueue (pending (st w)) ≠ [] →
  ∃ w', handlePendingWrites env w = (Done (), w') ∧ draining (st w') ∧
        (remaining (st w') < remaining (st w))%nat.
Proof.
  intros Hquantum [Hs Hb Hn Hf] [Hrun Hpc] Hne. unfold handlePendingWrites, remaining, draining.
  rewrite bind_gets. cbn [id].
  destruct (mPendingWriteEventsQueue (pending (st w))) as [|[events n] q] eqn:Hq; [done|].
  apply Forall_cons in Hn as [Hev _]. cbn in Hev.
  assert (0 < length events)%nat as Hev' by (destruct events; cbn; lia || done).
  assert (length events ≤ length (pending_events (st w)))%nat as Hle
    by (unfold pending_events; rewrite Hq; cbn; rewrite length_app; lia).
  destruct (writer (st w)) as [| | |nw k|nw k|k|] eqn:Hw; [|done|done| | | |done].
  - rewrite Hrun. eexists. split; [done|]. cbn. split; [done|]. unfold pending_events in *. cbn. lia.
  - eexists. split; [by run|]. cbn. unfold pending_events in *. cbn.
    destruct (writeBlocking_ok _ _); (split; [done|lia]).
  - assert (aside (if decide (0 < nw) then
        if decide (getQuantumCount env < length events)%nat then
          n ← countNumWakeupEvents events (getQuantumCount env);
          decrementRefCountAndMaybeReleaseWakelock n (-1)
        else decrementRefCountAndMaybeReleaseWakelock nw (-1)
      else mret ())) as Ha.
    { case_decide; [|solve_aside]. case_decide; [|apply decrement_aside].
      apply aside_bind; [apply count_aside; lia|intros; apply decrement_aside]. }
    destruct (Ha w) as ([] & l & s & pc & t & E & _). erewrite bind_done by exact E.
    eexists. split; [done|]. cbn. unfold pending_events in *. cbn. split; [done|lia].
  - destruct Hf as (events' & n' & q' & [= <- <- <-] & ->).
    eexists. split; [by run|]. cbn. split; [done|]. unfold pending_events in *. cbn.
    rewrite Hq. cbn. rewrite length_app. case_decide; cbn; rewrite ?length_app, ?length_drop; lia.
Qed.

(** With nothing to do it goes to sleep. *)
Lemma writer_idles w :
  draining (st w) → queue_inv (st w) → mPendingWriteEventsQueue (pending (st w)) = [] →
  ∃ w', handlePendingWrites env w = (Done (), w') ∧ draining (st w') ∧
        mPendingWriteEventsQueue (pending (st w')) = [].
Proof.
  intros [Hrun Hpc] HI Hq. unfold handlePendingWrites. rewrite bind_gets. cbn [id].
  pose proof (inv_front _ HI) as Hf. rewrite Hq in Hf |- *. unfold draining.
  destruct (writer (st w)) eqn:Hw; try by destruct Hf as (? & ? & ? & ? & _).
  - rewrite Hrun. by eexists.
  - by eexists.
  - exists w. by rewrite Hw.
  - done.
Qed.

Lemma drain k w :
  (0 < getQuantumCount env)%nat → queue_inv (st w) → draining (st w) →
  (remaining (st w) ≤ k)%nat →
  ∃ w', exec (repeat Writer k) w = (Done (), w') ∧
        mPendingWriteEventsQueue (pending (st w')) = [] ∧ stream w' = stream w.
Proof.
  intros Hquantum HI Hd. revert w HI Hd. induction k as [|k IH]; intros w HI Hd Hk.
  { exists w. split; [done|]. split; [|done].
    destruct (decide (mPendingWriteEventsQueue (pending (st w)) = [])) as [|Hq]; [done|].
    destruct (writer_progress w) as (w1 & _ & _ & Hlt); [done..|lia]. }
  assert (∃ w1, handlePendingWrites env w = (Done (), w1) ∧ draining (st w1) ∧
    (remaining (st w1) ≤ k)%nat) as (w1 & E & Hd1 & Hk1).
  { destruct (decide (mPendingWriteEventsQueue (pending (st w)) = [])) as [Hq|Hq].
    - destruct (writer_idles w) as (w1 & E & Hd1 & Hq1); [done..|]. exists w1.
      split; [done|]. split; [done|]. unfold remaining, pending_events. rewrite Hq1. cbn. lia.
    - destruct (writer_progress w) as (w1 & E & Hd1 & Hlt); [done..|]. exists w1.
      split; [done|]. split; [done|]. lia. }
  destruct (writer_steps w HI) as (w1' & E' & HI1 & Hst).
  rewrite E in E'. injection E' as <-.
  destruct (IH w1) as (w2 & E2 & Hq2 & Hst2); [done..|].
  exists w2. split; [|split; [done|by rewrite Hst2, Hst, app_nil_r]].
  cbn [repeat]. by rewrite (exec_cons_done Writer _ _ _ E).
Qed.

(** C30: the writer empties the queue. From every reachable state in which the threads run,
    left to itself the writer hands over everything that waits, in order, within four
    sections per pending event, whether its writes succeed or fail, if the message queue
    has any room at all. *)
Theorem writer_drains run start reset sensors acts w :
  (0 < getQuantumCount env)%nat → Forall sized acts →
  exec acts (World (Queues_init run start reset sensors) []) = (Done (), w) →
  mThreadsRun (st w) = true → writer (st w) ≠ WriterExited →
  ∃ w', exec (repeat Writer (4 * length (pending_events (st w)))) w = (Done (), w') ∧
        mPendingWriteEventsQueue (pending (st w')) = [] ∧
        handled (tr w') = handled (tr w) ++ waiting (st w).
Proof.
  intros Hquantum Hs E Hrun Hpc.
  destruct (exec_inv acts (World (Queues_init run start reset sensors) []))
    as (o & w1 & E1 & _ & HI); [apply init_inv|done|]. rewrite E in E1. injection E1 as <- <-.
  specialize (HI eq_refl).
  destruct (drain (4 * length (pending_events (st w))) w) as (w' & E' & Hq & Hst);
    [done..|unfold remaining; lia|].
  exists w'. split_and!; [done..|]. fold (stream w). rewrite <- Hst. unfold stream, waiting.
  unfold pending_events. rewrite Hq. cbn. by rewrite drop_nil, app_nil_r.
Qed.
End queue_lemmas.

(** ** A run *)

Definition sample_event (h : Z) : Event := scalar_event h 0 1 0.

(** A message queue of two events that has room for one, with a clock that counts calls. *)
Definition sample_queue (ok : bool) : queue_environment := {|
  getTimeNow t := Z.of_nat (length t);
  availableToWrite _ := 1%nat;
  write_ok _ := true;
  writeBlocking_ok _ := ok;
  readBlocking _ := Some 1;
  getQuantumCount := 2%nat
|}.

Definition sample_after : list action :=
  [Writer; Writer; Post (map sample_event [1; 2; 3; 4]) 0 false; Writer; Post (map sample_event [5]) 0 false;
   Writer; Writer; Writer].

Abbreviation sample_start := (World (Queues_init true 0 0 ∅) []).

Example events_in_order_witness :
  ∃ w1 w2 parts,
    exec (sample_queue true) [Initialize true] sample_start = (Done (), w1) ∧
    exec (sample_queue true) sample_after w1 = (Done (), w2) ∧
    Forall2 (λ part events, part `prefix_of` events) parts
      [[]; []; map sample_event [1; 2; 3; 4]; []; map sample_event [5]; []; []; []] ∧
    handled (tr w2) ++ waiting (st w2) = handled (tr w1) ++ waiting (st w1) ++ concat parts ∧
    handled (tr w2) = map sample_event [1; 2; 3].
Proof.
  destruct (events_in_order (C := aosp_sensors) (sample_queue true) true 0 0 ∅
    [Initialize true] sample_after) as (o1 & w1 & E1 & _ & H1).
  - by repeat constructor.
  - by repeat constructor.
  - pose proof E1 as F1. vm_compute in E1. injection E1 as <- <-.
    destruct (H1 eq_refl) as (o2 & w2 & E2 & _ & _ & H2). pose proof E2 as F2.
    vm_compute in E2. injection E2 as <- <-. destruct (H2 eq_refl) as (parts & Hp & Hs).
    eexists _, _, parts. split; [exact F1|]. split; [exact F2|]. split; [exact Hp|].
    split; [exact Hs|reflexivity].
Defined.

(** A post while the flag of the message queue is missing, because it could not be made, and
    one before the first initialisation. *)
Example post_without_flag_faults :
  (exec (sample_queue true) [Initialize false; Post [sample_event 1] 0 false] sample_start).1
  = Fault NullDeref ∧
  (exec (sample_queue true) [Post [sample_event 1] 0 false] sample_start).1 = Fault NullDeref.
Proof. split; reflexivity. Qed.

Example pending_accounted_witness :
  ∃ w, exec (sample_queue true) (Initialize true :: sample_after) sample_start = (Done (), w) ∧
    mSizePendingWriteEventsQueue (pending (st w)) = 2 ∧
    length (pending_events (st w)) = 2%nat.
Proof.
  destruct (exec (sample_queue true) (Initialize true :: sample_after) sample_start)
    as [o w] eqn:E.
  assert (o = Done () ∧ length (pending_events (st w)) = 2%nat) as [-> Hl]
    by (vm_compute in E; by injection E as <- <-).
  destruct (pending_accounted (C := aosp_sensors) (sample_queue true) true 0 0 ∅
    (Initialize true :: sample_after) w) as (Hsize & _); [by repeat constructor|done|].
  exists w. rewrite Hl in Hsize. by split_and!.
Defined.

Example writer_drains_witness :
  ∃ w w', exec (sample_queue false) (Initialize true :: sample_after) sample_start = (Done (), w) ∧
    exec (sample_queue false) (repeat Writer 8) w = (Done (), w') ∧
    mPendingWriteEventsQueue (pending (st w')) = [] ∧
    handled (tr w') = map sample_event [1; 2; 3; 4; 5].
Proof.
  destruct (exec (sample_queue false) (Initialize true :: sample_after) sample_start)
    as [o w] eqn:E.
  assert (o = Done ()) as -> by (vm_compute in E; by injection E as <- _).
  assert (length (pending_events (st w)) = 2%nat ∧ mThreadsRun (st w) = true ∧
    writer (st w) ≠ WriterExited ∧
    handled (tr w) ++ waiting (st w) = map sample_event [1; 2; 3; 4; 5]) as (Hl & Hr & Hw & Hh)
    by (vm_compute in E; injection E as <-; vm_compute; split_and!; done).
  destruct (writer_drains (C := aosp_sensors) (sample_queue false) true 0 0 ∅
    (Initialize true :: sample_after) w) as (w' & E' & Hq & Hs);
    [cbn; lia|by repeat constructor|done..|].
  exists w, w'. rewrite Hl in E'. split_and!; [done..|congruence].
Defined.
