(* ===== verification/Wakelock.v ===== *)
(** * The shared wakelock

    What [sensors/HalProxy.cpp] promises with the reference count of [EventQueue.v]: when
    the kernel's wakelock is held, and when it is not given back. *)

From S2P Require Import Prelude Words Handles SensorTypes HalProxy EventQueue.

(** Whether the kernel's wakelock is held after the calls in [t]. *)
Definition held (t : list queue_call) : bool :=
  foldl (λ h c, match c with acquire_wake_lock => true | release_wake_lock => false | _ => h end)
    false t.

Arguments held : simpl never.

Lemma held_app t1 t2 : Forall (λ c, c ≠ acquire_wake_lock ∧ c ≠ release_wake_lock) t2 →
  held (t1 ++ t2) = held t1.
Proof.
  intros Ht. unfold held. rewrite foldl_app.
  match goal with |- foldl _ ?h t2 = _ => generalize h end.
  induction Ht as [|c t [Hc1 Hc2] Ht IH]; intros h; cbn; [done|].
  destruct c; by (rewrite IH || done).
Qed.

Lemma held_acquire t : held (t ++ [acquire_wake_lock]) = true.
Proof. unfold held. by rewrite foldl_app. Qed.

Lemma held_release t : held (t ++ [release_wake_lock]) = false.
Proof. unfold held. by rewrite foldl_app. Qed.

Section wakelock.
Context `{C : SensorsConstants} {laws : SensorsLaws C} (env : queue_environment).
Context (read_nonneg : ∀ t n, readBlocking env t = Some n → 0 ≤ n).

Abbreviation world_t := (world Queues queue_call).
Abbreviation ref w := (mWakelockRefCount (wakelock (st w))).

(** Waking a thread leaves the wakelock and [mThreadsRun] as they are. *)
Definition same_lock (f : Queues → Queues) : Prop := ∀ x,
  wakelock (f x) = wakelock x ∧ mThreadsRun (f x) = mThreadsRun x.

Lemma woken_lock : same_lock wake_writer ∧ same_lock wake_waker ∧
  same_lock wake_writer_locked ∧ same_lock wake_waker_locked.
Proof.
  unfold same_lock, wake_writer, wake_waker, wake_writer_locked, wake_waker_locked.
  split_and!; intros x; by destruct (writer x), (waker x).
Qed.

(** ** Held exactly while counted *)

(** The kernel's wakelock is held exactly while the count, at most [B], is positive. *)
Definition counted (B : Z) (w : world_t) : Prop :=
  held (tr w) = bool_decide (0 < ref w) ∧ 0 ≤ ref w ≤ B ∧ B < 2 ^ 64.

Lemma counted_emit B c :
  c ≠ acquire_wake_lock → c ≠ release_wake_lock → preserves (counted B) (emit c).
Proof. intros ?? w (H & ?). split; [|done]. cbn. by rewrite held_app by by apply Forall_singleton. Qed.

Lemma counted_modify B f :
  (∀ x, mWakelockRefCount (wakelock (f x)) = mWakelockRefCount (wakelock x)) →
  preserves (counted B) (modify f).
Proof. intros Hf w Hw. unfold counted. cbn. by rewrite Hf. Qed.

Lemma counted_same B f : same_lock f → preserves (counted B) (modify f).
Proof. intros Hf. apply counted_modify. intros x. by destruct (Hf x) as [-> _]. Qed.

Lemma counted_decrement B delta start :
  0 ≤ delta → preserves (counted B) (decrementRefCountAndMaybeReleaseWakelock delta start).
Proof.
  intros Hd w Hw. unfold decrementRefCountAndMaybeReleaseWakelock. run.
  destruct (mThreadsRun (st w)); [|done]. cbn.
  generalize (if decide (start = -1) then mWakelockTimeoutResetTime (wakelock (st w)) else start).
  intros ts. destruct (decide (_ ∨ _)) as [|Hz]; [done|]. cbn.
  destruct Hw as (Hh & Hr & HB). assert (ref w ≠ 0) as Hr0 by tauto. clear Hz.
  rewrite wrap_u_id by (unfold in_u; lia). destruct (decide _) as [Hn|Hn]; unfold counted; cbn.
  - rewrite held_release, bool_decide_eq_false_2 by lia. split; [done|lia].
  - rewrite Hh. split; [|lia]. apply bool_decide_ext. lia.
Qed.

Lemma counted_reset B : preserves (counted B) (resetSharedWakelock env).
Proof.
  intros w Hw. unfold resetSharedWakelock. rewrite bind_gets.
  apply (preserves_bind (counted B)); [|intros _|done].
  - apply counted_decrement. apply Hw.
  - apply preserves_bind; [apply preserves_ask|intros now]. by apply counted_modify.
Qed.

Lemma counted_increment B delta w :
  0 < delta → B + delta < 2 ^ 64 → counted B w →
  counted (B + delta) (incrementRefCountAndMaybeAcquireWakelock env delta w).2.
Proof.
  intros Hd HB (Hh & Hr & _). unfold incrementRefCountAndMaybeAcquireWakelock. run.
  destruct (mThreadsRun (st w)); [|split; [done|cbn; lia]]. cbn.
  assert (u64 (ref w + delta) = ref w + delta) as Hu by (apply wrap_u_id; unfold in_u; lia).
  destruct (decide (ref w = 0)) as [Hz|Hz]; unfold counted; cbn; rewrite Hu; (split; [|lia]).
  - rewrite held_app, held_acquire by by apply Forall_singleton.
    by rewrite bool_decide_eq_true_2 by lia.
  - rewrite Hh. apply bool_decide_ext. lia.
Qed.

Lemma counted_count B events n : preserves (counted B) (countNumWakeupEvents events n).
Proof.
  revert n. induction events as [|e events IH]; intros [|n]; cbn;
    [apply preserves_ret|apply preserves_faults|apply preserves_ret|].
  apply preserves_bind; [apply preserves_gets|intros m].
  apply preserves_bind; [by apply counted_modify|intros _].
  apply preserves_bind; [apply IH|intros c]. apply preserves_ret.
Qed.

Lemma count_nonneg events n w a w' :
  countNumWakeupEvents events n w = (Done a, w') → 0 ≤ a.
Proof.
  revert n w a w'. induction events as [|e events IH]; intros [|n] w a w'; cbn;
    [by intros [= <- _]|done|by intros [= <- _]|].
  rewrite bind_gets. intros ([] & w1 & _ & (c & w2 & Hc & Ha)%bind_inv)%bind_inv.
  injection Ha as <- _. case_decide; [|by eapply IH]. apply wrap_u_range. lia.
Qed.

(** Follow an operation that does not add references down to its steps. *)
Ltac solve_counted :=
  repeat (prog_step || match goal with
    | |- preserves (counted _) (emit _) => by apply counted_emit
    | |- preserves (counted _) (modify _) =>
        (by apply counted_modify) || (apply counted_same; by apply woken_lock)
    | |- preserves (counted _) (decrementRefCountAndMaybeReleaseWakelock _ _) =>
        apply counted_decrement; lia
    | |- preserves (counted _) (resetSharedWakelock _) => apply counted_reset
    | |- preserves (counted _) (write_now _ _) => unfold write_now
    end).

Lemma counted_count_decrement B events n (k : M world_t unit) :
  preserves (counted B) k →
  preserves (counted B) ((n ← countNumWakeupEvents events n;
                          decrementRefCountAndMaybeReleaseWakelock n (-1));; k).
Proof.
  intros Hk. apply preserves_bind; [|done]. intros w Hw. unfold mbind, M_bind.
  pose proof (counted_count B events n w Hw) as Hw1.
  destruct (countNumWakeupEvents events n w) as [[a|e] w1] eqn:E; [|done].
  apply counted_decrement; [|done]. by eapply count_nonneg.
Qed.

Lemma counted_writer B : preserves (counted B) (handlePendingWrites env).
Proof.
  unfold handlePendingWrites. apply preserves_bind; [apply preserves_gets|intros x].
  destruct (writer x) as [| | |nw k|nw k|k|], (mPendingWriteEventsQueue (pending x)) as [|[events n] q];
    try solve [solve_counted].
  destruct (decide (0 < nw)); [|solve_counted].
  destruct (decide _); [|solve_counted]. apply counted_count_decrement. solve_counted.
Qed.

(** A program that goes on with an answer of the environment. *)
Lemma preserves_ask_then {R A} (I : world_t → Prop) (f : list queue_call → R)
    (k : R → M world_t A) :
  (∀ t, preserves I (k (f t))) → preserves I (ask f ≫= k).
Proof. intros Hk w Hw. by apply (Hk (tr w)). Qed.

Lemma counted_waker B : preserves (counted B) (handleWakelocks env).
Proof.
  unfold handleWakelocks. apply preserves_bind; [apply preserves_gets|intros x].
  destruct (waker x); [unfold sharedWakelockDidTimeout; solve_counted|solve_counted..| |solve_counted].
  apply preserves_ask_then. intros t. pose proof (read_nonneg t).
  destruct (readBlocking env t) as [n|]; [|solve_counted].
  assert (0 ≤ n) by auto. solve_counted.
Qed.

(** The references an action adds, and what the code relies on: a wakelock is taken for a
    positive number of events. *)
Definition added_references (a : action) : Z :=
  match a with Post _ n true | Increment n => n | _ => 0 end.

Definition well_counted (a : action) : Prop :=
  match a with
  | Post _ n true | Increment n => 0 < n
  | Decrement n _ => 0 ≤ n
  | _ => True
  end.

Lemma counted_post_rest B events n :
  preserves (counted B) (postEventsToMessageQueue env events n false).
Proof. unfold postEventsToMessageQueue. solve_counted. Qed.

Lemma post_locked events n w :
  postEventsToMessageQueue env events n true w
  = postEventsToMessageQueue env events n false
      (incrementRefCountAndMaybeAcquireWakelock env n w).2.
Proof.
  unfold postEventsToMessageQueue, incrementRefCountAndMaybeAcquireWakelock. run.
  destruct (mThreadsRun (st w)); [|done]. by destruct (decide (ref w = 0)).
Qed.

Lemma counted_initialize flag B : preserves (counted B) (act env (Initialize flag)).
Proof. cbn [act]. unfold initialize_queues. solve_counted. Qed.

Lemma counted_act B a w :
  well_counted a → B + added_references a < 2 ^ 64 → counted B w →
  counted (B + added_references a) (act env a w).2.
Proof.
  intros Ha HB Hw. destruct a as [events n [|]|n|n start| | | |]; cbn [act added_references] in *;
    rewrite ?Z.add_0_r.
  - rewrite post_locked. apply counted_post_rest. by apply counted_increment.
  - by apply counted_post_rest.
  - rewrite bind_ret_state. by apply counted_increment.
  - by apply counted_decrement.
  - by apply counted_writer.
  - by apply counted_waker.
  - revert w Hw. change (preserves (counted B) (act env Stop)). cbn [act]. solve_counted.
  - by apply counted_initialize.
Qed.

Lemma counted_exec acts B w :
  Forall well_counted acts → B + foldr Z.add 0 (map added_references acts) < 2 ^ 64 →
  counted B w → ∃ B', counted B' (exec env acts w).2.
Proof.
  intros Ha. revert B w. induction Ha as [|a acts Ha Hacts IH]; intros B w HB Hw; [by exists B|].
  cbn in HB.
  assert (0 ≤ foldr Z.add 0 (map added_references acts)) as Hpos.
  { clear -Hacts. induction Hacts as [|[? ? []| | | | | |] acts Ha Hacts IH]; cbn in *; lia. }
  apply (counted_act B a) in Hw; [|done|lia].
  unfold exec. cbn. unfold mbind, M_bind.
  destruct (act env a w) as [[[]|e] w1]; [|by eexists].
  apply (IH (B + added_references a)); [lia|done].
Qed.

(** the kernel's wakelock is held exactly while references are counted. In every run in
    which each locked post and each scoped wakelock counts at least one reference, and
    fewer than 2^64 in all, at every moment the wakelock is held if the count is positive
    and not held if it is zero, and the count never wraps. *)
Theorem wakelock_held_iff_counted run start reset sensors acts :
  Forall well_counted acts → foldr Z.add 0 (map added_references acts) < 2 ^ 64 →
  let w := (exec env acts (World (Queues_init run start reset sensors) [])).2 in
  (held (tr w) = true ↔ 0 < ref w) ∧ 0 ≤ ref w < 2 ^ 64.
Proof.
  intros Ha HB w.
  destruct (counted_exec acts 0 (World (Queues_init run start reset sensors) []))
    as (B & Hh & Hr & HB'); [done..|by split_and!|].
  fold w in Hh, Hr. rewrite Hh, bool_decide_eq_true. split; [done|lia].
Qed.

(** ** Watching over the wakelock *)

Lemma decrement_ignored delta start w :
  start ≠ -1 → start < mWakelockTimeoutResetTime (wakelock (st w)) →
  decrementRefCountAndMaybeReleaseWakelock delta start w = (Done (), w).
Proof.
  intros Hs Hlt. unfold decrementRefCountAndMaybeReleaseWakelock. rewrite bind_gets.
  destruct (mThreadsRun (st w)); [|done]. rewrite bind_gets.
  rewrite (decide_False (P := start = -1)), decide_True by (done || by right). done.
Qed.

Lemma reset_releases w :
  mThreadsRun (st w) = true → 0 < ref w →
  resetSharedWakelock env w = (Done (), World
    (with_wakelock {| mWakelockRefCount := 0;
       mWakelockTimeoutStartTime := mWakelockTimeoutStartTime (wakelock (st w));
       mWakelockTimeoutResetTime := getTimeNow env (tr w ++ [release_wake_lock]) |} (st w))
    (tr w ++ [release_wake_lock])).
Proof.
  intros Hrun Href. unfold resetSharedWakelock, decrementRefCountAndMaybeReleaseWakelock. run.
  rewrite Hrun. rewrite (decide_True (P := -1 = -1)) by done.
  rewrite decide_False by lia. rewrite Z.min_id, Z.sub_diag. by run.
Qed.

(** a wakelock the framework does not confirm is given back. When the wakelock thread
    finds references and the last one is older than the timeout, it drops them all, releases
    the kernel's wakelock and remembers the time, so that a scoped wakelock from before
    that time no longer counts anything down; otherwise it changes nothing and waits for a
    confirmation for exactly the rest of the timeout. *)
Theorem unconfirmed_wakelock_released w :
  mThreadsRun (st w) = true → waker (st w) = WakerIdle → 0 < ref w →
  let l := wakelock (st w) in
  let duration := getTimeNow env (tr w) - mWakelockTimeoutStartTime l in
  (kWakelockTimeoutNs < duration →
   let now := getTimeNow env (tr w ++ [release_wake_lock]) in
   let w' := World (with_wakelock {| mWakelockRefCount := 0;
       mWakelockTimeoutStartTime := mWakelockTimeoutStartTime l;
       mWakelockTimeoutResetTime := now |} (st w)) (tr w ++ [release_wake_lock]) in
   handleWakelocks env w = (Done (), w') ∧
   ∀ delta start w2, start ≠ -1 → start < mWakelockTimeoutResetTime (wakelock (st w2)) →
     decrementRefCountAndMaybeReleaseWakelock delta start w2 = (Done (), w2)) ∧
  (duration ≤ kWakelockTimeoutNs →
   handleWakelocks env w
   = (Done (), World (with_waker (Reading (kWakelockTimeoutNs - duration)) (st w)) (tr w))).
Proof.
  intros Hrun Hidle Href l duration. unfold handleWakelocks, sharedWakelockDidTimeout.
  rewrite !bind_gets. cbn [id]. rewrite Hidle, Hrun. decides. run. fold l duration.
  split; intros Hd; decides; cbn beta iota.
  - split; [by apply reset_releases|]. intros. by apply decrement_ignored.
  - done.
Qed.

(** ** What is not given back *)

Definition frozen (r : Z) (h : bool) (w : world_t) : Prop :=
  mThreadsRun (st w) = false ∧ ref w = r ∧ held (tr w) = h.

Lemma frozen_emit r h c :
  c ≠ acquire_wake_lock → c ≠ release_wake_lock → preserves (frozen r h) (emit c).
Proof.
  intros ?? w (? & ? & ?). split_and!; [done..|]. cbn. by rewrite held_app by by apply Forall_singleton.
Qed.

Lemma frozen_modify r h f :
  (∀ x, mWakelockRefCount (wakelock (f x)) = mWakelockRefCount (wakelock x) ∧
        (mThreadsRun x = false → mThreadsRun (f x) = false)) →
  preserves (frozen r h) (modify f).
Proof. intros Hf w (Hrun & <- & Hh). destruct (Hf (st w)) as [Hr Ht]. split_and!; cbn; auto. Qed.

Lemma frozen_same r h f : same_lock f → preserves (frozen r h) (modify f).
Proof. intros Hf. apply frozen_modify. intros x. by destruct (Hf x) as [-> ->]. Qed.

Lemma frozen_decrement r h delta start :
  preserves (frozen r h) (decrementRefCountAndMaybeReleaseWakelock delta start).
Proof.
  intros w Hw. unfold decrementRefCountAndMaybeReleaseWakelock. run. by rewrite (proj1 Hw).
Qed.

Lemma frozen_increment r h delta :
  preserves (frozen r h) (incrementRefCountAndMaybeAcquireWakelock env delta).
Proof.
  intros w Hw. unfold incrementRefCountAndMaybeAcquireWakelock. run. by rewrite (proj1 Hw).
Qed.

Lemma frozen_reset r h : preserves (frozen r h) (resetSharedWakelock env).
Proof.
  unfold resetSharedWakelock. apply preserves_bind; [apply preserves_gets|intros l].
  apply preserves_bind; [apply frozen_decrement|intros _].
  apply preserves_bind; [apply preserves_ask|intros now]. by apply frozen_modify.
Qed.

Lemma frozen_count r h events n : preserves (frozen r h) (countNumWakeupEvents events n).
Proof.
  revert n. induction events as [|e events IH]; intros [|n]; cbn;
    [apply preserves_ret|apply preserves_faults|apply preserves_ret|].
  apply preserves_bind; [apply preserves_gets|intros m].
  apply preserves_bind; [by apply frozen_modify|intros _].
  apply preserves_bind; [apply IH|intros c]. apply preserves_ret.
Qed.

Ltac solve_frozen :=
  repeat (prog_step || match goal with
    | |- preserves (frozen _ _) (emit _) => by apply frozen_emit
    | |- preserves (frozen _ _) (modify _) =>
        (by apply frozen_modify) || (apply frozen_same; by apply woken_lock)
    | |- preserves (frozen _ _) (countNumWakeupEvents _ _) => apply frozen_count
    | |- preserves (frozen _ _) (decrementRefCountAndMaybeReleaseWakelock _ _) =>
        apply frozen_decrement
    | |- preserves (frozen _ _) (incrementRefCountAndMaybeAcquireWakelock _ _) =>
        apply frozen_increment
    | |- preserves (frozen _ _) (resetSharedWakelock _) => apply frozen_reset
    | |- preserves (frozen _ _) ?m => let f := program_head m in unfold f
    end).

Lemma frozen_act r h a : initializes a = false → preserves (frozen r h) (act env a).
Proof. intros Ha. destruct a as [events n []| | | | | |]; try done; cbn [act]; by solve_frozen. Qed.

(** stopping the threads keeps the wakelock. Once [mThreadsRun] is cleared, neither the
    end of the wakelock thread, which resets the wakelock, nor anything else changes the
    count or releases the kernel's wakelock; nor does the reset [initializeCommon] makes
    after the threads have stopped. *)
Theorem stopped_wakelock_stays acts w flag :
  mThreadsRun (st w) = false → Forall (λ a, initializes a = false) acts →
  let w1 := (exec env acts w).2 in
  (ref w1 = ref w ∧ held (tr w1) = held (tr w)) ∧
  let w2 := (initialize_queues env flag w1).2 in
  ref w2 = ref w ∧ held (tr w2) = held (tr w).
Proof.
  intros Hrun Hacts w1. assert (frozen (ref w) (held (tr w)) w1) as Hw1.
  { unfold w1. assert (frozen (ref w) (held (tr w)) w) as Hw by done. revert Hw.
    generalize (ref w) (held (tr w)). intros r h. clear w1 Hrun. revert w.
    induction Hacts as [|a acts Ha Hacts IH]; intros w Hw; [done|].
    apply (preserves_bind (frozen r h)); [by apply frozen_act|by intros _|done]. }
  split; [by destruct Hw1 as (_ & ? & ?)|].
  assert (frozen (ref w) (held (tr w)) (resetSharedWakelock env w1).2) as Hw2
    by by apply frozen_reset. unfold initialize_queues. revert Hw2. unfold mbind, M_bind.
  destruct (resetSharedWakelock env w1) as [[] w2]; intros (_ & ? & ?); by run.
Qed.

Lemma count_keeps events n w h s :
  (n ≤ length events)%nat → known_sensors (st w) !! h = Some s →
  ∃ count w', countNumWakeupEvents events n w = (Done count, w') ∧
    known_sensors (st w') !! h = Some s.
Proof.
  revert n w. induction events as [|e events IH]; intros [|n] w Hn Hs; cbn in *; try lia;
    [by eexists _, _..|].
  rewrite bind_gets. erewrite bind_done by reflexivity.
  destruct (IH n (World (with_sensors (<[ev_handle e :=
    default no_sensor (known_sensors (st w) !! ev_handle e)]> (known_sensors (st w))) (st w))
    (tr w))) as (c & w2 & E & Hw2); [lia| |].
  { cbn. destruct (decide (ev_handle e = h)) as [->|].
    - by rewrite lookup_insert_eq, Hs.
    - by rewrite lookup_insert_ne. }
  erewrite bind_done by exact E. by eexists _, _.
Qed.

(** counting wake-up events invents sensors. Where [mSensors] has no sensor with the
    handle of one of the events counted, a dynamic sensor's for instance, afterwards it has
    one whose members are all zero. *)
Theorem counting_invents_sensors events n w e :
  (n ≤ length events)%nat → e ∈ take n events → known_sensors (st w) !! ev_handle e = None →
  ∃ count w', countNumWakeupEvents events n w = (Done count, w') ∧
    known_sensors (st w') !! ev_handle e = Some no_sensor.
Proof.
  revert n w. induction events as [|e' events IH]; intros n w Hn Hin He.
  { by rewrite take_nil in Hin; apply elem_of_nil in Hin. }
  destruct n as [|n]; [by apply elem_of_nil in Hin|]. cbn in Hn, Hin |- *.
  rewrite bind_gets. set (sensor := default no_sensor (known_sensors (st w) !! ev_handle e')).
  set (m := <[ev_handle e' := sensor]> (known_sensors (st w))).
  erewrite bind_done by reflexivity. set (w1 := World (with_sensors m (st w)) (tr w)).
  destruct (decide (ev_handle e = ev_handle e')) as [Hh|Hne].
  - assert (m !! ev_handle e = Some no_sensor) as Hm.
    { unfold m, sensor. rewrite Hh, lookup_insert_eq, <- Hh, He. done. }
    destruct (count_keeps events n w1 (ev_handle e) no_sensor) as (c & w2 & E & Hw2);
      [lia|done|].
    erewrite bind_done by exact E. by eexists _, _.
  - apply elem_of_cons in Hin as [->|Hin]; [done|].
    destruct (IH n w1) as (c & w2 & E & Hw2); [lia|done| |].
    { cbn. unfold m. by rewrite lookup_insert_ne. }
    erewrite bind_done by exact E. by eexists _, _.
Qed.
End wakelock.

(** ** Runs *)

(** A wake-up sensor under the handle 1. *)
Definition sample_sensors : gmap Z SensorInfo :=
  {[ 1 := set_handle 1 (set_type 1 "" (set_flags 1 no_sensor)) ]}.

(** A message queue of one event that is full, and of which no blocking write succeeds. *)
Definition full_queue : queue_environment := {|
  getTimeNow t := Z.of_nat (length t);
  availableToWrite _ := O;
  write_ok _ := false;
  writeBlocking_ok _ := false;
  readBlocking _ := None;
  getQuantumCount := 1%nat
|}.

(** a chunk that is written in parts counts some of its wake-up events down twice. A
    sub-HAL holds a scoped wakelock; another posts two wake-up events to a full queue of
    one; both writes fail. The first failure counts down one event, the second the two the
    chunk had at first: the wakelock is released while the first sub-HAL still holds its
    own. *)
Theorem parts_counted_down_twice :
  let acts := [Initialize true; Increment 1; Post [sample_event 1; sample_event 1] 2 true;
               Writer; Writer; Writer; Writer; Writer; Writer; Writer] in
  let w := (exec full_queue acts (World (Queues_init true 0 0 sample_sensors) [])).2 in
  fst (exec full_queue acts (World (Queues_init true 0 0 sample_sensors) [])) = Done () ∧
  mWakelockRefCount (wakelock (st w)) = 0 ∧ held (tr w) = false ∧
  handled (tr w) = [sample_event 1; sample_event 1].
Proof. vm_compute. by split_and!. Qed.

Example wakelock_held_iff_counted_witness :
  let w := (exec (sample_queue true) [Initialize true; Post [sample_event 1] 1 true; Waker]
              (World (Queues_init true 0 0 sample_sensors) [])).2 in
  mWakelockRefCount (wakelock (st w)) = 1 ∧ held (tr w) = true.
Proof.
  intros w. assert (mWakelockRefCount (wakelock (st w)) = 1) as Hr by reflexivity.
  split; [done|]. apply (wakelock_held_iff_counted (C := aosp_sensors) (sample_queue true)).
  - intros t n [= <-]. lia.
  - by repeat constructor.
  - reflexivity.
  - fold w. rewrite Hr. lia.
Defined.

Example unconfirmed_wakelock_released_witness :
  let x := with_wakelock {| mWakelockRefCount := 2; mWakelockTimeoutStartTime := -2000000000;
             mWakelockTimeoutResetTime := 0 |}
             (with_waker WakerIdle (Queues_init true 0 0 ∅)) in
  tr (handleWakelocks (sample_queue true) (World x [acquire_wake_lock])).2
  = [acquire_wake_lock; release_wake_lock].
Proof.
  intros x. destruct (unconfirmed_wakelock_released (C := aosp_sensors) (sample_queue true)
    (World x [acquire_wake_lock])) as [Hout _]; [done..|].
  destruct Hout as [-> _]; done.
Defined.

Example stopped_wakelock_stays_witness :
  let w := (exec (sample_queue true) [Initialize true; Post [sample_event 1] 1 true; Stop]
              (World (Queues_init true 0 0 sample_sensors) [])).2 in
  held (tr (exec (sample_queue true) [Writer; Waker] w).2) = true.
Proof.
  intros w. destruct (stopped_wakelock_stays (C := aosp_sensors) (sample_queue true)
    [Writer; Waker] w true) as [[_ Hh] _]; [done|by repeat constructor|].
  rewrite Hh. reflexivity.
Defined.

Example counting_invents_sensors_witness :
  ∃ count w', countNumWakeupEvents [sample_event 1; sample_event 7] 2
      (World (Queues_init true 0 0 sample_sensors) []) = (Done count, w') ∧
    known_sensors (st w') !! 7 = Some no_sensor.
Proof.
  apply (counting_invents_sensors (C := aosp_sensors) [sample_event 1; sample_event 7] 2
    (World (Queues_init true 0 0 sample_sensors) []) (sample_event 7)).
  - cbn. lia.
  - cbn. apply elem_of_cons. right. by apply elem_of_cons; left.
  - reflexivity.
Defined.
