(* ===== verification/Proxy.v ===== *)
(** * The proxy as a whole

    The two halves of [sensors/HalProxy.cpp] together: [HalProxy.v] and [EventQueue.v] are
    components of one object, which they share the list of sensors of. What spans both is
    here: [stopThreads], the initialisation with its three phases (up to the joins, from
    them to the first sub-HAL, one sub-HAL at a time) and the destructor. The service has one
    binder thread, so that a call of the framework waits while another runs; the sub-HALs'
    calls and the proxy's threads run at any time. *)

From S2P Require Import Prelude Words Handles SensorTypes HalProxy EventQueue Wakelock.

(** The pointers [initializeCommon] is given, where not null. *)
Record init_args : Set := {
  eventQueue : bool;
  wakeLockQueue : bool;
  sensorsCallback : bool
}.

Inductive init_pc : Set :=
| NotInitializing
| Joining (args : init_args)                            (* in [stopThreads] *)
| InitializingSubHals (i : nat) (result : Result).      (* before sub-HAL [i] *)

Record Proxy : Set := {
  hal : HalProxy;
  queues : Queues;
  mDynamicSensorsCallback : bool;            (* the pointers, where not null; those of *)
  mWakeLockQueue : bool;                     (* the event queue are part of [queues] *)
  mWakelockQueueFlag : bool;
  initializer : init_pc
}.

Inductive call : Set :=
| hal_call (c : proxy_call)
| queue_call (c : EventQueue.queue_call)
| read_event_queue
| wake_events_read
| write_wakelock_zero
| wake_data_written
| notify_wakelock_cv
| notify_write_cv
| deleteEventFlag (events : bool)
| createEventFlag (events : bool)
| sub_initialize (i : nat)
| initialized (result : Result).                        (* the reply of [initialize] *)

Record environment : Type := {
  sub_env : sub_environment;
  queue_env : queue_environment;
  createEventFlag_ok : list call → bool;
  initialize_answer : list call → Result
}.

Definition with_hal (h : HalProxy) (x : Proxy) : Proxy :=
  {| hal := h; queues := queues x; mDynamicSensorsCallback := mDynamicSensorsCallback x;
     mWakeLockQueue := mWakeLockQueue x; mWakelockQueueFlag := mWakelockQueueFlag x;
     initializer := initializer x |}.
Definition with_pointers (a : init_args) (x : Proxy) : Proxy :=
  {| hal := hal x;
     queues := with_event_queue (eventQueue a) (mEventQueueFlag (queues x)) (queues x);
     mDynamicSensorsCallback := sensorsCallback a;
     mWakeLockQueue := wakeLockQueue a; mWakelockQueueFlag := mWakelockQueueFlag x;
     initializer := initializer x |}.
Definition with_event_flag (b : bool) (x : Proxy) : Proxy :=
  {| hal := hal x; queues := with_event_queue (mEventQueue (queues x)) b (queues x);
     mDynamicSensorsCallback := mDynamicSensorsCallback x;
     mWakeLockQueue := mWakeLockQueue x; mWakelockQueueFlag := mWakelockQueueFlag x;
     initializer := initializer x |}.
Definition with_wakelock_flag (b : bool) (x : Proxy) : Proxy :=
  {| hal := hal x; queues := queues x; mDynamicSensorsCallback := mDynamicSensorsCallback x;
     mWakeLockQueue := mWakeLockQueue x; mWakelockQueueFlag := b;
     initializer := initializer x |}.
Definition with_initializer (pc : init_pc) (x : Proxy) : Proxy :=
  {| hal := hal x; queues := queues x; mDynamicSensorsCallback := mDynamicSensorsCallback x;
     mWakeLockQueue := mWakeLockQueue x; mWakelockQueueFlag := mWakelockQueueFlag x;
     initializer := pc |}.

(** The queues' component sees the list of sensors of the other. *)
Definition get_queues (x : Proxy) : Queues := with_sensors (HalProxy.mSensors (hal x)) (queues x).
Definition put_queues (q : Queues) (x : Proxy) : Proxy :=
  {| hal := set_sensors (known_sensors q) (hal x); queues := q;
     mDynamicSensorsCallback := mDynamicSensorsCallback x;
     mWakeLockQueue := mWakeLockQueue x; mWakelockQueueFlag := mWakelockQueueFlag x;
     initializer := initializer x |}.

Definition to_hal (c : call) : option proxy_call :=
  match c with hal_call c => Some c | _ => None end.
Definition to_queue (c : call) : option EventQueue.queue_call :=
  match c with queue_call c => Some c | _ => None end.

Abbreviation proxy_world := (world Proxy call).
Abbreviation hal_view := (view hal to_hal).
Abbreviation queue_view := (view get_queues to_queue).

Definition in_hal {A} : M (world HalProxy proxy_call) A → M proxy_world A :=
  zoom hal with_hal hal_call to_hal.
Definition in_queue {A} : M (world Queues EventQueue.queue_call) A → M proxy_world A :=
  zoom get_queues put_queues queue_call to_queue.

Section proxy.
Context `{C : SensorsConstants} (env : environment).

Abbreviation prog := (M proxy_world).

(** ** Stopping the threads *)

Definition joinable_done (x : Proxy) : bool :=
  match writer (queues x), waker (queues x) with WriterExited, WakerExited => true | _, _ => false end.

(** [stopThreads] up to the joins. It takes no mutex: a thread that has found its predicate
    false and is not yet asleep is not woken. *)
Definition stopThreads : prog unit :=
  in_queue (modify (with_threads false));;
  x ← gets id;
  (if mEventQueueFlag (queues x) && mEventQueue (queues x)
   then emit read_event_queue;; emit wake_events_read else mret ());;
  (if mWakelockQueueFlag x && mWakeLockQueue x
   then emit write_wakelock_zero;; emit wake_data_written else mret ());;
  emit notify_wakelock_cv;;
  in_queue (modify wake_waker);;
  emit notify_write_cv;;
  in_queue (modify wake_writer).

(** ** Initialisation *)

Definition initialize_start (args : init_args) : prog unit :=
  stopThreads;;
  modify (with_initializer (Joining args)).

(** The flags of the two queues, made anew. *)
Definition create_flags : prog bool :=
  x ← gets id;
  (if mEventQueueFlag (queues x) then emit (deleteEventFlag true);; modify (with_event_flag false)
   else mret ());;
  (if mWakelockQueueFlag x then emit (deleteEventFlag false);; modify (with_wakelock_flag false)
   else mret ());;
  (if mEventQueue (queues x) then mret () else faults NullDeref);;       (* [mEventQueue->] *)
  events_ok ← Prelude.call (createEventFlag_ok env) (createEventFlag true);
  modify (with_event_flag events_ok);;
  (if mWakeLockQueue x then mret () else faults NullDeref);;
  wakelock_ok ← Prelude.call (createEventFlag_ok env) (createEventFlag false);
  modify (with_wakelock_flag wakelock_ok);;
  mret (events_ok && wakelock_ok).

(** From the joins to the loop over the sub-HALs. *)
Definition initializeCommon (args : init_args) : prog unit :=
  in_queue (resetSharedWakelock (queue_env env));;
  in_hal (disableAllSensors (sub_env env));;
  in_queue (modify (λ x, with_pending
    (no_pending (mMostEventsObservedPendingWriteEventsQueue (pending x))) x));;
  in_hal (modify (set_dynamic ∅));;
  modify (with_pointers args);;
  flags_ok ← create_flags;
  x ← gets id;
  let result :=
    if negb flags_ok || negb (mDynamicSensorsCallback x && mEventQueue (queues x) && mWakeLockQueue x
                              && mEventQueueFlag (queues x))
    then BAD_VALUE else OK in
  in_queue (modify (with_threads true);; modify (with_writer WriterIdle);;
            modify (with_waker WakerIdle));;
  modify (with_initializer (InitializingSubHals 0 result)).

Definition initialize_end (result : Result) : prog unit :=
  in_hal (modify (set_mode NORMAL));;
  modify (with_initializer NotInitializing);;
  emit (initialized result).

(** One turn of the loop over the sub-HALs, or what follows it. *)
Definition initialize_sub (i : nat) (result : Result) : prog unit :=
  subHals ← gets (λ x, mSubHalList (hal x));
  if decide (i < length subHals)%nat then
    currRes ← Prelude.call (initialize_answer env) (sub_initialize i);
    if decide (currRes ≠ OK) then initialize_end currRes
    else modify (with_initializer (InitializingSubHals (S i) result))
  else initialize_end result.

Definition initialize_step : prog unit :=
  x ← gets id;
  match initializer x with
  | NotInitializing => mret ()
  | Joining args => if joinable_done x then initializeCommon args else mret ()    (* joins *)
  | InitializingSubHals i result => initialize_sub i result
  end.

(** Both make the queues and wrap the callback: no pointer is null. *)
Definition initialize : prog unit :=
  initialize_start {| eventQueue := true; wakeLockQueue := true; sensorsCallback := true |}.
Definition initialize_2_1 : prog unit :=
  initialize_start {| eventQueue := true; wakeLockQueue := true; sensorsCallback := true |}.

(** Up to the joins. *)
Definition Proxy_delete : prog unit := stopThreads.

(** ** The system *)

Inductive framework_op : Set :=
| SetOperationMode (mode : OperationMode)
| Activate (handle : Z) (enabled : bool)
| Batch (handle samplingPeriodNs maxReportLatencyNs : Z)
| FlushSensor (handle : Z)
| InjectSensorData (event : Event)
| RegisterDirectChannel
| UnregisterDirectChannel (channelHandle : Z)
| ConfigDirectReport (handle channelHandle : Z) (stop : bool).

Definition framework (op : framework_op) : M (world HalProxy proxy_call) unit :=
  match op with
  | SetOperationMode mode => _ ← setOperationMode (sub_env env) mode; mret ()
  | Activate h enabled => _ ← activate (sub_env env) h enabled; mret ()
  | Batch h p l => _ ← batch (sub_env env) h p l; mret ()
  | FlushSensor h => _ ← flush (sub_env env) h; mret ()
  | InjectSensorData event => _ ← injectSensorData (sub_env env) event; mret ()
  | RegisterDirectChannel => _ ← registerDirectChannel (sub_env env); mret ()
  | UnregisterDirectChannel c => _ ← unregisterDirectChannel (sub_env env) c; mret ()
  | ConfigDirectReport h c stop => _ ← configDirectReport (sub_env env) h c stop; mret ()
  end.

Inductive proxy_action : Set :=
| Framework (op : framework_op)
| InitializeCall (v2_1 : bool)
| InitializeStep
| DynamicConnected (added : list SensorInfo) (subHalIndex : Z)
| DynamicDisconnected (removed : list Z) (subHalIndex : Z)
| SubHalPost (events : list Event) (numWakeupEvents : Z) (locked : bool)
| SubHalIncrement (delta : Z)
| SubHalDecrement (delta timeoutStart : Z)
| WriterThread
| WakelockThread.

Definition proxy_act (a : proxy_action) : prog unit :=
  match a with
  | Framework op =>
      pc ← gets initializer;
      match pc with NotInitializing => in_hal (framework op) | _ => mret () end
  | InitializeCall v2_1 =>
      pc ← gets initializer;
      match pc with
      | NotInitializing => if v2_1 then initialize_2_1 else initialize
      | _ => mret ()
      end
  | InitializeStep => initialize_step
  | DynamicConnected added i => in_hal (onDynamicSensorsConnected added i)
  | DynamicDisconnected removed i => in_hal (onDynamicSensorsDisconnected removed i)
  | SubHalPost events n locked => in_queue (act (queue_env env) (Post events n locked))
  | SubHalIncrement delta => in_queue (act (queue_env env) (Increment delta))
  | SubHalDecrement delta start => in_queue (act (queue_env env) (Decrement delta start))
  | WriterThread => in_queue (act (queue_env env) Writer)
  | WakelockThread => in_queue (act (queue_env env) Waker)
  end.

Definition proxy_exec (acts : list proxy_action) : prog unit := for_each proxy_act acts.
End proxy.

(** The proxy as constructed; [run], [start] and [reset] as in [Queues_init]. *)
Definition Proxy_new `{C : SensorsConstants} (run : bool) (start reset : Z) (names : list string)
    (lists : list (list SensorInfo)) : Proxy := {|
  hal := HalProxy_new names lists;
  queues := Queues_init run start reset ∅;
  mDynamicSensorsCallback := false;
  mWakeLockQueue := false;
  mWakelockQueueFlag := false;
  initializer := NotInitializing
|}.
