(* ===== verification/ProxyRuns.v ===== *)
(** * Runs of the whole proxy

    The composition of [Proxy.v] refines its parts: seen from the queues, every run of the
    whole is a run of [EventQueue.v], so that the theorems about the order of the events and
    about the wakelock hold of the whole. [ProxyInit.v] has the initialisation. *)

From S2P Require Import Prelude Words Handles SensorTypes HalProxy EventQueue Wakelock Proxy.

Abbreviation hal_world := (world HalProxy proxy_call).
Abbreviation queue_world := (world Queues EventQueue.queue_call).

(** The cases of what a step is in the queues' view. *)
Ltac part_cases H :=
  destruct_or? H; try match type of H with ex _ => destruct H as [? H] end; subst.

Section views.
Context `{C : SensorsConstants} {laws : SensorsLaws C} (env : environment).

(** ** Operations of the sensors' half

    They return, and change neither the list of sensors nor that of the sub-HALs. *)
Definition harmless {A} (m : M hal_world A) : Prop := ∀ w, ∃ a h t,
  m w = (Done a, World h (tr w ++ t)) ∧ HalProxy.mSensors h = HalProxy.mSensors (st w) ∧
  mSubHalList h = mSubHalList (st w).

Lemma harmless_ret {A} (a : A) : harmless (mret a).
Proof. intros [h t]. exists a, h, []. by rewrite app_nil_r. Qed.

Lemma harmless_gets {A} (f : HalProxy → A) : harmless (gets f).
Proof. intros [h t]. exists (f h), h, []. by rewrite app_nil_r. Qed.

Lemma harmless_ask {R} (f : list proxy_call → R) : harmless (ask f).
Proof. intros [h t]. exists (f t), h, []. by rewrite app_nil_r. Qed.

Lemma harmless_emit c : harmless (emit c).
Proof. intros [h t]. by exists (), h, [c]. Qed.

Lemma harmless_sub i op : harmless (sub (sub_env env) i op).
Proof. intros [h t]. by eexists _, h, [_]. Qed.

Lemma harmless_modify f :
  (∀ h, HalProxy.mSensors (f h) = HalProxy.mSensors h ∧ mSubHalList (f h) = mSubHalList h) →
  harmless (modify f).
Proof. intros Hf [h t]. exists (), (f h), []. rewrite app_nil_r. by split_and!; try apply Hf. Qed.

Lemma harmless_bind {A B} (m : M hal_world A) (k : A → M hal_world B) :
  harmless m → (∀ a, harmless (k a)) → harmless (m ≫= k).
Proof.
  intros Hm Hk w. destruct (Hm w) as (a & h & t & E & Hs & Hl).
  destruct (Hk a (World h (tr w ++ t))) as (b & h' & t' & E' & Hs' & Hl').
  exists b, h', (t ++ t'). rewrite (bind_done _ _ _ _ _ E), E'. cbn in *.
  by rewrite app_assoc, Hs', Hl'.
Qed.

Lemma harmless_for_each {A} (body : A → M hal_world unit) l :
  (∀ x, harmless (body x)) → harmless (for_each body l).
Proof.
  intros Hb. induction l as [|x l IH]; [apply harmless_ret|]. by apply harmless_bind.
Qed.

Create HintDb harmless.
#[local] Hint Resolve harmless_ret harmless_gets harmless_ask harmless_emit harmless_sub
  harmless_bind harmless_for_each : harmless.

Ltac solve_harmless :=
  repeat match goal with
  | |- harmless (_ ≫= _) => apply harmless_bind
  | |- harmless (modify _) => by apply harmless_modify
  | |- harmless (match ?x with _ => _ end) => destruct x
  | |- ∀ _, _ => intros ?
  | _ => solve [eauto with harmless]
  end.

Lemma harmless_dispatch h op : harmless (dispatch (sub_env env) h op).
Proof. unfold dispatch. solve_harmless. Qed.
#[local] Hint Resolve harmless_dispatch : harmless.

Lemma harmless_flip mode i n : harmless (flip_modes (sub_env env) mode i n).
Proof. revert i. induction n as [|n IH]; intros i; cbn; solve_harmless. Qed.
#[local] Hint Resolve harmless_flip : harmless.

Lemma harmless_disable : harmless (disableAllSensors (sub_env env)).
Proof.
  unfold disableAllSensors, activate. solve_harmless; apply harmless_for_each; solve_harmless.
Qed.

Lemma harmless_framework op : harmless (framework env op).
Proof.
  destruct op; cbn; unfold setOperationMode, activate, batch, flush, injectSensorData,
    registerDirectChannel, unregisterDirectChannel, configDirectReport; solve_harmless.
Qed.

Lemma harmless_connected added i : harmless (onDynamicSensorsConnected added i).
Proof. unfold onDynamicSensorsConnected. solve_harmless. Qed.

Lemma harmless_disconnected removed i : harmless (onDynamicSensorsDisconnected removed i).
Proof. unfold onDynamicSensorsDisconnected. solve_harmless. Qed.

(** ** Operations of the queues' half *)

Lemma logs_count events n : logs (S := Queues) (E := EventQueue.queue_call) (λ _, True)
  (countNumWakeupEvents events n).
Proof.
  revert events. induction n as [|n IH]; intros [|e events]; cbn; solve_prog.
Qed.

Lemma stopped_act qenv a : initializes a = false →
  preserves (of_state (λ x, mThreadsRun x = false)) (act qenv a).
Proof.
  intros Ha w Hw.
  destruct (frozen_act qenv (mWakelockRefCount (wakelock (st w))) (held (tr w)) a Ha w) as (? & _);
    done.
Qed.

Lemma logs_reset (qenv : queue_environment) : logs (λ _, True) (resetSharedWakelock qenv).
Proof.
  unfold resetSharedWakelock, decrementRefCountAndMaybeReleaseWakelock. solve_prog.
Qed.

Lemma logs_act a : logs (λ _, True) (act (queue_env env) a).
Proof.
  destruct a; cbn; unfold postEventsToMessageQueue, write_now, handlePendingWrites,
    handleWakelocks, initialize_queues, resetSharedWakelock, sharedWakelockDidTimeout,
    incrementRefCountAndMaybeAcquireWakelock, decrementRefCountAndMaybeReleaseWakelock;
    solve_prog; apply logs_count.
Qed.

(** ** The view of the queues *)

Lemma queue_view_put q x : get_queues (put_queues q x) = q.
Proof. by destruct q. Qed.

(** An operation of the queues does in their view what it does. *)
Lemma in_queue_view {A} (m : M queue_world A) w :
  logs (λ _, True) m →
  (in_queue m w).1 = (m (queue_view w)).1 ∧ queue_view (in_queue m w).2 = (m (queue_view w)).2.
Proof. intros Hm. apply view_zoom; [apply queue_view_put|done|done]. Qed.

Lemma in_queue_done {A} (m : M queue_world A) w a q :
  logs (λ _, True) m → m (queue_view w) = (Done a, q) →
  ∃ w', in_queue m w = (Done a, w') ∧ queue_view w' = q ∧
    hal (st w') = set_sensors (known_sensors (st q)) (hal (st w)) ∧
    initializer (st w') = initializer (st w) ∧ mWakeLockQueue (st w') = mWakeLockQueue (st w) ∧
    mDynamicSensorsCallback (st w') = mDynamicSensorsCallback (st w) ∧
    mWakelockQueueFlag (st w') = mWakelockQueueFlag (st w).
Proof.
  intros Hm E. destruct (in_queue_view m w Hm) as [H1 H2]. rewrite E in H1, H2. cbn in H1, H2.
  destruct (in_queue m w) as [o w'] eqn:Ew. cbn in *. subst o. exists w'. split; [done|].
  split; [done|]. unfold in_queue, zoom in Ew. rewrite E in Ew. by injection Ew as <-.
Qed.

(** An operation of the other half does nothing there. *)
Lemma in_hal_done {A} (m : M hal_world A) w :
  harmless m → ∃ a w', in_hal m w = (Done a, w') ∧ queue_view w' = queue_view w ∧
    hal_view w' = (m (hal_view w)).2 ∧
    queues (st w') = queues (st w) ∧ initializer (st w') = initializer (st w) ∧
    mSubHalList (hal (st w')) = mSubHalList (hal (st w)).
Proof.
  intros Hm. destruct (Hm (hal_view w)) as (a & h & t & E & Hs & Hl).
  destruct w as [x tr0]. exists a, (World (with_hal h x) (tr0 ++ map hal_call t)).
  unfold in_hal, zoom. rewrite E. cbn. rewrite drop_app_length. split; [done|].
  assert (omap to_queue (map hal_call t) = []) as Hq by (clear; by induction t).
  assert (omap to_hal (map hal_call t) = t) as Ht
    by (clear; induction t as [|c t IH]; cbn; [done|by rewrite IH]).
  unfold view, get_queues. cbn. rewrite !omap_app, Hq, Ht, app_nil_r, Hs. by split_and!.
Qed.

(** [mirrors m mq]: where [mq] returns in the queues' view, [m] returns, and has done the same
    there; the initialisation is where it was. *)
Definition mirrors {A} (m : M proxy_world A) (mq : M queue_world unit) : Prop :=
  ∀ w q, mq (queue_view w) = (Done (), q) → ∃ a w', m w = (Done a, w') ∧ queue_view w' = q ∧
    initializer (st w') = initializer (st w).

Lemma mirrors_queue (m : M queue_world unit) : logs (λ _, True) m → mirrors (in_queue m) m.
Proof.
  intros Hm w q E. destruct (in_queue_done m w () q Hm E) as (w' & E' & Hv & _ & Hi & _).
  by exists (), w'.
Qed.

Lemma mirrors_hal {A} (m : M hal_world A) : harmless m → mirrors (in_hal m) (mret ()).
Proof.
  intros Hm w q [= <-]. destruct (in_hal_done m w Hm) as (a & w' & E & Hv & _ & _ & Hi & _).
  by exists a, w'.
Qed.

Lemma mirrors_bind {A B} (m : M proxy_world A) (k : A → M proxy_world B) mq kq :
  mirrors m mq → (∀ a, mirrors (k a) kq) → mirrors (m ≫= k) (mq;; kq).
Proof.
  intros Hm Hk w q ([] & q1 & E1 & E2)%bind_inv.
  destruct (Hm w q1 E1) as (a & w1 & F1 & <- & Hi1).
  destruct (Hk a w1 q E2) as (b & w2 & F2 & <- & Hi2).
  exists b, w2. rewrite (bind_done _ _ _ _ _ F1). split_and!; [done..|congruence].
Qed.

Lemma mirrors_ret {A} (a : A) : mirrors (mret a) (mret ()).
Proof. intros w q [= <-]. by exists a, w. Qed.

Lemma mirrors_gets {A} (f : Proxy → A) : mirrors (gets f) (mret ()).
Proof. intros w q [= <-]. by exists (f (st w)), w. Qed.

Lemma mirrors_emit c : to_queue c = None → mirrors (emit c) (mret ()).
Proof.
  intros Hc [x t] q [= <-]. eexists (), _. split; [done|]. split; [|done].
  unfold view. cbn. rewrite omap_app. cbn. by rewrite Hc, app_nil_r.
Qed.

Lemma mirrors_call {R} (f : list call → R) c :
  to_queue c = None → mirrors (Prelude.call f c) (mret ()).
Proof.
  intros Hc [x t] q [= <-]. eexists _, _. split; [done|]. split; [|done].
  unfold view. cbn. rewrite omap_app. cbn. by rewrite Hc, app_nil_r.
Qed.

Lemma mirrors_modify f :
  (∀ x, get_queues (f x) = get_queues x ∧ initializer (f x) = initializer x) →
  mirrors (modify f) (mret ()).
Proof.
  intros Hf [x t] q [= <-]. destruct (Hf x) as [Hg Hi]. eexists (), _. split; [done|].
  split; [|done]. unfold view. cbn. by rewrite Hg.
Qed.

(** The unit on the queues' side. *)
Lemma mirrors_skip {A B} (m : M proxy_world A) (k : A → M proxy_world B) :
  mirrors m (mret ()) → (∀ a, mirrors (k a) (mret ())) → mirrors (m ≫= k) (mret ()).
Proof. intros Hm Hk. exact (mirrors_bind m k _ _ Hm Hk). Qed.

Lemma mirrors_before {A B} (m : M proxy_world A) (k : A → M proxy_world B) mq :
  mirrors m (mret ()) → (∀ a, mirrors (k a) mq) → mirrors (m ≫= k) mq.
Proof. intros Hm Hk. exact (mirrors_bind m k _ _ Hm Hk). Qed.

Ltac solve_mirrors :=
  repeat match goal with
  | |- mirrors (_ ≫= _) (mret ()) => apply mirrors_skip
  | |- mirrors (mret _) _ => apply mirrors_ret
  | |- mirrors (gets _) _ => apply mirrors_gets
  | |- mirrors (emit _) _ => by apply mirrors_emit
  | |- mirrors (Prelude.call _ _) _ => by apply mirrors_call
  | |- mirrors (modify _) _ => by apply mirrors_modify
  | |- mirrors (match ?x with _ => _ end) _ => destruct x
  | |- ∀ _, _ => intros ?
  end.

Lemma stopThreads_mirrors : mirrors stopThreads (act (queue_env env) Stop).
Proof.
  unfold stopThreads. cbn [act].
  apply mirrors_bind; [apply mirrors_queue; solve_prog|intros _].
  apply mirrors_before; [solve_mirrors|intros x].
  apply mirrors_before; [solve_mirrors|intros _].
  apply mirrors_before; [solve_mirrors|intros _].
  apply mirrors_before; [solve_mirrors|intros _].
  apply mirrors_bind; [apply mirrors_queue; solve_prog|intros _].
  apply mirrors_before; [solve_mirrors|intros _].
  apply mirrors_queue. solve_prog.
Qed.

(** ** The phases of the initialisation *)

Definition pointers (x : Proxy) : init_args :=
  {| eventQueue := mEventQueue (queues x); wakeLockQueue := mWakeLockQueue x;
     sensorsCallback := mDynamicSensorsCallback x |}.

Definition no_null : init_args :=
  {| eventQueue := true; wakeLockQueue := true; sensorsCallback := true |}.

(** The calls made between two worlds, none of them a reply or to a sub-HAL's [initialize]. *)
Definition init_call (c : call) : bool :=
  match c with sub_initialize _ | initialized _ => true | _ => false end.

Definition init_calls (t : list call) : list call := List.filter init_call t.

#[local] Arguments init_calls : simpl never.

Lemma init_calls_app t1 t2 : init_calls (t1 ++ t2) = init_calls t1 ++ init_calls t2.
Proof. apply List.filter_app. Qed.

(** Whether the flags of the two queues could be made. *)
Definition flags_made (events wakelock : bool) : Prop := ∀ t,
  createEventFlag_ok env (t ++ [createEventFlag true]) = events ∧
  createEventFlag_ok env (t ++ [createEventFlag false]) = wakelock.

Lemma create_flags_run w :
  mEventQueue (queues (st w)) = true → mWakeLockQueue (st w) = true →
  ∃ events wakelock w', create_flags env w = (Done (events && wakelock), w') ∧
    queue_view w' = (modify (with_event_queue true events) (queue_view w)).2 ∧
    hal (st w') = hal (st w) ∧ initializer (st w') = initializer (st w) ∧
    pointers (st w') = pointers (st w) ∧ mEventQueueFlag (queues (st w')) = events ∧
    init_calls (tr w') = init_calls (tr w) ∧
    (∀ e k, flags_made e k → events = e ∧ wakelock = k).
Proof.
  destruct w as [x t]. cbn. intros Hq Hw.
  set (deleted := (if mEventQueueFlag (queues x) then [deleteEventFlag true] else []) ++
                  (if mWakelockQueueFlag x then [deleteEventFlag false] else [])).
  set (events := createEventFlag_ok env ((t ++ deleted) ++ [createEventFlag true])).
  set (wakelock := createEventFlag_ok env
    (((t ++ deleted) ++ [createEventFlag true]) ++ [createEventFlag false])).
  exists events, wakelock, (World (with_wakelock_flag wakelock (with_event_flag events x))
    (t ++ deleted ++ [createEventFlag true; createEventFlag false])).
  split_and!; try done.
  - unfold create_flags, events, wakelock, deleted.
    destruct x as [h [run pe wl ks eq [] wr wk] cb wq [] pc]; cbn in Hq, Hw; subst eq wq;
      unfold_monad; cbn; rewrite <- ?app_assoc; cbn; by rewrite ?app_nil_r.
  - unfold view, get_queues. cbn. rewrite !omap_app. unfold deleted. rewrite Hq.
    by destruct (mEventQueueFlag (queues x)), (mWakelockQueueFlag x); cbn; rewrite app_nil_r.
  - cbn. rewrite !init_calls_app. unfold deleted.
    by destruct (mEventQueueFlag (queues x)), (mWakelockQueueFlag x); cbn; rewrite app_nil_r.
  - intros e k Hok. split; apply Hok.
Qed.

Lemma in_queue_calls {A} (m : M queue_world A) w :
  init_calls (tr (in_queue m w).2) = init_calls (tr w).
Proof.
  unfold in_queue, zoom. destruct (m (queue_view w)) as [o q]. cbn.
  rewrite init_calls_app. generalize (drop (length (omap to_queue (tr w))) (tr q)) as l.
  intros l. replace (init_calls (map queue_call l)) with (@nil call) by (by induction l).
  apply app_nil_r.
Qed.

Lemma in_hal_calls {A} (m : M hal_world A) w :
  init_calls (tr (in_hal m w).2) = init_calls (tr w).
Proof.
  unfold in_hal, zoom. destruct (m (hal_view w)) as [o q]. cbn.
  rewrite init_calls_app. generalize (drop (length (omap to_hal (tr w))) (tr q)) as l.
  intros l. replace (init_calls (map hal_call l)) with (@nil call) by (by induction l).
  apply app_nil_r.
Qed.

Lemma joined_queues flag w : joinable_done (st w) = true →
  act (queue_env env) (Initialize flag) (queue_view w)
  = initialize_queues (queue_env env) flag (queue_view w).
Proof.
  unfold joinable_done. cbn [act]. rewrite bind_gets. cbn.
  by destruct (writer (queues (st w))), (waker (queues (st w))).
Qed.

(** From the joins on, if no pointer is null. *)
Lemma initializeCommon_run w :
  ∃ events wakelock w', initializeCommon env no_null w = (Done (), w') ∧
    initialize_queues (queue_env env) events (queue_view w) = (Done (), queue_view w') ∧
    ready (queues (st w')) = events ∧
    initializer (st w') = InitializingSubHals 0 (if events && wakelock then OK else BAD_VALUE) ∧
    mDynamicSensors (hal (st w')) = ∅ ∧ mSubHalList (hal (st w')) = mSubHalList (hal (st w)) ∧
    init_calls (tr w') = init_calls (tr w) ∧
    (∀ e k, flags_made e k → events = e ∧ wakelock = k).
Proof.
  unfold initializeCommon, initialize_queues.
  destruct (reset_aside (queue_env env) (queue_view w)) as ([] & l & s & pc & t & E1 & _).
  destruct (in_queue_done _ w () _ (logs_reset _) E1) as (w1 & F1 & V1 & H1 & _).
  pose proof (in_queue_calls (resetSharedWakelock (queue_env env)) w) as C1.
  rewrite F1 in C1. rewrite (bind_done _ _ _ _ _ F1). rewrite <- V1 in E1. clear F1 V1.
  destruct (in_hal_done _ w1 harmless_disable) as (? & w2 & F2 & V2 & _ & _ & _ & L2).
  pose proof (in_hal_calls (disableAllSensors (sub_env env)) w1) as C2.
  rewrite F2 in C2. rewrite (bind_done _ _ _ _ _ F2). rewrite <- V2 in E1. clear F2 V2.
  set (m3 := modify (λ x, with_pending _ x)).
  destruct (in_queue_done m3 w2 () (m3 (queue_view w2)).2) as (w3 & F3 & V3 & H3 & _);
    [unfold m3; solve_prog|done|].
  pose proof (in_queue_calls m3 w2) as C3. rewrite F3 in C3.
  rewrite (bind_done _ _ _ _ _ F3).
  destruct (in_hal_done (modify (set_dynamic ∅)) w3) as (? & w4 & F4 & V4 & H4 & _ & _ & L4);
    [by apply harmless_modify|].
  pose proof (in_hal_calls (modify (set_dynamic ∅)) w3) as C4. rewrite F4 in C4.
  rewrite (bind_done _ _ _ _ _ F4). rewrite <- V4 in V3.
  erewrite bind_done by reflexivity. set (w5 := World (with_pointers no_null (st w4)) (tr w4)).
  destruct (create_flags_run w5) as (e & k & w6 & F6 & V6 & H6 & _ & P6 & Fl6 & C6 & Hok);
    [done..|].
  rewrite (bind_done _ _ _ _ _ F6), bind_gets. cbn [id].
  set (m7 := modify (with_threads true);; _).
  destruct (in_queue_done m7 w6 () (m7 (queue_view w6)).2) as (w7 & F7 & V7 & H7 & _);
    [unfold m7; solve_prog|done|].
  pose proof (in_queue_calls m7 w6) as C7. rewrite F7 in C7.
  rewrite (bind_done _ _ _ _ _ F7). injection P6 as Pe Pw Pc.
  exists e, k. eexists. split; [reflexivity|]. split.
  { erewrite bind_done by exact E1. change (queue_view w5) with
      (modify (with_event_queue true (mEventQueueFlag (queues (st w4)))) (queue_view w4)).2 in V6.
    rewrite V6, V3 in V7. etrans; [|exact (f_equal (pair (Done ())) (eq_sym V7))]. reflexivity. }
  split.
  { pose proof (f_equal (λ q, ready (st q)) V7) as R7.
    change (ready (queues (st w7)) = ready (queues (st w6))) in R7. unfold ready in *.
    cbn in Pe. rewrite Pe, Fl6 in R7. exact R7. }
  cbn in *. rewrite Pe, Pw, Pc, Fl6. split; [by destruct e, k|].
  injection H4 as H4 _. rewrite H7, H6. cbn. rewrite H4. split; [done|].
  split; [rewrite H3; cbn; rewrite L2, H1; done|]. split; [|done].
  rewrite C7, C6. unfold w5. cbn. by rewrite C4, C3, C2.
Qed.

(** ** The whole refines the queues *)

(** What a step of the whole is in the queues' view: nothing, or one step. *)
Definition part_of (part : list action) (a : proxy_action) : Prop :=
  match a with
  | Framework _ | DynamicConnected _ _ | DynamicDisconnected _ _ => part = []
  | InitializeCall _ => part = [] ∨ part = [Stop]
  | InitializeStep => part = [] ∨ ∃ flag, part = [Initialize flag]
  | SubHalPost events n locked => part = [Post events n locked]
  | SubHalIncrement delta => part = [Increment delta]
  | SubHalDecrement delta start => part = [Decrement delta start]
  | WriterThread => part = [Writer]
  | WakelockThread => part = [Waker]
  end.

Lemma some_part a : ∃ part, part_of part a.
Proof. destruct a; cbn; eexists; (done || by left). Qed.

Definition sized_post (a : proxy_action) : Prop :=
  match a with SubHalPost events _ _ => Z.of_nat (length events) < 2 ^ 63 | _ => True end.

Definition is_post (a : proxy_action) : bool :=
  match a with SubHalPost _ _ _ => true | _ => false end.

(** In the joins: the public operations pass no null pointer, and the threads are to stop. *)
Definition args_given (x : Proxy) : Prop :=
  match initializer x with
  | Joining args => args = no_null ∧ mThreadsRun (queues x) = false
  | _ => True
  end.

Definition whole_inv (w : proxy_world) : Prop :=
  queue_inv (queue_env env) (get_queues (st w)) ∧ args_given (st w).

Definition refines (a : proxy_action) (w w' : proxy_world) (part : list action) : Prop :=
  proxy_act env a w = (Done (), w') ∧
  exec (queue_env env) part (queue_view w) = (Done (), queue_view w') ∧
  part_of part a ∧ args_given (st w').

(** The post of a sub-HAL that finds a null pointer. *)
Definition post_stops (a : proxy_action) (w w' : proxy_world) (part : list action) : Prop :=
  is_post a = true ∧ ready (queues (st w)) = false ∧ ready (queues (st w')) = false ∧
  proxy_act env a w = (Fault NullDeref, w') ∧
  exec (queue_env env) part (queue_view w) = (Fault NullDeref, queue_view w') ∧ part_of part a.

Lemma exec_one a w q :
  act (queue_env env) a w = (Done (), q) → exec (queue_env env) [a] w = (Done (), q).
Proof. intros E. by rewrite (exec_cons_done _ _ _ _ _ E). Qed.

Lemma args_given_same (w w' : proxy_world) :
  args_given (st w) → initializer (st w') = initializer (st w) →
  (mThreadsRun (queues (st w)) = false → mThreadsRun (queues (st w')) = false) →
  args_given (st w').
Proof. unfold args_given. intros Ha -> Hr. destruct (initializer (st w)); [done| |done]. by destruct Ha; auto. Qed.

(** A step that is one of the queues', and one that is none. *)
Lemma refine_queue a b w :
  whole_inv w → sized b → initializes b = false → part_of [b] a → is_post a = posts b →
  proxy_act env a = in_queue (act (queue_env env) b) →
  ∃ w' part, refines a w w' part ∨ post_stops a w w' part.
Proof.
  intros [HI Ha] Hs Hb Hp Hpost Ea.
  destruct (act_inv (queue_env env) b (queue_view w)) as [(Hposts & Hr & q & Eq)|(q & Eq & _)];
    [done..| |].
  - destruct (in_queue_view (act (queue_env env) b) w (logs_act b)) as [H1 H2].
    rewrite Eq in H1, H2. cbn [fst snd] in H1, H2. exists (in_queue (act (queue_env env) b) w).2, [b].
    right. pose proof (ready_act (queue_env env) false b Hb (queue_view w) Hr) as Hr'.
    rewrite Eq, <- H2 in Hr'. unfold post_stops. rewrite Hpost, Ea, H2. split; [done|].
    split; [done|]. split; [exact Hr'|]. split; [by rewrite <- H1; destruct (in_queue _ w)|].
    split; [by apply exec_fault|done].
  - destruct (in_queue_done _ w () q (logs_act b) Eq) as (w' & E & Hv & _ & Hi & _).
    exists w', [b]. left. unfold refines. rewrite Ea, Hv. split_and!; [done|by apply exec_one|done|].
    eapply args_given_same; [done..|]. intros Hr.
    pose proof (stopped_act (queue_env env) b Hb (queue_view w) Hr) as Hr'.
    rewrite Eq, <- Hv in Hr'. exact Hr'.
Qed.

Lemma refine_hal (m : M hal_world unit) a w :
  whole_inv w → harmless m → part_of [] a → proxy_act env a w = in_hal m w →
  ∃ w' part, refines a w w' part.
Proof.
  intros [_ Ha] Hm Hp Ea. destruct (in_hal_done m w Hm) as ([] & w' & E & Hv & _ & Hq & Hi & _).
  exists w', []. unfold refines. rewrite Ea, Hv. split_and!; [done..|].
  eapply args_given_same; [done..|by rewrite Hq].
Qed.

(** A step that is a binder call made to wait, or that waits for the joins. *)
Lemma refine_none a w :
  whole_inv w → part_of [] a → proxy_act env a w = (Done (), w) → ∃ w' part, refines a w w' part.
Proof. intros [_ Ha] Hp Ea. by exists w, []. Qed.

Lemma refine_initialize b w :
  whole_inv w → ∃ w' part, refines (InitializeCall b) w w' part.
Proof.
  intros Hw. destruct (initializer (st w)) as [|args|i r] eqn:Hi;
    [|apply refine_none; [done|by left|cbn; by rewrite bind_gets, Hi]..].
  destruct (stopThreads_mirrors w _ eq_refl) as ([] & w1 & E & Hv & Hi1).
  assert (act (queue_env env) Stop (queue_view w) = (Done (), queue_view w1)) as Hstop
    by (by rewrite Hv).
  exists (World (with_initializer (Joining no_null) (st w1)) (tr w1)), [Stop].
  split_and!; [|by apply exec_one|by right|].
  2: { split; [done|]. pose proof (f_equal (λ q, mThreadsRun (st q)) Hv) as Hr. cbn in Hr |- *.
       by rewrite Hr, (proj2 (proj1 woken_lock _)), (proj2 (proj1 (proj2 woken_lock) _)). }
  cbn. rewrite bind_gets, Hi. destruct b; unfold initialize, initialize_2_1, initialize_start;
    by rewrite (bind_done _ _ _ _ _ E).
Qed.

Lemma initialize_sub_mirrors i result w : ∃ w', initialize_sub env i result w = (Done (), w') ∧
  queue_view w' = queue_view w ∧ args_given (st w').
Proof.
  assert (∀ r w, ∃ w', initialize_end r w = (Done (), w') ∧ queue_view w' = queue_view w ∧
    args_given (st w')) as Hend.
  { clear w. intros r w. unfold initialize_end.
    destruct (in_hal_done (modify (set_mode NORMAL)) w) as (? & w1 & E1 & V1 & _);
      [by apply harmless_modify|].
    rewrite (bind_done _ _ _ _ _ E1). eexists. split; [reflexivity|]. split; [|done].
    rewrite <- V1. unfold view. cbn. by rewrite omap_app, app_nil_r. }
  unfold initialize_sub. rewrite bind_gets. case_decide; [|apply Hend].
  erewrite bind_done by reflexivity. set (w1 := World (st w) (tr w ++ [sub_initialize i])).
  assert (queue_view w1 = queue_view w) as Hv
    by (unfold view; cbn; by rewrite omap_app, app_nil_r).
  case_decide.
  - destruct (Hend (initialize_answer env (tr w1)) w1) as (w' & E & Hv' & Ha). exists w'.
    split; [exact E|]. by rewrite Hv'.
  - eexists. split; [reflexivity|]. split; [exact Hv|done].
Qed.

Lemma refine_step w : whole_inv w → ∃ w' part, refines InitializeStep w w' part.
Proof.
  intros Hw. pose proof Hw as [_ Ha]. unfold args_given in Ha.
  destruct (initializer (st w)) as [|args|i r] eqn:Hi.
  - apply refine_none; [done|by left|]. cbn. unfold initialize_step. by rewrite bind_gets; cbn; rewrite Hi.
  - destruct Ha as [-> _]. destruct (joinable_done (st w)) eqn:Hj.
    + destruct (initializeCommon_run w) as (e & k & w' & E & Eq & _ & Hi' & _).
      exists w', [Initialize e].
      split_and!; [|apply exec_one; by rewrite joined_queues|by right; exists e|].
      * cbn. unfold initialize_step. by rewrite bind_gets; cbn; rewrite Hi, Hj.
      * unfold args_given. by rewrite Hi'.
    + apply refine_none; [done|by left|]. cbn. unfold initialize_step.
      by rewrite bind_gets; cbn; rewrite Hi, Hj.
  - destruct (initialize_sub_mirrors i r w) as (w' & E & Hv & Ha').
    exists w', []. split_and!; [|by cbn; rewrite Hv|by left|done].
    cbn. unfold initialize_step. rewrite bind_gets. cbn. by rewrite Hi.
Qed.

Lemma refine_act a w : whole_inv w → sized_post a →
  ∃ w' part, refines a w w' part ∨ post_stops a w w' part.
Proof.
  intros Hw Hs.
  destruct a as [op|b| |added i|removed i|events n locked|delta|delta start| |].
  - assert (∃ w' part, refines (Framework op) w w' part) as (w' & part & ?);
      [|by exists w', part; left].
    destruct (initializer (st w)) eqn:Hi;
      [|apply refine_none; [done..|cbn; by rewrite bind_gets, Hi]..].
    apply (refine_hal (framework env op)); [done|apply harmless_framework|done|].
    cbn. by rewrite bind_gets, Hi.
  - destruct (refine_initialize b w Hw) as (w' & part & ?). by exists w', part; left.
  - destruct (refine_step w Hw) as (w' & part & ?). by exists w', part; left.
  - destruct (refine_hal (onDynamicSensorsConnected added i) (DynamicConnected added i) w)
      as (w' & part & ?); [done|apply harmless_connected|done..|]. by exists w', part; left.
  - destruct (refine_hal (onDynamicSensorsDisconnected removed i) (DynamicDisconnected removed i) w)
      as (w' & part & ?); [done|apply harmless_disconnected|done..|]. by exists w', part; left.
  - by apply (refine_queue _ (Post events n locked)).
  - by apply (refine_queue _ (Increment delta)).
  - by apply (refine_queue _ (Decrement delta start)).
  - by apply (refine_queue _ Writer).
  - by apply (refine_queue _ Waker).
Qed.

Lemma part_of_sized part a : sized_post a → part_of part a → Forall sized part.
Proof.
  intros Hs Hp. destruct a; cbn in Hp; part_cases Hp;
    by repeat constructor.
Qed.

(** One step that returns. *)
Lemma refine_done a w w' : whole_inv w → sized_post a → proxy_act env a w = (Done (), w') →
  ∃ part, refines a w w' part ∧ whole_inv w'.
Proof.
  intros Hw Hs E. destruct (refine_act a w Hw Hs) as (w1 & part & [Hr|(_ & _ & _ & E1 & _)]);
    [|by rewrite E in E1].
  pose proof Hr as (E1 & Q & Hp & Hg). rewrite E in E1. injection E1 as <-.
  exists part. split; [done|].
  destruct (exec_inv (queue_env env) part (queue_view w)) as (o & q & Q' & _ & HI);
    [apply Hw|by eapply part_of_sized|].
  rewrite Q in Q'. injection Q' as <- <-. by split; [apply HI|].
Qed.

Lemma refine_exec acts w : whole_inv w → Forall sized_post acts → ∃ o w' parts,
  proxy_exec env acts w = (o, w') ∧ Forall2 part_of parts acts ∧
  exec (queue_env env) (concat parts) (queue_view w) = (o, queue_view w') ∧
  faults_unready o (queues (st w')) ∧ (o = Done () → whole_inv w').
Proof.
  intros Hw Hs. revert w Hw. induction Hs as [|a acts Ha Hs IH]; intros w Hw.
  { exists (Done ()), w, []. split_and!; [done..|by left|done]. }
  destruct (refine_act a w Hw Ha) as (w1 & part & [(E1 & Q1 & Hp & _)|(_ & _ & Hr & E1 & Q1 & Hp)]).
  - destruct (refine_done a w w1 Hw Ha E1) as (_ & _ & Hw1).
    destruct (IH w1 Hw1) as (o & w2 & parts & E2 & Hps & Q2 & Ho & Hw2).
    exists o, w2, (part :: parts). split_and!; [|by constructor| |done..].
    + unfold proxy_exec. cbn. by rewrite (bind_done _ _ _ _ _ E1).
    + cbn. unfold exec in *. rewrite for_each_app. by rewrite (bind_done _ _ _ _ _ Q1).
  - assert (∃ parts, Forall2 part_of parts acts) as [parts Hps].
    { clear. induction acts as [|a acts [parts IH]]; [by exists []|].
      destruct (some_part a) as [part ?]. exists (part :: parts). by constructor. }
    exists (Fault NullDeref), w1, (part :: parts). split_and!; [|by constructor| |by right|done].
    + unfold proxy_exec. cbn. unfold mbind, M_bind. by rewrite E1.
    + cbn. unfold exec in *. rewrite for_each_app. unfold mbind, M_bind. by rewrite Q1.
Qed.

(** The same of a run that returns. *)
Lemma refine_exec_done acts w w' : whole_inv w → Forall sized_post acts →
  proxy_exec env acts w = (Done (), w') → ∃ parts, Forall2 part_of parts acts ∧
  exec (queue_env env) (concat parts) (queue_view w) = (Done (), queue_view w') ∧ whole_inv w'.
Proof.
  intros Hw Hs E. destruct (refine_exec acts w Hw Hs) as (o & w1 & parts & E1 & Hp & Q & _ & Hw1).
  rewrite E in E1. injection E1 as <- <-. exists parts. split_and!; [done..|by apply Hw1].
Qed.

Lemma start_inv run start reset names lists :
  whole_inv (World (Proxy_new run start reset names lists) []).
Proof. split; [|done]. by apply init_inv. Qed.

(** C20: the whole proxy refines its queues. In every run of the proxy from its
    construction, whatever calls of the framework, initialisations, calls of the sub-HALs
    and sections of the threads interleave, every step returns, or the run stops with the
    null dereference of a post while the event queue, or its flag, is missing; and what the
    run does to the queues is a run of the queues, with the same outcome, in which each step
    is the queues' part of a step of the whole, in the same order. *)
Theorem proxy_refines_queues run start reset names lists acts :
  Forall sized_post acts →
  let w0 := World (Proxy_new run start reset names lists) [] in
  ∃ o w parts, proxy_exec env acts w0 = (o, w) ∧ faults_unready o (queues (st w)) ∧
    Forall2 part_of parts acts ∧
    exec (queue_env env) (concat parts)
      (World (Queues_init run start reset (HalProxy.mSensors (HalProxy_new names lists))) [])
    = (o, queue_view w).
Proof.
  intros Hs w0. destruct (refine_exec acts w0) as (o & w & parts & E & Hp & Q & Ho & _);
    [apply start_inv|done|]. by exists o, w, parts.
Qed.

Definition counts_events (a : proxy_action) : Prop :=
  match a with
  | SubHalPost _ n true | SubHalIncrement n => 0 < n
  | SubHalDecrement n _ => 0 ≤ n
  | _ => True
  end.

Definition references (a : proxy_action) : Z :=
  match a with SubHalPost _ n true | SubHalIncrement n => n | _ => 0 end.

Lemma parts_counted parts acts :
  Forall2 part_of parts acts → Forall counts_events acts →
  Forall well_counted (concat parts) ∧
  foldr Z.add 0 (map added_references (concat parts)) = foldr Z.add 0 (map references acts).
Proof.
  intros Hp. induction Hp as [|part a parts acts Hpa Hp IH]; intros Hc; [done|].
  apply Forall_cons in Hc as [Ha Hc]. destruct (IH Hc) as [Hw Hsum].
  destruct a as [| | | | |? ? []|? | | |]; cbn in Hpa, Ha |- *; part_cases Hpa;
    cbn; rewrite ?Hsum; split; try done; by constructor.
Qed.

(** in the whole proxy the kernel's wakelock is held exactly while references are
    counted. Across initialisations, in every run in which each locked post and each scoped
    wakelock counts at least one reference, and fewer than 2^64 in all. *)
Theorem proxy_wakelock_held run start reset names lists acts :
  (∀ t n, readBlocking (queue_env env) t = Some n → 0 ≤ n) →
  Forall sized_post acts → Forall counts_events acts →
  foldr Z.add 0 (map references acts) < 2 ^ 64 →
  ∃ o w, proxy_exec env acts (World (Proxy_new run start reset names lists) []) = (o, w) ∧
    (held (omap to_queue (tr w)) = true ↔ 0 < mWakelockRefCount (wakelock (queues (st w)))) ∧
    0 ≤ mWakelockRefCount (wakelock (queues (st w))) < 2 ^ 64.
Proof.
  intros Hread Hs Hc HB. destruct (refine_exec acts (World (Proxy_new run start reset names lists) []))
    as (o & w & parts & E & Hp & Q & _); [apply start_inv|done|].
  destruct (parts_counted parts acts Hp Hc) as [Hw Hsum].
  destruct (counted_exec (queue_env env) Hread (concat parts) 0
    (queue_view (World (Proxy_new run start reset names lists) []))) as (B & Hh & Hr & HB');
    [done|by rewrite Hsum|by split_and!|].
  rewrite Q in Hh, Hr. exists o, w. split; [done|]. cbn in Hh, Hr.
  rewrite Hh, bool_decide_eq_true. split; [done|lia].
Qed.
End views.

(** ** A run

    Two sub-HALs, of which the second initialises only if [accept]. *)
Definition sample_answer (accept : bool) (i : nat) : Result :=
  match i with 1%nat => if accept then OK else INVALID_OPERATION | _ => OK end.

Definition sample_environment (accept : bool) : environment := {|
  sub_env := sample_env true;
  queue_env := sample_queue true;
  createEventFlag_ok _ := true;
  initialize_answer t :=
    match last t with Some (sub_initialize i) => sample_answer accept i | _ => OK end
|}.

Definition sample_whole : proxy_world :=
  World (Proxy_new true 0 0 ["sensors.a"; "sensors.b"]%string sample_lists) [].

(** An initialisation, a post that does not fit, and the call of another initialisation. *)
Definition sample_busy : list proxy_action :=
  [InitializeCall true; InitializeStep; InitializeStep; InitializeStep; InitializeStep;
   Framework (Activate 0x1000001 true); SubHalIncrement 1;
   SubHalPost (map sample_event [0x1000001; 0x1000001]) 2 true; WriterThread; WakelockThread;
   InitializeCall false].

Definition sample_stop : list proxy_action :=
  [WriterThread; WakelockThread; WriterThread; SubHalDecrement 1 0; WriterThread; WriterThread;
   WakelockThread].

(** What the runs below end in, where they are evaluated. *)
Definition after (accept : bool) (acts : list proxy_action) : proxy_world :=
  (proxy_exec (sample_environment accept) acts sample_whole).2.

Lemma sample_busy_runs accept :
  proxy_exec (sample_environment accept) [InitializeCall true] sample_whole
    = (Done (), after accept [InitializeCall true]) ∧
  proxy_exec (sample_environment true) sample_busy sample_whole = (Done (), after true sample_busy).
Proof. split; vm_compute; [by destruct accept|reflexivity]. Qed.

Lemma same_world {W} {m : M W unit} {w w1 w2} :
  m w = (Done (), w1) → m w = (Done (), w2) → w1 = w2.
Proof. intros E1 E2. rewrite E1 in E2. by injection E2. Qed.

Lemma sample_sized : Forall sized_post (sample_busy ++ sample_stop).
Proof. by repeat constructor. Qed.

Example proxy_refines_queues_witness : ∃ parts,
  Forall2 part_of parts sample_busy ∧
  exec (sample_queue true) (concat parts) (queue_view sample_whole)
  = (Done (), queue_view (after true sample_busy)).
Proof.
  destruct (proxy_refines_queues (sample_environment true) true 0 0
    ["sensors.a"; "sensors.b"]%string sample_lists sample_busy) as (o & w & parts & E & _ & Hp & Q);
    [by repeat constructor|].
  pose proof (f_equal fst (eq_trans (eq_sym (proj2 (sample_busy_runs true))) E)) as E'.
    cbn in E'. subst o.
  exists parts. split; [exact Hp|].
  rewrite (same_world (proj2 (sample_busy_runs true)) E). exact Q.
Defined.

Example proxy_wakelock_held_witness :
  held (omap to_queue (tr (after true sample_busy))) = true ∧
  mWakelockRefCount (wakelock (queues (st (after true sample_busy)))) = 3.
Proof.
  destruct (proxy_wakelock_held (sample_environment true) true 0 0
    ["sensors.a"; "sensors.b"]%string sample_lists sample_busy) as (o & w & E & Hheld & _).
  - by intros t n [= <-].
  - by repeat constructor.
  - by repeat constructor.
  - done.
  - pose proof (f_equal fst (eq_trans (eq_sym (proj2 (sample_busy_runs true))) E)) as E'.
    cbn in E'. subst o.
    rewrite (same_world (proj2 (sample_busy_runs true)) E) in *.
    split; [apply Hheld|]; rewrite <- (same_world (proj2 (sample_busy_runs true)) E); by vm_compute.
Defined.
