(* ===== verification/ProxyInit.v ===== *)
(** * Stopping and initialising the proxy

    Of the whole proxy ([Proxy.v], [ProxyRuns.v]): when stopping the threads terminates and
    when it does not, and what [initialize] answers and leaves behind on every branch. *)

From S2P Require Import Prelude Words Handles SensorTypes HalProxy EventQueue Wakelock Proxy.
From S2P Require Import ProxyRuns.

(** ** Stopping the threads

    How many sections each thread has left once it is to stop, if it is not asleep nor about
    to sleep. *)
Definition writer_left (pc : writer_pc) : nat :=
  match pc with
  | WriterExited => 0 | WriterIdle => 1 | Written _ => 2 | WriteFailed _ _ => 3 | Writing _ _ => 4
  | WriterChecked | WriterWaiting => 0
  end.

Definition waker_left (pc : waker_pc) : nat :=
  match pc with
  | WakerExited => 0 | WakerIdle => 1 | Reading _ => 2 | WakerChecked | WakerWaiting => 0
  end.

Definition writer_sleeps (pc : writer_pc) : bool :=
  match pc with WriterChecked | WriterWaiting => true | _ => false end.

Definition waker_sleeps (pc : waker_pc) : bool :=
  match pc with WakerChecked | WakerWaiting => true | _ => false end.

Definition awake (x : Queues) : Prop :=
  writer_sleeps (writer x) = false ∧ waker_sleeps (waker x) = false.

Definition sections (which : action → bool) (acts : list action) : nat :=
  length (List.filter which acts).

Definition is_writer (a : action) : bool := match a with Writer => true | _ => false end.
Definition is_waker (a : action) : bool := match a with Waker => true | _ => false end.

Section stopping.
Context `{C : SensorsConstants} {laws : SensorsLaws C} (env : queue_environment).

Abbreviation world_t := (world Queues EventQueue.queue_call).

(** The program counters only change in the threads' own sections. *)
Definition at_pcs (pw : writer_pc) (pk : waker_pc) : world_t → Prop :=
  of_state (λ x, writer x = pw ∧ waker x = pk).

Lemma pcs_count pw pk events n : preserves (at_pcs pw pk) (countNumWakeupEvents events n).
Proof.
  revert events. induction n as [|n IH]; intros [|e events]; cbn;
    repeat (prog_step || (apply preserves_modify; by intros)); apply IH.
Qed.

Lemma pcs_woken pw pk f :
  writer_sleeps pw = false → waker_sleeps pk = false →
  f = wake_writer ∨ f = wake_waker ∨ f = wake_writer_locked ∨ f = wake_waker_locked →
  preserves (at_pcs pw pk) (modify f).
Proof.
  intros Hw Hk Hf. apply preserves_modify. intros x [<- <-]. revert Hw Hk.
  destruct_or? Hf; subst f; unfold wake_writer, wake_waker, wake_writer_locked, wake_waker_locked;
    by destruct (writer x) eqn:E1, (waker x) eqn:E2; cbn; rewrite ?E1, ?E2.
Qed.

Lemma pcs_act pw pk a :
  writer_sleeps pw = false → waker_sleeps pk = false →
  is_writer a = false → is_waker a = false → initializes a = false →
  preserves (at_pcs pw pk) (act env a).
Proof.
  intros Hpw Hpk. destruct a; try done; intros; cbn [act]; unfold postEventsToMessageQueue,
    write_now, incrementRefCountAndMaybeAcquireWakelock, decrementRefCountAndMaybeReleaseWakelock;
    by repeat (prog_step || (apply preserves_modify; by intros)
      || (apply pcs_woken; [done|done|tauto])).
Qed.
Lemma pcs_decrement pw pk delta start :
  preserves (at_pcs pw pk) (decrementRefCountAndMaybeReleaseWakelock delta start).
Proof.
  unfold decrementRefCountAndMaybeReleaseWakelock.
  by repeat (prog_step || (apply preserves_modify; by intros)).
Qed.

(** No thread falls asleep, and the sections left, one of which may be taken. *)
Definition left_after (a : action) (w w' : world_t) : Prop :=
  awake (st w') ∧
  (writer_left (writer (st w')) ≤
    if is_writer a then pred (writer_left (writer (st w))) else writer_left (writer (st w)))%nat ∧
  (waker_left (waker (st w')) ≤
    if is_waker a then pred (waker_left (waker (st w))) else waker_left (waker (st w)))%nat.

Lemma left_pcs a w w' pw pk :
  at_pcs pw pk w' → awake (st w) → writer_sleeps pw = false → waker_sleeps pk = false →
  (writer_left pw ≤ if is_writer a then pred (writer_left (writer (st w)))
                    else writer_left (writer (st w)))%nat →
  (waker_left pk ≤ if is_waker a then pred (waker_left (waker (st w)))
                   else waker_left (waker (st w)))%nat →
  left_after a w w'.
Proof. intros [E1 E2] _ ????. unfold left_after, awake. by rewrite E1, E2. Qed.

Ltac left_by H :=
  eapply left_pcs; [by split|..]; cbn; rewrite ?H; cbn; first [done|lia].

Lemma writer_stops w w' :
  mThreadsRun (st w) = false → awake (st w) → handlePendingWrites env w = (Done (), w') →
  left_after Writer w w'.
Proof.
  intros Hr Ha. pose proof Ha as [Hwr Hwk]. unfold handlePendingWrites. rewrite bind_gets.
  cbn [id].
  destruct (writer (st w)) as [| | |nw k|nw k|k|] eqn:Hw; try done.
  - rewrite Hr. intros [= <-].
    left_by Hw.
  - destruct (mPendingWriteEventsQueue (pending (st w))) as [|[events n] q]; [done|].
    run. intros [= <-]. destruct (writeBlocking_ok _ _); left_by Hw.
  - destruct (mPendingWriteEventsQueue (pending (st w))) as [|[events n] q]; [done|].
    intros ([] & w1 & E1 & [= <-])%bind_inv.
    assert (at_pcs (WriteFailed nw k) (waker (st w)) w1) as [? Hk].
    { refine (hoare_preserves _ _ _ w () w1 _ E1); [|by split].
      repeat (prog_step || apply pcs_count || apply pcs_decrement). }
    left_by Hw.
  - destruct (mPendingWriteEventsQueue (pending (st w))) as [|[events n] q]; [done|].
    run. intros [= <-]. left_by Hw.
  - intros [= <-]. left_by Hw.
Qed.

Lemma waker_stops w w' :
  mThreadsRun (st w) = false → awake (st w) → handleWakelocks env w = (Done (), w') →
  left_after Waker w w'.
Proof.
  intros Hr Ha. pose proof Ha as [Hwr Hwk]. unfold handleWakelocks. rewrite bind_gets. cbn [id].
  destruct (waker (st w)) as [| | |left|] eqn:Hw; try done.
  - rewrite Hr. intros ([] & w1 & E1 & [= <-])%bind_inv.
    assert (at_pcs (writer (st w)) WakerIdle w1) as [Hp ?].
    { refine (hoare_preserves _ _ _ w () w1 _ E1); [|by split]. unfold resetSharedWakelock.
      repeat (prog_step || apply pcs_decrement || (apply preserves_modify; by intros)). }
    left_by Hw.
  - intros (n & w1 & E0 & ([] & w2 & E1 & [= <-])%bind_inv)%bind_inv. injection E0 as <- <-.
    assert (at_pcs (writer (st w)) (Reading left) w2) as [Hp ?].
    { refine (hoare_preserves _ _ _ w () w2 _ E1); [|by split].
      repeat (prog_step || apply pcs_decrement). }
    left_by Hw.
  - intros [= <-]. left_by Hw.
Qed.

Lemma stopping_act a w w' :
  initializes a = false → mThreadsRun (st w) = false → awake (st w) →
  act env a w = (Done (), w') → left_after a w w'.
Proof.
  intros Ha Hr Hawake E.
  assert (is_writer a = false → is_waker a = false → left_after a w w') as Hother.
  { intros Hwr Hwk. pose proof Hawake as [H1 H2].
    apply (left_pcs a w w' (writer (st w)) (waker (st w))); [|done..|by rewrite Hwr|by rewrite Hwk].
    refine (hoare_preserves _ _ _ w () w' _ E); [|by split]. by apply pcs_act. }
  destruct a; try (by apply Hother); [by apply writer_stops|by apply waker_stops].
Qed.

Lemma stopping_exec acts w w' :
  mThreadsRun (st w) = false → awake (st w) → Forall (λ a, initializes a = false) acts →
  exec env acts w = (Done (), w') →
    (writer_left (writer (st w')) ≤ writer_left (writer (st w)) - sections is_writer acts)%nat ∧
    (waker_left (waker (st w')) ≤ waker_left (waker (st w)) - sections is_waker acts)%nat ∧
    awake (st w').
Proof.
  intros Hr Hawake Hn. revert w Hr Hawake. induction Hn as [|a acts Ha Hn IH]; intros w Hr Hawake.
  { intros [= <-]. cbn. split; [lia|]. split; [lia|done]. }
  unfold exec. cbn [for_each]. intros ([] & w1 & E1 & E2)%bind_inv.
  pose proof (stopping_act a w w1 Ha Hr Hawake E1) as (Hawake1 & Hw1 & Hk1).
  assert (mThreadsRun (st w1) = false) as Hr1.
  { destruct (frozen_act env (mWakelockRefCount (wakelock (st w))) (held (tr w)) a Ha w)
      as (Hr1 & _); [done|]. by rewrite E1 in Hr1. }
  destruct (IH w1 Hr1 Hawake1 E2) as (Hw2 & Hk2 & ?). unfold sections in *. cbn.
  split; [|split; [|done]]; destruct (is_writer a), (is_waker a); cbn in *; lia.
Qed.

(** ** A notification that is lost *)

(** The threads are to stop, and one that is asleep, or about to sleep, stays so: the wakelock
    thread whatever happens but another [Stop], the writer if nothing is posted either. *)
Definition waker_stuck : world_t → Prop :=
  of_state (λ x, mThreadsRun x = false ∧ waker_sleeps (waker x) = true).

Definition writer_stuck : world_t → Prop :=
  of_state (λ x, mThreadsRun x = false ∧ writer_sleeps (writer x) = true).

Definition stops_threads (a : action) : bool := match a with Stop => true | _ => false end.

Lemma increment_stopped delta w : mThreadsRun (st w) = false →
  incrementRefCountAndMaybeAcquireWakelock env delta w = (Done None, w).
Proof. intros Hr. unfold incrementRefCountAndMaybeAcquireWakelock. by rewrite bind_gets, Hr. Qed.

Lemma decrement_stopped delta start w : mThreadsRun (st w) = false →
  decrementRefCountAndMaybeReleaseWakelock delta start w = (Done (), w).
Proof. intros Hr. unfold decrementRefCountAndMaybeReleaseWakelock. by rewrite bind_gets, Hr. Qed.

Section stuck.
Context (P : Queues → Prop).

Lemma stuck_increment delta :
  preserves (of_state (λ x, mThreadsRun x = false ∧ P x))
    (incrementRefCountAndMaybeAcquireWakelock env delta).
Proof. intros w Hw. rewrite increment_stopped by apply Hw. done. Qed.

Lemma stuck_decrement delta start :
  preserves (of_state (λ x, mThreadsRun x = false ∧ P x))
    (decrementRefCountAndMaybeReleaseWakelock delta start).
Proof. intros w Hw. rewrite decrement_stopped by apply Hw. done. Qed.
End stuck.

Lemma stuck_count (pcs : writer_pc → waker_pc → bool) events n :
  preserves (of_state (λ x, mThreadsRun x = false ∧ pcs (writer x) (waker x) = true))
    (countNumWakeupEvents events n).
Proof.
  revert events. induction n as [|n IH]; intros [|e events]; cbn;
    repeat (prog_step || (apply preserves_modify; by intros)); apply IH.
Qed.

Ltac solve_stuck :=
  repeat (prog_step || apply stuck_increment || apply stuck_decrement
    || apply (stuck_count (λ _ pk, waker_sleeps pk)) || apply (stuck_count (λ pw _, writer_sleeps pw))
    || (apply preserves_modify; intros x [Hr Hs]; (by split) ||
        (by unfold wake_writer_locked; destruct (writer x); split)
       )).

Lemma waker_stuck_act a : stops_threads a = false → preserves waker_stuck (act env a).
Proof.
  intros Ha. unfold waker_stuck. destruct a; try done; cbn [act];
    unfold postEventsToMessageQueue, write_now.
  1-3: solve_stuck.
  - unfold handlePendingWrites. solve_stuck.
  - intros w Hw. pose proof Hw as [Hr Hs]. unfold handleWakelocks. rewrite bind_gets. cbn [id].
    by destruct (waker (st w)) eqn:E; try done; split.
  - intros w Hw. pose proof Hw as [Hr Hs]. rewrite bind_gets. cbn [id].
    by destruct (writer (st w)), (waker (st w)).
Qed.

Lemma writer_stuck_act a :
  stops_threads a = false → posts a = false → preserves writer_stuck (act env a).
Proof.
  intros Ha Hp. unfold writer_stuck. destruct a; try done; cbn [act].
  1-2: solve_stuck.
  - intros w Hw. pose proof Hw as [Hr Hs]. unfold handlePendingWrites. rewrite bind_gets. cbn [id].
    by destruct (writer (st w)) eqn:E, (mPendingWriteEventsQueue (pending (st w))); try done; split.
  - unfold handleWakelocks, sharedWakelockDidTimeout, resetSharedWakelock. solve_stuck.
  - intros w Hw. pose proof Hw as [Hr Hs]. rewrite bind_gets. cbn [id].
    by destruct (writer (st w)), (waker (st w)).
Qed.
End stopping.

Section init.
Context `{C : SensorsConstants} {laws : SensorsLaws C} (env : environment).

(** ** Stopping terminates *)

Definition threads_of (which : proxy_action → bool) (acts : list proxy_action) : nat :=
  length (List.filter which acts).

Definition runs_writer (a : proxy_action) : bool :=
  match a with WriterThread => true | _ => false end.
Definition runs_waker (a : proxy_action) : bool :=
  match a with WakelockThread => true | _ => false end.

Lemma sections_app which l1 l2 :
  sections which (l1 ++ l2) = (sections which l1 + sections which l2)%nat.
Proof. unfold sections. by rewrite List.filter_app, length_app. Qed.

Lemma parts_sections parts acts :
  Forall2 part_of parts acts →
  sections is_writer (concat parts) = threads_of runs_writer acts ∧
  sections is_waker (concat parts) = threads_of runs_waker acts.
Proof.
  intros Hp. induction Hp as [|part a parts acts Hpa Hp [IH1 IH2]]; [done|].
  cbn [concat]. rewrite !sections_app, IH1, IH2. unfold threads_of. cbn.
  destruct a; cbn in Hpa; by part_cases Hpa.
Qed.

Lemma parts_no_initialize parts acts :
  Forall2 part_of parts acts → Forall (.≠ InitializeStep) acts →
  Forall (λ a, initializes a = false) (concat parts).
Proof.
  intros Hp. induction Hp as [|part a parts acts Hpa Hp IH]; intros Ha; [done|].
  apply Forall_cons in Ha as [Ha Hacts]. cbn. apply Forall_app. split; [|by apply IH].
  destruct a; cbn in Hpa; try done; part_cases Hpa; by repeat constructor.
Qed.

Lemma zoom_initializer {A} (m : M hal_world A) (mq : M queue_world A) w :
  initializer (st (in_hal m w).2) = initializer (st w) ∧
  initializer (st (in_queue mq w).2) = initializer (st w).
Proof.
  unfold in_hal, in_queue, zoom.
  by destruct (m (hal_view w)) as [? ?], (mq (queue_view w)) as [? ?].
Qed.

(** A call of the framework waits while the initialisation is in the joins. *)
Lemma joining_stays acts w w' args :
  initializer (st w) = Joining args → Forall (.≠ InitializeStep) acts →
  proxy_exec env acts w = (Done (), w') → initializer (st w') = Joining args.
Proof.
  intros Hi Ha. revert w Hi. induction Ha as [|a acts Ha Hacts IH]; intros w Hi;
    [by intros [= <-]|].
  intros ([] & w1 & E1 & E2)%bind_inv. apply (IH w1); [|done].
  replace w1 with (proxy_act env a w).2 by (by rewrite E1). rewrite <- Hi.
  destruct a; cbn; try (rewrite bind_gets, Hi; done); try done;
    (apply (zoom_initializer (mret ())) || apply (zoom_initializer _ (mret ()))).
Qed.

Lemma stopped_pcs m x :
  let x' := wake_writer (wake_waker (with_threads false (with_sensors m x))) in
  mThreadsRun x' = false ∧ writer x' = writer (wake_writer x) ∧
  waker x' = waker (wake_waker x).
Proof. destruct x as [?????? [] []]; cbn; by split_and!. Qed.

(** What the call does: the threads are to stop, and those that are asleep are awake. *)
Lemma initialize_call b w :
  initializer (st w) = NotInitializing → ∃ w1,
    proxy_act env (InitializeCall b) w = (Done (), w1) ∧
    initializer (st w1) = Joining no_null ∧ mThreadsRun (queues (st w1)) = false ∧
    writer (queues (st w1)) = writer (wake_writer (queues (st w))) ∧
    waker (queues (st w1)) = waker (wake_waker (queues (st w))).
Proof.
  intros Hi. destruct (stopThreads_mirrors env w _ eq_refl) as ([] & w1 & E & Hv & _).
  exists (World (with_initializer (Joining no_null) (st w1)) (tr w1)). split.
  { cbn [proxy_act]. rewrite bind_gets, Hi. destruct b; unfold Proxy.initialize, initialize_2_1,
      initialize_start; by rewrite (bind_done _ _ _ _ _ E). }
  split; [done|].
  pose proof (f_equal (λ q, mThreadsRun (st q)) Hv) as Hr.
  pose proof (f_equal (λ q, writer (st q)) Hv) as Hw.
  pose proof (f_equal (λ q, waker (st q)) Hv) as Hk. cbn in Hr, Hw, Hk |- *.
  rewrite Hr, Hw, Hk. apply stopped_pcs.
Qed.

(** C25: stopping the threads terminates, if neither of them is just about to sleep. From
    every reachable state of the proxy: when [initialize] is called while no thread is
    between finding its predicate false and being asleep, then, whatever the sub-HALs do
    meanwhile and in whatever order the threads run, once the writer has had four sections
    and the wakelock thread two, both have exited, and the initialisation goes on; unless the
    run stops at a post of a sub-HAL without the event queue or its flag. *)
Theorem stopThreads_terminates run start reset names lists before acts w b :
  Forall sized_post (before ++ acts) →
  proxy_exec env before (World (Proxy_new run start reset names lists) []) = (Done (), w) →
  initializer (st w) = NotInitializing →
  writer (queues (st w)) ≠ WriterChecked → waker (queues (st w)) ≠ WakerChecked →
  Forall (.≠ InitializeStep) acts →
  (4 ≤ threads_of runs_writer acts)%nat → (2 ≤ threads_of runs_waker acts)%nat →
  ∃ o w', proxy_exec env (InitializeCall b :: acts) w = (o, w') ∧
    (o = Fault NullDeref ∧ ready (queues (st w')) = false ∨
     o = Done () ∧ ∃ w'' result, proxy_act env InitializeStep w' = (Done (), w'') ∧
       initializer (st w'') = InitializingSubHals 0 result).
Proof.
  intros [Hb Hs]%Forall_app E Hi Hw1 Hk1 Hn Hwr Hwk.
  destruct (refine_exec_done env before _ w (start_inv env run start reset names lists) Hb E)
    as (_ & _ & _ & Hw).
  destruct (initialize_call b w Hi) as (w1 & E1 & Hi1 & Hr & Ew & Ek).
  destruct (refine_done env (InitializeCall b) w w1 Hw I E1) as (_ & _ & Hwi1).
  destruct (refine_exec env acts w1 Hwi1 Hs) as (o & w' & parts & E' & Hp & Q & Ho & _).
  exists o, w'. split; [by unfold proxy_exec; cbn [for_each]; rewrite (bind_done _ _ _ _ _ E1)|].
  destruct Ho as [->|[-> Ho]]; [right; split; [done|]|by left].
  pose proof (joining_stays acts w1 w' no_null Hi1 Hn E') as Hi'.
  destruct (parts_sections parts acts Hp) as [S1 S2].
  destruct (stopping_exec (queue_env env) (concat parts) (queue_view w1) (queue_view w'))
    as (L1 & L2 & A1 & A2); [done| |by eapply parts_no_initialize|done|].
  { unfold awake. cbn. rewrite Ew, Ek. unfold wake_writer, wake_waker.
    destruct (writer (queues (st w))) eqn:K1, (waker (queues (st w))) eqn:K2; cbn;
      by rewrite ?K1, ?K2. }
  cbn in L1, L2, A1, A2.
  assert (joinable_done (st w') = true) as Hj.
  { unfold joinable_done. rewrite S1 in L1. rewrite S2 in L2.
    assert (writer_left (writer (queues (st w1))) ≤ 4 ∧ waker_left (waker (queues (st w1))) ≤ 2)%nat
      as [B1 B2] by (split; [destruct (writer (queues (st w1)))|destruct (waker (queues (st w1)))];
        cbn; lia).
    destruct (writer (queues (st w'))), (waker (queues (st w'))); cbn in *; (done || lia). }
  destruct (initializeCommon_run env w') as (e & k & w'' & E'' & _ & _ & Hi'' & _).
  exists w''. eexists. split; [|done]. cbn. unfold initialize_step.
  rewrite bind_gets. cbn. by rewrite Hi', Hj.
Qed.

Lemma sleeping_not_joined x :
  writer_sleeps (writer (queues x)) = true ∨ waker_sleeps (waker (queues x)) = true →
  joinable_done x = false.
Proof.
  unfold joinable_done. by destruct (writer (queues x)), (waker (queues x)); intros [|].
Qed.

(** In the joins, with a thread that sleeps for good. *)
Definition hangs (P : world Queues EventQueue.queue_call → Prop) (w : proxy_world) : Prop :=
  (∃ args, initializer (st w) = Joining args) ∧ joinable_done (st w) = false ∧ P (queue_view w).

Lemma hangs_act (P : world Queues EventQueue.queue_call → Prop) a :
  (∀ q, P q → writer_sleeps (writer (st q)) = true ∨ waker_sleeps (waker (st q)) = true) →
  (∀ b, is_post a = posts b → stops_threads b = false → preserves P (act (queue_env env) b)) →
  preserves (hangs P) (proxy_act env a).
Proof.
  intros Hsleep Hact w Hw. pose proof Hw as ([args Hi] & Hj & HP).
  assert (∀ b, is_post a = posts b → stops_threads b = false →
    proxy_act env a = in_queue (act (queue_env env) b) → hangs P (proxy_act env a w).2) as Hqueue.
  { intros b Hb Hs Ea. rewrite Ea. specialize (Hact b Hb Hs _ HP).
    destruct (in_queue_view (act (queue_env env) b) w (logs_act env b)) as [_ Hv].
    rewrite <- Hv in Hact. split; [|split; [|done]].
    - exists args. rewrite <- Hi. apply (zoom_initializer (mret ())).
    - apply sleeping_not_joined. exact (Hsleep _ Hact). }
  assert (∀ m : M hal_world unit, harmless m → hangs P (in_hal m w).2) as Hhal.
  { intros m Hm. destruct (in_hal_done m w Hm) as (? & w' & -> & Hv & _ & Hq & Hi' & _).
    cbn [snd]. split; [exists args; by rewrite Hi'|]. split; [by unfold joinable_done; rewrite Hq|].
    by rewrite Hv. }
  destruct a as [op|b| |added i|removed i|events n locked|delta|delta start| |];
    cbn [proxy_act]; try (rewrite bind_gets, Hi; exact Hw).
  - unfold initialize_step. rewrite bind_gets. cbn [id]. by rewrite Hi, Hj.
  - apply Hhal, harmless_connected.
  - apply Hhal, harmless_disconnected.
  - by apply (Hqueue (Post events n locked)).
  - by apply (Hqueue (Increment delta)).
  - by apply (Hqueue (Decrement delta start)).
  - by apply (Hqueue Writer).
  - by apply (Hqueue Waker).
Qed.

Lemma hangs_exec P acts w w' :
  (∀ q, P q → writer_sleeps (writer (st q)) = true ∨ waker_sleeps (waker (st q)) = true) →
  Forall (λ a, ∀ b, is_post a = posts b → stops_threads b = false →
    preserves P (act (queue_env env) b)) acts →
  hangs P w → proxy_exec env acts w = (Done (), w') → hangs P w'.
Proof.
  intros Hsleep Ha. revert w. induction Ha as [|a acts Ha _ IH]; intros w Hw;
    [by intros [= <-]|].
  unfold proxy_exec. cbn [for_each]. intros ([] & w1 & E1 & E2)%bind_inv.
  apply (IH w1); [|done]. pose proof (hangs_act P a Hsleep Ha w Hw) as H1.
  by rewrite E1 in H1.
Qed.

(** C38: a notification of [stopThreads] can get lost, and then it hangs. The flag is cleared
    and the threads are notified without their mutexes: in every state in which
    [initialize] is called while the wakelock thread has found its predicate false and is
    not yet asleep, that thread sleeps on and [initialize] stays in the joins, whatever
    happens afterwards; so it does for the writer, unless a sub-HAL posts something. (Threads
    are not woken without a notification here.) *)
Theorem stopThreads_can_hang b w acts w' :
  initializer (st w) = NotInitializing →
  waker (queues (st w)) = WakerChecked ∨
  writer (queues (st w)) = WriterChecked ∧ Forall (λ a, is_post a = false) acts →
  proxy_exec env (InitializeCall b :: acts) w = (Done (), w') →
  ∃ args, initializer (st w') = Joining args.
Proof.
  intros Hi Hchecked E. destruct (initialize_call b w Hi) as (w1 & E1 & Hi1 & Hr & Ew & Ek).
  revert E. unfold proxy_exec. cbn [for_each]. rewrite (bind_done _ _ _ _ _ E1).
  fold (proxy_exec env acts). intros E. destruct Hchecked as [Hk|[Hw Hp]].
  - unfold wake_waker in Ek. rewrite Hk in Ek. rewrite Hk in Ek.
    apply (hangs_exec waker_stuck acts w1 w'); [by intros q [_ ?]; right| | |done].
    + apply Forall_true. intros a b' _. apply waker_stuck_act.
    + split; [by eexists|]. split; [apply sleeping_not_joined; right; by rewrite Ek|].
      split; [done|]. cbn. by rewrite Ek.
  - unfold wake_writer in Ew. rewrite Hw in Ew. rewrite Hw in Ew.
    apply (hangs_exec writer_stuck acts w1 w'); [by intros q [_ ?]; left| | |done].
    + eapply Forall_impl; [exact Hp|]. intros a Ha b' Hb Hs. apply writer_stuck_act; [done|].
      by rewrite <- Hb.
    + split; [by eexists|]. split; [apply sleeping_not_joined; left; by rewrite Ew|].
      split; [done|]. cbn. by rewrite Ew.
Qed.

(** ** What the initialisation answers *)

Lemma initialize_queues_clears qenv flag (q : queue_world) : ∃ q',
  initialize_queues qenv flag q = (Done (), q') ∧
  mThreadsRun (st q') = true ∧ mPendingWriteEventsQueue (pending (st q')) = [].
Proof.
  unfold initialize_queues. destruct (reset_aside qenv q) as ([] & l & s & pc & t & E & _).
  rewrite (bind_done _ _ _ _ _ E). eexists. by split.
Qed.

(** The state [initialize] ends in. *)
Definition initialized_state (x : Proxy) : Prop :=
  initializer x = NotInitializing ∧ mCurrentOperationMode (hal x) = NORMAL ∧
  mDynamicSensors (hal x) = ∅ ∧ mThreadsRun (queues x) = true ∧
  mPendingWriteEventsQueue (pending (queues x)) = [].

Definition almost_initialized (x : Proxy) : Prop :=
  mDynamicSensors (hal x) = ∅ ∧ mThreadsRun (queues x) = true ∧
  mPendingWriteEventsQueue (pending (queues x)) = [].

Lemma initialize_end_run result w :
  almost_initialized (st w) → ∃ w', initialize_end result w = (Done (), w') ∧
    initialized_state (st w') ∧ init_calls (tr w') = init_calls (tr w) ++ [initialized result].
Proof.
  intros (Hd & Hr & Hp). unfold initialize_end.
  destruct (in_hal_done (modify (set_mode NORMAL)) w) as (? & w1 & E1 & _ & H1 & Q1 & _);
    [by apply harmless_modify|].
  pose proof (in_hal_calls (modify (set_mode NORMAL)) w) as C1. rewrite E1 in C1.
  rewrite (bind_done _ _ _ _ _ E1). eexists. split; [reflexivity|].
  apply (f_equal st) in H1. unfold initialized_state. cbn in *. rewrite H1, Q1. cbn.
  split; [done|]. by rewrite init_calls_app, C1.
Qed.

Section answers.
Context (r : nat → Result)
  (answers : ∀ t i, initialize_answer env (t ++ [sub_initialize i]) = r i).

Lemma initialize_sub_run i result w :
  initializer (st w) = InitializingSubHals i result → almost_initialized (st w) →
  ∃ w', proxy_act env InitializeStep w = (Done (), w') ∧
    if decide (i < length (mSubHalList (hal (st w))))%nat then
      if decide (r i = OK) then
        initializer (st w') = InitializingSubHals (S i) result ∧ almost_initialized (st w') ∧
        mSubHalList (hal (st w')) = mSubHalList (hal (st w)) ∧
        init_calls (tr w') = init_calls (tr w) ++ [sub_initialize i]
      else initialized_state (st w') ∧
        init_calls (tr w') = init_calls (tr w) ++ [sub_initialize i; initialized (r i)]
    else initialized_state (st w') ∧
      init_calls (tr w') = init_calls (tr w) ++ [initialized result].
Proof.
  intros Hi Ha. cbn [proxy_act]. unfold initialize_step. rewrite bind_gets. cbn [id]. rewrite Hi.
  unfold initialize_sub. rewrite bind_gets. case_decide; [|by apply initialize_end_run].
  erewrite bind_done by reflexivity. rewrite answers.
  set (w1 := World (st w) (tr w ++ [sub_initialize i])).
  destruct (decide (r i = OK)) as [Hok|Hno].
  - rewrite decide_False by tauto. eexists. split; [reflexivity|]. split_and!; try done.
    cbn. by rewrite init_calls_app.
  - rewrite decide_True by done. destruct (initialize_end_run (r i) w1 Ha) as (w' & E & Hs & Hc).
    exists w'. split_and!; [exact E|done|]. rewrite Hc. cbn.
    by rewrite init_calls_app, <- app_assoc.
Qed.

Lemma proxy_exec_cons a acts w w1 :
  proxy_act env a w = (Done (), w1) → proxy_exec env (a :: acts) w = proxy_exec env acts w1.
Proof. intros E. unfold proxy_exec. cbn. by rewrite (bind_done _ _ _ _ _ E). Qed.

Lemma initialize_again m w w2 w3 :
  proxy_exec env (repeat InitializeStep m) w = (Done (), w2) →
  proxy_act env InitializeStep w2 = (Done (), w3) →
  proxy_exec env (repeat InitializeStep (m + 1)) w = (Done (), w3).
Proof.
  intros E2 E3. rewrite repeat_app. unfold proxy_exec in *.
  rewrite for_each_app, (bind_done _ _ _ _ _ E2). cbn. by rewrite (bind_done _ _ _ _ _ E3).
Qed.

(** The loop from sub-HAL [i] on, where the next [n] of them succeed. *)
Lemma initialize_loop n i result w :
  initializer (st w) = InitializingSubHals i result → almost_initialized (st w) →
  (∀ j, (i ≤ j < i + n)%nat → r j = OK) → (i + n ≤ length (mSubHalList (hal (st w))))%nat →
  ∃ w', proxy_exec env (repeat InitializeStep n) w = (Done (), w') ∧
    initializer (st w') = InitializingSubHals (i + n) result ∧ almost_initialized (st w') ∧
    mSubHalList (hal (st w')) = mSubHalList (hal (st w)) ∧
    init_calls (tr w') = init_calls (tr w) ++ map sub_initialize (seq i n).
Proof.
  revert i w. induction n as [|n IH]; intros i w Hi Ha Hok Hlen.
  { exists w. rewrite Nat.add_0_r, app_nil_r. by split_and!. }
  destruct (initialize_sub_run i result w Hi Ha) as (w1 & E1 & Hw1).
  rewrite decide_True in Hw1 by lia. rewrite decide_True in Hw1 by (apply Hok; lia).
  destruct Hw1 as (Hi1 & Ha1 & Hl1 & Hc1).
  destruct (IH (S i) w1 Hi1 Ha1) as (w2 & E2 & Hi2 & Ha2 & Hl2 & Hc2);
    [intros; apply Hok; lia|rewrite Hl1; lia|].
  exists w2. cbn [repeat]. rewrite (proxy_exec_cons _ _ _ _ E1). split_and!.
  - done.
  - by rewrite Hi2, Nat.add_succ_r.
  - done.
  - by rewrite Hl2.
  - by rewrite Hc2, Hc1, <- app_assoc.
Qed.

(** C24: what [initialize] answers and does. After the joins, in a reachable state, it
    initialises the sub-HALs in order up to the first that fails. If none does it answers
    OK, or BAD_VALUE if one of the queues' flags could not be made; if sub-HAL [j] is the
    first that fails it answers what that one answered, and the later ones are not
    initialised. In every case it ends with the proxy in the normal mode, without dynamic
    sensors and pending events, and with its threads running. *)
Theorem initialize_outcome run start reset names lists before w args events wakelock :
  Forall sized_post before →
  proxy_exec env before (World (Proxy_new run start reset names lists) []) = (Done (), w) →
  initializer (st w) = Joining args → joinable_done (st w) = true → flags_made env events wakelock →
  let n := length (mSubHalList (hal (st w))) in
  ((∀ i, (i < n)%nat → r i = OK) →
   ∃ w', proxy_exec env (repeat InitializeStep (S (n + 1))) w = (Done (), w') ∧
     initialized_state (st w') ∧
     init_calls (tr w') = init_calls (tr w) ++ map sub_initialize (seq 0 n) ++
       [initialized (if events && wakelock then OK else BAD_VALUE)]) ∧
  (∀ j, (j < n)%nat → r j ≠ OK → (∀ i, (i < j)%nat → r i = OK) →
   ∃ w', proxy_exec env (repeat InitializeStep (S (j + 1))) w = (Done (), w') ∧
     initialized_state (st w') ∧
     init_calls (tr w') = init_calls (tr w) ++ map sub_initialize (seq 0 j) ++
       [sub_initialize j; initialized (r j)]).
Proof.
  intros Hb E Hi Hj Hflags n.
  destruct (refine_exec_done env before _ w (start_inv env run start reset names lists) Hb E)
    as (_ & _ & _ & [_ Ha]). unfold args_given in Ha. rewrite Hi in Ha. destruct Ha as [-> _].
  destruct (initializeCommon_run env w)
    as (e & k & w1 & E1 & Q1 & _ & Hi1 & Hd1 & Hl1 & Hc1 & Hok).
  destruct (Hok _ _ Hflags) as [-> ->].
  assert (proxy_act env InitializeStep w = (Done (), w1)) as F1
    by (cbn; unfold initialize_step; rewrite bind_gets; cbn; by rewrite Hi, Hj).
  assert (almost_initialized (st w1)) as Ha1.
  { destruct (initialize_queues_clears (queue_env env) events (queue_view w)) as (q & Q & Hr & Hp).
    rewrite Q1 in Q. injection Q as <-. by split_and!. }
  assert (∀ m, (∀ i, (i < m)%nat → r i = OK) → (m ≤ n)%nat → ∃ w2,
    proxy_exec env (repeat InitializeStep (S m)) w = (Done (), w2) ∧
    initializer (st w2) = InitializingSubHals m
      (if events && wakelock then OK else BAD_VALUE) ∧ almost_initialized (st w2) ∧
    length (mSubHalList (hal (st w2))) = n ∧
    init_calls (tr w2) = init_calls (tr w) ++ map sub_initialize (seq 0 m)) as Hloop.
  { intros m Hm Hmn. destruct (initialize_loop m 0 _ w1 Hi1 Ha1) as (w2 & E2 & Hi2 & Ha2 & Hl2 & Hc2);
      [intros; apply Hm; lia|by rewrite Hl1|].
    exists w2. cbn [repeat]. rewrite (proxy_exec_cons _ _ _ _ F1). rewrite <- Hc1. split_and!; try done.
    by rewrite Hl2, Hl1. }
  split; [intros Hall|intros j Hjn Hrj Hbefore].
  - destruct (Hloop n Hall (le_n n)) as (w2 & E2 & Hi2 & Ha2 & Hl2 & Hc2).
    destruct (initialize_sub_run n _ w2 Hi2 Ha2) as (w3 & E3 & Hw3).
    rewrite decide_False in Hw3 by lia. destruct Hw3 as [Hs3 Hc3].
    exists w3. split_and!; [exact (initialize_again (S _) _ _ _ E2 E3)|done|]. by rewrite Hc3, Hc2, <- app_assoc.
  - destruct (Hloop j Hbefore ltac:(lia)) as (w2 & E2 & Hi2 & Ha2 & Hl2 & Hc2).
    destruct (initialize_sub_run j _ w2 Hi2 Ha2) as (w3 & E3 & Hw3).
    rewrite decide_True in Hw3 by lia. rewrite decide_False in Hw3 by done.
    destruct Hw3 as [Hs3 Hc3].
    exists w3. split_and!; [exact (initialize_again (S _) _ _ _ E2 E3)|done|]. by rewrite Hc3, Hc2, <- app_assoc.
Qed.
End answers.
End init.

(** With the writer about to write and the wakelock thread in its blocking read. *)
Definition sample_before : list proxy_action := take 10 sample_busy.

Lemma sample_before_runs : proxy_exec (sample_environment true) sample_before sample_whole
  = (Done (), after true sample_before).
Proof. vm_compute. reflexivity. Qed.

Example stopThreads_terminates_witness : ∃ o w',
  proxy_exec (sample_environment true) (InitializeCall false :: sample_stop)
    (after true sample_before) = (o, w') ∧
  (o = Fault NullDeref ∧ ready (queues (st w')) = false ∨
   o = Done () ∧ ∃ w'' result,
     proxy_act (sample_environment true) InitializeStep w' = (Done (), w'') ∧
     initializer (st w'') = InitializingSubHals 0 result).
Proof.
  apply (stopThreads_terminates (sample_environment true) true 0 0
    ["sensors.a"; "sensors.b"]%string sample_lists sample_before sample_stop
    (after true sample_before) false).
  - by repeat constructor.
  - exact sample_before_runs.
  - by vm_compute.
  - by vm_compute.
  - by vm_compute.
  - by repeat constructor.
  - vm_compute. lia.
  - vm_compute. lia.
Defined.

(** The wakelock thread has just started and found no reference. *)
Definition sample_checked : list proxy_action :=
  [InitializeCall true; InitializeStep; InitializeStep; InitializeStep; InitializeStep;
   WakelockThread].

Definition sample_hang : list proxy_action :=
  InitializeCall false :: [WriterThread; WakelockThread; WakelockThread; SubHalIncrement 1;
    WakelockThread; InitializeStep].

Example stopThreads_can_hang_witness : ∃ w' args,
  proxy_exec (sample_environment true) sample_hang (after true sample_checked) = (Done (), w') ∧
  initializer (st w') = Joining args.
Proof.
  destruct (proxy_exec (sample_environment true) sample_hang (after true sample_checked))
    as [o w'] eqn:E.
  assert (o = Done ()) as -> by (vm_compute in E; by injection E as <- _).
  destruct (stopThreads_can_hang (sample_environment true) false (after true sample_checked)
    (tail sample_hang) w') as [args Hi]; [by vm_compute|left; by vm_compute|exact E|].
  exists w', args. split; [reflexivity|exact Hi].
Defined.

(** The second sub-HAL refuses. *)
Example initialize_outcome_witness : ∃ w',
  proxy_exec (sample_environment false) [InitializeStep; InitializeStep; InitializeStep]
    (after false [InitializeCall true]) = (Done (), w') ∧
  initialized_state (st w') ∧
  init_calls (tr w') = [sub_initialize 0; sub_initialize 1; initialized INVALID_OPERATION].
Proof.
  destruct (initialize_outcome (sample_environment false) (sample_answer false)
    ltac:(intros t i; cbn; by rewrite last_snoc) true 0 0
    ["sensors.a"; "sensors.b"]%string sample_lists [InitializeCall true]
    (after false [InitializeCall true]) no_null true true) as [_ Hfails].
  - by repeat constructor.
  - exact (proj1 (sample_busy_runs false)).
  - by vm_compute.
  - by vm_compute.
  - done.
  - destruct (Hfails 1%nat) as (w' & E & Hs & Hc).
    + vm_compute. lia.
    + done.
    + by intros [|i] Hi; [|lia].
    + exists w'. split; [exact E|]. split; [exact Hs|]. rewrite Hc. by vm_compute.
Defined.
