(* ===== verification/ProxyTypes.v ===== *)
(** * The calls of the proxy are well-typed

    Handles are 32-bit integers of two kinds, the framework's, which carry a sub-HAL's index,
    and the sub-HALs' own, which do not. In no run does the proxy mix them up or call a
    sub-HAL it does not have. *)

From S2P Require Import Prelude Words Handles SensorTypes HalProxy EventQueue Proxy ProxyRuns.

(** The handles a call passes to a sub-HAL. *)
Definition typed_op (op : sub_op) : Prop :=
  match op with
  | sub_activate h _ | sub_batch h _ _ | sub_flush h => in_handle h
  | sub_injectSensorData event => in_handle (ev_handle event)
  | sub_configDirectReport h _ _ => h = -1 ∨ in_handle h
  | sub_setOperationMode _ | sub_registerDirectChannel | sub_unregisterDirectChannel _ => True
  end.

(** A call, of a proxy with [n] sub-HALs. *)
Definition typed_call (n : nat) (c : proxy_call) : Prop :=
  match c with
  | sub_call i op => (i < n)%nat ∧ typed_op op
  | cb_onDynamicSensorsConnected sensors => Forall (λ s, in_s 32 (sensorHandle s)) sensors
  | cb_onDynamicSensorsDisconnected handles => Forall (in_s 32) handles
  end.

Section types.
Context `{C : SensorsConstants} {laws : SensorsLaws C} (n : nat).

(** The state: the sub-HAL with direct channels exists, the dynamic sensors are kept under
    their own handles. *)
Definition typed_state (x : HalProxy) : Prop :=
  length (mSubHalList x) = n ∧
  (∀ i, mDirectChannelSubHal x = Some i → (i < n)%nat) ∧
  map_Forall (λ h s, in_s 32 h ∧ sensorHandle s = h) (mDynamicSensors x).

Definition typed (w : hal_world) : Prop := typed_state (st w) ∧ Forall (typed_call n) (tr w).

Lemma typed_modify f :
  (∀ x, typed_state x → typed_state (f x)) → preserves typed (modify f).
Proof. intros Hf w [Hs Ht]. split; [by apply Hf|done]. Qed.

Lemma typed_emit c : typed_call n c → preserves typed (emit c).
Proof. intros Hc w [Hs Ht]. split; [done|]. by apply Forall_app_2, Forall_singleton. Qed.

Lemma typed_sub env i op : (i < n)%nat → typed_op op → preserves typed (sub env i op).
Proof. intros Hi Hop w [Hs Ht]. split; [done|]. by apply Forall_app_2, Forall_singleton. Qed.

Section operations.
Context (env : sub_environment).

Lemma typed_dispatch h op :
  (∀ h, in_handle h → typed_op (op h)) → preserves typed (dispatch env h op).
Proof.
  intros Hop w Hw. unfold dispatch. rewrite bind_gets.
  destruct (isSubHalIndexValid h (st w)) eqn:Hv; [|done].
  apply typed_sub; [|apply Hop, clear_typed|done].
  unfold isSubHalIndexValid in Hv. apply bool_decide_eq_true in Hv.
  destruct Hw as [[Hn _] _]. rewrite Hn in Hv.
  assert (0 ≤ extractSubHalIndex h) by (unfold extractSubHalIndex; apply wrap_u_range; lia). lia.
Qed.

Lemma typed_flip mode i k : (i + k ≤ n)%nat → preserves typed (flip_modes env mode i k) ∧
  ∀ w r j w', flip_modes env mode i k w = (Done (r, j), w') → (j ≤ i + k)%nat.
Proof.
  revert i. induction k as [|k IH]; intros i Hi; cbn.
  - split; [apply preserves_ret|]. intros w r j w' [= <- <- <-]. lia.
  - destruct (IH (S i)) as [Hp Hj]; [lia|]. split.
    + apply preserves_bind; [by apply typed_sub; [lia|]|]. intros r. case_decide; [apply preserves_ret|done].
    + intros w r j w' (r' & w1 & _ & E)%bind_inv. revert E. case_decide.
      * intros [= <- <- <-]. lia.
      * intros E. apply Hj in E. lia.
Qed.

Lemma typed_for_each {A} (body : A → M hal_world unit) l :
  (∀ x, x ∈ l → preserves typed (body x)) → preserves typed (for_each body l).
Proof.
  induction l as [|x l IH]; intros Hb; cbn; [apply preserves_ret|].
  apply preserves_bind; [apply Hb; by left|]. intros _. apply IH. intros y Hy. apply Hb. by right.
Qed.

Lemma typed_mode mode : preserves typed (setOperationMode env mode).
Proof.
  intros w Hw. unfold setOperationMode. rewrite bind_gets.
  assert (length (mSubHalList (st w)) = n) as -> by apply Hw.
  destruct (typed_flip mode 0 n) as [Hp Hj]; [lia|]. specialize (Hp w Hw).
  unfold mbind at 1, M_bind at 1.
  destruct (flip_modes env mode 0 n w) as [[[r j]|] w1] eqn:E; [|done].
  specialize (Hj _ _ _ _ E). revert w1 E Hp. intros w1 _ Hw1. cbn in Hj. apply preserves_bind; [|by intros; apply preserves_ret|done].
  case_decide; [|by apply typed_modify].
  apply typed_for_each. intros i Hi%elem_of_seq.
  repeat (prog_step || (apply typed_sub; [lia|done])).
Qed.

Lemma typed_connected added i : preserves typed (onDynamicSensorsConnected added i).
Proof.
  assert (Forall (λ s, in_s 32 (sensorHandle s)) (mark_sensors i added)) as Hmarked.
  { apply Forall_forall. intros s (s0 & -> & Hs0)%list_elem_of_fmap.
    apply list_elem_of_In, filter_In in Hs0 as [_ Hs0]. apply set_index_typed. by apply index_clear. }
  unfold onDynamicSensorsConnected. apply preserves_bind; [|intros _; by apply typed_emit].
  apply typed_modify. intros x (Hn & Hd & Hm). split_and!; [done..|]. cbn.
  revert Hm. generalize (mDynamicSensors x) as m. unfold insert_sensors. clear x Hn Hd.
  induction Hmarked as [|s l Hs Hl IH]; intros m Hm; cbn; [done|]. apply IH.
  by apply map_Forall_insert_2.
Qed.

Lemma typed_erase i removed m :
  map_Forall (λ h s, in_s 32 h ∧ sensorHandle s = h) m →
  map_Forall (λ h s, in_s 32 h ∧ sensorHandle s = h) (erase_sensors i removed m).1 ∧
  Forall (in_s 32) (erase_sensors i removed m).2.
Proof.
  revert m. induction removed as [|h removed IH]; intros m Hm; cbn; [by split|].
  destruct (subHalIndexIsClear h); [|by apply IH].
  destruct (m !! setSubHalIndex h i) as [s|] eqn:Hs; [|by apply IH].
  destruct (IH (delete (setSubHalIndex h i) m)) as [H1 H2]; [by apply map_Forall_delete|].
  destruct (erase_sensors _ _ _) as [m' hs]. split; [done|]. constructor; [|done].
  by destruct (Hm _ _ Hs).
Qed.

Lemma typed_disconnected removed i : preserves typed (onDynamicSensorsDisconnected removed i).
Proof.
  intros w Hw. unfold onDynamicSensorsDisconnected. rewrite bind_gets.
  destruct (typed_erase i removed (mDynamicSensors (st w))) as [H1 H2]; [apply Hw|].
  apply preserves_bind; [|intros _; by apply typed_emit|done].
  apply typed_modify. by intros x (? & ? & ?).
Qed.

Lemma typed_disable : preserves typed (disableAllSensors env).
Proof.
  unfold disableAllSensors, activate.
  repeat (prog_step || (apply typed_dispatch; by intros)).
Qed.

(** The sub-HAL with direct channels exists. *)
Lemma typed_direct {A} (m : option nat → M hal_world A) :
  preserves typed (m None) → (∀ i, (i < n)%nat → preserves typed (m (Some i))) →
  preserves typed (d ← gets mDirectChannelSubHal; m d).
Proof.
  intros HN HS w Hw. rewrite bind_gets. destruct (mDirectChannelSubHal (st w)) as [i|] eqn:Hd;
    [|by apply HN]. apply HS; [|done]. destruct Hw as [(_ & Hi & _) _]. by apply Hi.
Qed.
End operations.

Lemma typed_framework env op : preserves typed (framework env op).
Proof.
  destruct op as [mode|h b|h p l|h|event| |c|h c stop]; cbn;
    (apply preserves_bind; [|intros _; apply preserves_ret]).
  - apply typed_mode.
  - by apply typed_dispatch.
  - by apply typed_dispatch.
  - by apply typed_dispatch.
  - unfold injectSensorData. apply preserves_bind; [apply preserves_gets|intros m].
    case_decide; [apply preserves_ret|]. by apply typed_dispatch.
  - apply typed_direct; [apply preserves_ret|intros i Hi].
    repeat (prog_step || (apply typed_sub; [lia|done])).
  - apply typed_direct; [apply preserves_ret|intros i Hi]. by apply typed_sub.
  - apply typed_direct; [apply preserves_ret|intros i Hi]. case_decide; [apply preserves_ret|].
    assert (typed_op (sub_configDirectReport
      (if decide (h ≠ -1) then clearSubHalIndex h else h) c stop)) as Hop.
    { cbn. destruct (decide (h ≠ -1)) as [|Hh]; [right; apply clear_typed|].
      left. destruct (decide (h = -1)); tauto. }
    repeat (prog_step || (apply typed_sub; [lia|done])).
Qed.

(** ** The whole *)

Definition typed_whole (w : proxy_world) : Prop := typed (hal_view w).

Lemma whole_hal {A} (m : M hal_world A) :
  harmless m → preserves typed m → preserves typed_whole (in_hal m).
Proof.
  intros Hm Hp w Hw. destruct (in_hal_done m w Hm) as (a & w' & E & _ & Hv & _).
  rewrite E. unfold typed_whole. cbn [snd]. rewrite Hv. by apply Hp.
Qed.

Lemma whole_queue {A} (m : M queue_world A) : preserves typed_whole (in_queue m).
Proof.
  intros w [Hs Ht]. unfold in_queue, zoom. destruct (m (queue_view w)) as [o q].
  split; [exact Hs|]. cbn. rewrite omap_app.
  generalize (drop (length (omap to_queue (tr w))) (tr q)) as l. intros l.
  replace (omap to_hal (map queue_call l)) with (@nil proxy_call) by (by induction l).
  by rewrite app_nil_r.
Qed.

Lemma whole_modify f : (∀ x, hal (f x) = hal x) → preserves typed_whole (modify f).
Proof. intros Hf w [Hs Ht]. split; [|done]. cbn. by rewrite Hf. Qed.

Lemma whole_emit c : to_hal c = None → preserves typed_whole (emit c).
Proof. intros Hc w [Hs Ht]. split; [done|]. cbn. by rewrite omap_app; cbn; rewrite Hc, app_nil_r. Qed.

Lemma whole_call {R} (f : list call → R) c :
  to_hal c = None → preserves typed_whole (Prelude.call f c).
Proof. intros Hc w [Hs Ht]. split; [done|]. cbn. by rewrite omap_app; cbn; rewrite Hc, app_nil_r. Qed.

Ltac solve_whole :=
  repeat (prog_step || match goal with
    | |- preserves typed_whole (in_queue _) => apply whole_queue
    | |- preserves typed_whole (modify _) => by apply whole_modify
    | |- preserves typed_whole (emit _) => by apply whole_emit
    | |- preserves typed_whole (Prelude.call _ _) => by apply whole_call
    end).

Lemma whole_stop : preserves typed_whole stopThreads.
Proof. unfold stopThreads. solve_whole. Qed.

Lemma whole_end result : preserves typed_whole (initialize_end result).
Proof.
  unfold initialize_end. apply preserves_bind; [|intros _; solve_whole].
  apply whole_hal; [by apply harmless_modify|by apply typed_modify].
Qed.

Lemma whole_common env args : preserves typed_whole (initializeCommon env args).
Proof.
  unfold initializeCommon, create_flags. apply preserves_bind; [apply whole_queue|intros _].
  apply preserves_bind; [|intros _].
  { apply whole_hal; [apply harmless_disable|apply typed_disable]. }
  apply preserves_bind; [apply whole_queue|intros _]. apply preserves_bind; [|intros _].
  { apply whole_hal; [by apply harmless_modify|]. apply typed_modify. by intros x (? & ? & ?). }
  solve_whole.
Qed.

Lemma whole_step env : preserves typed_whole (initialize_step env).
Proof.
  unfold initialize_step. apply preserves_bind; [apply preserves_gets|intros x].
  destruct (initializer x) as [|args|i r]; [apply preserves_ret|..].
  - destruct (joinable_done x); [apply whole_common|apply preserves_ret].
  - unfold initialize_sub. solve_whole; apply whole_end.
Qed.

Lemma whole_act env a : preserves typed_whole (proxy_act env a).
Proof.
  destruct a; cbn; try apply whole_queue.
  - apply preserves_bind; [apply preserves_gets|intros []]; [|apply preserves_ret..].
    apply whole_hal; [apply harmless_framework|apply typed_framework].
  - unfold initialize, initialize_2_1, initialize_start.
    repeat (apply whole_stop || (progress solve_whole)).
  - apply whole_step.
  - apply whole_hal; [apply harmless_connected|apply typed_connected].
  - apply whole_hal; [apply harmless_disconnected|apply typed_disconnected].
Qed.
End types.

Section well_typed.
Context `{C : SensorsConstants} {laws : SensorsLaws C} (env : environment).

Lemma initializeSensorList_typed n i lists x :
  typed_state n x → (i + length lists ≤ n)%nat → typed_state n (initializeSensorList i lists x).
Proof.
  revert i x. induction lists as [|l lists IH]; intros i x Hx Hi; cbn in *; [done|].
  apply IH; [|lia]. clear IH. revert x Hx. induction l as [|s l IH]; intros x Hx; cbn; [done|].
  apply IH. unfold add_sensor. destruct (subHalIndexIsClear _); [|done].
  destruct (setDirectChannelFlags _ _ _) as [s' x'] eqn:Hf.
  assert (typed_state n x') as (? & ? & ?); [|done].
  unfold setDirectChannelFlags in Hf. destruct Hx as (Hn & Hd & Hm).
  destruct (mDirectChannelSubHal x) eqn:Hx; repeat case_match; simplify_eq/=; try by split_and!.
  - split_and!; [done| |done]. by rewrite Hx.
  - split_and!; [done| |done]. by rewrite Hx.
  - split_and!; [done| |done]. intros j [= <-]. lia.
  - split_and!; [done| |done]. by rewrite Hx.
Qed.

(** C23: the proxy's calls are well-typed. In every run of the proxy over as many sub-HALs as
    were asked for their sensors, whatever handles, events and indices the framework and
    the sub-HALs pass: each call to a sub-HAL goes to one that exists, with a handle of
    that sub-HAL's own 24 bits (or -1 for all in a direct report), and each handle told to
    the framework is a 32-bit one; the dynamic sensors are kept under their own handles. So
    it is too in a run that stops, which only a post does that misses the event queue or its
    flag. *)
Theorem proxy_calls_typed run start reset names lists acts :
  length lists = length names → Forall sized_post acts →
  ∃ o w, proxy_exec env acts (World (Proxy_new run start reset names lists) []) = (o, w) ∧
    faults_unready o (queues (st w)) ∧
    Forall (typed_call (length names)) (omap to_hal (tr w)) ∧
    typed_state (length names) (hal (st w)).
Proof.
  intros Hlen Hs. destruct (refine_exec env acts (World (Proxy_new run start reset names lists) []))
    as (o & w & _ & E & _ & _ & Ho & _); [apply (start_inv env)|done|].
  exists o, w. split; [done|]. split; [done|].
  assert (typed_whole (length names) w) as [? ?]; [|done].
  replace w with (proxy_exec env acts (World (Proxy_new run start reset names lists) [])).2
    by (by rewrite E).
  refine (preserves_for_each (typed_whole (length names)) (proxy_act env) acts _
    (World (Proxy_new run start reset names lists) []) _); [intros a; apply whole_act|].
  split; [|constructor].
  apply initializeSensorList_typed; [|lia]. split_and!; [done..|]. apply map_Forall_empty.
Qed.
End well_typed.

Example proxy_calls_typed_witness :
  Forall (typed_call 2) (omap to_hal (tr (after true sample_busy))).
Proof.
  destruct (proxy_calls_typed (sample_environment true) true 0 0
    ["sensors.a"; "sensors.b"]%string sample_lists sample_busy) as (o & w & E & _ & Ht & _);
    [done|by repeat constructor|].
  pose proof (f_equal fst (eq_trans (eq_sym (proj2 (sample_busy_runs true))) E)) as E'.
  cbn in E'. subst o.
  rewrite (same_world (proj2 (sample_busy_runs true)) E). exact Ht.
Defined.
