(* ===== verification/Callback.v ===== *)
(** * HalProxyCallback

    [sensors/HalProxyCallback.cpp]: what a sub-HAL posts its events to. It marks them with
    the sub-HAL's index, drops pick-up events that do not report a pick-up, counts the
    wake-up events and passes the rest to the proxy, which it knows by its interface only. *)

From S2P Require Import Prelude Words Handles SensorTypes HalProxy EventQueue Wakelock.

(** The proxy, as the callback sees it. *)
Class IHalProxyCallback (W : Type) : Type := {
  getSensorInfo : Z → W → SensorInfo;
  areThreadsRunning : W → bool;
  post : list Event → Z → bool → M W unit
}.

Section callback.
Context `{C : SensorsConstants} {W : Type} `{!IHalProxyCallback W}.
Context (mSubHalIndex : Z) (asserts : bool).   (* whether [ALOG_ASSERT] is compiled in *)

Fixpoint processEvents (events : list Event) (w : W) : list Event * Z :=
  match events with
  | [] => ([], 0)
  | event :: events' =>
      let event := set_event_handle (setSubHalIndex (ev_handle event) mSubHalIndex) event in
      let sensor := getSensorInfo (ev_handle event) w in
      let (eventsOut, numWakeupEvents) := processEvents events' w in
      if decide (type sensor = PICK_UP_GESTURE ∧ ev_scalar event ≠ 1)
      then (eventsOut, numWakeupEvents)
      else (event :: eventsOut,
            if decide (Z.land (flags sensor) WAKE_UP ≠ 0) then u64 (numWakeupEvents + 1)
            else numWakeupEvents)
  end.

Definition postEvents (events : list Event) (locked : bool) : M W unit := λ w,
  match events with
  | [] => (Done (), w)
  | _ =>
      if areThreadsRunning w then
        let (processedEvents, numWakeupEvents) := processEvents events w in
        if asserts && negb (Bool.eqb (bool_decide (0 < numWakeupEvents)) locked)
        then (Fault CheckFailed, w)
        else post processedEvents numWakeupEvents locked w
      else (Done (), w)
  end.

(** [ScopedWakelock] is the constructor of the library's class, on the callback's reference
    counter. *)
Definition createScopedWakelock {A} (ScopedWakelock : bool → M W A) (lock : bool) : M W A :=
  ScopedWakelock lock.

(** ** What reaches the proxy *)

Definition mark_event (e : Event) : Event :=
  set_event_handle (setSubHalIndex (ev_handle e) mSubHalIndex) e.

Definition suppressed (w : W) (e : Event) : bool :=
  bool_decide (type (getSensorInfo (ev_handle e) w) = PICK_UP_GESTURE ∧ ev_scalar e ≠ 1).

Definition wakes (w : W) (e : Event) : bool :=
  bool_decide (Z.land (flags (getSensorInfo (ev_handle e) w)) WAKE_UP ≠ 0).

Definition passed (w : W) (events : list Event) : list Event :=
  List.filter (λ e, negb (suppressed w e)) (map mark_event events).

Lemma passed_length events w :
  (length (List.filter (wakes w) (passed w events)) ≤ length events)%nat.
Proof.
  etrans; [apply List.filter_length_le|]. unfold passed.
  etrans; [apply List.filter_length_le|]. by rewrite length_map.
Qed.

Lemma processEvents_spec events w :
  Z.of_nat (length events) < 2 ^ 64 →
  processEvents events w
  = (passed w events, Z.of_nat (length (List.filter (wakes w) (passed w events)))).
Proof.
  induction events as [|e events IH]; intros Hlen; [done|]. cbn [processEvents length] in *.
  rewrite IH by lia. pose proof (passed_length events w) as Hle. revert Hle.
  unfold passed. cbn [map List.filter]. fold (mark_event e).
  generalize (List.filter (λ e, negb (suppressed w e)) (map mark_event events)) as out.
  intros out Hle. destruct (decide _) as [Hs|Hs].
  - replace (suppressed w (mark_event e)) with true; [done|].
    symmetry. by apply bool_decide_eq_true.
  - replace (suppressed w (mark_event e)) with false by (symmetry; by apply bool_decide_eq_false).
    cbn [List.filter negb]. destruct (decide _) as [Hw|Hw].
    + replace (wakes w (mark_event e)) with true by (symmetry; by apply bool_decide_eq_true).
      cbn. f_equal. rewrite wrap_u_id; [lia|]. unfold in_u. lia.
    + by replace (wakes w (mark_event e)) with false
        by (symmetry; by apply bool_decide_eq_false).
Qed.

(** what a sub-HAL posts reaches the proxy marked, without the suppressed pick-ups and
    with the exact number of wake-up events. Nothing happens for an empty post or while the
    threads do not run. Otherwise the proxy gets one post: the events in order, each under
    its marked handle, those of the pick-up sensor whose value is not 1 left out, and the
    number of those left whose sensor is a wake-up sensor; except that a build with
    assertions aborts if the wakelock is locked and that number is zero, or the other way
    round. *)
Theorem postEvents_outcome events locked w :
  Z.of_nat (length events) < 2 ^ 64 →
  let n := Z.of_nat (length (List.filter (wakes w) (passed w events))) in
  postEvents events locked w =
    if bool_decide (events = []) || negb (areThreadsRunning w) then (Done (), w)
    else if asserts && negb (Bool.eqb (bool_decide (0 < n)) locked) then (Fault CheckFailed, w)
    else post (passed w events) n locked w.
Proof.
  intros Hlen n. unfold postEvents. destruct events as [|e events]; [done|].
  rewrite bool_decide_eq_false_2 by done. cbn [orb]. destruct (areThreadsRunning w); [|done].
  cbn [negb]. by rewrite processEvents_spec.
Qed.
End callback.

(** ** The callback and the proxy together

    The proxy of [EventQueue.v] behind the interface. [info] stands for [getSensorInfo],
    which is defined in [HalProxy.h]. *)
Section together.
Context `{C : SensorsConstants} (env : queue_environment) (info : Z → SensorInfo).

Definition proxy_callback : IHalProxyCallback (world Queues queue_call) := {|
  getSensorInfo h w := info h;
  areThreadsRunning w := mThreadsRun (st w);
  post events n locked := postEventsToMessageQueue env events n locked
|}.
End together.

(** The sensor with the handle 1 is a pick-up sensor that wakes up. *)
Definition sample_info (h : Z) : SensorInfo :=
  set_handle h (set_type (if decide (h = 1) then 25 else 1) ""
    (set_flags (if decide (h = 1) then 1 else 0) no_sensor)).

Definition pickup_event (v : Z) : Event := scalar_event 1 0 25 v.

(** A clock on which the timeout passes with every call. *)
Definition late_queue : queue_environment := {|
  getTimeNow t := 2000000000 * Z.of_nat (length t);
  availableToWrite _ := 1%nat;
  write_ok _ := true;
  writeBlocking_ok _ := true;
  readBlocking _ := None;
  getQuantumCount := 1%nat
|}.

(** a suppressed pick-up can leave the wakelock held for nothing. In a build without
    assertions, a sub-HAL whose scoped wakelock has timed out posts with it a pick-up
    event that is suppressed: the proxy acquires the kernel's wakelock and counts no
    reference. Then neither the end of the scoped wakelock nor the wakelock thread gives
    it back. *)
Theorem suppressed_pickup_leaks_wakelock :
  let run acts := (exec late_queue acts) in
  let w0 := World (Queues_init true 0 0 ∅) [] in
  let w1 := (run [Initialize true; Increment 1] w0).2 in
  let created := mWakelockTimeoutStartTime (wakelock (st w1)) in
  let w2 := (run [Post [sample_event 5] 0 false; Waker; Waker; Waker] w1).2 in
  let w3 := (postEvents (IHalProxyCallback0 := proxy_callback late_queue sample_info) 0 false
               [pickup_event 0] true w2).2 in
  let w4 := (run [Decrement 1 created; Waker; Waker; Writer] w3).2 in
  mWakelockRefCount (wakelock (st w2)) = 0 ∧ held (tr w2) = false ∧
  held (tr w3) = true ∧ mWakelockRefCount (wakelock (st w4)) = 0 ∧ held (tr w4) = true.
Proof. vm_compute. by split_and!. Qed.

Example postEvents_outcome_witness :
  postEvents (IHalProxyCallback0 := proxy_callback (sample_queue true) sample_info) 0 false
    [pickup_event 0; pickup_event 1; sample_event 7] true
    (World (with_event_queue true true (Queues_init true 0 0 ∅)) [])
  = postEventsToMessageQueue (sample_queue true) [pickup_event 1; sample_event 7] 1 true
      (World (with_event_queue true true (Queues_init true 0 0 ∅)) []).
Proof.
  rewrite (postEvents_outcome (IHalProxyCallback0 := proxy_callback (sample_queue true) sample_info)
    0 false [pickup_event 0; pickup_event 1; sample_event 7]); [|cbn; lia].
  reflexivity.
Defined.
