(* ===== verification/Sensor.v ===== *)
(** * The device's own sensors

    [sensors/Sensor.cpp], [sensors/Sensor.h]: the class [Sensor], its subclass of one-shot
    sensors, and the two sensors of the device, a finger on the fingerprint area and a single
    tap. Each of the two has a thread that polls a node of the touch driver and a pipe that
    interrupts the poll. Calls of the sub-HAL and the sections of the thread (up to the poll,
    the poll, from its return on) are steps that interleave. The pipe has the capacity of a
    pipe of Linux, and a write to a full one does not return. The theorems about their runs
    are in [SensorRuns.v]. *)

From Stdlib Require Import Ascii.
From S2P Require Import Prelude Words Text Handles SensorTypes.

(** ** Nodes *)

(** [readBool]: what [read] gives of the node's first character, [None] where seeking or
    reading fails. *)
Definition readBool (node : option ascii) : bool :=
  match node with Some c => negb (Ascii.eqb c "0") | None => false end.

(** [readFpState]: the text the buffer holds, [None] where seeking or reading fails, and the
    position before; the position after and the result. *)
Definition readFpState (node : option string) (screenX screenY : Z) : Z * Z * bool :=
  match node with
  | None => (screenX, screenY, false)
  | Some buffer =>
      match scan_int 10 buffer with
      | Some (x, String "," rest) =>
          match scan_int 10 rest with
          | Some (y, String "," rest') =>
              match scan_int 10 rest' with
              | Some (state, _) => (i32 x, i32 y, bool_decide (0 < i32 state))
              | None => (i32 x, i32 y, false)
              end
          | Some (y, _) => (i32 x, i32 y, false)
          | None => (i32 x, screenY, false)
          end
      | Some (x, _) => (i32 x, screenY, false)
      | None => (screenX, screenY, false)
      end
  end.

(** The loop of [readCoordinates] over the lines of the file; [rawX] and [rawY] are
    [unsigned int]s. *)
Fixpoint read_lines (lines : list string) (rawX rawY : Z) : outcome (Z * Z) :=
  match lines with
  | [] => Done (rawX, rawY)
  | line :: lines' =>
      let number := stoul16 (String.substring 2 (String.length line - 2) line) in
      if starts_with "x:" line then
        match number with Done n => read_lines lines' (u32 n) rawY | Fault e => Fault e end
      else if starts_with "y:" line then
        match number with Done n => read_lines lines' rawX (u32 n) | Fault e => Fault e end
      else read_lines lines' rawX rawY
  end.

Definition readCoordinates (file : option (list string)) : outcome (Z * Z) :=
  match file with
  | Some lines =>
      match read_lines lines 0 0 with
      | Done (rawX, rawY) => Done (to_float rawX, to_float rawY)
      | Fault e => Fault e
      end
  | None => Done (0, 0)
  end.

(** ** State *)

Inductive SensorKind : Set := UdfpsSensor | SingleTapSensor.

#[global] Instance SensorKind_eq_dec : EqDecision SensorKind.
Proof. solve_decision. Defined.

(** The class an object was constructed as: what its virtual calls resolve to. *)
Inductive sensor_class : Set := SensorBase | OneShotSensor | Derived (k : SensorKind).

#[global] Instance sensor_class_eq_dec : EqDecision sensor_class.
Proof. solve_decision. Defined.

Inductive sensor_pc : Set :=
| Head                                       (* at the loop's head or waiting *)
| Polling                                    (* in [poll], without the mutex *)
| Polled (ok node interrupted : bool)        (* [poll] has returned *)
| Exited.

Record Sensor : Set := {
  class : sensor_class;
  mSensorInfo : SensorInfo;
  mIsEnabled : bool;
  mSamplingPeriodNs : Z;                     (* int64_t *)
  mLastSampleTimeNs : Z;
  mStopThread : bool;
  mMode : OperationMode;
  mWaitPipe : option nat;                    (* the bytes in the pipe, if there is one *)
  mScreenX : Z;
  mScreenY : Z;
  base_run : bool;                           (* whether the thread runs [Sensor::run] *)
  thread : sensor_pc
}.

Section setters.
Context (x : Sensor).
Definition with_class (c : sensor_class) (i : SensorInfo) : Sensor :=
  {| class := c; mSensorInfo := i; mIsEnabled := mIsEnabled x;
     mSamplingPeriodNs := mSamplingPeriodNs x; mLastSampleTimeNs := mLastSampleTimeNs x;
     mStopThread := mStopThread x; mMode := mMode x; mWaitPipe := mWaitPipe x;
     mScreenX := mScreenX x; mScreenY := mScreenY x; base_run := base_run x;
     thread := thread x |}.
Definition with_enabled (b : bool) : Sensor :=
  {| class := class x; mSensorInfo := mSensorInfo x; mIsEnabled := b;
     mSamplingPeriodNs := mSamplingPeriodNs x; mLastSampleTimeNs := mLastSampleTimeNs x;
     mStopThread := mStopThread x; mMode := mMode x; mWaitPipe := mWaitPipe x;
     mScreenX := mScreenX x; mScreenY := mScreenY x; base_run := base_run x;
     thread := thread x |}.
Definition with_period (p : Z) : Sensor :=
  {| class := class x; mSensorInfo := mSensorInfo x; mIsEnabled := mIsEnabled x;
     mSamplingPeriodNs := p; mLastSampleTimeNs := mLastSampleTimeNs x;
     mStopThread := mStopThread x; mMode := mMode x; mWaitPipe := mWaitPipe x;
     mScreenX := mScreenX x; mScreenY := mScreenY x; base_run := base_run x;
     thread := thread x |}.
Definition with_last (t : Z) : Sensor :=
  {| class := class x; mSensorInfo := mSensorInfo x; mIsEnabled := mIsEnabled x;
     mSamplingPeriodNs := mSamplingPeriodNs x; mLastSampleTimeNs := t;
     mStopThread := mStopThread x; mMode := mMode x; mWaitPipe := mWaitPipe x;
     mScreenX := mScreenX x; mScreenY := mScreenY x; base_run := base_run x;
     thread := thread x |}.
Definition with_stop (b : bool) : Sensor :=
  {| class := class x; mSensorInfo := mSensorInfo x; mIsEnabled := mIsEnabled x;
     mSamplingPeriodNs := mSamplingPeriodNs x; mLastSampleTimeNs := mLastSampleTimeNs x;
     mStopThread := b; mMode := mMode x; mWaitPipe := mWaitPipe x;
     mScreenX := mScreenX x; mScreenY := mScreenY x; base_run := base_run x;
     thread := thread x |}.
Definition with_mode (m : OperationMode) : Sensor :=
  {| class := class x; mSensorInfo := mSensorInfo x; mIsEnabled := mIsEnabled x;
     mSamplingPeriodNs := mSamplingPeriodNs x; mLastSampleTimeNs := mLastSampleTimeNs x;
     mStopThread := mStopThread x; mMode := m; mWaitPipe := mWaitPipe x;
     mScreenX := mScreenX x; mScreenY := mScreenY x; base_run := base_run x;
     thread := thread x |}.
Definition with_pipe (p : option nat) : Sensor :=
  {| class := class x; mSensorInfo := mSensorInfo x; mIsEnabled := mIsEnabled x;
     mSamplingPeriodNs := mSamplingPeriodNs x; mLastSampleTimeNs := mLastSampleTimeNs x;
     mStopThread := mStopThread x; mMode := mMode x; mWaitPipe := p;
     mScreenX := mScreenX x; mScreenY := mScreenY x; base_run := base_run x;
     thread := thread x |}.
Definition with_screen (sx sy : Z) : Sensor :=
  {| class := class x; mSensorInfo := mSensorInfo x; mIsEnabled := mIsEnabled x;
     mSamplingPeriodNs := mSamplingPeriodNs x; mLastSampleTimeNs := mLastSampleTimeNs x;
     mStopThread := mStopThread x; mMode := mMode x; mWaitPipe := mWaitPipe x;
     mScreenX := sx; mScreenY := sy; base_run := base_run x; thread := thread x |}.
Definition with_thread (pc : sensor_pc) : Sensor :=
  {| class := class x; mSensorInfo := mSensorInfo x; mIsEnabled := mIsEnabled x;
     mSamplingPeriodNs := mSamplingPeriodNs x; mLastSampleTimeNs := mLastSampleTimeNs x;
     mStopThread := mStopThread x; mMode := mMode x; mWaitPipe := mWaitPipe x;
     mScreenX := mScreenX x; mScreenY := mScreenY x; base_run := base_run x; thread := pc |}.
End setters.

Inductive sensor_call : Set :=
| cb_postEvents (events : list Event) (wakeup : bool)
| notify_all
| pipe_write
| pipe_read.

Record sensor_environment : Type := {
  fp_state : list sensor_call → option string;
  single_tap : list sensor_call → option ascii;
  touch_data : list sensor_call → option (list string);
  clock_gettime : list sensor_call → Z * Z;          (* seconds and nanoseconds *)
  elapsedRealtimeNano : list sensor_call → Z
}.

(** The bytes a pipe holds before a [write] of one more waits for a reader: what Linux gives a
    pipe that is not told otherwise. The descriptors are not set non-blocking. *)
Definition PIPE_CAPACITY : Z := 65536.

(** Whether the interruption of a sensor's poll is written without waiting. *)
Definition roomy (x : Sensor) : Prop :=
  match mWaitPipe x with Some n => Z.of_nat n < PIPE_CAPACITY | None => True end.

#[global] Instance roomy_dec x : Decision (roomy x).
Proof. unfold roomy. destruct (mWaitPipe x); apply _. Defined.

(** What the construction of a sensor finds: whether its pipe and its node open, what the
    members hold that no constructor initialises ([mStopThread], those of [mSensorInfo],
    the position), and whether the thread, which the base class starts, calls [run] while the
    derived object has not been constructed. *)
Record circumstances : Set := {
  pipe_ok : bool;
  node_ok : bool;
  stop : bool;
  info_before : SensorInfo;
  screen_before : Z * Z;
  early : bool
}.

Section operations.
Context `{C : SensorsConstants} (env : sensor_environment).

(** ** Construction *)

Definition kDefaultMaxDelayUs : Z := 1000 * 1000.

Definition Sensor_new (handle : Z) (c : circumstances) : Sensor := {|
  class := SensorBase;
  mSensorInfo := {|
    sensorHandle := handle;
    name := name (info_before c);
    vendor := "The LineageOS Project";
    version := 1;
    type := type (info_before c);
    typeAsString := typeAsString (info_before c);
    maxRange := maxRange (info_before c);
    resolution := resolution (info_before c);
    power := power (info_before c);
    minDelay := minDelay (info_before c);
    fifoReservedEventCount := 0;
    fifoMaxEventCount := 0;
    requiredPermission := "";
    maxDelay := kDefaultMaxDelayUs;
    flags := 0
  |};
  mIsEnabled := false;
  mSamplingPeriodNs := 0;
  mLastSampleTimeNs := 0;
  mStopThread := stop c;
  mMode := NORMAL;
  mWaitPipe := None;
  mScreenX := (screen_before c).1;
  mScreenY := (screen_before c).2;
  base_run := early c;
  thread := Head
|}.

Definition OneShotSensor_new (handle : Z) (c : circumstances) : Sensor :=
  let x := Sensor_new handle c in
  let info := set_delays (-1) 0 (mSensorInfo x) in
  with_class x OneShotSensor (set_flags (Z.lor (flags info) ONE_SHOT_MODE) info).

(** The pipe and the poll set of both sensors. *)
Definition open_nodes (c : circumstances) (x : Sensor) : Sensor :=
  let x := with_pipe x (if pipe_ok c then Some O else None) in
  if negb (pipe_ok c) || negb (node_ok c) then with_stop x true else x.

Definition UdfpsSensor_new (handle : Z) (c : circumstances) : Sensor :=
  let x := OneShotSensor_new handle c in
  let info := mSensorInfo x in
  open_nodes c (with_class x (Derived UdfpsSensor) {|
    sensorHandle := sensorHandle info;
    name := "UDFPS Sensor";
    vendor := vendor info;
    version := version info;
    type := DEVICE_PRIVATE_BASE + 1;
    typeAsString := "org.lineageos.sensor.udfps";
    maxRange := 2048;
    resolution := 1;
    power := 0;
    minDelay := minDelay info;
    fifoReservedEventCount := fifoReservedEventCount info;
    fifoMaxEventCount := fifoMaxEventCount info;
    requiredPermission := requiredPermission info;
    maxDelay := maxDelay info;
    flags := Z.lor (flags info) WAKE_UP
  |}).

Definition SingleTapSensor_new (handle : Z) (c : circumstances) : Sensor :=
  let x := OneShotSensor_new handle c in
  let info := mSensorInfo x in
  open_nodes c (with_class x (Derived SingleTapSensor) {|
    sensorHandle := sensorHandle info;
    name := "Single Tap Sensor";
    vendor := vendor info;
    version := version info;
    type := DEVICE_PRIVATE_BASE + 2;
    typeAsString := "org.lineageos.sensor.single_touch";
    maxRange := 2048;
    resolution := 1;
    power := 0;
    minDelay := minDelay info;
    fifoReservedEventCount := fifoReservedEventCount info;
    fifoMaxEventCount := fifoMaxEventCount info;
    requiredPermission := requiredPermission info;
    maxDelay := maxDelay info;
    flags := Z.lor (flags info) WAKE_UP
  |}).

Definition make_sensor (k : SensorKind) : Z → circumstances → Sensor :=
  match k with UdfpsSensor => UdfpsSensor_new | SingleTapSensor => SingleTapSensor_new end.

Abbreviation prog := (M (world Sensor sensor_call)).

(** ** [Sensor] *)

Definition getSensorInfo (x : Sensor) : SensorInfo := mSensorInfo x.

Definition isWakeUpSensor (x : Sensor) : bool :=
  negb (Z.land (flags (mSensorInfo x)) WAKE_UP =? 0).

Definition supportsDataInjection (x : Sensor) : bool :=
  negb (Z.land (flags (mSensorInfo x)) DATA_INJECTION_FLAG =? 0).

(** The bounds are computed in [int32_t]. *)
Definition Sensor_batch (samplingPeriodNs : Z) : prog unit :=
  info ← gets mSensorInfo;
  let lo := minDelay info * 1000 in
  let hi := maxDelay info * 1000 in
  if decide (¬ in_s 32 lo ∨ ¬ in_s 32 hi) then faults SignedOverflow
  else if decide (hi < lo) then faults Unordered
  else
    let samplingPeriodNs := Z.min (Z.max samplingPeriodNs lo) hi in
    period ← gets mSamplingPeriodNs;
    if decide (period ≠ samplingPeriodNs) then
      modify (λ x, with_period x samplingPeriodNs);; emit notify_all
    else mret ().

Definition Sensor_activate (enable : bool) : prog unit :=
  enabled ← gets mIsEnabled;
  if Bool.eqb enabled enable then mret ()
  else modify (λ x, with_enabled x enable);; emit notify_all.

(** [META_DATA] and [META_DATA_FLUSH_COMPLETE] are constants of the interface. *)
Definition Sensor_flush : prog Result :=
  x ← gets id;
  if mIsEnabled x then
    let ev := {| ev_handle := sensorHandle (mSensorInfo x); ev_timestamp := 0;
                 ev_type := META_DATA; ev_scalar := 0; ev_data := [];
                 ev_meta := META_DATA_FLUSH_COMPLETE |} in
    emit (cb_postEvents [ev] (isWakeUpSensor x));; mret OK
  else mret BAD_VALUE.

Definition Sensor_readEvents : prog (list Event) :=
  info ← gets mSensorInfo;
  timestamp ← ask (elapsedRealtimeNano env);
  mret [data_event (sensorHandle info) timestamp (type info) [0; 0; 0]].

Definition Sensor_setOperationMode (mode : OperationMode) : prog unit :=
  m ← gets mMode;
  if decide (m ≠ mode) then modify (λ x, with_mode x mode);; emit notify_all else mret ().

Definition injectEvent (event : Event) : prog Result :=
  x ← gets id;
  if decide (ev_type event = ADDITIONAL_INFO) then mret OK
  else if negb (supportsDataInjection x) then mret INVALID_OPERATION
  else if decide (mMode x = DATA_INJECTION) then
    emit (cb_postEvents [event] (isWakeUpSensor x));; mret OK
  else mret BAD_VALUE.

(** Up to the join, which returns once the thread has exited. *)
Definition Sensor_delete : prog unit :=
  modify (λ x, with_enabled (with_stop x true) false);; emit notify_all.

(** ** [OneShotSensor] *)

Definition OneShotSensor_batch (samplingPeriodNs : Z) : prog unit := mret ().
Definition OneShotSensor_flush : prog Result := mret BAD_VALUE.

(** ** [UdfpsSensor] *)

Definition UdfpsSensor_interruptPoll : prog unit :=
  p ← gets mWaitPipe;
  match p with
  | None => mret ()
  | Some n =>
      if decide (Z.of_nat n < PIPE_CAPACITY)
      then modify (λ x, with_pipe x (Some (S n)));; emit pipe_write
      else faults Blocks
  end.

Definition UdfpsSensor_delete : prog unit := UdfpsSensor_interruptPoll.

Definition UdfpsSensor_activate (enable : bool) : prog unit :=
  enabled ← gets mIsEnabled;
  if Bool.eqb enabled enable then mret ()
  else
    modify (λ x, with_enabled x enable);;
    UdfpsSensor_interruptPoll;;
    emit notify_all.

Definition UdfpsSensor_setOperationMode (mode : OperationMode) : prog unit :=
  Sensor_setOperationMode mode;;
  UdfpsSensor_interruptPoll.

Definition UdfpsSensor_readEvents : prog (list Event) :=
  x ← gets id;
  timestamp ← ask (elapsedRealtimeNano env);
  mret [data_event (sensorHandle (mSensorInfo x)) timestamp (type (mSensorInfo x))
          [to_float (mScreenX x); to_float (mScreenY x)]].

(** ** [SingleTapSensor] *)

Definition SingleTapSensor_interruptPoll : prog unit :=
  p ← gets mWaitPipe;
  match p with
  | None => mret ()
  | Some n =>
      if decide (Z.of_nat n < PIPE_CAPACITY)
      then modify (λ x, with_pipe x (Some (S n)));; emit pipe_write
      else faults Blocks
  end.

Definition SingleTapSensor_delete : prog unit := SingleTapSensor_interruptPoll.

Definition SingleTapSensor_activate (enable : bool) : prog unit :=
  enabled ← gets mIsEnabled;
  if Bool.eqb enabled enable then mret ()
  else
    modify (λ x, with_enabled x enable);;
    SingleTapSensor_interruptPoll;;
    emit notify_all.

Definition SingleTapSensor_setOperationMode (mode : OperationMode) : prog unit :=
  Sensor_setOperationMode mode;;
  SingleTapSensor_interruptPoll.

(** The two numbers [fillEventData] writes into the event. *)
Definition fillEventData : prog (list Z) :=
  file ← ask (touch_data env);
  '(x, y) ← lift_outcome (readCoordinates file);
  mret [x; y].

Definition SingleTapSensor_readEvents : prog (list Event) :=
  x ← gets id;
  timestamp ← ask (elapsedRealtimeNano env);
  data ← fillEventData;
  mret [data_event (sensorHandle (mSensorInfo x)) timestamp (type (mSensorInfo x)) data].

(** ** Virtual calls *)

Definition activate (enable : bool) : prog unit :=
  c ← gets class;
  match c with
  | Derived UdfpsSensor => UdfpsSensor_activate enable
  | Derived SingleTapSensor => SingleTapSensor_activate enable
  | _ => Sensor_activate enable
  end.

Definition setOperationMode (mode : OperationMode) : prog unit :=
  c ← gets class;
  match c with
  | Derived UdfpsSensor => UdfpsSensor_setOperationMode mode
  | Derived SingleTapSensor => SingleTapSensor_setOperationMode mode
  | _ => Sensor_setOperationMode mode
  end.

Definition batch (samplingPeriodNs : Z) : prog unit :=
  c ← gets class;
  match c with SensorBase => Sensor_batch samplingPeriodNs | _ => OneShotSensor_batch samplingPeriodNs end.

Definition flush : prog Result :=
  c ← gets class;
  match c with SensorBase => Sensor_flush | _ => OneShotSensor_flush end.

Definition readEvents : prog (list Event) :=
  c ← gets class;
  match c with
  | Derived UdfpsSensor => UdfpsSensor_readEvents
  | Derived SingleTapSensor => SingleTapSensor_readEvents
  | _ => Sensor_readEvents
  end.

(** The destructor of the derived class; that of [Sensor] follows. *)
Definition delete_derived : prog unit :=
  c ← gets class;
  match c with
  | Derived UdfpsSensor => UdfpsSensor_delete
  | Derived SingleTapSensor => SingleTapSensor_delete
  | _ => mret ()
  end.

(** ** The thread

    One section of each [run]: from the loop's head to where it waits or polls, or from the
    return of the poll to the loop's head. *)

Definition goto (pc : sensor_pc) : prog unit := modify (λ x, with_thread x pc).

Definition kNanosecondsInSeconds : Z := 1000 * 1000 * 1000.

Definition Sensor_run : prog unit :=
  x ← gets id;
  if mStopThread x then goto Exited
  else if negb (mIsEnabled x) || bool_decide (mMode x = DATA_INJECTION) then mret ()  (* waits *)
  else
    '(tv_sec, tv_nsec) ← ask (clock_gettime env);
    let now := tv_sec * kNanosecondsInSeconds + tv_nsec in
    let nextSampleTime := mLastSampleTimeNs x + mSamplingPeriodNs x in
    if decide (nextSampleTime ≤ now) then
      modify (λ x, with_last x now);;
      events ← readEvents;
      emit (cb_postEvents events (isWakeUpSensor x))
    else mret ().                                                     (* waits for the rest *)

Definition UdfpsSensor_run : prog unit :=
  x ← gets id;
  match thread x with
  | Head =>
      if mStopThread x then goto Exited
      else if negb (mIsEnabled x) || bool_decide (mMode x = DATA_INJECTION) then mret ()
      else goto Polling
  | Polled ok node interrupted =>
      (if ok then
         down ← (if node : bool then
                   buffer ← ask (fp_state env);
                   let '(screenX, screenY, down) :=
                     readFpState buffer (mScreenX x) (mScreenY x) in
                   modify (λ x, with_screen x screenX screenY);; mret down
                 else mret false);
         if down : bool then
           modify (λ x, with_enabled x false);;
           events ← readEvents;
           emit (cb_postEvents events (isWakeUpSensor x))
         else if interrupted then
           modify (λ x, with_pipe x (option_map pred (mWaitPipe x)));; emit pipe_read
         else mret ()
       else modify (λ x, with_stop x true));;
      goto Head
  | Polling | Exited => mret ()
  end.

Definition SingleTapSensor_run : prog unit :=
  x ← gets id;
  match thread x with
  | Head =>
      if mStopThread x then goto Exited
      else if negb (mIsEnabled x) || bool_decide (mMode x = DATA_INJECTION) then mret ()
      else goto Polling
  | Polled ok node interrupted =>
      (if ok then
         tapped ← (if node : bool then c ← ask (single_tap env); mret (readBool c)
                   else mret false);
         if tapped : bool then
           modify (λ x, with_enabled x false);;
           events ← readEvents;
           emit (cb_postEvents events (isWakeUpSensor x))
         else if interrupted then
           modify (λ x, with_pipe x (option_map pred (mWaitPipe x)));; emit pipe_read
         else mret ()
       else modify (λ x, with_stop x true));;
      goto Head
  | Polling | Exited => mret ()
  end.

(** [startThread]: the virtual call of [run], at the time the thread starts. *)
Definition startThread : prog unit :=
  x ← gets id;
  if base_run x then (match thread x with Head => Sensor_run | _ => mret () end)
  else match class x with
       | Derived UdfpsSensor => UdfpsSensor_run
       | Derived SingleTapSensor => SingleTapSensor_run
       | _ => match thread x with Head => Sensor_run | _ => mret () end
       end.

(** [poll] returns, with an error, because the node or the pipe is ready, or because of
    another event on the node. *)
Inductive poll_result : Set := PollError | PollReady (node : bool) | PollOther.

Definition poll (r : poll_result) : prog unit :=
  x ← gets id;
  let interrupted := match mWaitPipe x with Some (S _) => true | _ => false end in
  match thread x, r with
  | Polling, PollError => goto (Polled false false false)
  | Polling, PollOther => goto (Polled true false interrupted)
  | Polling, PollReady node =>
      if node || interrupted then goto (Polled true node interrupted) else mret ()
  | _, _ => mret ()
  end.

(** ** The system *)

Inductive sensor_action : Set :=
| Activate (enable : bool)
| SetOperationMode (mode : OperationMode)
| Batch (samplingPeriodNs : Z)
| Flush
| InjectEvent (event : Event)
| RunThread
| PollReturns (r : poll_result)
| DeleteDerived
| DeleteBase.

Definition sensor_act (a : sensor_action) : prog unit :=
  match a with
  | Activate enable => activate enable
  | SetOperationMode mode => setOperationMode mode
  | Batch samplingPeriodNs => batch samplingPeriodNs
  | Flush => _ ← flush; mret ()
  | InjectEvent event => _ ← injectEvent event; mret ()
  | RunThread => startThread
  | PollReturns r => poll r
  | DeleteDerived => delete_derived
  | DeleteBase => Sensor_delete
  end.

(** What a sensor can do: each step an action that returns. *)
Inductive sensor_run : world Sensor sensor_call → list sensor_action →
    world Sensor sensor_call → Prop :=
| run_nil w : sensor_run w [] w
| run_step w acts a w1 w2 :
    sensor_run w acts w1 → sensor_act a w1 = (Done (), w2) → sensor_run w (acts ++ [a]) w2.
End operations.

(** ** Construction and the base class *)

Section base.
Context `{C : SensorsConstants} (env : sensor_environment).

(** the description of the device's sensors is initialised completely. Whatever its members
    held before and whatever opens, the constructors of the three classes leave the same
    [SensorInfo]; where the pipe or the node does not open the sensor is stopped. *)
Theorem sensor_info_initialised k handle c1 c2 :
  mSensorInfo (make_sensor k handle c1) = mSensorInfo (make_sensor k handle c2) ∧
  sensorHandle (mSensorInfo (make_sensor k handle c1)) = handle ∧
  mStopThread (make_sensor k handle c1) = stop c1 || negb (pipe_ok c1) || negb (node_ok c1).
Proof.
  unfold make_sensor, UdfpsSensor_new, SingleTapSensor_new, open_nodes.
  destruct k, c1 as [[] [] [] ???], c2 as [[] [] ????]; by split_and!.
Qed.

(** the sampling period of a sensor of the base class is kept within its delays. If the
    delays, in microseconds, are ordered and fit into nanoseconds, [batch] sets the
    requested period cut to them, and wakes the thread exactly if that is a new one;
    otherwise the code's arithmetic is undefined. *)
Theorem batch_outcome period w :
  let lo := minDelay (mSensorInfo (st w)) * 1000 in
  let hi := maxDelay (mSensorInfo (st w)) * 1000 in
  let cut := Z.min (Z.max period lo) hi in
  class (st w) = SensorBase →
  if decide (in_s 32 lo ∧ in_s 32 hi) then
    if decide (lo ≤ hi) then
      batch period w = (Done (), if decide (mSamplingPeriodNs (st w) = cut) then w
        else World (with_period (st w) cut) (tr w ++ [notify_all])) ∧
      lo ≤ cut ≤ hi ∧ (lo ≤ period ≤ hi → cut = period)
    else batch period w = (Fault Unordered, w)
  else batch period w = (Fault SignedOverflow, w).
Proof.
  intros lo hi cut Hc. unfold batch. rewrite bind_gets, Hc.
  unfold Sensor_batch. rewrite bind_gets. fold lo hi.
  destruct (decide (in_s 32 lo ∧ in_s 32 hi)) as [[Hl Hh]|Hn].
  - rewrite (decide_False (P := ¬ _ ∨ ¬ _)) by tauto. destruct (decide (lo ≤ hi)).
    + rewrite (decide_False (P := hi < lo)) by lia. rewrite bind_gets. fold cut.
      split; [|unfold cut; lia]. destruct (decide (mSamplingPeriodNs (st w) = cut)).
      * by rewrite decide_False by tauto.
      * by rewrite decide_True by done.
    + by rewrite decide_True by lia.
  - rewrite (decide_True (P := ¬ _ ∨ ¬ _)); [done|]. apply not_and_l in Hn. exact Hn.
Qed.

(** flushing a sensor: one of the base class posts one flush-complete event of its own if it
    is enabled and answers BAD_VALUE otherwise; a one-shot sensor always does the latter. *)
Theorem flush_outcome w :
  flush w =
  if bool_decide (class (st w) = SensorBase) && mIsEnabled (st w) then
    (Done OK, World (st w) (tr w ++ [cb_postEvents
      [{| ev_handle := sensorHandle (mSensorInfo (st w)); ev_timestamp := 0;
          ev_type := META_DATA; ev_scalar := 0; ev_data := [];
          ev_meta := META_DATA_FLUSH_COMPLETE |}] (isWakeUpSensor (st w))]))
  else (Done BAD_VALUE, w).
Proof.
  unfold flush. rewrite bind_gets. destruct (class (st w)); try done.
  unfold Sensor_flush. rewrite bind_gets. cbn [id]. by destruct (mIsEnabled (st w)).
Qed.
End base.

(** ** What the nodes say *)

(** the position of a finger is read as the driver prints it. Whatever the buffer holds
    behind the text, its three numbers are the position and, if the third is positive, a
    finger; where the node cannot be read the position stays and no finger is reported. *)
Theorem finger_position_read x y state rest X Y :
  in_s 32 x → in_s 32 y → in_s 32 state → no_digit rest →
  readFpState (Some (to_string x +:+ String "," (to_string y +:+ String ","
    (to_string state +:+ rest)))) X Y = (x, y, bool_decide (0 < state)) ∧
  readFpState None X Y = (X, Y, false).
Proof.
  intros Hx Hy Hs Hr. split; [|done]. unfold readFpState.
  rewrite !scan_int_pretty by done. by rewrite !wrap_s_id by (done || lia).
Qed.

Example finger_position_read_witness :
  readFpState (Some "540,1200,1
"%string) 0 0 = (540, 1200, true).
Proof.
  apply (finger_position_read 540 1200 1 (String "010" EmptyString) 0 0);
    by vm_compute.
Defined.

Definition base_sensor : world Sensor sensor_call :=
  World (Sensor_new 1 {| pipe_ok := true; node_ok := true; stop := false;
    info_before := set_delays 1000 0 no_sensor; screen_before := (0, 0); early := false |}) [].

(** A sensor of the base class between 1 ms and 1 s. *)
Example batch_outcome_witness :
  (∃ w, batch 5000000 base_sensor = (Done (), w) ∧
     mSamplingPeriodNs (st w) = 5000000) ∧
  (∃ w, batch 5 base_sensor = (Done (), w) ∧
     mSamplingPeriodNs (st w) = 1000000).
Proof.
  split.
  - destruct (batch_outcome 5000000 base_sensor eq_refl) as [E _]. rewrite E. by eexists.
  - destruct (batch_outcome 5 base_sensor eq_refl) as [E _]. rewrite E. by eexists.
Defined.
