(* ===== verification/SensorRuns.v ===== *)
(** * Runs of the device's sensors

    Theorems about the system of [Sensor.v]: how often a sensor reports, that the two
    sensors are one machine but for the node they read, and the runs in which the code does
    not do what it means to, a pipe that fills up among them. *)

From Stdlib Require Import Ascii.
From S2P Require Import Prelude Words Text Handles SensorTypes Sensor.

Abbreviation sensor_world := (world Sensor sensor_call).

(** ** The loop both sensors run

    [report]: what the node says. *)
Section loop.
Context `{C : SensorsConstants} (env : sensor_environment).

Definition post_report (x : Sensor) : M sensor_world unit :=
  modify (λ x, with_enabled x false);;
  events ← readEvents env;
  emit (cb_postEvents events (isWakeUpSensor x)).

Definition drain_pipe : M sensor_world unit :=
  modify (λ x, with_pipe x (option_map pred (mWaitPipe x)));; emit pipe_read.

Definition poll_loop (report : Sensor → M sensor_world bool) : M sensor_world unit :=
  x ← gets id;
  match thread x with
  | Head =>
      if mStopThread x then goto Exited
      else if negb (mIsEnabled x) || bool_decide (mMode x = DATA_INJECTION) then mret ()
      else goto Polling
  | Polled ok node interrupted =>
      (if ok then
         b ← (if node : bool then report x else mret false);
         if b : bool then post_report x
         else if interrupted then drain_pipe
         else mret ()
       else modify (λ x, with_stop x true));;
      goto Head
  | Polling | Exited => mret ()
  end.

Definition finger_report (x : Sensor) : M sensor_world bool :=
  buffer ← ask (fp_state env);
  let '(screenX, screenY, down) := readFpState buffer (mScreenX x) (mScreenY x) in
  modify (λ x, with_screen x screenX screenY);; mret down.

Definition tap_report (x : Sensor) : M sensor_world bool :=
  c ← ask (single_tap env); mret (readBool c).

Definition report_of (k : SensorKind) : Sensor → M sensor_world bool :=
  match k with UdfpsSensor => finger_report | SingleTapSensor => tap_report end.

Definition loop_of (k : SensorKind) : M sensor_world unit :=
  match k with UdfpsSensor => UdfpsSensor_run env | SingleTapSensor => SingleTapSensor_run env end.

Lemma run_is_loop k : loop_of k = poll_loop (report_of k).
Proof. by destruct k. Qed.

(** The virtual calls of a sensor of the device: the classes share all of them but the
    report. *)
Definition own_loop (x : Sensor) (k : SensorKind) : Prop :=
  base_run x = false ∧ class x = Derived k.

Lemma own_thread w k : own_loop (st w) k → startThread env w = poll_loop (report_of k) w.
Proof.
  intros [Hb Hk]. unfold startThread. rewrite bind_gets. cbn [id]. rewrite Hb, Hk.
  by destruct k.
Qed.

Lemma own_calls w k : class (st w) = Derived k →
  (∀ enable, activate enable w = UdfpsSensor_activate enable w) ∧
  (∀ mode, setOperationMode mode w = UdfpsSensor_setOperationMode mode w) ∧
  (∀ period, batch period w = (Done (), w)) ∧
  flush w = (Done BAD_VALUE, w) ∧
  delete_derived w = UdfpsSensor_interruptPoll w.
Proof.
  intros Hk. unfold activate, setOperationMode, batch, flush, delete_derived.
  split_and!; intros; rewrite bind_gets, Hk; by destruct k.
Qed.

Lemma readEvents_pure w : (readEvents env w).2 = w.
Proof.
  unfold readEvents. rewrite bind_gets. destruct (class (st w)) as [| |[]]; try done.
  unfold SingleTapSensor_readEvents, fillEventData. run. by destruct (readCoordinates _) as [[]|].
Qed.

Lemma post_report_run x w a w' :
  post_report x w = (Done a, w') →
  ∃ events, w' = World (with_enabled (st w) false)
                   (tr w ++ [cb_postEvents events (isWakeUpSensor x)]).
Proof.
  unfold post_report, mbind, M_bind, modify, emit. set (w1 := World _ _).
  pose proof (readEvents_pure w1) as Hp.
  destruct (readEvents env w1) as [[events|] w2]; [|done]. cbn in Hp. subst w2.
  intros [= _ <-]. by exists events.
Qed.

(** Reading the events of a finger, or of a tap whose file can be parsed, returns. *)
Lemma readEvents_done w :
  (∃ x y, readCoordinates (touch_data env (tr w)) = Done (x, y)) ∨
    class (st w) ≠ Derived SingleTapSensor →
  ∃ events, readEvents env w = (Done events, w) ∧ length events = 1%nat.
Proof.
  unfold readEvents. rewrite bind_gets.
  destruct (class (st w)) as [| |[]]; try (by eexists).
  intros [(x & y & Hxy)|]; [|done].
  unfold SingleTapSensor_readEvents, fillEventData. run. rewrite Hxy. by eexists.
Qed.

Lemma post_report_done x w :
  (∃ x y, readCoordinates (touch_data env (tr w)) = Done (x, y)) ∨
    class (st w) ≠ Derived SingleTapSensor →
  ∃ events, length events = 1%nat ∧
    post_report x w = (Done (), World (with_enabled (st w) false)
                                  (tr w ++ [cb_postEvents events (isWakeUpSensor x)])).
Proof.
  intros Hc. destruct (readEvents_done (World (with_enabled (st w) false) (tr w)) Hc)
    as (events & Eread & Hl).
  exists events. split; [done|]. unfold post_report.
  erewrite bind_done by reflexivity. by erewrite bind_done by exact Eread.
Qed.

(** The base class's loop when a sample is due. *)
Definition now_ns (t : list sensor_call) : Z :=
  (clock_gettime env t).1 * kNanosecondsInSeconds + (clock_gettime env t).2.

Lemma Sensor_run_due w :
  mStopThread (st w) = false → mIsEnabled (st w) = true → mMode (st w) = NORMAL →
  mLastSampleTimeNs (st w) + mSamplingPeriodNs (st w) ≤ now_ns (tr w) →
  Sensor_run env w = (modify (λ x, with_last x (now_ns (tr w)));;
                      events ← readEvents env;
                      emit (cb_postEvents events (isWakeUpSensor (st w)))) w.
Proof.
  intros Hs He Hm Hdue. unfold Sensor_run. rewrite bind_gets. cbn [id]. rewrite Hs, He, Hm.
  rewrite bool_decide_eq_false_2 by done. cbn [negb orb].
  unfold now_ns in *. erewrite bind_done by reflexivity.
  destruct (clock_gettime env (tr w)) as [s ns]. cbn in *. by rewrite decide_True.
Qed.

(** A report only touches the position. *)
Lemma report_run k x w b w' :
  report_of k x w = (Done b, w') →
  ∃ sx sy, w' = World (with_screen (st w) sx sy) (tr w) ∨ w' = w.
Proof.
  destruct k; cbn; unfold finger_report, tap_report; run.
  - destruct (readFpState _ _ _) as [[sx sy] down]. intros [= _ <-]. exists sx, sy. by left.
  - intros [= _ <-]. exists 0, 0. by right.
Qed.
End loop.

(** ** Reports *)

Definition is_report (c : sensor_call) : bool :=
  match c with cb_postEvents _ _ => true | _ => false end.

Definition reports (t : list sensor_call) : nat := length (List.filter is_report t).

Arguments reports : simpl never.

Definition activations (acts : list sensor_action) : nat :=
  length (List.filter (λ a, match a with Activate true => true | _ => false end) acts).

Lemma reports_app t1 t2 : reports (t1 ++ t2) = (reports t1 + reports t2)%nat.
Proof. unfold reports. by rewrite List.filter_app, length_app. Qed.

Lemma activations_app l1 l2 : activations (l1 ++ l2) = (activations l1 + activations l2)%nat.
Proof. unfold activations. by rewrite List.filter_app, length_app. Qed.

Lemma make_sensor_own `{C : SensorsConstants} k handle c :
  early c = false →
  own_loop (make_sensor k handle c) k ∧
  flags (mSensorInfo (make_sensor k handle c)) = Z.lor ONE_SHOT_MODE WAKE_UP ∧
  mIsEnabled (make_sensor k handle c) = false ∧ thread (make_sensor k handle c) = Head.
Proof.
  intros He. unfold own_loop, make_sensor, UdfpsSensor_new, SingleTapSensor_new, open_nodes.
  by destruct k, (negb (pipe_ok c) || negb (node_ok c)); split_and!.
Qed.

Section reports.
Context `{C : SensorsConstants} {laws : SensorsLaws C} (env : sensor_environment).
Context (k : SensorKind).

(** One report may be made for the current activation. *)
Definition may_report (x : Sensor) : nat :=
  if mIsEnabled x || match thread x with Polling | Polled _ _ _ => true | _ => false end
  then 1 else 0.

(** The sensor's class, thread and flags do not change. *)
Definition ours (x : Sensor) : Prop :=
  own_loop x k ∧ flags (mSensorInfo x) = Z.lor ONE_SHOT_MODE WAKE_UP.

(** What the actions before [n] activations leave behind. *)
Definition one_shot (n : nat) (w : sensor_world) : Prop :=
  ours (st w) ∧ (reports (tr w) + may_report (st w) ≤ n)%nat.

(** In a section that follows a poll: a report is still to be made, or none is any more. *)
Definition unspent (n : nat) (w : sensor_world) : Prop :=
  ours (st w) ∧ (reports (tr w) < n)%nat.

Definition spent (n : nat) (w : sensor_world) : Prop :=
  ours (st w) ∧ (reports (tr w) ≤ n)%nat ∧ mIsEnabled (st w) = false.

Lemma one_shot_emit n c : is_report c = false → preserves (one_shot n) (emit c).
Proof.
  intros Hc w [? ?]. split; [done|]. cbn. rewrite reports_app.
  unfold reports at 2. cbn. rewrite Hc. cbn. lia.
Qed.

Lemma one_shot_modify n f :
  (∀ x, ours x → ours (f x) ∧ (may_report (f x) ≤ may_report x)%nat) →
  preserves (one_shot n) (modify f).
Proof. intros Hf w [Ho ?]. destruct (Hf (st w) Ho). split; [done|]. cbn. lia. Qed.

Ltac solve_one_shot :=
  repeat (prog_step || match goal with
    | |- preserves (one_shot _) (emit _) => by apply one_shot_emit
    | |- preserves (one_shot _) (modify _) =>
        apply one_shot_modify; intros x ?; split; [done|]; unfold may_report; cbn;
        repeat case_match; lia
    end).

Lemma one_shot_interrupt n : preserves (one_shot n) UdfpsSensor_interruptPoll.
Proof. unfold UdfpsSensor_interruptPoll. solve_one_shot. Qed.

Lemma one_shot_mode n mode : preserves (one_shot n) (UdfpsSensor_setOperationMode mode).
Proof.
  unfold UdfpsSensor_setOperationMode, Sensor_setOperationMode. solve_one_shot.
  apply one_shot_interrupt.
Qed.

Lemma one_shot_inject n event : preserves (one_shot n) (injectEvent event).
Proof.
  intros w Hw. unfold injectEvent. rewrite bind_gets. cbn [id]. case_decide; [done|].
  unfold supportsDataInjection. destruct Hw as [[? Hf] ?]. by rewrite Hf, injection_bit.
Qed.

Lemma one_shot_weaken n n' w : one_shot n w → (n ≤ n')%nat → one_shot n' w.
Proof. intros [? ?] ?. split; [done|lia]. Qed.

Lemma one_shot_activate n (enable : bool) w :
  one_shot n w → one_shot (n + if enable then 1 else 0) (UdfpsSensor_activate enable w).2.
Proof.
  intros [Ho Hr]. unfold UdfpsSensor_activate. rewrite bind_gets.
  destruct (Bool.eqb _ _); [split; [done|cbn; lia]|].
  erewrite bind_done by reflexivity.
  apply (preserves_bind (one_shot (n + if enable then 1 else 0)) UdfpsSensor_interruptPoll
    (λ _, emit notify_all)).
  - apply one_shot_interrupt.
  - intros _. by apply one_shot_emit.
  - split; [done|]. cbn. unfold may_report in *. cbn.
    destruct enable, (mIsEnabled (st w)), (thread (st w)); cbn in *; lia.
Qed.

Lemma report_hoare n x :
  hoare (unspent n) (report_of env k x) (λ _, unspent n).
Proof. intros w b w' [Ho Hr] (sx & sy & [->| ->])%report_run; by split. Qed.

Lemma post_report_hoare n x : hoare (unspent n) (post_report env x) (λ _, spent n).
Proof.
  intros w a w' [Ho Hr] [events ->]%post_report_run. split_and!; [done| |done]. cbn.
  rewrite reports_app. unfold reports at 2. cbn. lia.
Qed.

Lemma unspent_drain n : preserves (unspent n) drain_pipe.
Proof.
  unfold drain_pipe. apply preserves_bind; [by intros w [? ?]|intros _ w [? ?]].
  split; [done|]. cbn. rewrite reports_app. unfold reports at 2. cbn. lia.
Qed.

Lemma one_shot_loop n : hoare (one_shot n) (poll_loop env (report_of env k)) (λ _, one_shot n).
Proof.
  intros w a w' [Ho Hr]. unfold poll_loop. rewrite bind_gets. cbn [id].
  destruct (thread (st w)) as [| |ok node interrupted|] eqn:Ht; [|by intros [= _ <-]| |by intros [= _ <-]].
  - unfold may_report in Hr. rewrite Ht, orb_false_r in Hr.
    destruct (mStopThread (st w)); [|destruct (mIsEnabled (st w)) eqn:He, (bool_decide _)];
      intros [= _ <-]; split; try done; unfold may_report; cbn; rewrite ?Ht, ?He;
      (destruct (mIsEnabled (st w)); cbn in *; lia).
  - assert (unspent n w) as Hw.
    { split; [done|]. unfold may_report in Hr. rewrite Ht, orb_true_r in Hr. lia. }
    revert a w' Hw. apply (hoare_bind (unspent n) _ _ (λ _ w, unspent n w ∨ spent n w)).
    + destruct ok; [|intros w1 a w' Hw [= _ <-]; by left].
      apply (hoare_bind _ _ _ (λ _, unspent n)); [|intros []].
      { destruct node; [apply report_hoare|apply hoare_preserves, preserves_ret]. }
      * eapply hoare_weaken; [apply post_report_hoare|done|by right].
      * destruct interrupted; [|intros w1 a w' Hw [= _ <-]; by left].
        eapply hoare_weaken; [apply hoare_preserves, unspent_drain|done|by left].
    + intros _ w1 a w' Hw [= _ <-]. unfold one_shot, may_report. cbn.
      destruct Hw as [[? ?]|(? & ? & ->)]; (split; [done|]); cbn; [|lia].
      destruct (mIsEnabled (st w1)); cbn; lia.
Qed.

Lemma one_shot_poll n r : preserves (one_shot n) (poll r).
Proof.
  intros w Hw. unfold poll. rewrite bind_gets. cbn [id].
  destruct (thread (st w)) eqn:Ht; [exact Hw| |exact Hw..].
  destruct Hw as [Ho Hr]. unfold may_report in Hr. rewrite Ht, orb_true_r in Hr.
  assert (∀ ok node interrupted,
    one_shot n (World (with_thread (st w) (Polled ok node interrupted)) (tr w))) as Hpolled
    by (intros; split; [done|]; unfold may_report; cbn; by rewrite orb_true_r).
  destruct r as [|b|]; [apply Hpolled| |apply Hpolled].
  destruct (b || _); [apply Hpolled|].
  split; [done|]. unfold may_report. cbn. by rewrite Ht, orb_true_r.
Qed.

Lemma one_shot_act n a :
  hoare (one_shot n) (sensor_act env a) (λ _, one_shot (n + activations [a])).
Proof.
  intros w [] w' Hw Hact. assert (class (st w) = Derived k) as Hk by (by destruct Hw as [[[]]]).
  apply own_calls in Hk as (Ha & Hm & Hb & Hf & Hd).
  assert (∀ (m : M sensor_world unit), preserves (one_shot n) m → activations [a] = O →
    m w = (Done (), w') → one_shot (n + activations [a]) w') as Hpres.
  { intros m Hpm -> E1. rewrite Nat.add_0_r. specialize (Hpm w Hw). by rewrite E1 in Hpm. }
  destruct a as [enable|mode|period| |event| |r| |]; cbn [sensor_act] in Hact.
  - rewrite Ha in Hact. apply (one_shot_activate n enable) in Hw. rewrite Hact in Hw.
    by destruct enable.
  - rewrite Hm in Hact. by apply (Hpres _ (one_shot_mode n mode)).
  - rewrite Hb in Hact. injection Hact as <-. eapply one_shot_weaken; [done|lia].
  - erewrite bind_done in Hact by exact Hf. injection Hact as <-.
    eapply one_shot_weaken; [done|lia].
  - apply (Hpres (_ ← injectEvent event; mret ())); [|done..].
    apply preserves_bind; [apply one_shot_inject|solve_one_shot].
  - rewrite (own_thread env w k) in Hact by (by destruct Hw as [[]]).
    unfold activations. cbn. rewrite Nat.add_0_r. by eapply one_shot_loop.
  - by apply (Hpres _ (one_shot_poll n r)).
  - rewrite Hd in Hact. by apply (Hpres _ (one_shot_interrupt n)).
  - apply (Hpres Sensor_delete); [|done..]. unfold Sensor_delete. solve_one_shot.
Qed.

(** a one-shot sensor reports at most once per activation. In every run of a sensor of
    the device whose thread runs its own loop, whatever calls, changes of mode, injections,
    polls and node contents occur in whatever order, the thread has posted at most as many
    reports as there were activations. *)
Theorem reports_at_most_activations handle c acts w :
  early c = false →
  sensor_run env (World (make_sensor k handle c) []) acts w →
  (reports (tr w) ≤ activations acts)%nat.
Proof.
  intros He Hrun. enough (one_shot (activations acts) w) as [_ ?] by lia.
  remember (World (make_sensor k handle c) []) as w0 eqn:Hw0.
  induction Hrun as [w|w acts a w1 w2 Hrun IH Hact]; subst w.
  - destruct (make_sensor_own k handle c He) as (Ho & Hf & Hen & Ht).
    split; [by split|]. unfold may_report. cbn. by rewrite Hen, Ht.
  - rewrite activations_app. eapply one_shot_act; [by apply IH|exact Hact].
Qed.
End reports.

(** ** The two sensors are one machine

    The code of the two classes is copied. Two sensors in the same state that are told the
    same by their nodes stay in the same state, and make the same calls but for the data of
    their events. *)
Section alike.
Context `{C : SensorsConstants} {laws : SensorsLaws C} (env1 env2 : sensor_environment).

Definition same_call (c1 c2 : sensor_call) : Prop :=
  match c1, c2 with
  | cb_postEvents events1 wakeup1, cb_postEvents events2 wakeup2 =>
      length events1 = length events2 ∧ wakeup1 = wakeup2
  | _, _ => c1 = c2
  end.

Definition same_sensor (x1 x2 : Sensor) : Prop :=
  ours UdfpsSensor x1 ∧ ours SingleTapSensor x2 ∧
  (mIsEnabled x1, mStopThread x1, mMode x1, mWaitPipe x1, thread x1)
  = (mIsEnabled x2, mStopThread x2, mMode x2, mWaitPipe x2, thread x2).

Definition alike (w1 w2 : sensor_world) : Prop :=
  same_sensor (st w1) (st w2) ∧ Forall2 same_call (tr w1) (tr w2).

(** The fingerprint node says there is a finger exactly when the other says there was a tap,
    and the file of the tap's coordinates can be parsed. *)
Definition told_alike : Prop := ∀ t1 t2, Forall2 same_call t1 t2 →
  (∀ X Y, (readFpState (fp_state env1 t1) X Y).2 = readBool (single_tap env2 t2)) ∧
  ∃ x y, readCoordinates (touch_data env2 t2) = Done (x, y).

(** How two steps end alike: both return related values, or both wait at a full pipe. *)
Definition end_alike {A} (R : A → A → Prop) (o1 o2 : outcome A) (x1 x2 : Sensor) : Prop :=
  match o1, o2 with
  | Done a1, Done a2 => R a1 a2
  | Fault e1, Fault e2 => e1 = Blocks ∧ e2 = Blocks ∧ ¬ roomy x1 ∧ ¬ roomy x2
  | _, _ => False
  end.

(** Two programs in step: they end alike in alike worlds. *)
Definition lockstep {A} (R : A → A → Prop) (m1 m2 : M sensor_world A) : Prop :=
  ∀ w1 w2, alike w1 w2 → ∃ o1 o2 w1' w2',
    m1 w1 = (o1, w1') ∧ m2 w2 = (o2, w2') ∧ end_alike R o1 o2 (st w1') (st w2') ∧
    alike w1' w2'.

Lemma lockstep_done {A} (R : A → A → Prop) (m1 m2 : M sensor_world A) :
  (∀ w1 w2, alike w1 w2 → ∃ a1 a2 w1' w2',
     m1 w1 = (Done a1, w1') ∧ m2 w2 = (Done a2, w2') ∧ R a1 a2 ∧ alike w1' w2') →
  lockstep R m1 m2.
Proof.
  intros Hm w1 w2 Hw. destruct (Hm w1 w2 Hw) as (a1 & a2 & w1' & w2' & ?).
  by exists (Done a1), (Done a2), w1', w2'.
Qed.

Lemma lockstep_bind {A B} (R : A → A → Prop) (Q : B → B → Prop) m1 m2 k1 k2 :
  lockstep R m1 m2 → (∀ a1 a2, R a1 a2 → lockstep Q (k1 a1) (k2 a2)) →
  lockstep Q (m1 ≫= k1) (m2 ≫= k2).
Proof.
  intros Hm Hk w1 w2 Hw. destruct (Hm w1 w2 Hw) as (o1 & o2 & w1' & w2' & E1 & E2 & Ho & Hw').
  unfold mbind, M_bind. rewrite E1, E2. destruct o1 as [a1|], o2 as [a2|]; try done.
  - by apply Hk.
  - by exists (Fault e), (Fault e0), w1', w2'.
Qed.

Lemma lockstep_ret {A} (R : A → A → Prop) a1 a2 : R a1 a2 → lockstep R (mret a1) (mret a2).
Proof. intros HR. apply lockstep_done. intros w1 w2 Hw. by exists a1, a2, w1, w2. Qed.

Lemma lockstep_modify f1 f2 :
  (∀ x1 x2, same_sensor x1 x2 → same_sensor (f1 x1) (f2 x2)) →
  lockstep eq (modify f1) (modify f2).
Proof.
  intros Hf. apply lockstep_done. intros w1 w2 [Hs Ht]. do 4 eexists. split; [done|].
  split; [done|]. split; [done|]. by split; [apply Hf|].
Qed.

Lemma lockstep_emit c1 c2 : same_call c1 c2 → lockstep eq (emit c1) (emit c2).
Proof.
  intros Hc. apply lockstep_done. intros w1 w2 [Hs Ht]. do 4 eexists. split; [done|].
  split; [done|]. split; [done|]. split; [done|]. cbn. apply Forall2_app; [done|]. by constructor.
Qed.

Lemma lockstep_gets : lockstep same_sensor (gets id) (gets id).
Proof.
  apply lockstep_done. intros w1 w2 Hw. exists (st w1), (st w2), w1, w2. by destruct Hw.
Qed.

Lemma lockstep_field {A} (f : Sensor → A) :
  (∀ x1 x2, same_sensor x1 x2 → f x1 = f x2) → lockstep eq (gets f) (gets f).
Proof.
  intros Hf. apply lockstep_done. intros w1 w2 Hw. exists (f (st w1)), (f (st w2)), w1, w2.
  split_and!; try done. by apply Hf, Hw.
Qed.

(** Follow two copies of a text. *)
Ltac same_modify :=
  apply lockstep_modify; intros ?? (? & ? & [= ? ? ? ? ?]);
  (split; [done|]); (split; [done|]); cbn; congruence.
Ltac solve_lockstep :=
  repeat match goal with
  | |- lockstep _ (modify _ ≫= _) _ => eapply lockstep_bind; [same_modify|intros [] [] _]
  | |- lockstep _ (emit _ ≫= _) _ =>
      eapply lockstep_bind; [by apply lockstep_emit|intros [] [] _]
  | |- lockstep _ (modify _) _ => same_modify
  | |- lockstep _ (emit _) _ => by apply lockstep_emit
  | |- lockstep _ (mret _) _ => by apply lockstep_ret
  | |- lockstep _ (match ?x with _ => _ end) _ => destruct x eqn:?
  end.

Lemma lockstep_interrupt :
  lockstep eq UdfpsSensor_interruptPoll UdfpsSensor_interruptPoll.
Proof.
  intros w1 w2 Hw. pose proof Hw as ((H1 & H2 & [= He Hs Hm Hp Ht]) & Htr).
  unfold UdfpsSensor_interruptPoll. rewrite !bind_gets, Hp.
  destruct (mWaitPipe (st w2)) as [n|] eqn:Hp2; [|by do 4 eexists].
  destruct (decide _) as [|Hfull].
  - revert w1 w2 Hw H1 H2 He Hs Hm Hp Ht Htr Hp2.
    enough (lockstep eq (modify (λ x, with_pipe x (Some (S n)));; emit pipe_write)
      (modify (λ x, with_pipe x (Some (S n)));; emit pipe_write)) as Hl by (intros; by apply Hl).
    solve_lockstep.
  - exists (Fault Blocks), (Fault Blocks), w1, w2. split; [done|]. split; [done|]. split; [|done].
    split; [done|]. split; [done|]. unfold roomy. by rewrite Hp, Hp2.
Qed.

Lemma lockstep_activate enable :
  lockstep eq (UdfpsSensor_activate enable) (UdfpsSensor_activate enable).
Proof.
  eapply lockstep_bind; [apply lockstep_field; by intros ?? (? & ? & [=])|].
  intros enabled ? <-. solve_lockstep. eapply lockstep_bind; [apply lockstep_interrupt|].
  intros [] [] _. solve_lockstep.
Qed.

Lemma lockstep_mode mode :
  lockstep eq (UdfpsSensor_setOperationMode mode) (UdfpsSensor_setOperationMode mode).
Proof.
  eapply (lockstep_bind eq); [|intros [] [] _; apply lockstep_interrupt].
  eapply lockstep_bind; [apply lockstep_field; by intros ?? (? & ? & [=])|].
  intros m ? <-. case_decide; solve_lockstep.
Qed.

Lemma lockstep_inject event :
  lockstep eq (_ ← injectEvent event; mret ()) (_ ← injectEvent event; mret ()).
Proof.
  eapply (lockstep_bind eq); [|intros ? ? _; by apply lockstep_ret].
  eapply lockstep_bind; [apply lockstep_gets|]. intros x1 x2 ([_ Hf1] & [_ Hf2] & _).
  case_decide; [by apply lockstep_ret|]. unfold supportsDataInjection.
  rewrite Hf1, Hf2, injection_bit. by apply lockstep_ret.
Qed.

Lemma lockstep_poll r : lockstep eq (poll r) (poll r).
Proof.
  eapply lockstep_bind; [apply lockstep_gets|].
  intros x1 x2 (_ & _ & [= _ _ _ Hp Ht]). rewrite Hp, Ht. unfold goto. solve_lockstep.
Qed.

Lemma lockstep_delete : lockstep eq Sensor_delete Sensor_delete.
Proof. unfold Sensor_delete. solve_lockstep. Qed.

Lemma lockstep_report x1 x2 :
  told_alike → lockstep eq (report_of env1 UdfpsSensor x1) (report_of env2 SingleTapSensor x2).
Proof.
  intros Htold. apply lockstep_done. intros w1 w2 [Hs Ht].
  destruct (Htold _ _ Ht) as [Hnode _].
  cbn. unfold finger_report, tap_report. run. specialize (Hnode (mScreenX x1) (mScreenY x1)).
  destruct (readFpState _ _ _) as [[sx sy] down]. cbn in Hnode. subst down.
  by do 4 eexists.
Qed.

Lemma lockstep_post x1 x2 :
  told_alike → same_sensor x1 x2 → lockstep eq (post_report env1 x1) (post_report env2 x2).
Proof.
  intros Htold ([_ Hf1] & [_ Hf2] & _). apply lockstep_done. intros w1 w2 [Hs Ht].
  destruct (Htold _ _ Ht) as [_ Hfile].
  destruct Hs as ([[Hb1 Hk1] H1] & [[Hb2 Hk2] H2] & Heq).
  destruct (post_report_done env1 x1 w1) as (e1 & Hl1 & ->); [right; by rewrite Hk1|].
  destruct (post_report_done env2 x2 w2) as (e2 & Hl2 & ->); [by left|].
  do 4 eexists. do 3 (split; [done|]). split; cbn.
  - injection Heq as ?????. split; [done|]. split; [done|]. cbn. congruence.
  - apply Forall2_app; [done|]. constructor; [|done]. cbn.
    unfold isWakeUpSensor. by rewrite Hf1, Hf2, Hl1, Hl2.
Qed.

Lemma lockstep_loop :
  told_alike →
  lockstep eq (poll_loop env1 (report_of env1 UdfpsSensor))
    (poll_loop env2 (report_of env2 SingleTapSensor)).
Proof.
  intros Htold. eapply lockstep_bind; [apply lockstep_gets|]. intros x1 x2 Hx.
  pose proof Hx as (_ & _ & [= He Hs Hm Hp Ht]). rewrite He, Hs, Hm, Ht. unfold goto.
  destruct (thread x2) as [| |ok node interrupted|]; [|by apply lockstep_ret| |by apply lockstep_ret].
  - solve_lockstep.
  - eapply (lockstep_bind eq); [|intros [] [] _; same_modify].
    destruct ok; [|same_modify]. eapply (lockstep_bind eq).
    + destruct node; [by apply lockstep_report|by apply lockstep_ret].
    + intros b ? <-. destruct b; [by apply lockstep_post|].
      unfold drain_pipe. solve_lockstep.
Qed.

Lemma lockstep_act a : told_alike → lockstep eq (sensor_act env1 a) (sensor_act env2 a).
Proof.
  intros Htold w1 w2 Hw. pose proof Hw as [([[Hb1 Hk1] _] & [[Hb2 Hk2] _] & _) _].
  destruct (own_calls w1 UdfpsSensor Hk1) as (A1 & M1 & B1 & F1 & D1).
  destruct (own_calls w2 SingleTapSensor Hk2) as (A2 & M2 & B2 & F2 & D2).
  destruct a as [enable|mode|period| |event| |r| |]; cbn [sensor_act].
  - rewrite A1, A2. by apply lockstep_activate.
  - rewrite M1, M2. by apply lockstep_mode.
  - rewrite B1, B2. by exists (Done ()), (Done ()), w1, w2.
  - rewrite (bind_done _ _ _ _ _ F1), (bind_done _ _ _ _ _ F2).
    by exists (Done ()), (Done ()), w1, w2.
  - by apply lockstep_inject.
  - rewrite (own_thread env1 w1 UdfpsSensor), (own_thread env2 w2 SingleTapSensor) by done.
    by apply lockstep_loop.
  - by apply lockstep_poll.
  - rewrite D1, D2. by apply lockstep_interrupt.
  - by apply lockstep_delete.
Qed.

(** C21: the two sensors are the same machine but for the node they read. A finger sensor and
    a tap sensor, constructed under the same circumstances and told the same by their
    nodes, answer every sequence of calls, sections of the thread and returns of the poll
    alike: no step of either faults, unless one of both waits at a full pipe, they end
    enabled, stopped, in the mode and at the place of the thread as the other, and they have
    made the same calls, reports included, but for the data of the events. *)
Theorem sensors_alike h1 h2 c1 c2 acts :
  told_alike → early c1 = false → early c2 = false →
  (pipe_ok c1, node_ok c1, stop c1) = (pipe_ok c2, node_ok c2, stop c2) →
  ∃ o w1 w2,
    for_each (sensor_act env1) acts (World (UdfpsSensor_new h1 c1) []) = (o, w1) ∧
    for_each (sensor_act env2) acts (World (SingleTapSensor_new h2 c2) []) = (o, w2) ∧
    (o = Done () ∨ o = Fault Blocks ∧ ¬ roomy (st w1) ∧ ¬ roomy (st w2)) ∧
    same_sensor (st w1) (st w2) ∧ Forall2 same_call (tr w1) (tr w2).
Proof.
  intros Htold He1 He2 [= Hp Hn Hs].
  assert (lockstep eq (for_each (sensor_act env1) acts) (for_each (sensor_act env2) acts))
    as Hacts.
  { induction acts as [|a acts IH]; [by apply lockstep_ret|].
    eapply lockstep_bind; [by apply lockstep_act|]. by intros [] [] _. }
  destruct (Hacts (World (UdfpsSensor_new h1 c1) []) (World (SingleTapSensor_new h2 c2) []))
    as (o1 & o2 & w1 & w2 & E1 & E2 & Ho & Hw).
  2: { exists o1, w1, w2. split; [done|]. destruct Hw as [Hw1 Hw2].
       destruct o1 as [[]|], o2 as [[]|]; try done; [by split; [|split; [left|]]|].
       destruct Ho as (-> & -> & ? & ?). by split; [|split; [right|]]. }
  split; [|done]. split; [|split].
  - by destruct (make_sensor_own UdfpsSensor h1 c1 He1) as (? & ? & _).
  - by destruct (make_sensor_own SingleTapSensor h2 c2 He2) as (? & ? & _).
  - cbn. unfold UdfpsSensor_new, SingleTapSensor_new, open_nodes. rewrite Hp, Hn.
    destruct (negb _ || negb _); cbn; congruence.
Qed.
End alike.

(** ** Three more runs *)

(** A sensor whose pipe and node open and whose thread finds it constructed. *)
Definition working : circumstances := {|
  pipe_ok := true; node_ok := true; stop := false; info_before := no_sensor;
  screen_before := (0, 0); early := false
|}.

Section runs.
Context `{C : SensorsConstants} {laws : SensorsLaws C} (env : sensor_environment).

Lemma sensor_run_cons w a w1 acts w2 :
  sensor_act env a w = (Done (), w1) → sensor_run env w1 acts w2 →
  sensor_run env w (a :: acts) w2.
Proof.
  intros Ha Hrun. induction Hrun as [w1|w1 acts a' w2 w3 Hrun IH Hact].
  - by apply (run_step env w [] a w); [apply run_nil|].
  - by apply (run_step env w (a :: acts) a' w2); [apply IH|].
Qed.

Lemma sensor_run_exec acts w w' :
  for_each (sensor_act env) acts w = (Done (), w') → sensor_run env w acts w'.
Proof.
  revert w. induction acts as [|a acts IH]; intros w; cbn; [intros [= <-]; apply run_nil|].
  intros ([] & w1 & Ha & Hrest)%bind_inv. eapply sensor_run_cons; [exact Ha|by apply IH].
Qed.

(** A thread in its poll with the pipe empty, and the steps that do not concern the node. *)
Definition stuck (w : sensor_world) : Prop :=
  thread (st w) = Polling ∧ mWaitPipe (st w) = Some O.

Definition quiet (a : sensor_action) : Prop :=
  a = RunThread ∨ a = PollReturns (PollReady false).

Lemma stuck_stays k w acts w' :
  own_loop (st w) k → stuck w → sensor_run env w acts w' → Forall quiet acts → w' = w.
Proof.
  intros Hk [Ht Hp] Hrun. induction Hrun as [|w acts a w1 w2 Hrun IH Hact];
    intros Hacts; [done|].
  apply Forall_app in Hacts as [Hacts Ha]. rewrite Forall_singleton in Ha.
  rewrite (IH Hk Ht Hp Hacts) in Hact. revert Hact.
  destruct Ha as [->| ->]; cbn [sensor_act].
  - rewrite (own_thread env w k) by done. unfold poll_loop. rewrite bind_gets. cbn [id].
    rewrite Ht. by intros [= <-].
  - unfold poll. rewrite bind_gets. cbn [id]. rewrite Ht, Hp. cbn. by intros [= <-].
Qed.

(** C40: destroying an enabled sensor can hang. The derived class's destructor interrupts the
    poll before the base class's sets [mStopThread]: the thread can wake in between, find
    itself still enabled, consume the byte and poll again. Then the thread has not exited,
    nothing is left in the pipe, and until the node or the poll itself reports something
    it never exits, so that the join does not return. *)
Theorem destruction_can_hang k handle :
  ∃ before between w,
    sensor_run env (World (make_sensor k handle working) [])
      (before ++ [DeleteDerived] ++ between ++ [DeleteBase]) w ∧
    Forall quiet between ∧ mStopThread (st w) = true ∧
    ∀ acts w', sensor_run env w acts w' → Forall quiet acts → thread (st w') = Polling.
Proof.
  exists [Activate true; RunThread; PollReturns (PollReady false); RunThread; RunThread],
    [PollReturns (PollReady false); RunThread; RunThread],
    (World (with_thread (with_enabled (with_stop (with_pipe
       (make_sensor k handle working) (Some O)) true) false) Polling)
       [pipe_write; notify_all; pipe_read; pipe_write; pipe_read; notify_all]).
  split_and!.
  - destruct k; by apply sensor_run_exec.
  - repeat constructor; by (left + right).
  - done.
  - intros acts w' Hrun Hacts. apply (stuck_stays k) in Hrun as ->; [done|by destruct k|by split|done].
Qed.

(** a sensor that has been disabled can still report. The thread does not look at
    [mIsEnabled] again when its poll returns: if the node becomes ready at the moment the
    sensor is disabled, its event is posted. *)
Theorem disabled_sensor_reports handle :
  (∀ t, fp_state env t = Some "10,20,1"%string) →
  ∃ w, sensor_run env (World (UdfpsSensor_new handle working) [])
      [Activate true; RunThread; Activate false; PollReturns (PollReady true); RunThread] w ∧
    mIsEnabled (st w) = false ∧ reports (tr w) = 1%nat.
Proof.
  intros Hnode. set (x := with_pipe (UdfpsSensor_new handle working) (Some 2%nat)).
  set (t := [pipe_write; notify_all; pipe_write; notify_all]).
  set (w := World (with_thread x (Polled true true true)) t).
  destruct (post_report_done env (st w) (World (with_screen (st w) 10 20) t)) as (events & _ & Epost);
    [by right|].
  exists (World (with_screen x 10 20) (t ++ [cb_postEvents events (isWakeUpSensor x)])).
  split; [|done].
  apply (run_step env _ [Activate true; RunThread; Activate false; PollReturns (PollReady true)]
    RunThread w); [by apply sensor_run_exec|].
  cbn [sensor_act]. rewrite (own_thread env w UdfpsSensor) by done.
  unfold poll_loop. rewrite bind_gets. cbn [id w st thread with_thread].
  assert (report_of env UdfpsSensor (st w) w = (Done true, World (with_screen (st w) 10 20) t))
    as Hread by (cbn; unfold finger_report; run; by rewrite Hnode).
  erewrite bind_done by (erewrite bind_done by exact Hread; exact Epost). reflexivity.
Qed.

(** *** Changes of the mode fill the pipe *)

Definition mode_changes (acts : list sensor_action) : nat :=
  length (List.filter (λ a, match a with SetOperationMode _ => true | _ => false end) acts).

Lemma mode_changes_snoc acts a :
  mode_changes (acts ++ [a])
  = (mode_changes acts + match a with SetOperationMode _ => 1 | _ => 0 end)%nat.
Proof. unfold mode_changes. rewrite List.filter_app, length_app. by destruct a. Qed.

(** A disabled sensor, with [n] bytes in its pipe: its thread never polls. *)
Definition idle (k : SensorKind) (n : nat) (x : Sensor) : Prop :=
  ours k x ∧ mIsEnabled x = false ∧ mWaitPipe x = Some n ∧
  match thread x with Head | Exited => True | _ => False end.

Definition keeps_idle (a : sensor_action) : Prop := a ≠ Activate true ∧ a ≠ DeleteDerived.

Lemma idle_mode k n mode w :
  idle k n (st w) →
  if decide (Z.of_nat n < PIPE_CAPACITY) then ∃ w',
    sensor_act env (SetOperationMode mode) w = (Done (), w') ∧ idle k (S n) (st w')
  else ∃ w', sensor_act env (SetOperationMode mode) w = (Fault Blocks, w').
Proof.
  intros ([[Hb Hk] Hf] & He & Hp & Ht). cbn [sensor_act].
  destruct (own_calls w k Hk) as (_ & -> & _).
  assert (∃ w1, Sensor_setOperationMode mode w = (Done (), w1) ∧ idle k n (st w1))
    as (w1 & E & H1).
  { unfold Sensor_setOperationMode. rewrite bind_gets. case_decide; by eexists. }
  unfold UdfpsSensor_setOperationMode. rewrite (bind_done _ _ _ _ _ E).
  destruct H1 as (Ho & He1 & Hp1 & Ht1). unfold UdfpsSensor_interruptPoll. rewrite bind_gets, Hp1.
  destruct (decide (Z.of_nat n < PIPE_CAPACITY)); by eexists.
Qed.

Lemma idle_act k n a w w' :
  idle k n (st w) → keeps_idle a → sensor_act env a w = (Done (), w') →
  idle k (n + match a with SetOperationMode _ => 1 | _ => 0 end) (st w').
Proof.
  intros Hi [Ha Hd] E. pose proof Hi as ([[Hb Hk] Hf] & He & Hp & Ht).
  destruct (own_calls w k Hk) as (HA & _ & HB & HF & _).
  destruct a as [[]|mode|period| |event| |r| |]; try done; rewrite ?Nat.add_0_r.
  - cbn [sensor_act] in E. rewrite HA in E. unfold UdfpsSensor_activate in E.
    rewrite bind_gets, He in E. by injection E as <-.
  - rewrite Nat.add_1_r. pose proof (idle_mode k n mode w Hi) as Hm. case_decide;
      destruct Hm as (w1 & E1 & H1) || destruct Hm as (w1 & E1); rewrite E in E1; [|done].
    by injection E1 as <-.
  - cbn [sensor_act] in E. rewrite HB in E. by injection E as <-.
  - cbn [sensor_act] in E. rewrite (bind_done _ _ _ _ _ HF) in E. by injection E as <-.
  - cbn [sensor_act] in E. unfold injectEvent, supportsDataInjection in E.
    apply bind_inv in E as (r & w1 & E1 & [= <-]). rewrite bind_gets in E1. cbn [id] in E1.
    rewrite Hf, injection_bit in E1. case_decide; by injection E1 as _ <-.
  - cbn [sensor_act] in E. rewrite (own_thread env w k) in E by done. unfold poll_loop in E.
    rewrite bind_gets in E. cbn [id] in E. rewrite He in E. cbn [negb orb] in E.
    destruct (thread (st w)) eqn:Hth; try done; [|by injection E as <-].
    destruct (mStopThread (st w)); by injection E as <-.
  - cbn [sensor_act] in E. unfold poll in E. rewrite bind_gets in E. cbn [id] in E.
    destruct (thread (st w)) eqn:Hth; try done; by injection E as <-.
  - cbn [sensor_act] in E. unfold Sensor_delete in E. by injection E as <-.
Qed.

(** C9: changes of the mode fill the pipe of a sensor that is not enabled. [setOperationMode]
    writes a byte to the pipe in every call, whether or not the mode is new, and only the
    thread of an enabled sensor reads the pipe: in every run of a sensor that has not been
    enabled, whatever else happens, after as many calls as the pipe has bytes the next one
    waits. *)
Theorem mode_changes_fill_pipe k handle acts w mode :
  sensor_run env (World (make_sensor k handle working) []) acts w → Forall keeps_idle acts →
  Z.of_nat (mode_changes acts) = PIPE_CAPACITY →
  ∃ w', sensor_act env (SetOperationMode mode) w = (Fault Blocks, w').
Proof.
  intros Hrun Ha Hn. enough (idle k (mode_changes acts) (st w)) as Hi.
  { pose proof (idle_mode k _ mode w Hi) as Hm. case_decide; [lia|done]. }
  clear Hn. remember (World (make_sensor k handle working) []) as w0 eqn:Hw0.
  induction Hrun as [w|w acts a w1 w2 Hrun IH Hact]; subst w.
  - destruct (make_sensor_own k handle working) as (Ho & Hf & He & Ht); [done|].
    unfold idle, ours. cbn [st]. rewrite Ht. split; [done|]. split; [done|]. by destruct k.
  - apply Forall_app in Ha as [Ha Hlast]. rewrite Forall_singleton in Hlast.
    rewrite mode_changes_snoc. by eapply idle_act; [apply IH|..].
Qed.

Lemma mode_changes_run k handle mode n : Z.of_nat n ≤ PIPE_CAPACITY → ∃ w,
  sensor_run env (World (make_sensor k handle working) []) (repeat (SetOperationMode mode) n) w ∧
  idle k n (st w).
Proof.
  induction n as [|n IH]; intros Hn.
  - eexists. split; [apply run_nil|]. destruct (make_sensor_own k handle working) as (Ho & Hf & He & Ht);
      [done|]. unfold idle, ours. cbn [st]. rewrite Ht. split; [done|]. split; [done|].
    by destruct k.
  - destruct IH as (w & Hrun & Hi); [lia|]. pose proof (idle_mode k n mode w Hi) as Hm.
    rewrite decide_True in Hm by lia. destruct Hm as (w' & E & Hi'). exists w'. split; [|done].
    replace (repeat (SetOperationMode mode) (S n))
      with (repeat (SetOperationMode mode) n ++ [SetOperationMode mode]) by
      (by rewrite <- repeat_cons).
    by eapply run_step.
Qed.

(** a thread that starts before the sensor is constructed reports without end. If the
    thread runs the base class's loop, an enabled finger sensor posts an event in every turn
    of the loop, with no finger and without disabling itself. *)
Theorem early_thread_reports_without_end n w :
  (∀ t t', now_ns env t ≤ now_ns env (t ++ t')) →
  class (st w) = Derived UdfpsSensor → base_run (st w) = true → thread (st w) = Head →
  mIsEnabled (st w) = true → mMode (st w) = NORMAL → mStopThread (st w) = false →
  mSamplingPeriodNs (st w) = 0 → mLastSampleTimeNs (st w) ≤ now_ns env (tr w) →
  ∃ w', sensor_run env w (repeat RunThread n) w' ∧
    mIsEnabled (st w') = true ∧ reports (tr w') = (reports (tr w) + n)%nat.
Proof.
  intros Hclock. revert w. induction n as [|n IH]; intros w Hk Hb Ht He Hm Hs Hp Hl.
  { exists w. split_and!; [apply run_nil|done|lia]. }
  set (now := now_ns env (tr w)).
  destruct (readEvents_done env (World (with_last (st w) now) (tr w))) as (events & Eread & _);
    [right; cbn; by rewrite Hk|].
  set (w1 := World (with_last (st w) now)
    (tr w ++ [cb_postEvents events (isWakeUpSensor (st w))])).
  assert (sensor_act env RunThread w = (Done (), w1)) as Hact.
  { cbn [sensor_act]. unfold startThread. rewrite bind_gets. cbn [id]. rewrite Hb, Ht.
    rewrite Sensor_run_due by (done || (rewrite Hp; lia)).
    erewrite bind_done by reflexivity. by erewrite bind_done by exact Eread. }
  destruct (IH w1) as (w' & Hrun & He' & Hr'); [done..|apply Hclock|].
  exists w'. split_and!; [by eapply sensor_run_cons|done|].
  rewrite Hr'. cbn. rewrite reports_app. unfold reports at 2. cbn. lia.
Qed.
End runs.

(** A finger at (10, 20), a tap, and a clock that stands still. *)
Definition sample_nodes : sensor_environment := {|
  fp_state _ := Some "10,20,1"%string;
  single_tap _ := Some "1"%char;
  touch_data _ := Some ["x:1f"; "y:a0"]%string;
  clock_gettime _ := (5, 0);
  elapsedRealtimeNano _ := 7
|}.

Definition alike_run : list sensor_action :=
  [Activate true; RunThread; PollReturns (PollReady true); RunThread; SetOperationMode NORMAL;
   Activate true; RunThread; PollReturns (PollReady false); RunThread; RunThread;
   PollReturns PollError; RunThread; RunThread].

Example reports_at_most_activations_witness :
  ∃ w, sensor_run sample_nodes (World (SingleTapSensor_new 2 working) [])
    [Activate true; RunThread; PollReturns (PollReady true); RunThread; RunThread] w ∧
  (reports (tr w) ≤ 1)%nat ∧ reports (tr w) = 1%nat.
Proof.
  destruct (for_each (sensor_act sample_nodes)
    [Activate true; RunThread; PollReturns (PollReady true); RunThread; RunThread]
    (World (SingleTapSensor_new 2 working) [])) as [o w] eqn:E.
  assert (o = Done () ∧ reports (tr w) = 1%nat) as [-> Hr]
    by (vm_compute in E; by injection E as <- <-).
  apply sensor_run_exec in E. exists w. split_and!; [done| |done].
  by apply (reports_at_most_activations sample_nodes SingleTapSensor 2 working) in E.
Defined.

Example disabled_sensor_reports_witness :
  ∃ w, sensor_run sample_nodes (World (UdfpsSensor_new 1 working) [])
      [Activate true; RunThread; Activate false; PollReturns (PollReady true); RunThread] w ∧
    mIsEnabled (st w) = false ∧ reports (tr w) = 1%nat.
Proof. by apply (disabled_sensor_reports sample_nodes 1). Defined.

(** A finger sensor whose thread started too early, enabled. *)
Definition early_world : sensor_world :=
  World (with_enabled (UdfpsSensor_new 1 {| pipe_ok := true; node_ok := true; stop := false;
    info_before := no_sensor; screen_before := (0, 0); early := true |}) true) [].

Example early_thread_reports_without_end_witness :
  ∃ w', sensor_run sample_nodes early_world (repeat RunThread 3) w' ∧ mIsEnabled (st w') = true ∧ reports (tr w') = 3%nat.
Proof.
  apply (early_thread_reports_without_end sample_nodes 3 early_world); by vm_compute.
Defined.

(** A finger and a tap that stay, in a sequence with a report, an interruption and a poll that
    fails. *)
Example sensors_alike_witness :
  ∃ w1 w2,
    for_each (sensor_act sample_nodes) alike_run (World (UdfpsSensor_new 1 working) [])
      = (Done (), w1) ∧
    for_each (sensor_act sample_nodes) alike_run (World (SingleTapSensor_new 2 working) [])
      = (Done (), w2) ∧
    same_sensor (st w1) (st w2) ∧ Forall2 same_call (tr w1) (tr w2) ∧ reports (tr w1) = 1%nat.
Proof.
  destruct (sensors_alike sample_nodes sample_nodes 1 2 working working alike_run)
    as (o & w1 & w2 & E1 & E2 & _ & Hs & Ht); [|done..|].
  - intros t1 t2 _. split; [done|]. exists 31, 160. by vm_compute.
  - assert (o = Done ()) as -> by (vm_compute in E1; by injection E1 as <- _).
    exists w1, w2. split; [exact E1|]. split; [exact E2|]. split; [exact Hs|]. split; [exact Ht|].
    transitivity (reports (tr (for_each (sensor_act sample_nodes) alike_run
      (World (UdfpsSensor_new 1 working) [])).2)); [by rewrite E1|by vm_compute].
Defined.

Example mode_changes_fill_pipe_witness : ∃ w w',
  sensor_run sample_nodes (World (UdfpsSensor_new 1 working) [])
    (repeat (SetOperationMode NORMAL) (Z.to_nat PIPE_CAPACITY)) w ∧
  sensor_act sample_nodes (SetOperationMode NORMAL) w = (Fault Blocks, w').
Proof.
  assert (Z.of_nat (Z.to_nat PIPE_CAPACITY) = PIPE_CAPACITY) as Hn
    by (apply Z2Nat.id; unfold PIPE_CAPACITY; lia).
  revert Hn. generalize (Z.to_nat PIPE_CAPACITY) as n. intros n Hn.
  destruct (mode_changes_run sample_nodes UdfpsSensor 1 NORMAL n) as (w & Hrun & _); [lia|].
  destruct (mode_changes_fill_pipe sample_nodes UdfpsSensor 1
    (repeat (SetOperationMode NORMAL) n) w NORMAL) as (w' & E).
  - exact Hrun.
  - clear. induction n; by constructor.
  - rewrite <- Hn. f_equal. clear. unfold mode_changes. induction n as [|n IH]; cbn; [done|].
    by rewrite IH.
  - by exists w, w'.
Defined.
