(* ===== verification/SubHal.v ===== *)
(** * The sub-HAL

    [sensors/SensorsSubHal.cpp]: the device's own sub-HAL, which finds its sensors by their
    handles and passes their reports to the proxy under a scoped wakelock; and what holds
    of it behind the proxy and the callback. *)

From S2P Require Import Prelude Words Handles SensorTypes HalProxy EventQueue Callback Sensor.
From S2P Require Import SensorRuns.

(** [mSensors] holds the sensors with the calls each has made. *)
Record SensorsSubHal : Set := {
  mSensors : gmap Z sensor_world;
  mCallback : bool;                          (* whether it has been set *)
  mCurrentOperationMode : OperationMode;
  mNextHandle : Z
}.

Definition set_sensors (m : gmap Z sensor_world) (x : SensorsSubHal) : SensorsSubHal :=
  {| mSensors := m; mCallback := mCallback x;
     mCurrentOperationMode := mCurrentOperationMode x; mNextHandle := mNextHandle x |}.
Definition set_mode (mode : OperationMode) (x : SensorsSubHal) : SensorsSubHal :=
  {| mSensors := mSensors x; mCallback := mCallback x; mCurrentOperationMode := mode;
     mNextHandle := mNextHandle x |}.

(** Calls of the callback. *)
Inductive subhal_call : Set :=
| createScopedWakelock (lock : bool)
| postEvents (events : list Event).

Section subhal.
Context `{C : SensorsConstants}.

Abbreviation prog := (M (world SensorsSubHal subhal_call)).

Definition AddSensor (k : SensorKind) (c : circumstances) (x : SensorsSubHal) : SensorsSubHal :=
  let sensor := make_sensor k (mNextHandle x) c in
  {| mSensors := <[sensorHandle (mSensorInfo sensor) := World sensor []]> (mSensors x);
     mCallback := mCallback x; mCurrentOperationMode := mCurrentOperationMode x;
     mNextHandle := i32 (mNextHandle x + 1) |}.

Definition SensorsSubHal_new (c1 c2 : circumstances) : SensorsSubHal :=
  AddSensor SingleTapSensor c2 (AddSensor UdfpsSensor c1
    {| mSensors := ∅; mCallback := false; mCurrentOperationMode := NORMAL; mNextHandle := 1 |}).

Definition getOperationMode (x : SensorsSubHal) : OperationMode := mCurrentOperationMode x.

Definition getName : string := "FakeSubHal".

Definition getSensorsList_2_1 (x : SensorsSubHal) : list SensorInfo :=
  omap (λ h, (λ w, getSensorInfo (st w)) <$> mSensors x !! h) (keys (mSensors x)).

(** A call of a sensor's operation, and the answer where there is no such sensor. *)
Definition on_sensor {A} (sensorHandle : Z) (m : M sensor_world A) (none : A) : prog A := λ w,
  match mSensors (st w) !! sensorHandle with
  | Some s =>
      let (o, s') := m s in
      (o, World (set_sensors (<[sensorHandle := s']> (mSensors (st w))) (st w)) (tr w))
  | None => (Done none, w)
  end.

Definition setOperationMode (mode : OperationMode) : prog Result :=
  sensors ← gets mSensors;
  for_each (λ h, on_sensor h (Sensor.setOperationMode mode) ()) (keys sensors);;
  modify (set_mode mode);;
  mret OK.

Definition activate (sensorHandle : Z) (enabled : bool) : prog Result :=
  on_sensor sensorHandle (Sensor.activate enabled;; mret OK) BAD_VALUE.

Definition batch (sensorHandle samplingPeriodNs maxReportLatencyNs : Z) : prog Result :=
  on_sensor sensorHandle (Sensor.batch (i32 samplingPeriodNs);; mret OK) BAD_VALUE.

Definition flush (sensorHandle : Z) : prog Result :=
  on_sensor sensorHandle Sensor.flush BAD_VALUE.

Definition injectSensorData_2_1 (event : Event) : prog Result :=
  on_sensor (ev_handle event) (injectEvent event) BAD_VALUE.

Definition registerDirectChannel : prog (Result * Z) := mret (INVALID_OPERATION, -1).
Definition unregisterDirectChannel : prog Result := mret INVALID_OPERATION.
Definition configDirectReport : prog (Result * Z) := mret (INVALID_OPERATION, 0).

Definition initialize : prog Result :=
  modify (λ x, {| mSensors := mSensors x; mCallback := true;
                  mCurrentOperationMode := mCurrentOperationMode x;
                  mNextHandle := mNextHandle x |});;
  setOperationMode NORMAL.

(** The reports of the sensors: a call through the null pointer before [initialize]. *)
Definition SensorsSubHal_postEvents (events : list Event) (wakeup : bool) : prog unit :=
  callback ← gets mCallback;
  if callback : bool then
    emit (createScopedWakelock wakeup);; emit (postEvents events)
  else faults NullDeref.
(** [sensorsHalGetSubHal_2_1]: what the library's entry point gives, with the version it
    reports. *)
Definition sensorsHalGetSubHal_2_1 (SUB_HAL_2_1_VERSION : Z) (c1 c2 : circumstances)
    : Z * SensorsSubHal :=
  (SUB_HAL_2_1_VERSION, SensorsSubHal_new c1 c2).
End subhal.

Section lemmas.
Context `{C : SensorsConstants} {laws : SensorsLaws C}.

Abbreviation world_t := (world SensorsSubHal subhal_call).

(** ** Operations that write to a pipe

    They return if the pipe has room, and wait otherwise. *)
Definition returns_or_blocks {A} (r : A) (m : M sensor_world A) : Prop := ∀ s,
  (∃ s', m s = (Done r, s')) ∨ ¬ roomy (st s) ∧ ∃ s', m s = (Fault Blocks, s').

Lemma interrupt_returns : returns_or_blocks () UdfpsSensor_interruptPoll.
Proof.
  intros s. unfold UdfpsSensor_interruptPoll, roomy. rewrite bind_gets.
  destruct (mWaitPipe (st s)) as [n|]; [|left; by eexists].
  case_decide; [left|right; split; [done|]]; by eexists.
Qed.

Lemma sensor_activate_returns enabled : returns_or_blocks () (Sensor.activate enabled).
Proof.
  intros s. unfold Sensor.activate. rewrite bind_gets.
  assert (∃ s', Sensor_activate enabled s = (Done (), s')) as Hbase.
  { unfold Sensor_activate. rewrite bind_gets. by destruct (Bool.eqb _ _); eexists. }
  assert ((∃ s', UdfpsSensor_activate enabled s = (Done (), s')) ∨
    ¬ roomy (st s) ∧ ∃ s', UdfpsSensor_activate enabled s = (Fault Blocks, s')) as Hown.
  { unfold UdfpsSensor_activate. rewrite bind_gets. destruct (Bool.eqb _ _); [left; by eexists|].
    erewrite bind_done by reflexivity. set (s1 := World _ _).
    destruct (interrupt_returns s1) as [[s2 E]|[Hf [s2 E]]].
    - left. rewrite (bind_done _ _ _ _ _ E). by eexists.
    - right. split; [done|]. exists s2. unfold mbind, M_bind. by rewrite E. }
  destruct (class (st s)) as [| |[]]; (by left) || done.
Qed.

Lemma sensor_mode_returns mode : returns_or_blocks () (Sensor.setOperationMode mode).
Proof.
  intros s. unfold Sensor.setOperationMode. rewrite bind_gets.
  assert (∃ s1, Sensor_setOperationMode mode s = (Done (), s1) ∧
    mWaitPipe (st s1) = mWaitPipe (st s)) as (s1 & E1 & Hp).
  { unfold Sensor_setOperationMode. rewrite bind_gets. case_decide; by eexists. }
  assert ((∃ s', UdfpsSensor_setOperationMode mode s = (Done (), s')) ∨
    ¬ roomy (st s) ∧ ∃ s', UdfpsSensor_setOperationMode mode s = (Fault Blocks, s')) as Hown.
  { unfold UdfpsSensor_setOperationMode. rewrite (bind_done _ _ _ _ _ E1).
    unfold roomy. rewrite <- Hp. apply interrupt_returns. }
  destruct (class (st s)) as [| |[]]; (left; by eexists) || done.
Qed.

(** Whether no pipe of a sensor is full. *)
Definition all_roomy (x : SensorsSubHal) : Prop := map_Forall (λ _ s, roomy (st s)) (mSensors x).

(** An operation of a sensor, where there is one. *)
Lemma on_sensor_returns {A} h (m : M sensor_world A) (r none : A) (w : world_t) :
  returns_or_blocks r m →
  (∃ w', on_sensor h m none w
         = (Done (if mSensors (st w) !! h is Some _ then r else none), w') ∧
     tr w' = tr w ∧ mCallback (st w') = mCallback (st w) ∧
     mCurrentOperationMode (st w') = mCurrentOperationMode (st w) ∧
     ∀ h', mSensors (st w') !! h' = (if decide (h = h') then (λ s, (m s).2) <$> mSensors (st w) !! h'
                                     else mSensors (st w) !! h')) ∨
  (∃ s, mSensors (st w) !! h = Some s ∧ ¬ roomy (st s)) ∧
  ∃ w', on_sensor h m none w = (Fault Blocks, w') ∧ tr w' = tr w.
Proof.
  intros Hm. unfold on_sensor. destruct (mSensors (st w) !! h) as [s|] eqn:Hs.
  - destruct (Hm s) as [[s' E]|[Hf [s' E]]]; rewrite E.
    + left. eexists. do 4 (split; [done|]). intros h'. cbn. case_decide as Hh; [subst h'|].
      * by rewrite lookup_insert_eq, Hs; cbn; rewrite E.
      * by rewrite lookup_insert_ne.
    + right. split; [by exists s|]. by eexists.
  - left. exists w. do 4 (split; [done|]). intros h'. case_decide as Hh; [subst h'|done].
    by rewrite Hs.
Qed.

(** One after the other, each of the sensors of a list runs an operation. *)
Lemma each_sensor (m : M sensor_world unit) l (w : world_t) :
  returns_or_blocks () m → NoDup l →
  (∃ w', for_each (λ h, on_sensor h m ()) l w = (Done (), w') ∧ tr w' = tr w ∧
     mCallback (st w') = mCallback (st w) ∧
     mCurrentOperationMode (st w') = mCurrentOperationMode (st w) ∧
     ∀ h, mSensors (st w') !! h = (if decide (h ∈ l) then (λ s, (m s).2) <$> mSensors (st w) !! h
                                   else mSensors (st w) !! h)) ∨
  (∃ h s, h ∈ l ∧ mSensors (st w) !! h = Some s ∧ ¬ roomy (st s)) ∧
  ∃ w', for_each (λ h, on_sensor h m ()) l w = (Fault Blocks, w') ∧ tr w' = tr w.
Proof.
  intros Hm. revert w. induction l as [|h0 l IH]; intros w Hl.
  { left. exists w. do 4 (split; [done|]). intros h.
    by rewrite decide_False by apply not_elem_of_nil. }
  apply NoDup_cons in Hl as [Hh Hl]. cbn [for_each].
  destruct (on_sensor_returns h0 m () () w Hm)
    as [(w1 & E1 & T1 & C1 & M1 & S1)|((s & Hs & Hf) & w1 & E1 & T1)].
  2: { right. split; [by exists h0, s; split; [left|]|]. exists w1. unfold mbind, M_bind.
       by rewrite E1. }
  replace (if _ is Some _ then () else ()) with () in E1 by (by destruct (mSensors (st w) !! h0)).
  rewrite (bind_done _ _ _ _ _ E1).
  destruct (IH w1 Hl) as [(w2 & E2 & T2 & C2 & M2 & S2)|((h & s & Hin & Hs & Hf) & w2 & E2 & T2)].
  - left. exists w2. split; [done|]. do 3 (split; [congruence|]). intros h. rewrite S2, S1.
    destruct (decide (h0 = h)) as [->|Hne].
    + rewrite decide_False by done. by rewrite decide_True by (by left).
    + assert (h ∈ l ↔ h ∈ h0 :: l) as Hl' by (rewrite elem_of_cons; naive_solver).
      by destruct (decide (h ∈ l)), (decide (h ∈ h0 :: l)); tauto.
  - right. split; [|exists w2; split; [done|congruence]]. exists h, s. split; [by right|].
    split; [|done]. rewrite S1 in Hs. by rewrite decide_False in Hs by (by intros ->).
Qed.

Lemma setOperationMode_run mode (w : world_t) :
  (∃ w', setOperationMode mode w = (Done OK, w') ∧ tr w' = tr w ∧
     mCallback (st w') = mCallback (st w) ∧ mCurrentOperationMode (st w') = mode ∧
     ∀ h, mSensors (st w') !! h
          = (λ s, (Sensor.setOperationMode mode s).2) <$> mSensors (st w) !! h) ∨
  ¬ all_roomy (st w) ∧ ∃ w', setOperationMode mode w = (Fault Blocks, w') ∧ tr w' = tr w.
Proof.
  unfold setOperationMode. rewrite bind_gets.
  destruct (each_sensor (Sensor.setOperationMode mode) (keys (mSensors (st w))) w)
    as [(w1 & E & T & Cb & _ & S)|((h & s & _ & Hs & Hf) & w1 & E & T)];
    [apply sensor_mode_returns|apply keys_NoDup|left|right].
  - rewrite (bind_done _ _ _ _ _ E). eexists. split; [done|]. cbn. do 3 (split; [done|]).
    intros h. rewrite S. case_decide as Hk; [done|]. rewrite elem_of_keys in Hk.
    destruct (mSensors (st w) !! h); [|done]. by destruct Hk; eexists.
  - split; [intros Hall; by apply Hf, (Hall h)|]. exists w1. unfold mbind, M_bind. by rewrite E.
Qed.

(** What the sub-HAL says of its sensors. *)
Definition own_info (k : SensorKind) : SensorInfo :=
  mSensorInfo (make_sensor k (match k with UdfpsSensor => 1 | SingleTapSensor => 2 end) working).

Lemma own_list c1 c2 :
  getSensorsList_2_1 (SensorsSubHal_new c1 c2) = [own_info UdfpsSensor; own_info SingleTapSensor].
Proof. by destruct c1 as [[] [] ????], c2 as [[] [] ????]. Qed.

(** the sub-HAL lists its two sensors under handles the proxy accepts, and operates
    exactly the one a handle names. The list is the finger sensor under 1 and the tap
    sensor under 2, both with a clear first byte. [activate] of one of them runs that
    sensor's operation and leaves the other as it is, or waits at a full pipe; of any other
    handle it answers BAD_VALUE and changes nothing. *)
Theorem subhal_sensors c1 c2 :
  let x := SensorsSubHal_new c1 c2 in
  map sensorHandle (getSensorsList_2_1 x) = [1; 2] ∧
  map type (getSensorsList_2_1 x) = [DEVICE_PRIVATE_BASE + 1; DEVICE_PRIVATE_BASE + 2] ∧
  Forall (λ s, subHalIndexIsClear (sensorHandle s) = true) (getSensorsList_2_1 x) ∧
  ∀ h enabled (w : world_t),
    match mSensors (st w) !! h with
    | Some s => ∃ o w', activate h enabled w = (o, w') ∧
        (o = Done OK ∨ o = Fault Blocks ∧ ¬ roomy (st s)) ∧
        mSensors (st w') !! h = Some (Sensor.activate enabled s).2 ∧
        ∀ h', h' ≠ h → mSensors (st w') !! h' = mSensors (st w) !! h'
    | None => activate h enabled w = (Done BAD_VALUE, w)
    end.
Proof.
  intros x. unfold x. rewrite own_list. split; [done|]. split; [done|]. split.
  { repeat constructor; apply index_clear; unfold in_handle; cbn; lia. }
  intros h enabled w. unfold activate, on_sensor.
  destruct (mSensors (st w) !! h) as [s|] eqn:Hs; [|done].
  assert (∃ o s', (Sensor.activate enabled;; mret OK) s = (o, s') ∧
    s' = (Sensor.activate enabled s).2 ∧ (o = Done OK ∨ o = Fault Blocks ∧ ¬ roomy (st s)))
    as (o & s' & E & Hs' & Ho).
  { unfold mbind, M_bind. destruct (sensor_activate_returns enabled s) as [[s' E]|[Hf [s' E]]];
      rewrite E; eexists _, _; (split; [done|]); (split; [done|]); [by left|by right]. }
  rewrite E. eexists _, _. split; [done|]. split; [done|]. cbn.
  split; [by rewrite lookup_insert_eq, Hs'|]. intros h' Hne. by rewrite lookup_insert_ne.
Qed.

(** ** Behind the proxy and the callback *)

(** What the proxy keeps of a sensor of the sub-HAL: its type and that it wakes up. *)
Lemma own_sensor_listed names lists i c1 c2 k :
  (length lists ≤ 256)%nat →
  lists !! i = Some (getSensorsList_2_1 (SensorsSubHal_new c1 c2)) →
  ∃ s, HalProxy.mSensors (HalProxy_new names lists)
         !! setSubHalIndex (sensorHandle (own_info k)) (Z.of_nat i) = Some s ∧
       sensorHandle s = setSubHalIndex (sensorHandle (own_info k)) (Z.of_nat i) ∧
       type s = type (own_info k) ∧ Z.land (flags s) WAKE_UP ≠ 0.
Proof.
  intros Hlen Hi. destruct (HalProxy_new_collected names lists) as [Hsound Hcomplete].
  rewrite own_list in Hi. assert (in_handle (sensorHandle (own_info k))) as Hk
    by (unfold in_handle; destruct k; cbn; lia).
  destruct (Hcomplete i (own_info k)) as [s Hs].
  { apply elem_of_offered. exists i. eexists. split; [lia|]. split; [done|].
    destruct k; repeat ((by left) || right). }
  { by apply index_clear. }
  exists s. split; [done|].
  destruct (Hsound _ _ Hs) as (j & s0 & Hin & Hcl & Hh & Hsh & _ & Ht & Hf & _).
  split; [done|].
  apply elem_of_offered in Hin as (j' & l & -> & Hl & Hs0). cbn in Hl, Hh.
  pose proof (lookup_lt_Some _ _ _ Hi). pose proof (lookup_lt_Some _ _ _ Hl).
  apply set_index_inj in Hh as [Hh Hij]; try (lia || done); [|by apply index_clear].
  assert (j' = i) as -> by lia. assert (s0 = own_info k) as ->.
  { rewrite Hi in Hl. injection Hl as <-. rewrite !elem_of_cons, elem_of_nil in Hs0.
    destruct Hs0 as [->|[->|[]]], k; cbn in Hh; done. }
  split; [apply Ht; by destruct k|].
  assert (flags (own_info k) = Z.lor ONE_SHOT_MODE WAKE_UP) as Hfk by (by destruct k).
  rewrite Hfk in Hf. destruct Hf as [->| ->]; [apply wake_up_bit|].
  unfold direct_mask. rewrite <- Z.land_assoc, (Z.land_comm (Z.lnot _)), <- Z.ldiff_land.
  rewrite Z.ldiff_land, <- (Z.ldiff_land WAKE_UP).
  assert (Z.ldiff WAKE_UP (Z.lor MASK_DIRECT_REPORT MASK_DIRECT_CHANNEL) = WAKE_UP) as ->.
  { rewrite <- (Z.lor_0_r (Z.ldiff _ _)), <- wake_up_not_direct. apply Z.lor_ldiff_and. }
  apply wake_up_bit.
Qed.

(** a report of the device's own sensors passes through the multi-HAL as one wake-up
    event. If the proxy was built over the sub-HAL as its [i]-th, of at most 256, and the
    callback looks sensors up in the proxy's list, then a report of either sensor, posted as
    the sub-HAL does under a locked wakelock, passes the callback's assertions and reaches
    the event queue as one event, under the marked handle, with one reference. *)
Theorem own_report_reaches_queue env names lists i c1 c2 k timestamp data asserts w :
  (length lists ≤ 256)%nat →
  lists !! i = Some (getSensorsList_2_1 (SensorsSubHal_new c1 c2)) →
  mThreadsRun (st w) = true →
  let event := data_event (sensorHandle (own_info k)) timestamp (type (own_info k)) data in
  let info h := default no_sensor (HalProxy.mSensors (HalProxy_new names lists) !! h) in
  isWakeUpSensor (make_sensor k (sensorHandle (own_info k)) working) = true ∧
  Callback.postEvents (IHalProxyCallback0 := proxy_callback env info) (Z.of_nat i) asserts
    [event] true w
  = postEventsToMessageQueue env
      [set_event_handle (setSubHalIndex (sensorHandle (own_info k)) (Z.of_nat i)) event] 1 true w.
Proof.
  intros Hlen Hi Hrun event info. split.
  { unfold isWakeUpSensor. apply negb_true_iff, Z.eqb_neq. destruct k; exact wake_up_bit. }
  destruct (own_sensor_listed names lists i c1 c2 k) as (s & Hs & _ & Ht & Hw); [done..|].
  rewrite postEvents_outcome by (cbn; lia). cbn [areThreadsRunning proxy_callback].
  rewrite Hrun, bool_decide_eq_false_2 by done. cbn [orb negb].
  set (marked := set_event_handle _ event).
  assert (∀ h, h = ev_handle marked → info h = s) as Hinfo by (intros h ->; unfold info;
    change (ev_handle marked) with (setSubHalIndex (sensorHandle (own_info k)) (Z.of_nat i));
    by rewrite Hs).
  assert (passed (IHalProxyCallback0 := proxy_callback env info) (Z.of_nat i) w [event] = [marked])
    as Hpassed.
  { unfold passed. cbn [map List.filter]. change (mark_event (Z.of_nat i) event) with marked.
    replace (suppressed w marked) with false; [done|]. symmetry. apply bool_decide_eq_false.
    cbn [Callback.getSensorInfo proxy_callback]. rewrite Hinfo by done. rewrite Ht.
    intros [Hp _]. pose proof (private_not_pick_up 1). pose proof (private_not_pick_up 2).
    destruct k; cbn in Hp; lia. }
  rewrite Hpassed. cbn [List.filter].
  replace (wakes w marked) with true; [by destruct asserts|].
  symmetry. apply bool_decide_eq_true. cbn [Callback.getSensorInfo proxy_callback]. by rewrite Hinfo.
Qed.
End lemmas.

(** The device: the sub-HAL alone behind the proxy. *)
Definition sample_info (h : Z) : SensorInfo :=
  default no_sensor (HalProxy.mSensors (HalProxy_new ["FakeSubHal"]%string
    [getSensorsList_2_1 (SensorsSubHal_new working working)]) !! h).

Example own_report_reaches_queue_witness :
  tr (Callback.postEvents
    (IHalProxyCallback0 := proxy_callback (sample_queue true) sample_info) 0 true
    [data_event 1 7 0x10001 [10; 20]] true
    (World (with_event_queue true true (Queues_init true 0 0 ∅)) [])).2
  = [acquire_wake_lock; notify_wakelock_thread;
     fmq_write [data_event 1 7 0x10001 [10; 20]] true; wake_reader].
Proof.
  destruct (own_report_reaches_queue (C := aosp_sensors) (sample_queue true) ["FakeSubHal"]%string
    [getSensorsList_2_1 (SensorsSubHal_new working working)] 0
    working working UdfpsSensor 7 [10; 20] true
    (World (with_event_queue true true (Queues_init true 0 0 ∅)) [])) as [_ Hpost]; [cbn; lia|done|done|].
  etrans; [exact (f_equal (λ r, tr r.2) Hpost)|]. reflexivity.
Defined.
