(* ===== verification/Device.v ===== *)
(** * The device's sensors service

    The parts of [sensors/] put together as the device has them: the configuration lists the
    vendor's sub-HAL and the device's own; the proxy's calls drive the latter. The own
    sub-HAL takes the place of the environment the proxy asks: its state is what replaying
    the calls made to it gives, and its answers are those of its operations. The other
    sub-HALs stay an environment. *)

From Stdlib Require Import Ascii.
From S2P Require Import Prelude Words Text Handles SensorTypes HalProxy EventQueue Callback.
From S2P Require Import Sensor SensorRuns Proxy ProxyRuns SubHal.

(** [configs/hals.conf]. *)
Definition hals_conf : string :=
  "sensors.ssc.so" +:+ String "010" ("sensors.nothing.so" +:+ String "010" EmptyString).

(** The library of the own sub-HAL: it has the second of the two entry points. *)
Definition own_library `{C : SensorsConstants} (v21 : Z) (c1 c2 : circumstances) : library := {|
  HalProxy.sensorsHalGetSubHal := None;
  HalProxy.sensorsHalGetSubHal_2_1 := Some (sensorsHalGetSubHal_2_1 v21 c1 c2).1;
  lib_name := getName;
  lib_sensors := getSensorsList_2_1 (sensorsHalGetSubHal_2_1 v21 c1 c2).2
|}.

Abbreviation subhal_world := (world SensorsSubHal subhal_call).

Section device.
Context `{C : SensorsConstants} {laws : SensorsLaws C}.

(** the device's configuration offers the device's own sensors. With its configuration
    file, if the own library can be opened, the proxy has the own sub-HAL after the vendor's
    where that one loads, and alone otherwise; it lists the finger sensor and the tap sensor
    under the handles of that place, with their types and as wake-up sensors. *)
Theorem device_sensors v20 v21 dlopen c1 c2 :
  getHandleForSubHalSharedObject dlopen "sensors.nothing.so" = Some (own_library v21 c1 c2) →
  let vendor := getHandleForSubHalSharedObject dlopen "sensors.ssc.so" ≫= load_subhal v20 v21 in
  let i := match vendor with Some _ => 1%nat | None => 0%nat end in
  let x := HalProxy_from_config v20 v21 dlopen (Some hals_conf) in
  length (mSubHalList x) = S i ∧ mSubHalList x !! i = Some getName ∧
  ∀ k, ∃ s, s ∈ HalProxy.getSensorsList_2_1 x ∧
    sensorHandle s = setSubHalIndex (sensorHandle (own_info k)) (Z.of_nat i) ∧
    type s = type (own_info k) ∧ Z.land (flags s) WAKE_UP ≠ 0.
Proof.
  intros Hown vendor i x.
  assert (initializeSubHalListFromConfigFile v20 v21 dlopen (Some hals_conf)
    = (match vendor with Some lib => [lib] | None => [] end) ++ [own_library v21 c1 c2]) as Hlibs.
  { unfold initializeSubHalListFromConfigFile.
    change (stream_words EmptyString hals_conf) with ["sensors.ssc.so"; "sensors.nothing.so"]%string.
    cbn [omap list_omap]. fold vendor. rewrite Hown.
    assert (Some (own_library v21 c1 c2) ≫= load_subhal v20 v21 = Some (own_library v21 c1 c2))
      as -> by (cbn; unfold load_subhal; cbn; by rewrite decide_False by tauto).
    by destruct vendor. }
  assert (∃ names lists, x = HalProxy_new names lists ∧ length names = S i ∧ length lists = S i ∧
    names !! i = Some getName ∧
    lists !! i = Some (getSensorsList_2_1 (SensorsSubHal_new c1 c2))) as (names & lists & Hx & Hn & Hl & Hni & Hli).
  { unfold x, HalProxy_from_config. rewrite Hlibs. unfold i.
    destruct vendor; by eexists _, _; split_and!. }
  rewrite Hx. split; [|split].
  - unfold HalProxy_new. by rewrite initializeSensorList_names.
  - unfold HalProxy_new. by rewrite initializeSensorList_names.
  - intros k. destruct (own_sensor_listed names lists i c1 c2 k) as (s & Hs & Hh & Ht & Hw);
      [unfold i in *; destruct vendor; lia|done|].
    exists s. split_and!; try done. apply elem_of_getSensorsList. by eexists.
Qed.

(** ** The own sub-HAL behind the proxy *)

Definition run_op (op : sub_op) : M subhal_world Result :=
  match op with
  | sub_setOperationMode mode => SubHal.setOperationMode mode
  | sub_activate h enabled => SubHal.activate h enabled
  | sub_batch h period latency => SubHal.batch h period latency
  | sub_flush h => SubHal.flush h
  | sub_injectSensorData event => injectSensorData_2_1 event
  | sub_registerDirectChannel => '(r, _) ← SubHal.registerDirectChannel; mret r
  | sub_unregisterDirectChannel _ => SubHal.unregisterDirectChannel
  | sub_configDirectReport _ _ _ => '(r, _) ← SubHal.configDirectReport; mret r
  end.

(** At most [b] bytes are in each pipe. *)
Definition pipe_le (b : nat) (s : Sensor) : Prop :=
  match mWaitPipe s with Some n => (n ≤ b)%nat | None => True end.

Definition pipes_le (b : nat) (x : SensorsSubHal) : Prop :=
  map_Forall (λ _ s, pipe_le b (st s)) (SubHal.mSensors x).

#[export] Instance pipe_le_dec b s : Decision (pipe_le b s).
Proof. unfold pipe_le. destruct (mWaitPipe s); apply _. Defined.


Lemma pipes_roomy b x : pipes_le b x → Z.of_nat b < PIPE_CAPACITY → all_roomy x.
Proof.
  intros Hb Hlt h s Hs. specialize (Hb h s Hs). unfold pipe_le, roomy in *. cbn in Hb |- *.
  destruct (mWaitPipe (st s)); [lia|done].
Qed.












Context (i : nat) (s0 : subhal_world).

(** The sub-HAL with the index [i] after the calls of [t], from the state [s0]. *)
Definition replay (t : list proxy_call) : subhal_world :=
  foldl (λ s c, match c with
                | sub_call j op => if decide (j = i) then (run_op op s).2 else s
                | _ => s
                end) s0 t.

(** What it answers to the last call. *)
Definition own_answer (t : list proxy_call) (op : sub_op) : Result :=
  match (run_op op (replay (removelast t))).1 with Done r => r | Fault _ => OtherResult 0 end.

Definition own_env (rest : sub_environment) : sub_environment := {|
  answer t := match last t with
              | Some (sub_call j op) => if decide (j = i) then own_answer t op else answer rest t
              | _ => answer rest t
              end;
  answer_value := answer_value rest
|}.

Lemma replay_snoc t c : replay (t ++ [c]) =
  match c with
  | sub_call j op => if decide (j = i) then (run_op op (replay t)).2 else replay t
  | _ => replay t
  end.
Proof. unfold replay. by rewrite foldl_snoc. Qed.

Lemma own_answer_snoc rest t op :
  answer (own_env rest) (t ++ [sub_call i op]) =
  match (run_op op (replay t)).1 with Done r => r | Fault _ => OtherResult 0 end.
Proof.
  cbn. rewrite last_snoc, decide_True by done. unfold own_answer. by rewrite removelast_last.
Qed.

(** *** The operation mode *)








Section driven.
Context (rest : sub_environment).

Abbreviation env := (own_env rest).
Abbreviation own w := (st (replay (tr w))).


(** Every call to a sub-HAL writes at most one byte to each of the own pipes, which hold at
    most [b0] at first: while fewer calls have been made than there is room for, no call to
    the own sub-HAL waits. *)
Context (b0 : nat) (few_bytes : pipes_le b0 (st s0)).















(** an operation of a marked handle is the own sub-HAL's operation of its own handle. If it
    does not wait, what the proxy answers is what that operation answers, and the own
    sub-HAL is in the state it leaves. *)
Theorem own_sensor_driven h enabled w :
  in_handle h → (i < 128)%nat → (i < length (mSubHalList (st w)))%nat → all_roomy (own w) →
  ∃ r w', HalProxy.activate env (setSubHalIndex h (Z.of_nat i)) enabled w = (Done r, w') ∧
    SubHal.activate h enabled (replay (tr w)) = (Done r, replay (tr w')) ∧ st w' = st w.
Proof.
  intros Hh H128 Hi Hroom. unfold HalProxy.activate.
  assert (∃ r s, SubHal.activate h enabled (replay (tr w)) = (Done r, s)) as (r & s & E).
  { unfold SubHal.activate, on_sensor.
    destruct (SubHal.mSensors _ !! h) as [x|] eqn:Hx; [|by eexists _, _].
    destruct (sensor_activate_returns enabled x) as [[x' Ex]|[Hf _]];
      [|by destruct Hf; apply (Hroom h)].
    rewrite (bind_done _ _ _ _ _ Ex). by eexists _, _. }
  exists r, (World (st w) (tr w ++ [sub_call i (sub_activate h enabled)])). split_and!; [| |done].
  - rewrite (dispatch_valid env _ i h (λ h, sub_activate h enabled)); [|..|done|].
    + cbv zeta. cbn [tr]. rewrite own_answer_snoc. cbn [run_op]. by rewrite E.
    + rewrite extract_set by (done || lia). unfold signed_index. decides.
      apply wrap_u_id. unfold in_u. lia.
    + apply clear_set; [done|lia].
  - cbn [tr]. rewrite replay_snoc, decide_True by done. cbn [run_op]. by rewrite E.
Qed.
End driven.
End device.

(** ** The device without the vendor's library *)

Definition sample_dlopen (path : string) : option library :=
  if decide (path = "/vendor/lib64/hw/sensors.nothing.so"%string)
  then Some (own_library 21 working working) else None.

Example device_sensors_witness :
  ∃ s, s ∈ HalProxy.getSensorsList_2_1 (HalProxy_from_config 20 21 sample_dlopen (Some hals_conf)) ∧
    sensorHandle s = 1 ∧ type s = 0x10001.
Proof.
  destruct (device_sensors (C := aosp_sensors) 20 21 sample_dlopen working working)
    as (_ & _ & Hlisted); [by vm_compute|].
  destruct (Hlisted UdfpsSensor) as (s & Hs & Hh & Ht & _).
  exists s. split; [exact Hs|]. rewrite Hh, Ht. by vm_compute.
Defined.

(** The own sub-HAL, and after it one that refuses the injection mode. *)
Definition sample_own : subhal_world :=
  (SubHal.initialize (World (SensorsSubHal_new working working) [])).2.


Definition sample_rest : sub_environment := {|
  answer t := match last t with
              | Some (sub_call 1 (sub_setOperationMode DATA_INJECTION)) => INVALID_OPERATION
              | _ => OK
              end;
  answer_value _ := 0
|}.

Definition sample_driven : environment := {|
  sub_env := own_env 0 sample_own sample_rest;
  queue_env := sample_queue true;
  createEventFlag_ok _ := true;
  initialize_answer _ := OK
|}.

Definition driven_run : hal_world :=
  (for_each (framework sample_driven) [SetOperationMode DATA_INJECTION; Activate 1 true]
    (World (HalProxy_new ["FakeSubHal"; "sensors.b"]%string []) [])).2.


Example own_sensor_driven_witness : ∃ r w',
  HalProxy.activate (sub_env sample_driven) (setSubHalIndex 2 0) true driven_run = (Done r, w') ∧
  SubHal.activate 2 true (replay 0 sample_own (tr driven_run))
  = (Done r, replay 0 sample_own (tr w')) ∧ st w' = st driven_run.
Proof.
  apply (own_sensor_driven 0 sample_own sample_rest 2 true driven_run).
  - unfold in_handle. lia.
  - lia.
  - vm_compute. lia.
  - eapply (pipes_roomy 5); [|by vm_compute]. apply (bool_decide_unpack _). by vm_compute.
Defined.
