(* ===== verification/Driven.v ===== *)
(** * The own sub-HAL under the proxy's calls

    What each call of the proxy does to the sensors of the own sub-HAL, as actions of the
    sensors, and what it answers: facts of [SubHal.v] that do not depend on what the threads
    of the sensors do meanwhile. *)

From S2P Require Import Prelude Words Handles SensorTypes HalProxy EventQueue Proxy Sensor.
From S2P Require Import SensorRuns SubHal Device.

Definition own_handle (k : SensorKind) : Z :=
  match k with UdfpsSensor => 1 | SingleTapSensor => 2 end.

Definition kind_of (h : Z) : option SensorKind :=
  if decide (h = 1) then Some UdfpsSensor
  else if decide (h = 2) then Some SingleTapSensor else None.

(** The actions of the sensor [h] that a call to the sub-HAL consists of. *)
Definition op_actions (op : sub_op) (h : Z) : list sensor_action :=
  match op with
  | sub_setOperationMode mode => [Sensor.SetOperationMode mode]
  | sub_activate h' enabled => if decide (h' = h) then [Sensor.Activate enabled] else []
  | sub_batch h' period _ => if decide (h' = h) then [Sensor.Batch (i32 period)] else []
  | sub_flush h' => if decide (h' = h) then [Sensor.Flush] else []
  | sub_injectSensorData event =>
      if decide (ev_handle event = h) then [InjectEvent event] else []
  | sub_registerDirectChannel | sub_unregisterDirectChannel _ | sub_configDirectReport _ _ _ => []
  end.

(** What the sub-HAL answers. *)
Definition own_result `{C : SensorsConstants} (op : sub_op) : Result :=
  match op with
  | sub_setOperationMode _ => OK
  | sub_activate h _ | sub_batch h _ _ => if kind_of h is Some _ then OK else BAD_VALUE
  | sub_flush _ => BAD_VALUE
  | sub_injectSensorData event =>
      if kind_of (ev_handle event) is Some _ then
        if decide (ev_type event = ADDITIONAL_INFO) then OK else INVALID_OPERATION
      else BAD_VALUE
  | sub_registerDirectChannel | sub_unregisterDirectChannel _ | sub_configDirectReport _ _ _ =>
      INVALID_OPERATION
  end.

Lemma kind_of_own k : kind_of (own_handle k) = Some k.
Proof. by destruct k. Qed.

Lemma kind_of_Some h k : kind_of h = Some k → h = own_handle k.
Proof. unfold kind_of. by repeat case_decide; intros [= <-]. Qed.

Lemma own_handle_inj k k' : own_handle k = own_handle k' → k = k'.
Proof. by destruct k, k'. Qed.

Section driven.
Context `{C : SensorsConstants} {laws : SensorsLaws C} (env : sensor_environment).

Definition run_sensor (acts : list sensor_action) (s : sensor_world) : sensor_world :=
  foldl (λ s a, (sensor_act env a s).2) s acts.

Lemma run_sensor_one {A} (m : M sensor_world A) a s :
  sensor_act env a s = (m;; mret ()) s → run_sensor [a] s = (m s).2.
Proof.
  intros E. cbn [run_sensor foldl]. rewrite E. apply bind_ret_state.
Qed.

Lemma on_sensor_sensors {A} h' (m : M sensor_world A) none x t h a :
  (∀ s, sensor_act env a s = (m;; mret ()) s) →
  mSensors (st (on_sensor h' m none (World x t)).2) !! h
  = run_sensor (if decide (h' = h) then [a] else []) <$> mSensors x !! h.
Proof.
  intros Ha. unfold on_sensor. cbn [st].
  destruct (mSensors x !! h') as [s|] eqn:Hs.
  - pose proof (run_sensor_one m a s (Ha s)) as Hr. destruct (m s) as [o s'].
    cbn in Hr |- *. destruct (decide (h' = h)) as [->|Hne].
    + by rewrite lookup_insert_eq, Hs, <- Hr.
    + rewrite lookup_insert_ne by done. by destruct (mSensors x !! h).
  - destruct (decide (h' = h)) as [->|]; cbn; [by rewrite Hs|by destruct (mSensors x !! h)].
Qed.

(** A call that returns acts on each sensor by the actions above. *)
Lemma run_op_sensors op w r w' h :
  run_op op w = (Done r, w') →
  mSensors (st w') !! h = run_sensor (op_actions op h) <$> mSensors (st w) !! h.
Proof.
  assert (run_sensor [] <$> mSensors (st w) !! h = mSensors (st w) !! h) as Hnil
    by (by destruct (mSensors (st w) !! h)).
  intros E. assert (w' = (run_op op w).2) as -> by (by rewrite E). destruct w as [x t].
  destruct op as [mode|h' e|h' p l|h'|event| |c|h' c b]; cbn [run_op op_actions] in *.
  - destruct (setOperationMode_run mode (World x t)) as [(w' & E' & _ & _ & _ & Hs)|(_ & w' & E' & _)];
      rewrite E' in E; [|done]. rewrite E'. apply Hs.
  - apply on_sensor_sensors. intros s. cbn. unfold mbind, M_bind.
    by destruct (Sensor.activate e s) as [[[]|]].
  - apply on_sensor_sensors. intros s. cbn. unfold mbind, M_bind.
    by destruct (Sensor.batch _ s) as [[[]|]].
  - by apply on_sensor_sensors.
  - by apply on_sensor_sensors.
  - done.
  - done.
  - done.
Qed.

(** Only [initialize] sets the callback. *)
Lemma on_sensor_callback {A} h (m : M sensor_world A) none b :
  preserves (of_state (λ x, mCallback x = b)) (on_sensor h m none).
Proof.
  intros s Hs. unfold on_sensor. destruct (mSensors (st s) !! h) as [x|]; [|done]. by destruct (m x).
Qed.

Lemma run_op_callback b op : preserves (of_state (λ x, mCallback x = b)) (run_op op).
Proof.
  destruct op; cbn [run_op]; try apply on_sensor_callback; try by intros s.
  unfold SubHal.setOperationMode. apply preserves_bind; [apply preserves_gets|intros m].
  apply preserves_bind; [apply preserves_for_each; intros; apply on_sensor_callback|intros _].
  by intros s.
Qed.

(** ** The device's two sensors *)

Definition is_own (k : SensorKind) (s : sensor_world) : Prop :=
  own_loop (st s) k ∧ mSensorInfo (st s) = own_info k.

Lemma own_flags k : flags (own_info k) = Z.lor ONE_SHOT_MODE WAKE_UP.
Proof. by destruct k. Qed.

Lemma own_info_handle k : sensorHandle (own_info k) = own_handle k.
Proof. by destruct k. Qed.

Lemma is_own_ours k s : is_own k s → ours k (st s).
Proof. intros [Ho Hi]. split; [done|]. by rewrite Hi, own_flags. Qed.

Lemma is_own_new k c : early c = false → is_own k (World (make_sensor k (own_handle k) c) []).
Proof.
  intros He. split; [by destruct (make_sensor_own k (own_handle k) c He)|].
  cbn [st]. rewrite <- (own_info_handle k).
  destruct (sensor_info_initialised k (sensorHandle (own_info k)) c working) as [-> _].
  by destruct k.
Qed.

Lemma is_own_act k a : preserves (is_own k) (sensor_act env a).
Proof.
  change (is_own k) with (of_state (E := sensor_call) (λ x, own_loop x k ∧ mSensorInfo x = own_info k)).
  destruct a; solve_state_invariant.
Qed.

Lemma is_own_run k acts s : is_own k s → is_own k (run_sensor acts s).
Proof.
  revert s. induction acts as [|a acts IH]; intros s Hs; [done|]. by apply IH, is_own_act.
Qed.

Record own_subhal (x : SensorsSubHal) : Prop := {
  own_both k : ∃ s, mSensors x !! own_handle k = Some s ∧ is_own k s;
  own_only h : is_Some (mSensors x !! h) → is_Some (kind_of h)
}.

Lemma own_subhal_lookup x k s :
  own_subhal x → mSensors x !! own_handle k = Some s → is_own k s.
Proof. intros [Hb _] Hs. destruct (Hb k) as (s' & Hs' & ?). by simplify_eq. Qed.

Lemma new_sensors c1 c2 :
  mSensors (SensorsSubHal_new c1 c2)
  = <[2 := World (make_sensor SingleTapSensor 2 c2) []]>
      (<[1 := World (make_sensor UdfpsSensor 1 c1) []]> ∅).
Proof. by destruct c1 as [[] [] ????], c2 as [[] [] ????]. Qed.

Lemma new_sensor c1 c2 k :
  mSensors (SensorsSubHal_new c1 c2) !! own_handle k
  = Some (World (make_sensor k (own_handle k)
                   match k with UdfpsSensor => c1 | SingleTapSensor => c2 end) []).
Proof.
  rewrite new_sensors. destruct k; cbn [own_handle]; [rewrite lookup_insert_ne by done|];
    by rewrite lookup_insert_eq.
Qed.

Lemma own_subhal_new c1 c2 :
  early c1 = false → early c2 = false → own_subhal (SensorsSubHal_new c1 c2).
Proof.
  intros H1 H2. split.
  - intros k. rewrite new_sensor. eexists. split; [done|]. apply is_own_new. by destruct k.
  - intros h [s Hs]. rewrite new_sensors in Hs.
    apply lookup_insert_Some in Hs as [[<- _]|[_ Hs]]; [by eexists|].
    apply lookup_insert_Some in Hs as [[<- _]|[_ Hs]]; [by eexists|]. by rewrite lookup_empty in Hs.
Qed.

(** Whatever each sensor runs that leaves it what it is, they stay the two sensors. *)
Lemma own_subhal_run x x' (f : Z → sensor_world → sensor_world) :
  own_subhal x → (∀ h, mSensors x' !! h = f h <$> mSensors x !! h) →
  (∀ h k s, is_own k s → is_own k (f h s)) → own_subhal x'.
Proof.
  intros [Hb Ho] Hx Hf. split.
  - intros k. destruct (Hb k) as (s & Hs & Hown). rewrite Hx, Hs. eexists. split; [done|].
    by apply Hf.
  - intros h. rewrite Hx, fmap_is_Some. apply Ho.
Qed.

(** ** The answers *)

Lemma on_own_sensor {A} (m : M sensor_world A) h (none r : A) x t :
  own_subhal x → (∀ k s, is_own k s → ∃ s', m s = (Done r, s')) →
  (on_sensor h m none (World x t)).1 = Done (if kind_of h is Some _ then r else none) ∧
  tr (on_sensor h m none (World x t)).2 = t.
Proof.
  intros Hx Hm. unfold on_sensor. cbn [st tr].
  destruct (mSensors x !! h) as [s|] eqn:Hs.
  - destruct (own_only _ Hx h) as [k Hk]; [by eexists|]. rewrite Hk.
    apply kind_of_Some in Hk as ->. destruct (Hm k s) as [s' E];
      [by eapply own_subhal_lookup|]. by rewrite E.
  - destruct (kind_of h) as [k|] eqn:Hk; [|done]. apply kind_of_Some in Hk as ->.
    destruct (own_both _ Hx k) as (s & Hs' & _). by rewrite Hs in Hs'.
Qed.

Lemma own_known x h : own_subhal x →
  (if mSensors x !! h is Some _ then OK else BAD_VALUE) = (if kind_of h is Some _ then OK else BAD_VALUE).
Proof.
  intros Hx. destruct (mSensors x !! h) as [s|] eqn:Hs.
  - destruct (own_only _ Hx h) as [k Hk]; [by eexists|]. by rewrite Hk.
  - destruct (kind_of h) as [k|] eqn:Hk; [|done]. apply kind_of_Some in Hk as ->.
    destruct (own_both _ Hx k) as (s & Hs' & _). by rewrite Hs in Hs'.
Qed.

Lemma own_batch k s period : is_own k s → Sensor.batch period s = (Done (), s).
Proof. intros [[_ Hk] _]. destruct (own_calls s k Hk) as (_ & _ & Hb & _). apply Hb. Qed.

Lemma own_inject k s event : mSensorInfo (st s) = own_info k →
  injectEvent event s
  = (Done (if decide (ev_type event = ADDITIONAL_INFO) then OK else INVALID_OPERATION), s).
Proof.
  intros Hi. unfold injectEvent, supportsDataInjection. rewrite bind_gets. cbn [id].
  rewrite Hi, own_flags, injection_bit. by case_decide.
Qed.

(** The operations that write to the sensors' pipes. *)
Definition writes_pipe (op : sub_op) : bool :=
  match op with sub_setOperationMode _ | sub_activate _ _ => true | _ => false end.

Lemma own_activate_returns e : returns_or_blocks OK (Sensor.activate e;; mret OK).
Proof.
  intros s. unfold mbind, M_bind.
  destruct (sensor_activate_returns e s) as [[s' E]|[Hf [s' E]]]; rewrite E; [left|right];
    [by eexists|split; [done|by eexists]].
Qed.

Lemma run_op_outcome op x t : own_subhal x →
  (∃ w', run_op op (World x t) = (Done (own_result op), w') ∧ tr w' = t) ∨
  writes_pipe op = true ∧ ¬ all_roomy x ∧ ∃ w', run_op op (World x t) = (Fault Blocks, w') ∧ tr w' = t.
Proof.
  intros Hx.
  assert (∀ m : M (world SensorsSubHal subhal_call) Result,
    (m (World x t)).1 = Done (own_result op) ∧ tr (m (World x t)).2 = t →
    ∃ w', m (World x t) = (Done (own_result op), w') ∧ tr w' = t) as Hdone.
  { intros m [E1 E2]. exists (m (World x t)).2. split; [|done].
    by destruct (m (World x t)); cbn in *; subst. }
  destruct op as [mode|h e|h p l|h|event| |c|h c b]; cbn [run_op writes_pipe].
  - destruct (setOperationMode_run mode (World x t)) as [(w' & E & Ht & _)|(Hf & w' & E & Ht)];
      [left; by exists w'|right; split_and!; [done..|by exists w']].
  - unfold SubHal.activate.
    destruct (on_sensor_returns h (Sensor.activate e;; mret OK) OK BAD_VALUE (World x t)
      (own_activate_returns e)) as [(w' & E & Ht & _)|((s & Hs & Hf) & w' & E & Ht)].
    + left. exists w'. split; [|done]. rewrite E. cbn. by rewrite own_known.
    + right. split_and!; [done| |by exists w']. intros Hall. by apply Hf, (Hall h).
  - left. apply Hdone, on_own_sensor; [done|]. intros k s Hs. exists s.
    by rewrite (bind_done _ _ _ _ _ (own_batch k s _ Hs)).
  - left. apply Hdone. unfold SubHal.flush.
    destruct (on_own_sensor Sensor.flush h BAD_VALUE BAD_VALUE x t Hx) as [E ?].
    { intros k s [[_ Hk] _]. destruct (own_calls s k Hk) as (_ & _ & _ & Hf & _). by exists s. }
    split; [|done]. rewrite E. cbn. by destruct (kind_of h).
  - left. apply Hdone, on_own_sensor; [done|]. intros k s [_ Hi]. exists s. by apply (own_inject k).
  - left. by apply Hdone.
  - left. by apply Hdone.
  - left. by apply Hdone.
Qed.

(** C22: the sub-HAL answers each call by the call alone. Over its two sensors, in whatever state
    their threads and the framework have left them, an operation returns OK for a handle
    it has given out and BAD_VALUE for another; flush is refused for every handle, as the
    sensors are one-shot; an injection is accepted for additional information only, and the
    operations of direct channels are invalid. The sensors stay the two that they are. Only
    a change of the mode and an activation can fail to answer: they wait where the pipe of a
    sensor is full. *)
Theorem subhal_answers op x t :
  own_subhal x →
  (∃ x', run_op op (World x t) = (Done (own_result op), World x' t) ∧ own_subhal x') ∨
  writes_pipe op = true ∧ ¬ all_roomy x ∧
  ∃ x', run_op op (World x t) = (Fault Blocks, World x' t).
Proof.
  intros Hx. destruct (run_op_outcome op x t Hx) as [(w' & E & Ht)|(Hp & Hf & w' & E & Ht)];
    [left|right; split_and!; [done..|]]; exists (st w'); rewrite E.
  - split; [by destruct w'; cbn in *; subst|].
    eapply own_subhal_run; [exact Hx|intros h; by apply (run_op_sensors _ _ _ _ h E)|].
    intros h k s. apply is_own_run.
  - by destruct w'; cbn in *; subst.
Qed.

(** ** The calls' actions *)

(** The actions the sub-HAL's operations consist of. *)
Definition driven (a : sensor_action) : Prop :=
  match a with
  | Sensor.Activate _ | Sensor.SetOperationMode _ | Sensor.Batch _ | Sensor.Flush
  | InjectEvent _ => True
  | _ => False
  end.

Lemma op_actions_driven op h : Forall driven (op_actions op h).
Proof. destruct op; cbn; try case_decide; by repeat constructor. Qed.

Lemma logs_sensor a : logs (λ _, True) (sensor_act env a).
Proof.
  destruct a; cbn; unfold Sensor.activate, UdfpsSensor_activate, SingleTapSensor_activate,
    Sensor_activate, Sensor.setOperationMode, UdfpsSensor_setOperationMode,
    SingleTapSensor_setOperationMode, Sensor_setOperationMode, UdfpsSensor_interruptPoll,
    SingleTapSensor_interruptPoll, Sensor.batch, Sensor_batch, OneShotSensor_batch,
    Sensor.flush, Sensor_flush, OneShotSensor_flush, injectEvent, startThread, Sensor_run,
    UdfpsSensor_run, SingleTapSensor_run, readEvents, Sensor_readEvents, UdfpsSensor_readEvents,
    SingleTapSensor_readEvents, fillEventData, poll, goto, delete_derived, UdfpsSensor_delete,
    SingleTapSensor_delete, Sensor_delete;
    unfold UdfpsSensor_interruptPoll, SingleTapSensor_interruptPoll; solve_prog.
Qed.

Lemma reports_grow a s : (reports (tr s) ≤ reports (tr (sensor_act env a s).2))%nat.
Proof. destruct (logs_sensor a s) as (t & -> & _). rewrite reports_app. lia. Qed.

Lemma driven_shot k n a s :
  is_own k s → one_shot k n s → driven a → one_shot k (n + activations [a]) (sensor_act env a s).2.
Proof.
  intros [[_ Hk] Hi] Hn Ha. destruct (own_calls s k Hk) as (HA & Hm & Hb & Hf & _).
  destruct a as [e|mode|p| |event| | | |]; try done; cbn [sensor_act]; rewrite ?Nat.add_0_r.
  - rewrite HA. pose proof (one_shot_activate k n e s Hn) as H1. by destruct e.
  - rewrite Hm. by apply one_shot_mode.
  - by rewrite Hb.
  - by rewrite (bind_done _ _ _ _ _ Hf).
  - by rewrite (bind_done _ _ _ _ _ (own_inject k s event Hi)).
Qed.

Lemma own_driven k n acts s :
  is_own k s → one_shot k n s → Forall driven acts →
  one_shot k (n + activations acts) (run_sensor acts s) ∧
  (reports (tr s) ≤ reports (tr (run_sensor acts s)))%nat.
Proof.
  intros Hs Hn Hacts. revert n s Hs Hn. induction Hacts as [|a acts Ha _ IH]; intros n s Hs Hn.
  { split; [|done]. by rewrite Nat.add_0_r. }
  pose proof (is_own_act k a s Hs) as Hs1. pose proof (reports_grow a s) as Hr.
  pose proof (driven_shot k n a s Hs Hn Ha) as Hn1.
  destruct (IH _ _ Hs1 Hn1) as [H1 H2].
  change (a :: acts) with ([a] ++ acts). rewrite activations_app, Nat.add_assoc.
  split; [exact H1|]. change (run_sensor ([a] ++ acts) s) with (run_sensor acts (sensor_act env a s).2).
  lia.
Qed.

(** ** The sensors' threads *)

(** What the thread of a sensor calls in a section: nothing that concerns the sub-HAL, or
    one report of one event of its own. *)
Definition section_calls (k : SensorKind) (t : list sensor_call) : Prop :=
  Forall (λ c, is_report c = false) t ∨
  ∃ e, t = [cb_postEvents [e] true] ∧ ev_handle e = own_handle k.

Lemma readEvents_own k s events s' :
  is_own k s → readEvents env s = (Done events, s') →
  ∃ e, events = [e] ∧ ev_handle e = own_handle k ∧ s' = s.
Proof.
  intros [[_ Hk] Hi]. unfold readEvents. rewrite bind_gets, Hk. destruct k.
  - unfold UdfpsSensor_readEvents. run. intros [= <- <-]. eexists. split; [done|]. cbn.
    by rewrite Hi, own_info_handle.
  - unfold SingleTapSensor_readEvents, fillEventData. run.
    destruct (readCoordinates _) as [[x y]|]; [|done]. intros [= <- <-].
    eexists. split; [done|]. cbn. by rewrite Hi, own_info_handle.
Qed.

Lemma own_wakes k s : is_own k s → isWakeUpSensor (st s) = true.
Proof.
  intros [_ Hi]. unfold isWakeUpSensor. rewrite Hi. apply negb_true_iff, Z.eqb_neq.
  destruct k; exact wake_up_bit.
Qed.

Lemma post_report_own k x s a s' :
  is_own k s → isWakeUpSensor x = true → post_report env x s = (Done a, s') →
  ∃ e, s' = World (with_enabled (st s) false) (tr s ++ [cb_postEvents [e] true]) ∧
    ev_handle e = own_handle k.
Proof.
  intros Hs Hx. unfold post_report. intros ([] & s1 & [= <-] & E)%bind_inv.
  apply bind_inv in E as (events & s2 & E & [= _ <-]).
  destruct (readEvents_own k (World (with_enabled (st s) false) (tr s)) events s2
    ltac:(by destruct Hs) E) as (e & -> & He & ->).
  exists e. by rewrite Hx.
Qed.

Lemma run_calls k s s' :
  is_own k s → sensor_act env RunThread s = (Done (), s') →
  ∃ t, tr s' = tr s ++ t ∧ section_calls k t.
Proof.
  intros Hs. cbn [sensor_act]. rewrite (own_thread env s k) by apply Hs.
  assert (∃ t, tr s = tr s ++ t ∧ section_calls k t) as Hnone
    by (exists []; rewrite app_nil_r; split; [done|by left]).
  unfold poll_loop. rewrite bind_gets. cbn [id].
  destruct (thread (st s)) as [| |ok node interrupted|]; try by intros [= <-].
  { destruct (mStopThread _); [by intros [= <-]|]. destruct (_ || _); by intros [= <-]. }
  intros ([] & s1 & E & [= <-])%bind_inv. cbn [tr]. destruct ok; [|by injection E as <-].
  apply bind_inv in E as (b & s2 & Eb & E).
  assert (is_own k s2 ∧ tr s2 = tr s) as [Hs2 Ht].
  { destruct node; [|by injection Eb as _ <-].
    apply report_run in Eb as (sx & sy & [->| ->]); [|done]. by destruct Hs. }
  rewrite <- Ht in *. destruct b; [|destruct interrupted].
  - apply (post_report_own k) in E as (e & -> & He); [|done|by apply (own_wakes k)].
    exists [cb_postEvents [e] true]. split; [done|]. right. by exists e.
  - unfold drain_pipe in E. injection E as <-. exists [pipe_read]. split; [done|]. left.
    by repeat constructor.
  - by injection E as <-.
Qed.

Lemma poll_calls r s : tr (sensor_act env (PollReturns r) s).2 = tr s.
Proof.
  cbn [sensor_act]. unfold poll. rewrite bind_gets. cbn [id].
  destruct (thread (st s)), r as [|b|]; try done. by destruct (b || _).
Qed.

Lemma poll_done r s : ∃ s', sensor_act env (PollReturns r) s = (Done (), s').
Proof.
  cbn [sensor_act]. unfold poll. rewrite bind_gets. cbn [id].
  destruct (thread (st s)), r as [|b|]; try (by eexists). destruct (b || _); by eexists.
Qed.

(** The section returns if the coordinates of a tap can be parsed. *)
Definition readable : Prop := ∀ t, ∃ x y, readCoordinates (touch_data env t) = Done (x, y).

Lemma run_done k s : readable → is_own k s → ∃ s', sensor_act env RunThread s = (Done (), s').
Proof.
  intros Hr Hs. cbn [sensor_act]. rewrite (own_thread env s k) by apply Hs.
  unfold poll_loop. rewrite bind_gets. cbn [id].
  destruct (thread (st s)) as [| |ok node interrupted|]; try by eexists.
  { destruct (mStopThread _); [by eexists|]. destruct (_ || _); by eexists. }
  assert (∃ s1, (if ok then
      b ← (if node : bool then report_of env k (st s) else mret false);
      if b : bool then post_report env (st s) else if interrupted then drain_pipe else mret ()
    else modify (λ x, with_stop x true)) s = (Done (), s1)) as [s1 E];
    [|rewrite (bind_done _ _ _ _ _ E); by eexists].
  destruct ok; [|by eexists].
  assert (∃ b s2, (if node : bool then report_of env k (st s) else mret false) s = (Done b, s2))
    as (b & s2 & E).
  { destruct node; [|by eexists _, _]. destruct k; cbn; unfold finger_report, tap_report; run.
    - destruct (readFpState _ _ _) as [[sx sy] down]. by eexists _, _.
    - by eexists _, _. }
  rewrite (bind_done _ _ _ _ _ E). destruct b; [|destruct interrupted; by eexists].
  destruct (post_report_done env (st s) s2) as (events & _ & Ep); [left; apply Hr|].
  rewrite Ep. by eexists.
Qed.

(** ** A touch

    What the node and the files say of a touch of the sensor, if there is one. *)
Definition touch (k : SensorKind) (s : sensor_world) : option (list Z) :=
  match k with
  | UdfpsSensor =>
      let '(x, y, down) := readFpState (fp_state env (tr s)) (mScreenX (st s)) (mScreenY (st s)) in
      if down : bool then Some [to_float x; to_float y] else None
  | SingleTapSensor =>
      if readBool (single_tap env (tr s)) then
        match readCoordinates (touch_data env (tr s)) with
        | Done (x, y) => Some [x; y]
        | Fault _ => None
        end
      else None
  end.

(** It is enabled, and its thread is in [poll] already, or about to look whether it is. *)
Definition armed (x : Sensor) : Prop :=
  mIsEnabled x = true ∧ mMode x = NORMAL ∧
  (thread x = Polling ∨ thread x = Head ∧ mStopThread x = false).

Definition touch_event (k : SensorKind) (timestamp : Z) (data : list Z) : Event :=
  data_event (own_handle k) timestamp (type (own_info k)) data.

Lemma report_touched k s data : touch k s = Some data → ∃ sx sy,
  report_of env k (st s) s = (Done true, World (with_screen (st s) sx sy) (tr s)) ∧
  (k = UdfpsSensor → data = [to_float sx; to_float sy]).
Proof.
  destruct k; cbn; unfold finger_report, tap_report; run.
  - destruct (readFpState _ _ _) as [[sx sy] []]; [|done]. intros [= <-]. by exists sx, sy.
  - destruct (readBool _); [|done]. intros _. exists (mScreenX (st s)), (mScreenY (st s)).
    split; [|done]. by destruct s as [[] t].
Qed.

Lemma readEvents_touch k s s1 data :
  is_own k s1 → touch k s = Some data → tr s1 = tr s →
  (k = UdfpsSensor → data = [to_float (mScreenX (st s1)); to_float (mScreenY (st s1))]) →
  readEvents env s1 = (Done [touch_event k (elapsedRealtimeNano env (tr s)) data], s1).
Proof.
  destruct s1 as [x t]. intros [[_ Hk] Hi] Ht Hts Hd. cbn [st tr] in *. subst t.
  unfold readEvents. rewrite bind_gets. cbn [st]. rewrite Hk. destruct k.
  - rewrite Hd by done. unfold UdfpsSensor_readEvents. run. cbn [id].
    by rewrite Hi, own_info_handle.
  - unfold SingleTapSensor_readEvents, fillEventData. run. cbn in Ht.
    destruct (readBool _); [|done]. destruct (readCoordinates _) as [[a b]|]; [|done].
    injection Ht as <-. cbn. by rewrite Hi, own_info_handle.
Qed.

(** The sections of the thread from there to its report; the first does nothing in [poll]. *)
Lemma touch_sections k s data :
  is_own k s → armed (st s) → touch k s = Some data → ∃ s1 s2 s3,
  sensor_act env RunThread s = (Done (), s1) ∧ tr s1 = tr s ∧
  sensor_act env (PollReturns (PollReady true)) s1 = (Done (), s2) ∧ tr s2 = tr s ∧
  sensor_act env RunThread s2 = (Done (), s3) ∧
  tr s3 = tr s ++ [cb_postEvents [touch_event k (elapsedRealtimeNano env (tr s)) data] true] ∧
  mIsEnabled (st s3) = false.
Proof.
  intros Hs (He & Hm & Hth) Ht.
  assert (∀ x t, own_loop x k → sensor_act env RunThread (World x t)
    = poll_loop env (report_of env k) (World x t)) as Hrun by (intros; by apply own_thread).
  destruct s as [x t]. cbn [st tr] in *. pose proof Hs as [Ho Hi]. cbn [st] in Ho, Hi.
  set (b := match mWaitPipe x with Some (S _) => true | _ => false end).
  exists (World (with_thread x Polling) t), (World (with_thread x (Polled true true b)) t).
  assert (isWakeUpSensor x = true) as Hwake by (by apply (own_wakes k (World x t))).
  destruct (report_touched k (World (with_thread x (Polled true true b)) t) data)
    as (sx & sy & Er & Hd); [by destruct k|].
  set (s2 := World (with_thread x _) t) in *.
  assert (readEvents env (World (with_enabled (with_screen (st s2) sx sy) false) t)
    = (Done [touch_event k (elapsedRealtimeNano env t) data],
       World (with_enabled (with_screen (st s2) sx sy) false) t)) as Ee.
  { apply (readEvents_touch k (World x t)); done. }
  eexists. split; [|split; [done|split; [|split; [done|split]]]].
  - rewrite Hrun by done. unfold poll_loop. run. cbn [id].
    destruct Hth as [Hth|[Hth Hst]]; rewrite Hth; [|by rewrite Hst, He, Hm].
    f_equal. f_equal. by destruct x; cbn in Hth; subst.
  - cbn [sensor_act]. unfold poll. by run.
  - unfold s2 at 1. rewrite Hrun by done. fold s2. unfold poll_loop. rewrite bind_gets.
    cbn [id thread s2 st with_thread].
    erewrite bind_done; [reflexivity|]. erewrite bind_done by exact Er.
    unfold post_report. erewrite bind_done by reflexivity. cbn [st tr].
    erewrite bind_done by exact Ee. reflexivity.
  - split; [|done]. change (isWakeUpSensor (with_thread x _)) with (isWakeUpSensor x).
    by rewrite Hwake.
Qed.
End driven.

Example subhal_answers_witness : ∃ x',
  run_op (sub_activate 1 true) (World (SensorsSubHal_new working working) [])
  = (Done OK, World x' []).
Proof.
  destruct (subhal_answers (C := aosp_sensors) sample_nodes (sub_activate 1 true)
    (SensorsSubHal_new working working) []) as [(x' & E & _)|(_ & _ & x' & E)];
    [by apply own_subhal_new|by exists x'|by vm_compute in E].
Defined.
