(* ===== verification/SystemProxy.v ===== *)
(** * What the system needs of the proxy

    Facts about single steps of [Proxy.v] that the composition of [System.v] rests on: what
    they add to the trace, that the own sensors stay listed, what they do to the stream of
    events, and that the threads start again only after every sensor was disabled. *)

From S2P Require Import Prelude Words Handles SensorTypes HalProxy EventQueue Wakelock Proxy.
From S2P Require Import ProxyRuns ProxyTypes Sensor SensorRuns SubHal Device Driven.

Section steps.
Context `{C : SensorsConstants} {laws : SensorsLaws C} (env : environment).

(** ** The trace *)

Lemma logs_zoom {S' E' A} (get : Proxy → S') put (inj : E' → call) proj (m : M (world S' E') A) :
  logs (λ _, True) (zoom get put inj proj m).
Proof.
  intros w. unfold zoom. destruct (m _) as [o w']. cbn. eexists. split; [done|]. by apply Forall_true.
Qed.

Lemma logs_in_queue {A} (m : M queue_world A) : logs (λ _, True) (in_queue m).
Proof. apply logs_zoom. Qed.
Lemma logs_in_hal {A} (m : M hal_world A) : logs (λ _, True) (in_hal m).
Proof. apply logs_zoom. Qed.
#[local] Hint Resolve logs_in_queue logs_in_hal : prog.

Lemma logs_stop : logs (λ _, True) stopThreads.
Proof. unfold stopThreads. solve_prog. Qed.
#[local] Hint Resolve logs_stop : prog.

Lemma logs_common args : logs (λ _, True) (initializeCommon env args).
Proof. unfold initializeCommon, create_flags. solve_prog. Qed.

Lemma logs_end result : logs (λ _, True) (initialize_end result).
Proof. unfold initialize_end. solve_prog. Qed.
#[local] Hint Resolve logs_common logs_end : prog.

Lemma logs_proxy a : logs (λ _, True) (proxy_act env a).
Proof.
  destruct a; cbn; unfold Proxy.initialize, initialize_2_1, initialize_start, initialize_step,
    initialize_sub; solve_prog.
Qed.

Lemma logs_grow {S E A} (m : M (world S E) A) w :
  logs (λ _, True) m → tr (m w).2 = tr w ++ drop (length (tr w)) (tr (m w).2).
Proof. intros Hm. destruct (Hm w) as (t & Ht & _). by rewrite Ht, drop_app_length. Qed.

(** ** The sensors that are listed *)

(** A sensor keeps its entry. *)
Definition keeps_entry (h : Z) (s : SensorInfo) : proxy_world → Prop :=
  of_state (λ x, HalProxy.mSensors (hal x) !! h = Some s).

Lemma entry_counted h s events n :
  preserves (of_state (λ x, known_sensors x !! h = Some s)) (countNumWakeupEvents events n).
Proof.
  revert events. induction n as [|n IH]; intros [|e events]; cbn; try by intros w.
  intros w Hw. rewrite bind_gets. unfold of_state in Hw.
  set (m := <[ev_handle e := _]> (known_sensors (st w))).
  assert (m !! h = Some s) as Hm.
  { unfold m. destruct (decide (ev_handle e = h)) as [->|].
    - by rewrite lookup_insert_eq, Hw.
    - by rewrite lookup_insert_ne. }
  clearbody m. apply (preserves_bind (of_state (λ x, known_sensors x !! h = Some s))); [| |exact Hw]; [by intros w1|intros _].
  apply preserves_bind; [apply IH|intros c; apply preserves_ret].
Qed.

Lemma entry_act h s qenv a :
  preserves (of_state (λ x, known_sensors x !! h = Some s)) (act qenv a).
Proof.
  destruct a; cbn [act]; solve_state_invariant; try apply entry_counted; try done;
    unfold wake_writer, wake_waker, wake_writer_locked, wake_waker_locked;
    by repeat case_match.
Qed.

Lemma entry_queue {A} h s (m : M queue_world A) :
  preserves (of_state (λ x, known_sensors x !! h = Some s)) m →
  preserves (keeps_entry h s) (in_queue m).
Proof.
  intros Hm w Hw. unfold in_queue, zoom. specialize (Hm (queue_view w) Hw).
  by destruct (m (queue_view w)) as [o q].
Qed.

Lemma entry_hal {A} h s (m : M hal_world A) :
  harmless m → preserves (keeps_entry h s) (in_hal m).
Proof.
  intros Hm w Hw. destruct (Hm (hal_view w)) as (a & x & t & E & Hs & _).
  unfold in_hal, zoom. rewrite E. unfold keeps_entry, of_state. cbn. by rewrite Hs.
Qed.

Ltac solve_entry :=
  repeat (prog_step || match goal with
    | |- preserves (keeps_entry _ _) (modify _) => by apply preserves_modify
    | |- preserves (keeps_entry _ _) (emit _) => apply preserves_emit
    | |- preserves (keeps_entry _ _) (Prelude.call _ _) => apply preserves_call
    | |- preserves (keeps_entry _ _) (in_queue (act _ _)) => apply entry_queue, entry_act
    | |- preserves (keeps_entry _ _) (in_queue _) =>
        apply entry_queue; solve [solve_state_invariant; unfold wake_writer, wake_waker;
          by repeat case_match]
    end).

Lemma entry_stop h s : preserves (keeps_entry h s) stopThreads.
Proof. unfold stopThreads. solve_entry. Qed.

Lemma entry_common h s args : preserves (keeps_entry h s) (initializeCommon env args).
Proof.
  unfold initializeCommon, create_flags.
  apply preserves_bind; [solve_entry|intros _].
  apply preserves_bind; [apply entry_hal, harmless_disable|intros _].
  apply preserves_bind; [solve_entry|intros _].
  apply preserves_bind; [by apply entry_hal, harmless_modify|intros _]. solve_entry.
Qed.

Lemma entry_end h s result : preserves (keeps_entry h s) (initialize_end result).
Proof.
  unfold initialize_end. apply preserves_bind; [by apply entry_hal, harmless_modify|intros _].
  solve_entry.
Qed.

Lemma entry_proxy h s a : preserves (keeps_entry h s) (proxy_act env a).
Proof.
  destruct a; cbn [proxy_act]; unfold Proxy.initialize, initialize_2_1, initialize_start, initialize_step,
    initialize_sub; repeat (solve_entry || apply entry_stop || apply entry_common
    || apply entry_end); apply entry_hal;
    (apply harmless_framework || apply harmless_connected || apply harmless_disconnected).
Qed.

(** ** The stream of events *)

Definition proxy_posted (a : proxy_action) : list Event :=
  match a with SubHalPost events _ _ => events | _ => [] end.

Lemma proxy_stream a w w' :
  whole_inv env w → sized_post a → proxy_act env a w = (Done (), w') →
  whole_inv env w' ∧ ∃ l part, stream (queue_view w') = l ++ part ∧
    l `prefix_of` stream (queue_view w) ∧ part `prefix_of` proxy_posted a.
Proof.
  intros Hw Hs E. destruct (refine_done env a w w' Hw Hs E) as (part & (_ & Q & Hp & _) & Hw').
  pose proof (part_of_sized part a Hs Hp) as Hsized. split; [done|].
  assert (part = [] ∨ ∃ b, part = [b] ∧ posted b = proxy_posted a) as [->|(b & -> & Hb)].
  { destruct a; cbn in Hp; part_cases Hp; by (by left) || (right; eexists). }
  - assert (queue_view w' = queue_view w) as HQ by exact (eq_sym (f_equal snd Q)).
    rewrite HQ. exists (stream (queue_view w)), []. rewrite app_nil_r.
    split_and!; [done..|apply prefix_nil].
  - unfold exec in Q. cbn [for_each] in Q. apply bind_inv in Q as ([] & q & Q & [= <-]).
    apply Forall_inv in Hsized.
    destruct (act_stream (queue_env env) b (queue_view w) q (proj1 Hw) Hsized Q) as (l & part & Hst & Hl & Hpart).
    exists l, part. rewrite <- Hb. split_and!; [|done..]. by rewrite <- Hst.
Qed.

(** ** The threads start again *)

(** Only the initialisation after the joins lets the threads run again. *)
Lemma running_again a w w' :
  whole_inv env w → sized_post a → proxy_act env a w = (Done (), w') →
  mThreadsRun (queues (st w)) = false → mThreadsRun (queues (st w')) = true →
  a = InitializeStep ∧ ∃ args, proxy_act env a w = initializeCommon env args w.
Proof.
  intros Hw Hs E H0 H1. destruct (refine_done env a w w' Hw Hs E) as (part & (_ & Q & Hp & _) & _).
  assert (a = InitializeStep) as ->.
  { assert (part = [] ∨ (∃ b, part = [b] ∧ initializes b = false) ∨ a = InitializeStep)
      as [->|[(b & -> & Hb)|?]]; [| | |done].
    - destruct a; cbn in Hp; part_cases Hp;
        by (by left) || (by right; right) || (right; left; eexists).
    - pose proof (f_equal (λ q, mThreadsRun (st q.2)) Q) as HQ. cbn in HQ. congruence.
    - unfold exec in Q. cbn [for_each] in Q. apply bind_inv in Q as ([] & q & Q & Eq).
      assert (q = queue_view w') as -> by exact (f_equal snd Eq).
      pose proof (stopped_act (queue_env env) b Hb (queue_view w) H0) as Hr.
      rewrite Q in Hr. unfold of_state in Hr. cbn in Hr. congruence. }
  split; [done|]. cbn [proxy_act] in *. unfold initialize_step in *. rewrite bind_gets in *. cbn [id] in *.
  destruct (initializer (st w)) as [|args|j r] eqn:Hi.
  - injection E as <-. congruence.
  - destruct (joinable_done (st w)); [by exists args|]. injection E as <-. congruence.
  - destruct (initialize_sub_mirrors env j r w) as (w2 & E2 & Hv & _).
    rewrite E in E2. injection E2 as <-.
    pose proof (f_equal (λ q, mThreadsRun (st q)) Hv) as HQ. cbn in HQ. congruence.
Qed.

(** The calls a program makes. *)
Definition made {S E A} (m : M (world S E) A) (w : world S E) : list E :=
  drop (length (tr w)) (tr (m w).2).

Lemma made_first {S E A B} (m : M (world S E) A) (k : A → M (world S E) B) w a w1 c :
  m w = (Done a, w1) → logs (λ _, True) m → logs (λ _, True) (k a) →
  c ∈ made m w → c ∈ made (m ≫= k) w.
Proof.
  intros E1 Hm Hk Hc. unfold made in *. rewrite (bind_done _ _ _ _ _ E1).
  pose proof (logs_grow m w Hm) as G1. pose proof (logs_grow (k a) w1 Hk) as G2.
  rewrite E1 in G1, Hc. cbn [snd] in G1, Hc. rewrite G2, G1 at 1.
  rewrite <- app_assoc, drop_app_length. apply elem_of_app. by left.
Qed.

Lemma made_then {S E A B} (m : M (world S E) A) (k : A → M (world S E) B) w a w1 c :
  m w = (Done a, w1) → logs (λ _, True) m → logs (λ _, True) (k a) →
  c ∈ made (k a) w1 → c ∈ made (m ≫= k) w.
Proof.
  intros E1 Hm Hk Hc. unfold made in *. rewrite (bind_done _ _ _ _ _ E1).
  pose proof (logs_grow m w Hm) as G1. pose proof (logs_grow (k a) w1 Hk) as G2.
  rewrite E1 in G1. cbn [snd] in G1. rewrite G2, G1 at 1.
  rewrite <- app_assoc, drop_app_length. apply elem_of_app. by right.
Qed.

Lemma harmless_logs {A} (m : M hal_world A) : harmless m → logs (λ _, True) m.
Proof.
  intros Hm w. destruct (Hm w) as (a & h & t & -> & _). exists t. split; [done|].
  by apply Forall_true.
Qed.

Lemma made_loop {X} (body : X → M hal_world unit) l x c w :
  (∀ y, harmless (body y)) → x ∈ l →
  (∀ w', mSubHalList (st w') = mSubHalList (st w) → c ∈ made (body x) w') →
  c ∈ made (for_each body l) w.
Proof.
  intros Hb Hx Hc. revert w Hc. induction l as [|y l IH]; intros w Hc; [by apply not_elem_of_nil in Hx|].
  destruct (Hb y w) as ([] & h & t & E & _ & Hl). cbn [for_each].
  assert (∀ l, logs (λ _, True) (for_each body l)) as Hrest
    by (intros l'; apply logs_for_each; intros y'; apply harmless_logs, Hb).
  apply elem_of_cons in Hx as [->|Hx].
  - eapply made_first; [exact E|by apply harmless_logs|apply Hrest|by apply Hc].
  - eapply made_then; [exact E|by apply harmless_logs|apply Hrest|].
    apply IH; [done|]. intros w' Hw'. apply Hc. by rewrite Hw', <- Hl.
Qed.

(** Disabling all sensors disables each that is listed. *)
Lemma made_disable i hm s h (w : hal_world) :
  HalProxy.mSensors (st w) !! hm = Some s → extractSubHalIndex hm = Z.of_nat i →
  (i < length (mSubHalList (st w)))%nat → clearSubHalIndex hm = h →
  sub_call i (sub_activate h false) ∈ made (disableAllSensors (sub_env env)) w.
Proof.
  intros Hs Hi Hlt Hh. unfold disableAllSensors.
  set (body := λ h, _ ← HalProxy.activate (sub_env env) h false; mret ()).
  assert (∀ y, harmless (body y)) as Hb.
  { intros y. apply harmless_bind; [apply harmless_dispatch|intros; apply harmless_ret]. }
  assert (∀ l, harmless (for_each body l)) as Hall by (intros l; by apply harmless_for_each).
  eapply made_then; [reflexivity|apply logs_gets|..].
  { apply harmless_logs. apply harmless_bind; [apply Hall|intros _].
    apply harmless_bind; [apply harmless_gets|intros]. apply Hall. }
  destruct (Hall (keys (HalProxy.mSensors (st w))) w) as ([] & h' & t & E & _).
  eapply made_first; [exact E|by apply harmless_logs, Hall|..].
  { apply harmless_logs, harmless_bind; [apply harmless_gets|intros]. apply Hall. }
  eapply made_loop with (x := hm); [done|apply elem_of_keys; by eexists|].
  intros w' Hw'. unfold body, HalProxy.activate.
  pose proof (dispatch_valid (sub_env env) hm i h (λ h, sub_activate h false) w' Hi) as D.
  rewrite Hw' in D. specialize (D Hlt Hh). cbv zeta in D.
  unfold made. rewrite (bind_done _ _ _ _ _ D). cbn. rewrite drop_app_length. by left.
Qed.

(** When the threads start again, every listed sensor has been disabled. *)
Lemma running_again_disables i hm s h a w w' :
  whole_inv env w → sized_post a → proxy_act env a w = (Done (), w') →
  mThreadsRun (queues (st w)) = false → mThreadsRun (queues (st w')) = true →
  keeps_entry hm s w → extractSubHalIndex hm = Z.of_nat i →
  (i < length (mSubHalList (hal (st w))))%nat → clearSubHalIndex hm = h →
  hal_call (sub_call i (sub_activate h false)) ∈ made (proxy_act env a) w.
Proof.
  intros Hw Hsz E H0 H1 Hs Hi Hlt Hh.
  destruct (running_again a w w') as (_ & args & Ea); [done..|].
  unfold made. rewrite Ea. fold (made (initializeCommon env args) w).
  unfold initializeCommon.
  destruct (reset_aside (queue_env env) (queue_view w)) as ([] & l & ss & pc & t & E1 & _).
  destruct (in_queue_done _ w () _ (logs_reset _) E1) as (w1 & F1 & _ & Hh1 & _).
  pose proof (entry_queue hm s (resetSharedWakelock (queue_env env)) ltac:(solve_state_invariant; by repeat case_match)
    w Hs) as Hs1. rewrite F1 in Hs1. unfold keeps_entry, of_state in Hs1. cbn [snd] in Hs1.
  eapply made_then; [exact F1|apply logs_in_queue|unfold create_flags; solve_prog|].
  destruct (in_hal_done _ w1 (harmless_disable env)) as ([] & w2 & F2 & _).
  eapply made_first; [exact F2|apply logs_in_hal|unfold create_flags; solve_prog|].
  pose proof (made_disable i hm s h (hal_view w1)) as D.
  unfold made, in_hal, zoom in *.
  destruct (disableAllSensors (sub_env env) (hal_view w1)) as [o v]. cbn [snd] in *.
  cbn [tr]. rewrite drop_app_length. apply list_elem_of_fmap. eexists. split; [done|].
  apply D; [done..| |done]. cbn. by rewrite Hh1.
Qed.
End steps.
