(* ===== verification/System.v ===== *)
(** * The sensors service as a whole

    All of [sensors/] at once, as the device runs it: the proxy with its threads, the own
    sub-HAL behind it, and the threads of its sensors, whose reports go through the
    sub-HAL and the callback back into the proxy. A step of the proxy is heard by the
    sub-HAL; a section of a sensor's thread may start a report, whose parts are steps of
    their own. The thread holds its sensor's [mRunMutex] from the section that reports to
    the end of the report, so that a step of the proxy which needs that mutex waits for it.
    The other sub-HALs, their events included, are steps of the proxy. *)

From S2P Require Import Prelude Words Handles SensorTypes HalProxy EventQueue Proxy Callback.
From S2P Require Import Sensor SensorRuns ProxyRuns SubHal Device.

(** ** The scoped wakelock

    The class [ScopedWakelock] of the library: its constructor, [isLocked], its destructor. *)
Class ScopedWakelock (L : Type) : Type := {
  construct : bool → M proxy_world L;
  isLocked : L → bool;
  destruct_wakelock : L → M proxy_world unit
}.

(** What is documented of it: constructed locked it takes a reference, and is locked if
    that succeeds, which it does while the threads run; a locked one gives the reference
    back, with the time it took it. *)
Class ScopedWakelockLaws `{C : SensorsConstants} {L : Type} (S : ScopedWakelock L)
    (env : environment) : Prop := {
  construct_unlocked w : ∃ l, construct false w = (Done l, w) ∧ isLocked l = false;
  construct_locked w : ∃ l, construct true w = (Done l, (proxy_act env (SubHalIncrement 1) w).2) ∧
    isLocked l = mThreadsRun (queues (st w));
  destruct_unlocked l w : isLocked l = false → destruct_wakelock l w = (Done (), w);
  destruct_locked l w : isLocked l = true → ∃ start,
    destruct_wakelock l w = (Done (), (proxy_act env (SubHalDecrement 1 start) w).2)
}.

(** ** State *)

(** A report on its way: the calls of the callback that are left, and the wakelock. *)
Record report (L : Type) : Type := Report {
  calls_left : list subhal_call;
  scoped : option L
}.
Arguments Report {L} calls_left scoped.
Arguments calls_left {L} r.
Arguments scoped {L} r.

Record System (L : Type) : Type := {
  proxy : Proxy;
  subhal : SensorsSubHal;
  posting : gmap Z (report L)             (* by the handle of the sensor that reports *)
}.
Arguments proxy {L} s.
Arguments subhal {L} s.
Arguments posting {L} s.

Definition with_proxy {L} (p : Proxy) (x : System L) : System L :=
  {| proxy := p; subhal := subhal x; posting := posting x |}.
Definition with_subhal {L} (s : SensorsSubHal) (x : System L) : System L :=
  {| proxy := proxy x; subhal := s; posting := posting x |}.
Definition with_posting {L} (m : gmap Z (report L)) (x : System L) : System L :=
  {| proxy := proxy x; subhal := subhal x; posting := m |}.

(** A section of a sensor's thread, or the return of its poll. *)
Inductive thread_action : Set := Runs | Returns (r : poll_result).

Definition to_action (a : thread_action) : sensor_action :=
  match a with Runs => RunThread | Returns r => PollReturns r end.

Section system.
Context `{C : SensorsConstants} {L : Type} `{!ScopedWakelock L}.
Context (env : environment) (nodes : Z → sensor_environment).
Context (i : nat) (asserts : bool).         (* the own sub-HAL's index; [ALOG_ASSERT] *)
Context (getSensorInfo : Z → Proxy → SensorInfo).      (* of [HalProxy.h] *)

Abbreviation prog := (M (world (System L) call)).

Definition in_proxy {A} : M proxy_world A → prog A := zoom proxy with_proxy id Some.

(** ** The proxy's calls *)

(** What the own sub-HAL does with a call; the proxy's answers to it are in its environment. *)
Definition hear (c : call) : M (world SensorsSubHal subhal_call) unit :=
  match c with
  | hal_call (sub_call j op) => if decide (j = i) then run_op op;; mret () else mret ()
  | sub_initialize j => if decide (j = i) then SubHal.initialize;; mret () else mret ()
  | _ => mret ()
  end.

(** Whether a call of the own sub-HAL takes the mutex of the sensor [h]. *)
Definition takes_mutex (h : Z) (c : call) : bool :=
  match c with
  | hal_call (sub_call j (sub_setOperationMode _)) | sub_initialize j => bool_decide (j = i)
  | hal_call (sub_call j (sub_activate h' _)) => bool_decide (j = i ∧ h' = h)
  | _ => false
  end.

Definition waits (x : System L) (calls : list call) : bool :=
  existsb (λ h, existsb (takes_mutex h) calls) (map fst (map_to_list (posting x))).

(** A step of the proxy with what its calls do in the own sub-HAL. If one of these waits at
    the full pipe of a sensor, the run ends there: the sub-HAL is as the call left it, and
    of the proxy's step nothing is kept. *)
Definition proxy_step (a : proxy_action) : prog unit := λ w,
  let (o, w') := in_proxy (proxy_act env a) w in
  let calls := drop (length (tr w)) (tr w') in
  if waits (st w) calls then (Done (), w)
  else
    match for_each hear calls (World (subhal (st w)) []) with
    | (Done _, x) => (o, World (with_subhal (st x) (st w')) (tr w'))
    | (Fault f, x) => (Fault f, World (with_subhal (st x) (st w)) (tr w))
    end.

(** ** The sensors' threads *)

Definition set_sensor (h : Z) (s : sensor_world) (x : System L) : System L :=
  with_subhal (SubHal.set_sensors (<[h := s]> (mSensors (subhal x))) (subhal x)) x.

Definition set_report (h : Z) (r : report L) (x : System L) : System L :=
  with_posting (<[h := r]> (posting x)) x.

(** [mCallback->postEvents] of a sensor is that of the sub-HAL. *)
Definition start_report (h : Z) (c : sensor_call) : prog unit :=
  match c with
  | cb_postEvents events wakeup =>
      x ← gets subhal;
      let (o, w') := SensorsSubHal_postEvents events wakeup (World x []) in
      lift_outcome o;;
      modify (set_report h (Report (tr w') None))
  | _ => mret ()
  end.

Definition thread_step (h : Z) (a : thread_action) : prog unit :=
  x ← gets id;
  match posting x !! h, mSensors (subhal x) !! h with
  | None, Some s =>
      let (o, s') := sensor_act (nodes h) (to_action a) s in
      modify (set_sensor h s');;
      lift_outcome o;;
      for_each (start_report h) (drop (length (tr s)) (tr s'))
  | _, _ => mret ()
  end.

(** ** The callback *)

Definition whole_callback : IHalProxyCallback proxy_world := {|
  Callback.getSensorInfo h w := getSensorInfo h (st w);
  areThreadsRunning w := mThreadsRun (queues (st w));
  post events n locked := in_queue (postEventsToMessageQueue (queue_env env) events n locked)
|}.

(** The next part of the report of sensor [h]; at its end the wakelock is destroyed. *)
Definition post_step (h : Z) : prog unit :=
  x ← gets id;
  match posting x !! h with
  | None => mret ()
  | Some r =>
      match calls_left r, scoped r with
      | SubHal.createScopedWakelock lock :: calls, _ =>
          l ← in_proxy (Callback.createScopedWakelock construct lock);
          modify (set_report h (Report calls (Some l)))
      | SubHal.postEvents events :: calls, Some l =>
          in_proxy (Callback.postEvents (IHalProxyCallback0 := whole_callback) (Z.of_nat i)
                      asserts events (isLocked l));;
          modify (set_report h (Report calls (Some l)))
      | [], Some l =>
          in_proxy (destruct_wakelock l);;
          modify (λ x, with_posting (delete h (posting x)) x)
      | _, None => mret ()
      end
  end.

(** ** The system *)

Inductive system_action : Set :=
| ProxyStep (a : proxy_action)
| SensorThread (h : Z) (a : thread_action)
| PostStep (h : Z).

Definition system_act (a : system_action) : prog unit :=
  match a with
  | ProxyStep a => proxy_step a
  | SensorThread h a => thread_step h a
  | PostStep h => post_step h
  end.

Definition system_exec (acts : list system_action) : prog unit := for_each system_act acts.

Definition System_new (run : bool) (start reset : Z) (names : list string)
    (lists : list (list SensorInfo)) (c1 c2 : circumstances) : System L :=
  {| proxy := Proxy_new run start reset names lists; subhal := SensorsSubHal_new c1 c2;
     posting := ∅ |}.
End system.
