(* ===== verification/SystemRuns.v ===== *)
(** * Runs of the sensors service

    The system of [System.v] keeps its parts to their promises: what happens in it is, to the
    proxy, a run of the proxy; once the sub-HAL is initialised a step returns, assertions of
    the callback included, unless the event queue or its flag is missing or a sensor's pipe
    is full; and the framework gets at most one event of a sensor for each
    time it has activated it. *)

From S2P Require Import Prelude Words Handles SensorTypes HalProxy EventQueue Wakelock Proxy.
From S2P Require Import ProxyRuns ProxyTypes Callback Sensor SensorRuns SubHal Device Driven.
From S2P Require Import SystemProxy System.

Section system.
Context `{C : SensorsConstants} {laws : SensorsLaws C} {L : Type} `{Sw : !ScopedWakelock L}.
Context (env : environment) (nodes : Z → sensor_environment) (i : nat) (asserts : bool).
Context (getSensorInfo : Z → Proxy → SensorInfo).
Context {sw_laws : ScopedWakelockLaws Sw env}.

(** [getSensorInfo] finds the sensors that are listed. *)
Context (info_listed : ∀ h x s, HalProxy.mSensors (hal x) !! h = Some s → getSensorInfo h x = s).

(** The proxy has [n] sub-HALs, of which the own one is the [i]-th. *)
Context (n : nat) (own_index : (i < n)%nat) (few : (n ≤ 128)%nat).

Abbreviation world_t := (world (System L) call).
Abbreviation act := (system_act env nodes i asserts getSensorInfo).
Abbreviation exec := (system_exec env nodes i asserts getSensorInfo).

(** ** The system as the proxy's *)

Definition pview (w : world_t) : proxy_world := World (proxy (st w)) (tr w).

Lemma omap_all {A} (l : list A) : omap Some l = l.
Proof. induction l as [|x l IH]; cbn; [done|by rewrite IH]. Qed.

Lemma in_proxy_run {A} (m : M proxy_world A) w :
  (∃ t, tr (m (pview w)).2 = tr w ++ t) →
  in_proxy m w = let (o, p) := m (pview w) in (o, World (with_proxy (st p) (st w)) (tr p)).
Proof.
  intros [t Ht]. unfold in_proxy, zoom, Prelude.view. rewrite omap_all. fold (pview w).
  destruct (m (pview w)) as [o p]. cbn in *. by rewrite map_id, Ht, drop_app_length.
Qed.

Lemma proxy_grows a p : ∃ t, tr (proxy_act env a p).2 = tr p ++ t.
Proof. destruct (logs_proxy env a p) as (t & Ht & _). by exists t. Qed.

(** ** What the sub-HAL hears *)

Definition call_actions (h : Z) (c : call) : list sensor_action :=
  match c with
  | hal_call (sub_call j op) => if decide (j = i) then op_actions op h else []
  | sub_initialize j => if decide (j = i) then [Sensor.SetOperationMode NORMAL] else []
  | _ => []
  end.

Abbreviation subhal_world := (world SensorsSubHal subhal_call).

Definition heard (calls : list call) : M subhal_world unit := for_each (hear i) calls.

Lemma heard_cons c calls w w' :
  heard (c :: calls) w = (Done (), w') → ∃ w1, hear i c w = (Done (), w1) ∧ heard calls w1 = (Done (), w').
Proof. unfold heard. cbn [for_each]. intros ([] & w1 & E1 & E)%bind_inv. by exists w1. Qed.

Lemma hear_sensors c w w' h : hear i c w = (Done (), w') →
  mSensors (st w') !! h = run_sensor (nodes h) (call_actions h c) <$> mSensors (st w) !! h.
Proof.
  assert (run_sensor (nodes h) [] <$> mSensors (st w) !! h = mSensors (st w) !! h) as Hnil
    by (by destruct (mSensors (st w) !! h)).
  destruct c as [[j op| |]| | | | | | | | | |j|]; cbn; try (by intros [= <-]); case_decide;
    try (by intros [= <-]); intros (r & w1 & E & [= <-])%bind_inv.
  - exact (run_op_sensors (nodes h) op w r w1 h E).
  - unfold SubHal.initialize in E. apply bind_inv in E as ([] & w2 & [= <-] & E).
    exact (run_op_sensors (nodes h) (sub_setOperationMode NORMAL) _ r w1 h E).
Qed.

Lemma heard_sensors calls w w' h : heard calls w = (Done (), w') →
  mSensors (st w') !! h
  = run_sensor (nodes h) (concat (map (call_actions h) calls)) <$> mSensors (st w) !! h.
Proof.
  revert w. induction calls as [|c calls IH]; intros w.
  { intros [= <-]. cbn. by destruct (mSensors (st w) !! h). }
  intros (w1 & E1 & E)%heard_cons. cbn [map concat].
  rewrite (IH w1 E), (hear_sensors c w w1 h E1).
  destruct (mSensors (st w) !! h) as [s|]; [|done]. cbn. f_equal.
  unfold run_sensor. by rewrite foldl_app.
Qed.

Lemma heard_callback calls : preserves (of_state (λ x, mCallback x = true)) (heard calls).
Proof.
  apply preserves_for_each. intros c.
  destruct c as [[j op| |]| | | | | | | | | |j|]; cbn; try apply preserves_ret; case_decide;
    try apply preserves_ret.
  - apply preserves_bind; [apply run_op_callback|intros; apply preserves_ret].
  - apply preserves_bind; [|intros; apply preserves_ret]. unfold SubHal.initialize.
    apply preserves_bind; [by apply preserves_modify|intros _].
    apply (run_op_callback true (sub_setOperationMode NORMAL)).
Qed.

(** *** Full pipes

    A pipe of a sensor that has no room left. No call to the sub-HAL takes bytes out. *)
Definition full (x : SensorsSubHal) : Prop :=
  ∃ h s, mSensors x !! h = Some s ∧ ¬ roomy (st s).

Lemma not_roomy_full x : ¬ all_roomy x → full x.
Proof.
  intros Hx. apply map_not_Forall in Hx as (h & s & Hs & Hf); [by exists h, s|]. apply _.
Qed.

Lemma full_on_sensor {A} h (m : M sensor_world A) none :
  preserves (of_state (λ x, ¬ roomy x)) m → preserves (of_state full) (on_sensor h m none).
Proof.
  intros Hm w (h' & s & Hs & Hf). unfold on_sensor.
  destruct (mSensors (st w) !! h) as [s0|] eqn:H0; [|by exists h', s].
  destruct (decide (h = h')) as [<-|Hne].
  - rewrite H0 in Hs. injection Hs as ->. specialize (Hm s Hf).
    destruct (m s) as [o s']. exists h, s'. cbn. by rewrite lookup_insert_eq.
  - destruct (m s0) as [o s']. exists h', s. cbn. by rewrite lookup_insert_ne.
Qed.

Lemma full_interrupt : preserves (of_state (λ x, ¬ roomy x)) UdfpsSensor_interruptPoll.
Proof.
  intros s Hs. unfold UdfpsSensor_interruptPoll. rewrite bind_gets.
  unfold of_state in *. destruct (mWaitPipe (st s)) as [b|] eqn:Hb; [|done].
  case_decide as Hlt; [|done]. destruct Hs. unfold roomy. by rewrite Hb.
Qed.

Lemma full_interrupt_tap : preserves (of_state (λ x, ¬ roomy x)) SingleTapSensor_interruptPoll.
Proof. exact full_interrupt. Qed.
#[local] Hint Resolve full_interrupt full_interrupt_tap : prog.

Lemma full_run_op op : preserves (of_state full) (run_op op).
Proof.
  destruct op; cbn [run_op]; try by intros w.
  1: { unfold SubHal.setOperationMode. apply preserves_bind; [apply preserves_gets|intros m].
       apply preserves_bind; [apply preserves_for_each; intros h|intros _; by intros w].
       apply full_on_sensor. solve_state_invariant. }
  all: apply full_on_sensor; solve_state_invariant.
Qed.

Lemma full_hear c : preserves (of_state full) (hear i c).
Proof.
  destruct c as [[j op| |]| | | | | | | | | |j|]; cbn; try apply preserves_ret; case_decide;
    try apply preserves_ret.
  - apply preserves_bind; [apply full_run_op|intros; apply preserves_ret].
  - apply preserves_bind; [|intros; apply preserves_ret]. unfold SubHal.initialize.
    apply preserves_bind; [by apply preserves_modify|intros _].
    apply (full_run_op (sub_setOperationMode NORMAL)).
Qed.

(** What is heard comes to its end, or waits at a full pipe. *)
Lemma hear_outcome c w : own_subhal (st w) →
  (∃ w', hear i c w = (Done (), w')) ∨ ∃ w', hear i c w = (Fault Blocks, w') ∧ full (st w').
Proof.
  intros Hw. assert (∀ op x, own_subhal (st x) → (∃ w', (run_op op;; mret ()) x = (Done (), w')) ∨
    ∃ w', (run_op op;; mret ()) x = (Fault Blocks, w') ∧ full (st w')) as Hop.
  { intros op [x t] Hx. destruct (run_op_outcome op x t Hx) as [(w' & E & _)|(_ & Hf & w' & E & _)];
      [left|right]; exists w'; [by rewrite (bind_done _ _ _ _ _ E)|].
    split; [by apply bind_fault|]. pose proof (full_run_op op (World x t) (not_roomy_full x Hf)) as H.
    by rewrite E in H. }
  destruct c as [[j op| |]| | | | | | | | | |j|]; cbn; try (left; by exists w); case_decide;
    try (left; by exists w).
  - by apply Hop.
  - unfold SubHal.initialize.
    apply (Hop (sub_setOperationMode NORMAL) (World _ (tr w))).
    by destruct Hw.
Qed.

Lemma heard_outcome calls w : own_subhal (st w) →
  (∃ w', heard calls w = (Done (), w') ∧ own_subhal (st w')) ∨
  ∃ w', heard calls w = (Fault Blocks, w') ∧ full (st w').
Proof.
  revert w. induction calls as [|c calls IH]; intros w Hw; [left; by exists w|].
  unfold heard. cbn [for_each]. fold (heard calls).
  destruct (hear_outcome c w Hw) as [(w1 & E)|(w1 & E & Hf)].
  2: { right. exists w1. split; [by apply bind_fault|done]. }
  rewrite (bind_done _ _ _ _ _ E). apply IH.
  refine (own_subhal_run (st w) (st w1) (λ h, run_sensor (nodes h) (call_actions h c)) Hw
    (λ h, hear_sensors c w w1 h E) _).
  intros h k s. apply is_own_run.
Qed.

Lemma call_actions_driven h calls : Forall driven (concat (map (call_actions h) calls)).
Proof.
  induction calls as [|c calls IH]; cbn; [done|]. apply Forall_app. split; [|done].
  destruct c as [[j op| |]| | | | | | | | | |j|]; cbn; try done; case_decide; try done.
  - apply op_actions_driven.
  - by repeat constructor.
Qed.

(** The calls by which the framework, through the proxy, activates the sensor [k]. *)
Definition enables (k : SensorKind) (c : call) : bool :=
  match c with
  | hal_call (sub_call j (sub_activate h true)) => bool_decide (j = i ∧ h = own_handle k)
  | _ => false
  end.

Definition enabled (k : SensorKind) (t : list call) : nat := length (List.filter (enables k) t).

Lemma enabled_app k t1 t2 : enabled k (t1 ++ t2) = (enabled k t1 + enabled k t2)%nat.
Proof. unfold enabled. by rewrite List.filter_app, length_app. Qed.

Lemma enables_actions k c : activations (call_actions (own_handle k) c) = enabled k [c].
Proof.
  destruct c as [[j op| |]| | | | | | | | | |j|]; try done; cbn [call_actions].
  2: { by case_decide. }
  unfold enabled. cbn [List.filter enables].
  destruct (decide (j = i)) as [->|Hj].
  - destruct op as [|h e| | | | | |]; try done; cbn [op_actions]; try by case_decide.
    destruct e; [|by case_decide]. case_decide.
    + by rewrite bool_decide_eq_true_2.
    + by rewrite bool_decide_eq_false_2 by tauto.
  - destruct op as [|h []| | | | | |]; try done. by rewrite bool_decide_eq_false_2 by tauto.
Qed.

Lemma enabled_actions k t : activations (concat (map (call_actions (own_handle k)) t)) = enabled k t.
Proof.
  induction t as [|c t IH]; [done|]. cbn [map concat].
  rewrite activations_app, IH, enables_actions. change (c :: t) with ([c] ++ t).
  by rewrite enabled_app.
Qed.

(** ** The invariant *)

(** The handle of sensor [k] outside of the sub-HAL. *)
Definition marked (k : SensorKind) : Z := setSubHalIndex (own_handle k) (Z.of_nat i).

Definition own_count (k : SensorKind) (events : list Event) : nat :=
  length (List.filter (λ e, bool_decide (ev_handle e = marked k)) events).

Definition proxy_ok (p : proxy_world) : Prop :=
  whole_inv env p ∧ typed_whole n p ∧
  ∀ k, ∃ s, keeps_entry (marked k) s p ∧ type s = type (own_info k) ∧
            Z.land (flags s) WAKE_UP ≠ 0.

(** A report on its way: of one event, and once the wakelock is made locked, unless the
    threads were to stop. *)
Definition report_ok (k : SensorKind) (run : bool) (r : report L) : Prop :=
  (∃ e, r = Report [SubHal.createScopedWakelock true; SubHal.postEvents [e]] None ∧
        ev_handle e = own_handle k) ∨
  (∃ e l, r = Report [SubHal.postEvents [e]] (Some l) ∧ ev_handle e = own_handle k ∧
          (isLocked l = true ∨ run = false)) ∨
  (∃ l, r = Report [] (Some l)).

(** The events of a report that the callback has not been given yet. *)
Definition unsent (o : option (report L)) : nat :=
  match o with Some (Report (_ :: _) _) => 1 | _ => 0 end.

Definition unposted (k : SensorKind) (x : System L) : nat :=
  unsent (posting x !! own_handle k).

Definition running (w : world_t) : bool := mThreadsRun (queues (proxy (st w))).

(** [counts]: whether the events under the sensors' handles are the sensors' own. *)
Context (counts : Prop).

Record system_inv (w : world_t) : Prop := {
  inv_proxy : proxy_ok (pview w);
  inv_own : own_subhal (subhal (st w));
  inv_shots k s : mSensors (subhal (st w)) !! own_handle k = Some s →
    one_shot k (enabled k (tr w)) s ∧
    (counts → own_count k (stream (queue_view (pview w))) + unposted k (st w)
              ≤ reports (tr s))%nat;
  inv_posting h r : posting (st w) !! h = Some r →
    ∃ k, h = own_handle k ∧ report_ok k (running w) r
}.

Lemma own_count_app k l1 l2 : own_count k (l1 ++ l2) = (own_count k l1 + own_count k l2)%nat.
Proof. unfold own_count. by rewrite List.filter_app, length_app. Qed.

Lemma own_count_prefix k l1 l2 : l1 `prefix_of` l2 → (own_count k l1 ≤ own_count k l2)%nat.
Proof. intros [l ->]. rewrite own_count_app. lia. Qed.

Lemma own_in_handle k : in_handle (own_handle k).
Proof. unfold in_handle. destruct k; cbn; lia. Qed.

Lemma marked_index k : extractSubHalIndex (marked k) = Z.of_nat i.
Proof.
  unfold marked. rewrite extract_set by (apply own_in_handle || lia). unfold signed_index.
  decides. apply wrap_u_id. unfold in_u. lia.
Qed.

Lemma marked_clear k : clearSubHalIndex (marked k) = own_handle k.
Proof. apply clear_set; [apply own_in_handle|lia]. Qed.

(** ** A step of the proxy *)

(** Its events are not under the handles of the own sensors. *)
Definition foreign (a : proxy_action) : Prop :=
  ∀ k, Forall (λ e, ev_handle e ≠ marked k) (proxy_posted a).

Lemma foreign_count k a part :
  foreign a → part `prefix_of` proxy_posted a → own_count k part = O.
Proof.
  intros Ha Hp. apply Nat.le_0_r. etrans; [by apply own_count_prefix|].
  clear Hp. specialize (Ha k). unfold own_count. induction Ha as [|e l He _ IH]; [done|]. cbn.
  by rewrite bool_decide_eq_false_2.
Qed.

(** What one action does to a proxy that is as it should be. *)
Lemma proxy_ok_act a p p' : proxy_ok p → sized_post a → proxy_act env a p = (Done (), p') →
  proxy_ok p' ∧ tr p' = tr p ++ made (proxy_act env a) p ∧
  (∀ k, (own_count k (stream (queue_view p'))
    ≤ own_count k (stream (queue_view p)) + own_count k (proxy_posted a))%nat) ∧
  (mThreadsRun (queues (st p)) = false → mThreadsRun (queues (st p')) = true → ∀ k,
   hal_call (sub_call i (sub_activate (own_handle k) false)) ∈ made (proxy_act env a) p).
Proof.
  intros (Hw & Hn & Hk) Hs E.
  destruct (proxy_stream env a p p' Hw Hs E) as (Hw' & l & pt & Hst & Hl & Hpt).
  pose proof (logs_grow (proxy_act env a) p (logs_proxy env a)) as G. rewrite E in G.
  split; [|split; [by unfold made; rewrite E|split]].
  - split; [done|]. split.
    + pose proof (whole_act n env a p Hn) as Hn'. by rewrite E in Hn'.
    + intros k. destruct (Hk k) as (s & He & ?). exists s. split; [|done].
      pose proof (entry_proxy env (marked k) s a p He) as He'. by rewrite E in He'.
  - intros k. rewrite Hst, own_count_app. apply (own_count_prefix k) in Hl, Hpt. lia.
  - intros H0 H1 k. destruct (Hk k) as (s & He & _).
    eapply running_again_disables; [done..|apply marked_index| |apply marked_clear].
    destruct Hn as [[Hn _] _]. cbn in Hn. lia.
Qed.

(** The queue of the events and its flag are there; without them a post ends the run. *)
Definition proxy_ready (p : Proxy) : bool := ready (queues p).

Definition stops_unready (o : outcome unit) (p : proxy_world) : Prop :=
  o = Fault NullDeref ∧ proxy_ready (st p) = false.

Lemma proxy_act_outcome a p : proxy_ok p → sized_post a →
  (∃ p', proxy_act env a p = (Done (), p')) ∨
  is_post a = true ∧ proxy_ready (st p) = false ∧
  ∃ o p', proxy_act env a p = (o, p') ∧ stops_unready o p'.
Proof.
  intros (Hw & _) Hs.
  destruct (refine_act env a p Hw Hs) as (p' & part & [(E & _)|(Hp & Hr & Hr' & E & _)]).
  - left. by exists p'.
  - right. split; [done|]. split; [done|]. by exists (Fault NullDeref), p'.
Qed.

(** Every sensor keeps at most one report per activation in what it hears. *)
Lemma heard_shots k calls t x x' s' :
  own_subhal (st x) → heard calls x = (Done (), x') →
  (∀ s, mSensors (st x) !! own_handle k = Some s → one_shot k (enabled k t) s) →
  mSensors (st x') !! own_handle k = Some s' →
  one_shot k (enabled k (t ++ calls)) s' ∧
  ∃ s, mSensors (st x) !! own_handle k = Some s ∧ (reports (tr s) ≤ reports (tr s'))%nat.
Proof.
  intros Hx E Hshot Hs'. rewrite (heard_sensors calls x x' _ E) in Hs'.
  apply fmap_Some in Hs' as (s & Hs & ->). specialize (Hshot s Hs).
  destruct (own_driven (nodes (own_handle k)) k _ _ s
    (own_subhal_lookup (st x) k s Hx Hs) Hshot (call_actions_driven (own_handle k) calls)) as [H1 H2].
  rewrite enabled_actions in H1. rewrite enabled_app. split; [exact H1|]. by exists s.
Qed.

Lemma waits_for (x : System L) calls h r c :
  posting x !! h = Some r → c ∈ calls → takes_mutex i h c = true → waits i x calls = true.
Proof.
  intros Hr Hc Ht. unfold waits. apply existsb_exists. exists h. split.
  - apply list_elem_of_In, list_elem_of_fmap. exists (h, r). split; [done|].
    by apply elem_of_map_to_list.
  - apply existsb_exists. exists c. split; [by apply list_elem_of_In|done].
Qed.

Lemma report_ok_stopped k run run' r :
  report_ok k run r → (run = false → run' = false) → report_ok k run' r.
Proof.
  intros [?|[(e & l & Hr & He & Hl)|?]] Hrun; [by left| |by right; right].
  right. left. exists e, l. split; [done|]. split; [done|]. destruct Hl; tauto.
Qed.

(** The calls of a step, and what it comes to. *)
Lemma proxy_step_run a w o p :
  proxy_act env a (pview w) = (o, p) →
  let calls := drop (length (tr w)) (tr p) in
  proxy_step env i a w
  = if waits i (st w) calls then (Done (), w)
    else match heard calls (World (subhal (st w)) []) with
         | (Done _, x) => (o, World (with_subhal (st x) (with_proxy (st p) (st w))) (tr p))
         | (Fault f, x) => (Fault f, World (with_subhal (st x) (st w)) (tr w))
         end.
Proof. intros E. unfold proxy_step. rewrite in_proxy_run by apply proxy_grows. by rewrite E. Qed.

(** A step that is not made to wait, and returns. *)
Lemma proxy_step_inv a w w' :
  system_inv w → sized_post a → proxy_step env i a w = (Done (), w') →
  w' = w ∨ ∃ p x, proxy_act env a (pview w) = (Done (), p) ∧
    let calls := made (proxy_act env a) (pview w) in
    waits i (st w) calls = false ∧ heard calls (World (subhal (st w)) []) = (Done (), x) ∧
    w' = World (with_subhal (st x) (with_proxy (st p) (st w))) (tr p).
Proof.
  intros [Hp Ho _ _] Hs. destruct (proxy_act env a (pview w)) as [o p] eqn:E.
  rewrite (proxy_step_run a w o p E). cbv zeta. unfold made. rewrite E. cbn [snd pview tr].
  set (calls := drop _ _).
  destruct (waits i (st w) calls); [intros [= <-]; by left|].
  destruct (heard_outcome calls (World (subhal (st w)) []) Ho) as [(x & Ex & _)|(x & Ex & _)];
    rewrite Ex; intros [= -> <-]. right. by exists p, x.
Qed.

Lemma proxy_step_ok a w w' :
  system_inv w → sized_post a → (counts → foreign a) → proxy_step env i a w = (Done (), w') →
  system_inv w' ∧ ∃ part, proxy_exec env part (pview w) = (Done (), pview w') ∧
    (part = [a] ∨ part = []) ∧ posting (st w') = posting (st w).
Proof.
  intros Hw Hs Hf Ew. pose proof Hw as [Hp Ho Hshots Hpost].
  destruct (proxy_step_inv a w w' Hw Hs Ew) as [->|(p' & x & E & Hwait & Ex & ->)].
  { split; [done|]. exists []. split; [done|]. split; [by right|done]. }
  destruct (proxy_ok_act a (pview w) p' Hp Hs E) as (Hp' & Ht & Hst & Hrun).
  set (calls := made (proxy_act env a) (pview w)) in *. cbn [pview tr] in Ht.
  split; [|exists [a]; split; [unfold proxy_exec; cbn; rewrite (bind_done _ _ _ _ _ E); by destruct p'|
           split; [by left|done]]].
  split; cbn.
  - by destruct p'.
  - destruct (heard_outcome calls (World (subhal (st w)) []) Ho) as [(x' & Ex' & Hx)|(x' & Ex' & _)];
      rewrite Ex in Ex'; [by injection Ex' as <-|done].
  - intros k s Hk. rewrite Ht.
    destruct (heard_shots k calls (tr w) (World (subhal (st w)) []) x s Ho Ex
      (λ s Hs, proj1 (Hshots k s Hs)) Hk)
      as (H1 & s0 & Hs0 & Hr).
    split; [done|]. intros Hc. specialize (proj2 (Hshots k s0 Hs0) Hc) as H2.
    specialize (Hst k). rewrite (foreign_count k a (proxy_posted a)) in Hst by auto.
    rewrite <- Ht. change (unposted k _) with (unposted k (st w)).
    replace (pview _) with p' by (by destruct p'). lia.
  - intros h r Hr. destruct (Hpost h r Hr) as (k & -> & Hok). exists k. split; [done|].
    eapply report_ok_stopped; [exact Hok|]. intros H0.
    destruct (mThreadsRun (queues (st p'))) eqn:H1; [|done]. exfalso.
    rewrite (waits_for _ _ _ _ _ Hr (Hrun H0 eq_refl k)) in Hwait; [done|].
    cbn. by apply bool_decide_eq_true.
Qed.

(** A step that does not return: a post without the queue or its flag, or a call that waits at
    a full pipe. *)
Definition blocked (o : outcome unit) (x : SensorsSubHal) : Prop := o = Fault Blocks ∧ full x.

Lemma proxy_step_outcome a w : system_inv w → sized_post a →
  ∃ o w', proxy_step env i a w = (o, w') ∧
    (o = Done () ∨ stops_unready o (pview w') ∨ blocked o (subhal (st w'))).
Proof.
  intros [Hp Ho _ _] Hs. destruct (proxy_act env a (pview w)) as [o p] eqn:E.
  rewrite (proxy_step_run a w o p E). cbv zeta. set (calls := drop _ _).
  destruct (waits i (st w) calls); [by eexists _, _; split; [|left]|].
  destruct (heard_outcome calls (World (subhal (st w)) []) Ho) as [(x & Ex & _)|(x & Ex & Hf)];
    rewrite Ex; eexists _, _; (split; [reflexivity|]); [|by right; right].
  destruct (proxy_act_outcome a (pview w) Hp Hs) as [[p1 E1]|(_ & _ & o1 & p1 & E1 & Ho1)];
    rewrite E in E1; injection E1 as -> ->; [by left|by right; left].
Qed.

(** ** A section of a sensor's thread *)

Lemma thread_calls k h a s s' :
  is_own k s → sensor_act (nodes h) (to_action a) s = (Done (), s') →
  ∃ t, tr s' = tr s ++ t ∧ section_calls k t.
Proof.
  intros Hs. destruct a as [|r]; cbn [to_action]; [by apply run_calls|]. intros E.
  exists []. rewrite app_nil_r. split; [|by left].
  pose proof (poll_calls (nodes h) r s) as Ht. by rewrite E in Ht.
Qed.

Lemma no_reports (h : Z) t (w : world_t) :
  Forall (λ c, is_report c = false) t → for_each (start_report h) t w = (Done (), w).
Proof.
  intros Ht. induction Ht as [|c t Hc _ IH]; [done|]. cbn. by destruct c.
Qed.

(** The report of one event, as the sub-HAL posts it. *)
Definition new_report (e : Event) : report L :=
  Report [SubHal.createScopedWakelock true; SubHal.postEvents [e]] None.

Lemma start_report_run h e (w : world_t) :
  start_report h (cb_postEvents [e] true) w
  = if mCallback (subhal (st w)) then (Done (), World (set_report h (new_report e) (st w)) (tr w))
    else (Fault NullDeref, w).
Proof.
  cbn [start_report]. rewrite bind_gets. unfold SensorsSubHal_postEvents. rewrite bind_gets.
  cbn [st]. by destruct (mCallback _).
Qed.

Lemma own_insert k s x : own_subhal x → is_own k s →
  own_subhal (SubHal.set_sensors (<[own_handle k := s]> (mSensors x)) x).
Proof.
  intros [Hb Ho] Hs. split; cbn.
  - intros k'. destruct (decide (own_handle k = own_handle k')) as [He|Hne].
    + apply own_handle_inj in He as <-. exists s. by rewrite lookup_insert_eq.
    + rewrite lookup_insert_ne by done. apply Hb.
  - intros h. destruct (decide (own_handle k = h)) as [<-|Hne].
    + intros _. rewrite kind_of_own. by eexists.
    + rewrite lookup_insert_ne by done. apply Ho.
Qed.

(** A section of sensor [k], and the report it starts. *)
Definition after_section (k : SensorKind) (s : sensor_world) (r : option (report L)) (w : world_t)
    : world_t :=
  World (match r with
         | Some r => set_report (own_handle k) r (set_sensor (own_handle k) s (st w))
         | None => set_sensor (own_handle k) s (st w)
         end) (tr w).

Lemma unposted_report k k' r (x : System L) : k ≠ k' →
  unposted k' (set_report (own_handle k) r x) = unposted k' x.
Proof.
  intros Hk. unfold unposted. cbn. rewrite lookup_insert_ne; [done|].
  by intros ?%own_handle_inj.
Qed.

Lemma section_inv k a s s' r w :
  system_inv w → posting (st w) !! own_handle k = None →
  mSensors (subhal (st w)) !! own_handle k = Some s →
  sensor_act (nodes (own_handle k)) (to_action a) s = (Done (), s') →
  (match r with
   | Some r => (reports (tr s) < reports (tr s'))%nat ∧ report_ok k (running w) r
   | None => True
   end) →
  system_inv (after_section k s' r w).
Proof.
  intros [Hp Ho Hshots Hpost] Hnone Hs E Hr.
  pose proof (own_subhal_lookup _ k s Ho Hs) as Hown.
  pose proof (is_own_act (nodes (own_handle k)) k (to_action a) s Hown) as Hown'.
  pose proof (reports_grow (nodes (own_handle k)) (to_action a) s) as Hgrow.
  rewrite E in Hown', Hgrow. cbn [snd] in Hown', Hgrow.
  destruct (Hshots k s Hs) as [Hs1 Hs2].
  assert (pview (after_section k s' r w) = pview w) as Hv by (by destruct r).
  assert (subhal (st (after_section k s' r w))
    = SubHal.set_sensors (<[own_handle k := s']> (mSensors (subhal (st w)))) (subhal (st w))) as Hsub
    by (by destruct r).
  split; rewrite ?Hv, ?Hsub; [done|by apply own_insert| |].
  - intros k' t Ht. cbn in Ht. change (tr (after_section k s' r w)) with (tr w).
    destruct (decide (k = k')) as [<-|Hk].
    + rewrite lookup_insert_eq in Ht. injection Ht as <-. split.
      * pose proof (one_shot_act (nodes (own_handle k)) k _ _ s () s' Hs1 E) as H1.
        replace (activations [to_action a]) with O in H1 by (by destruct a).
        by rewrite Nat.add_0_r in H1.
      * intros Hc. specialize (Hs2 Hc). unfold unposted in Hs2. rewrite Hnone in Hs2. cbn in Hs2.
        destruct r as [r|]; unfold unposted; cbn; [rewrite lookup_insert_eq|rewrite Hnone; cbn; lia].
        destruct Hr as [Hr _]. destruct r as [[] ?]; cbn in *; lia.
    + rewrite lookup_insert_ne in Ht by (by intros ?%own_handle_inj).
      destruct (Hshots k' t Ht) as [H1 H2]. split; [done|]. intros Hc. specialize (H2 Hc).
      destruct r as [r|]; cbn; [by rewrite unposted_report|done].
  - intros h r' Hr'. destruct r as [r|]; cbn in Hr'; [|by apply Hpost].
    apply lookup_insert_Some in Hr' as [[<- <-]|[_ Hr']]; [|by apply Hpost].
    exists k. split; [done|]. apply Hr.
Qed.

Lemma thread_step_ok h a w w' :
  system_inv w → thread_step nodes h a w = (Done (), w') →
  system_inv w' ∧ pview w' = pview w ∧ mCallback (subhal (st w')) = mCallback (subhal (st w)).
Proof.
  intros Hw. pose proof Hw as [_ Ho _ _]. unfold thread_step. rewrite bind_gets. cbn [id].
  destruct (posting (st w) !! h) as [r|] eqn:Hnone; [by intros [= <-]|].
  destruct (mSensors (subhal (st w)) !! h) as [s|] eqn:Hs; [|by intros [= <-]].
  destruct (own_only _ Ho h) as [k Hk]; [by eexists|]. apply kind_of_Some in Hk as ->.
  pose proof (own_subhal_lookup _ k s Ho Hs) as Hown.
  destruct (sensor_act _ _ s) as [o s'] eqn:E. erewrite bind_done by reflexivity.
  destruct o as [[]|]; [|by unfold mbind, M_bind, lift_outcome].
  erewrite bind_done by reflexivity.
  destruct (thread_calls k _ a s s' Hown E) as (t & Ht & Hcalls). rewrite Ht, drop_app_length.
  destruct Hcalls as [Hc|(e & -> & He)].
  { rewrite no_reports by done. intros [= <-].
    split; [exact (section_inv k a s s' None w Hw Hnone Hs E I)|done]. }
  intros ([] & w1 & E1 & [= <-])%bind_inv. rewrite start_report_run in E1.
  destruct (mCallback _) eqn:Hcb; [|done]. injection E1 as <-.
  split; [|by split; [|cbn in *; congruence]].
  refine (section_inv k a s s' (Some (new_report e)) w Hw Hnone Hs E _).
  split; [|left; by exists e]. rewrite Ht, reports_app. unfold reports at 3. cbn. lia.
Qed.

(** If what it reads can be parsed, it returns, or a report meets a callback that is not
    set. *)
Lemma thread_step_outcome h a w :
  system_inv w → (∀ h, readable (nodes h)) →
  ∃ o w', thread_step nodes h a w = (o, w') ∧
    (o = Done () ∨ o = Fault NullDeref ∧ mCallback (subhal (st w)) = false ∧ tr w' = tr w).
Proof.
  intros [_ Ho _ _] Hread. unfold thread_step. rewrite bind_gets. cbn [id].
  destruct (posting (st w) !! h) as [r|]; [by eexists _, _; split; [|left]|].
  destruct (mSensors (subhal (st w)) !! h) as [s|] eqn:Hs; [|by eexists _, _; split; [|left]].
  destruct (own_only _ Ho h) as [k Hk]; [by eexists|]. apply kind_of_Some in Hk as ->.
  pose proof (own_subhal_lookup _ k s Ho Hs) as Hown.
  assert (∃ s', sensor_act (nodes (own_handle k)) (to_action a) s = (Done (), s')) as [s' E]
    by (destruct a; [by eapply run_done|apply poll_done]).
  rewrite E. erewrite bind_done by reflexivity. erewrite bind_done by reflexivity.
  destruct (thread_calls k _ a s s' Hown E) as (t & Ht & Hcalls). rewrite Ht, drop_app_length.
  destruct Hcalls as [Hc|(e & -> & He)].
  { rewrite no_reports by done. by eexists _, _; split; [|left]. }
  cbn [for_each]. unfold mbind, M_bind. rewrite start_report_run.
  destruct (mCallback _) eqn:Hcb; eexists _, _; (split; [reflexivity|]); [by left|].
  right. by split.
Qed.

(** ** A part of a report *)

(** The actions of the queues let no thread run again. *)
Lemma quiet_running a p p' : proxy_ok p → sized_post a → a ≠ InitializeStep →
  proxy_act env a p = (Done (), p') →
  mThreadsRun (queues (st p)) = false → mThreadsRun (queues (st p')) = false.
Proof.
  intros [Hw _] Hs Ha E H0. destruct (mThreadsRun (queues (st p'))) eqn:H1; [|done].
  by destruct (running_again env a p p' Hw Hs E H0 H1).
Qed.

Definition mark (e : Event) : Event := mark_event (Z.of_nat i) e.

Abbreviation callback := (whole_callback env getSensorInfo).

(** The callback lets a sensor's own event through, as one wake-up event. *)
Lemma own_event_posted k e l p :
  proxy_ok p → ev_handle e = own_handle k →
  (isLocked l = true ∨ mThreadsRun (queues (st p)) = false) →
  Callback.postEvents (IHalProxyCallback0 := callback) (Z.of_nat i) asserts [e] (isLocked l) p
  = if mThreadsRun (queues (st p)) then proxy_act env (SubHalPost [mark e] 1 true) p
    else (Done (), p).
Proof.
  intros (_ & _ & Hk) He Hl. rewrite postEvents_outcome by (cbn; lia).
  cbn [areThreadsRunning whole_callback].
  destruct (mThreadsRun (queues (st p))); [|done]. destruct Hl as [Hl|]; [|done].
  destruct (Hk k) as (s & Hs & Ht & Hw). unfold keeps_entry, of_state in Hs.
  assert (getSensorInfo (ev_handle (mark e)) (st p) = s) as Hinfo.
  { apply info_listed. unfold mark, mark_event. cbn [ev_handle set_event_handle].
    by rewrite He. }
  assert (passed (IHalProxyCallback0 := callback) (Z.of_nat i) p [e] = [mark e]) as Hpassed.
  { unfold passed. cbn [map List.filter]. fold (mark e).
    replace (suppressed p (mark e)) with false; [done|]. symmetry. apply bool_decide_eq_false.
    cbn [Callback.getSensorInfo whole_callback]. rewrite Hinfo, Ht.
    intros [Hp _]. pose proof (private_not_pick_up 1). pose proof (private_not_pick_up 2).
    destruct k; cbn in Hp; lia. }
  rewrite Hpassed. cbn [List.filter].
  replace (wakes p (mark e)) with true; [rewrite Hl; by destruct asserts|].
  symmetry. apply bool_decide_eq_true. cbn [Callback.getSensorInfo whole_callback].
  by rewrite Hinfo.
Qed.

(** What a part of a report is to the proxy. *)
Definition post_part (part : list proxy_action) : Prop :=
  part = [] ∨ part = [SubHalIncrement 1] ∨ (∃ k e, part = [SubHalPost [mark e] 1 true] ∧
    ev_handle e = own_handle k) ∨ ∃ start, part = [SubHalDecrement 1 start].

Lemma one_action a p p' :
  proxy_act env a p = (Done (), p') → proxy_exec env [a] p = (Done (), p').
Proof. intros E. unfold proxy_exec. cbn. by rewrite (bind_done _ _ _ _ _ E). Qed.

(** A part that is nothing, or an action of the proxy, and returns. *)
Lemma part_run (m : M proxy_world unit) a p p' : proxy_ok p → sized_post a → a ≠ InitializeStep →
  m p = (Done (), p) ∨ m p = proxy_act env a p → m p = (Done (), p') →
  ∃ part, proxy_ok p' ∧ (∃ t, tr p' = tr p ++ t) ∧
    proxy_exec env part p = (Done (), p') ∧ (part = [] ∨ part = [a]) ∧
    (mThreadsRun (queues (st p)) = false → mThreadsRun (queues (st p')) = false) ∧
    ∀ k, (own_count k (stream (queue_view p'))
          ≤ own_count k (stream (queue_view p)) + own_count k (proxy_posted a))%nat.
Proof.
  intros Hp Hs Ha [E|E] Em; rewrite E in Em.
  - injection Em as <-. exists []. split; [done|]. split; [exists []; by rewrite app_nil_r|].
    split; [done|]. split; [by left|]. split; [done|]. intros k. lia.
  - destruct (proxy_ok_act a p p' Hp Hs Em) as (Hp' & Ht & Hst & _).
    exists [a]. split; [done|]. split; [by eexists|].
    split; [by apply one_action|]. split; [by right|]. split; [|done].
    by eapply quiet_running.
Qed.

(** One that does not return is a post that finds no queue or no flag. *)
Lemma part_outcome (m : M proxy_world unit) a p : proxy_ok p → sized_post a →
  m p = (Done (), p) ∨ m p = proxy_act env a p →
  ∃ o p', m p = (o, p') ∧ (∃ t, tr p' = tr p ++ t) ∧ (o = Done () ∨ stops_unready o p') ∧
    (proxy_ready (st p) = true ∨ is_post a = false → o = Done ()).
Proof.
  intros Hp Hs [E|E]; rewrite E.
  { exists (Done ()), p. split; [done|]. split; [exists []; by rewrite app_nil_r|]. by split; [left|]. }
  destruct (proxy_grows a p) as [t Ht].
  destruct (proxy_act_outcome a p Hp Hs) as [[p' E']|(Hpost & Hr & o & p' & E' & Ho)];
    rewrite E' in Ht |- *; eexists _, _; (split; [done|]); (split; [by exists t|]).
  - by split; [left|].
  - split; [by right|]. rewrite Hpost, Hr. intros [|]; done.
Qed.

Lemma own_count_mark k k' e : ev_handle e = own_handle k →
  own_count k' [mark e] = if decide (k = k') then 1%nat else 0%nat.
Proof.
  intros He. unfold own_count, mark, mark_event. cbn. rewrite He. fold (marked k).
  destruct (decide (k = k')) as [<-|Hk]; [by rewrite bool_decide_eq_true_2|].
  rewrite bool_decide_eq_false_2; [done|]. intros Hm. apply Hk, own_handle_inj.
  by rewrite <- (marked_clear k), <- (marked_clear k'), Hm.
Qed.

(** The report of sensor [k] moves on from [r] to [o], the proxy to [p], which has been
    given [events]. *)
Lemma report_moves k r o p events w :
  system_inv w → posting (st w) !! own_handle k = Some r →
  proxy_ok p → (∃ t, tr p = tr w ++ t) →
  (running w = false → mThreadsRun (queues (st p)) = false) →
  (∀ k, own_count k (stream (queue_view p))
        ≤ own_count k (stream (queue_view (pview w))) + own_count k events)%nat →
  (∀ k', own_count k' events + (if decide (k = k') then unsent o else 0)
         ≤ if decide (k = k') then unsent (Some r) else 0)%nat →
  (∀ r', o = Some r' → report_ok k (mThreadsRun (queues (st p))) r') →
  system_inv (World (with_posting (partial_alter (λ _, o) (own_handle k) (posting (st w)))
                       (with_proxy (st p) (st w))) (tr p)).
Proof.
  intros [Hp Ho Hshots Hpost] Hr Hp' [t Ht] Hrun Hstream Hevents Hok.
  split; cbn [st tr subhal posting with_posting with_proxy running proxy].
  - by destruct p.
  - done.
  - intros k' s Hs. destruct (Hshots k' s Hs) as [H1 H2]. split.
    + rewrite Ht, enabled_app. eapply one_shot_weaken; [exact H1|lia].
    + intros Hc. specialize (H2 Hc). specialize (Hstream k'). specialize (Hevents k').
      replace (pview _) with p by (by destruct p). unfold unposted in *. cbn.
      destruct (decide (k = k')) as [<-|Hk].
      * rewrite lookup_partial_alter_eq. rewrite Hr in H2. lia.
      * rewrite lookup_partial_alter_ne by (by intros ?%own_handle_inj). lia.
  - intros h r' Hr'. destruct (decide (own_handle k = h)) as [<-|Hh].
    + rewrite lookup_partial_alter_eq in Hr'. exists k. split; [done|]. by apply Hok.
    + rewrite lookup_partial_alter_ne in Hr' by done.
      destruct (Hpost h r' Hr') as (k' & -> & Hr''). exists k'. split; [done|].
      by eapply report_ok_stopped.
Qed.

Lemma in_proxy_bind {A} (m : M proxy_world A) (f : A → System L → System L) w a p :
  m (pview w) = (Done a, p) → (∃ t, tr p = tr w ++ t) →
  (in_proxy m ≫= λ a, modify (f a)) w
  = (Done (), World (f a (with_proxy (st p) (st w))) (tr p)).
Proof.
  intros E Hg. erewrite bind_done; [|rewrite in_proxy_run by (by rewrite E); by rewrite E]. done.
Qed.

(** Either it is not let through, or it is one post of the proxy. *)
Lemma own_event_run k e l p :
  proxy_ok p → ev_handle e = own_handle k →
  (isLocked l = true ∨ mThreadsRun (queues (st p)) = false) →
  let m := Callback.postEvents (IHalProxyCallback0 := callback) (Z.of_nat i) asserts [e]
             (isLocked l) in
  m p = (Done (), p) ∨ m p = proxy_act env (SubHalPost [mark e] 1 true) p.
Proof.
  intros Hp He Hl m. unfold m. rewrite (own_event_posted k) by done.
  destruct (mThreadsRun _); [by right|by left].
Qed.

Lemma decrement_done start p : proxy_ok p → ∃ p', proxy_act env (SubHalDecrement 1 start) p = (Done (), p').
Proof.
  intros Hp. by destruct (proxy_act_outcome (SubHalDecrement 1 start) p Hp I) as [|(? & _)].
Qed.

Lemma destruct_run l p : proxy_ok p → ∃ start,
  destruct_wakelock l p = (Done (), p) ∨
  destruct_wakelock l p = proxy_act env (SubHalDecrement 1 start) p.
Proof.
  intros Hp. destruct (isLocked l) eqn:Hl.
  - destruct (destruct_locked l p Hl) as [start ->]. exists start. right.
    by destruct (decrement_done start p Hp) as [p' ->].
  - exists 0. left. by apply destruct_unlocked.
Qed.

Lemma increment_done p : proxy_ok p → ∃ l p', construct true p = (Done l, p') ∧
  proxy_act env (SubHalIncrement 1) p = (Done (), p') ∧
  isLocked l = mThreadsRun (queues (st p)).
Proof.
  intros Hp. destruct (construct_locked p) as (l & E & Hl).
  destruct (proxy_act_outcome (SubHalIncrement 1) p Hp I) as [[p' E']|(? & _)]; [|done].
  exists l, p'. rewrite E' in E. by split_and!.
Qed.

Lemma mark_sized e : sized_post (SubHalPost [mark e] 1 true).
Proof. cbn. lia. Qed.

(** The parts that a report has left, its end included. *)
Definition stage (o : option (report L)) : nat :=
  match o with Some r => S (length (calls_left r)) | None => 0 end.

(** The report of sensor [h] moved on to [o], the proxy to [p]. *)
Definition moved (h : Z) (o : option (report L)) (p : proxy_world) (w : world_t) : world_t :=
  World (with_posting (partial_alter (λ _, o) h (posting (st w))) (with_proxy (st p) (st w))) (tr p).

(** The next part of the report [r] of sensor [k]: to the proxy [next_run], which is at most
    its action [next_action]; after it the report is [next_left]. *)
Record next_part (k : SensorKind) (r : report L) (w : world_t) : Type := {
  next_run : M proxy_world unit;
  next_action : proxy_action;
  next_left : option (report L);
  next_sized : sized_post next_action;
  next_quiet : next_action ≠ InitializeStep;
  next_post : post_part [next_action];
  next_is : next_run (pview w) = (Done (), pview w) ∨
            next_run (pview w) = proxy_act env next_action (pview w);
  next_step o p : next_run (pview w) = (o, p) → (∃ t, tr p = tr w ++ t) →
    post_step env i asserts getSensorInfo (own_handle k) w
    = match o with
      | Done _ => (Done (), moved (own_handle k) next_left p w)
      | Fault f => (Fault f, World (with_proxy (st p) (st w)) (tr p))
      end;
  next_counts k' :
    (own_count k' (proxy_posted next_action) + (if decide (k = k') then unsent next_left else 0)
     ≤ if decide (k = k') then unsent (Some r) else 0)%nat;
  next_ok run : (running w = false → run = false) →
    ∀ r', next_left = Some r' → report_ok k run r';
  next_stage : stage next_left = pred (stage (Some r))
}.

Lemma in_proxy_part (m : M proxy_world unit) (f : System L → System L) w o p :
  m (pview w) = (o, p) → (∃ t, tr p = tr w ++ t) →
  (in_proxy m;; modify f) w
  = match o with
    | Done _ => (Done (), World (f (with_proxy (st p) (st w))) (tr p))
    | Fault e => (Fault e, World (with_proxy (st p) (st w)) (tr p))
    end.
Proof.
  intros E Hg. assert (in_proxy m w = (o, World (with_proxy (st p) (st w)) (tr p))) as E'
    by (rewrite in_proxy_run by (by rewrite E); by rewrite E).
  destruct o as [[]|e]; [by rewrite (bind_done _ _ _ _ _ E')|by apply bind_fault].
Qed.

Lemma post_step_next k w r : system_inv w → posting (st w) !! own_handle k = Some r →
  inhabited (next_part k r w).
Proof.
  intros Hw Hr. pose proof Hw as [Hp _ _ Hpost].
  destruct (Hpost _ r Hr) as (k' & <-%own_handle_inj & Hok).
  destruct Hok as [(e & -> & He)|[(e & l & -> & He & Hl)|(l & ->)]].
  - destruct (increment_done (pview w) Hp) as (l & p & E & Ea & Hl).
    constructor; refine {| next_run := construct true;; mret (); next_action := SubHalIncrement 1;
              next_left := Some (Report [SubHal.postEvents [e]] (Some l)) |}; try done.
    + by right; left.
    + right. by rewrite (bind_done _ _ _ _ _ E), Ea.
    + intros o p'. rewrite (bind_done _ _ _ _ _ E). intros [= <- <-] Hg. unfold post_step.
      rewrite bind_gets. cbn [id]. rewrite Hr. cbn [calls_left scoped].
      by apply (in_proxy_bind _ (λ l, set_report (own_handle k) (Report [SubHal.postEvents [e]] (Some l)))).
    + intros run Hrun r' [= <-]. right. left. exists e, l. split; [done|]. split; [done|].
      rewrite Hl. unfold running in Hrun. cbn. destruct (mThreadsRun _); [by left|right; by apply Hrun].
  - constructor; refine {| next_run := Callback.postEvents (IHalProxyCallback0 := callback) (Z.of_nat i)
                asserts [e] (isLocked l);
              next_action := SubHalPost [mark e] 1 true;
              next_left := Some (Report [] (Some l)) |}; try done.
    + right; right; left. by exists k, e.
    + by apply (own_event_run k).
    + intros o p' E Hg. unfold post_step. rewrite bind_gets. cbn [id]. rewrite Hr. cbn [calls_left scoped].
      by rewrite (in_proxy_part _ (set_report (own_handle k) (Report [] (Some l))) w o p').
    + intros k''. cbn [proxy_posted]. rewrite (own_count_mark k k'' e He). cbn. by case_decide.
    + intros run Hrun r' [= <-]. right. right. by exists l.
  - destruct (destruct_run l (pview w) Hp) as [start Hd].
    constructor; refine {| next_run := destruct_wakelock l; next_action := SubHalDecrement 1 start;
              next_left := None |}; try done.
    + right; right; right. by exists start.
    + intros o p' E Hg. unfold post_step. rewrite bind_gets. cbn [id]. rewrite Hr. cbn [calls_left scoped].
      by rewrite (in_proxy_part _ (λ x, with_posting (delete (own_handle k) (posting x)) x) w o p').
Qed.

Lemma post_step_ok h w w' : system_inv w → post_step env i asserts getSensorInfo h w = (Done (), w') →
  ∃ part, system_inv w' ∧ proxy_exec env part (pview w) = (Done (), pview w') ∧ post_part part ∧
    subhal (st w') = subhal (st w) ∧
    ∃ o, posting (st w') = partial_alter (λ _, o) h (posting (st w)) ∧
         stage o = pred (stage (posting (st w) !! h)).
Proof.
  intros Hw E. pose proof Hw as [Hp _ _ Hpost]. destruct (posting (st w) !! h) as [r|] eqn:Hr.
  2: { unfold post_step in E. rewrite bind_gets in E. cbn [id] in E. rewrite Hr in E. injection E as <-.
       exists []. split; [done|]. split; [done|]. split; [by left|]. split; [done|].
       exists None. split; [symmetry; exact (delete_id _ _ Hr)|done]. }
  destruct (Hpost h r Hr) as (k & -> & _).
  destruct (post_step_next k w r Hw Hr) as [[m a o Hs Ha Hpart Hm Hstep Hc Hok Hst]].
  destruct (part_outcome m a (pview w) Hp Hs Hm) as (o' & p & Em & Hg & _).
  rewrite (Hstep o' p Em Hg) in E. destruct o' as [[]|]; [|done]. injection E as <-.
  destruct (part_run m a (pview w) p Hp Hs Ha Hm Em) as (part & Hp' & _ & Ex & Hpa & Hrun & Hcount).
  exists part. split; [|split; [by rewrite Ex; destruct p|]].
  - apply (report_moves k r o p (proxy_posted a)); try done. intros r'. by apply Hok.
  - split; [destruct Hpa as [->| ->]; [by left|done]|]. split; [done|]. by exists o.
Qed.

(** A part returns, or is a post that finds no queue or no flag. *)
Lemma post_step_outcome h w : system_inv w → ∃ o w',
  post_step env i asserts getSensorInfo h w = (o, w') ∧ (o = Done () ∨ stops_unready o (pview w')).
Proof.
  intros Hw. pose proof Hw as [Hp _ _ Hpost]. destruct (posting (st w) !! h) as [r|] eqn:Hr.
  2: { unfold post_step. rewrite bind_gets. cbn [id]. rewrite Hr.
       eexists _, _. split; [done|]. by left. }
  destruct (Hpost h r Hr) as (k & -> & _).
  destruct (post_step_next k w r Hw Hr) as [[m a o Hs Ha Hpart Hm Hstep Hc Hok Hst]].
  destruct (part_outcome m a (pview w) Hp Hs Hm) as (o' & p & Em & Hg & Ho & _).
  rewrite (Hstep o' p Em Hg). destruct o' as [[]|f]; eexists _, _; (split; [done|]); [by left|].
  destruct Ho as [|Ho]; [done|]. right. by destruct p, Ho as [[= ->] ?].
Qed.
End system.
