(* ===== verification/SystemPromises.v ===== *)
(** * What the sensors service promises

    The theorems about the runs of [System.v], from the construction of the service on: what
    the proxy sees of them, what can fault in them, how many events of a sensor there are,
    that a touch arrives, and that no report keeps the framework waiting. *)

From S2P Require Import Prelude Words Handles SensorTypes HalProxy EventQueue Wakelock Proxy.
From S2P Require Import ProxyRuns ProxyTypes Callback Sensor SensorRuns SubHal Device Driven.
From S2P Require Import SystemProxy System SystemRuns.

Section promises.
Context `{C : SensorsConstants} {laws : SensorsLaws C} {L : Type} `{Sw : !ScopedWakelock L}.
Context (env : environment) (nodes : Z → sensor_environment) (i : nat) (asserts : bool).
Context (getSensorInfo : Z → Proxy → SensorInfo).
Context {sw_laws : ScopedWakelockLaws Sw env}.
Context (info_listed : ∀ h x s, HalProxy.mSensors (hal x) !! h = Some s → getSensorInfo h x = s).

(** The service with the own sub-HAL as the [i]-th of at most 128, whose sensors' threads do
    not start in their constructors. *)
Context (run : bool) (start reset : Z) (names : list string) (lists : list (list SensorInfo)).
Context (c1 c2 : circumstances) (late1 : early c1 = false) (late2 : early c2 = false).
Context (few : (length names ≤ 128)%nat) (same : length lists = length names).
Context (own_list : lists !! i = Some (SubHal.getSensorsList_2_1 (SensorsSubHal_new c1 c2))).

Abbreviation world_t := (world (System L) call).
Abbreviation act := (system_act env nodes i asserts getSensorInfo).
Abbreviation exec := (system_exec env nodes i asserts getSensorInfo).
Abbreviation inv := (system_inv env i (length names)).

Definition service : world_t := World (System_new run start reset names lists c1 c2) [].

Lemma own_index : (i < length names)%nat.
Proof. apply lookup_lt_Some in own_list. lia. Qed.

(** ** Runs *)

Lemma service_inv counts : inv counts service.
Proof.
  split.
  - split; [apply start_inv|]. split.
    + split; [|done]. apply initializeSensorList_typed; [|cbn; lia].
      split_and!; [done..|apply map_Forall_empty].
    + intros k. destruct (own_sensor_listed names lists i c1 c2 k) as (s & Hs & _ & Ht & Hw);
        [lia|done|]. exists s. rewrite own_info_handle in Hs. by split_and!.
  - by apply own_subhal_new.
  - intros k s. unfold service. cbn [st tr subhal System_new]. rewrite new_sensor. intros [= <-].
    set (c := match k with UdfpsSensor => _ | _ => _ end).
    destruct (make_sensor_own k (own_handle k) c) as (Ho & Hf & He & Ht); [by destruct k|].
    split; [|intros _; done].
    split; [by split|]. unfold may_report. cbn [st]. by rewrite He, Ht.
  - intros h r. cbn. by rewrite lookup_empty.
Qed.

(** ** What the proxy sees *)

Definition sized_action (a : system_action) : Prop :=
  match a with ProxyStep a => sized_post a | _ => True end.

(** The steps of the proxy are not events under the handles of the own sensors. *)
Definition foreign_action (a : system_action) : Prop :=
  match a with ProxyStep a => foreign i a | _ => True end.

(** What a step of the system is to the proxy. *)
Definition system_part (part : list proxy_action) (a : system_action) : Prop :=
  match a with
  | ProxyStep a => part = [a] ∨ part = []
  | SensorThread _ _ => part = []
  | PostStep _ => post_part i part
  end.

Lemma own_few : (length names ≤ 128)%nat ∧ (i < length names)%nat.
Proof. split; [exact few|exact own_index]. Qed.

Lemma act_ok counts a w w' :
  inv counts w → sized_action a → (counts → foreign_action a) → act a w = (Done (), w') →
  inv counts w' ∧ ∃ part, system_part part a ∧
    proxy_exec env part (pview w) = (Done (), pview w').
Proof.
  intros Hw Hs Hf E. destruct own_few as [Hfew Hown]. destruct a as [a|h a|h]; cbn [system_act] in E.
  - destruct (proxy_step_ok env nodes i (length names) Hown Hfew counts a w w' Hw Hs Hf E)
      as (Hw' & part & Ep & Hp & _). split; [done|]. by exists part.
  - destruct (thread_step_ok env nodes i (length names) Hown Hfew counts h a w w' Hw E) as (Hw' & Hv & _).
    split; [done|]. exists []. split; [done|]. by rewrite Hv.
  - destruct (post_step_ok env i asserts getSensorInfo info_listed (length names) Hown Hfew
      counts h w w' Hw E) as (part & Hw' & Ep & Hp & _). split; [done|]. by exists part.
Qed.

Lemma exec_ok counts acts w w' :
  inv counts w → Forall sized_action acts → (counts → Forall foreign_action acts) →
  exec acts w = (Done (), w') →
  inv counts w' ∧ ∃ parts, Forall2 system_part parts acts ∧
    proxy_exec env (concat parts) (pview w) = (Done (), pview w').
Proof.
  intros Hw Hs. revert w Hw. induction Hs as [|a acts Ha Hs IH]; intros w Hw Hf.
  { intros [= <-]. split; [done|]. by exists []. }
  cbn. intros ([] & w1 & E1 & E)%bind_inv.
  destruct (act_ok counts a w w1 Hw Ha (λ c, Forall_inv (Hf c)) E1) as (Hw1 & part & Hp & Ep).
  destruct (IH w1 Hw1 (λ c, Forall_inv_tail (Hf c)) E) as (Hw' & parts & Hps & Eps).
  split; [done|]. exists (part :: parts). split; [by constructor|]. cbn [concat].
  unfold proxy_exec in *. rewrite for_each_app. by rewrite (bind_done _ _ _ _ _ Ep).
Qed.

(** ** What can fault *)

(** The callback is set once the proxy has initialised the sub-HAL. *)
Definition callback_set (w : world_t) : Prop :=
  sub_initialize i ∈ init_calls (tr w) → mCallback (subhal (st w)) = true.

Lemma heard_initialize t w w' :
  heard i t w = (Done (), w') → sub_initialize i ∈ init_calls t → mCallback (st w') = true.
Proof.
  revert w. induction t as [|c t IH]; intros w E Hc; [by apply not_elem_of_nil in Hc|].
  apply heard_cons in E as (w1 & E1 & E).
  change (c :: t) with ([c] ++ t) in Hc. rewrite init_calls_app in Hc.
  apply elem_of_app in Hc as [Hc|Hc]; [|by apply (IH w1)].
  destruct c; cbn in Hc; try by apply not_elem_of_nil in Hc.
  all: apply list_elem_of_singleton in Hc as [= <-].
  pose proof (heard_callback i t w1) as Ht. rewrite E in Ht. apply Ht.
  cbn in E1. rewrite decide_True in E1 by done. apply bind_inv in E1 as (r & w2 & E1 & [= <-]).
  unfold SubHal.initialize in E1. apply bind_inv in E1 as ([] & w3 & [= <-] & E1).
  pose proof (run_op_callback true (sub_setOperationMode NORMAL)) as Hr. cbn [run_op] in Hr.
  eapply (f_equal snd) in E1. cbn [snd] in E1. rewrite <- E1. by apply Hr.
Qed.

Lemma part_calls part p p' : post_part i part → proxy_exec env part p = (Done (), p') →
  init_calls (tr p') = init_calls (tr p).
Proof.
  intros [->|Hp]; [by intros [= <-]|].
  assert (∃ a (m : M queue_world unit), part = [a] ∧ proxy_act env a = in_queue m)
    as (a & m & -> & Ea) by (destruct Hp as [->|[(k & e & -> & _)|(start' & ->)]]; by eexists _, _).
  unfold proxy_exec. cbn [for_each]. rewrite Ea. intros ([] & p1 & E & [= <-])%bind_inv.
  pose proof (in_queue_calls m p) as Hm. by rewrite E in Hm.
Qed.

Lemma act_callback counts a w w' :
  inv counts w → sized_action a → (counts → foreign_action a) → callback_set w →
  act a w = (Done (), w') → callback_set w'.
Proof.
  intros Hw Hs Hf Hcb E. destruct own_few as [Hfew Hown]. destruct a as [a|h a|h]; cbn [system_act] in E.
  - destruct (proxy_step_inv env nodes i (length names) counts a w w' Hw Hs E)
      as [->|(p & x & Ep & _ & Ex & ->)]; [done|].
    pose proof (logs_grow _ (pview w) (logs_proxy env a)) as G. rewrite Ep in G. cbn [snd pview tr] in G.
    unfold callback_set in *. cbn [st tr subhal with_subhal]. unfold made in Ex. rewrite Ep in Ex.
    cbn [snd pview tr] in Ex. rewrite G, init_calls_app, elem_of_app.
    intros [Hc|Hc]; [|by apply (heard_initialize _ _ _ Ex)].
    pose proof (heard_callback i (drop (length (tr w)) (tr p)) (World (subhal (st w)) [])) as Hh.
    rewrite Ex in Hh. by apply Hh, Hcb.
  - destruct (thread_step_ok env nodes i (length names) Hown Hfew counts h a w w' Hw E) as (_ & Hv & Hc).
    unfold callback_set. apply (f_equal tr) in Hv. cbn [pview tr] in Hv. by rewrite Hv, Hc.
  - destruct (post_step_ok env i asserts getSensorInfo info_listed (length names) Hown Hfew
      counts h w w' Hw E) as (part & _ & Ep & Hp & Hsub & _). unfold callback_set. rewrite Hsub.
    apply (part_calls _ _ _ Hp) in Ep. cbn [pview tr] in Ep. by rewrite Ep.
Qed.

(** How a step can end: it returns; it meets a pointer that is null, the callback of the
    sub-HAL before it is initialised, or the proxy's queue or flag; or it waits at a full
    pipe. *)
Definition ends (o : outcome unit) (w : world_t) : Prop :=
  o = Done () ∨
  o = Fault NullDeref ∧ (sub_initialize i ∉ init_calls (tr w) ∨ proxy_ready (proxy (st w)) = false) ∨
  blocked o (subhal (st w)).

Lemma act_outcome counts a w :
  inv counts w → sized_action a → callback_set w → (∀ h, readable (nodes h)) →
  ∃ o w', act a w = (o, w') ∧ ends o w'.
Proof.
  intros Hw Hs Hcb Hread. destruct own_few as [Hfew Hown]. destruct a as [a|h a|h]; cbn [system_act].
  - destruct (proxy_step_outcome env nodes i (length names) counts a w Hw Hs)
      as (o & w' & E & Ho). exists o, w'. split; [done|].
    destruct Ho as [->|[[-> Hr]|Hb]]; [by left|right; left|by right; right]. split; [done|by right].
  - destruct (thread_step_outcome env nodes i (length names) counts h a w Hw Hread)
      as (o & w' & E & Ho). exists o, w'. split; [done|]. destruct Ho as [->|(-> & Hn & Ht)]; [by left|].
    right. left. split; [done|]. left. rewrite Ht. intros Hc%Hcb. by rewrite Hn in Hc.
  - destruct (post_step_outcome env i asserts getSensorInfo info_listed (length names) Hown Hfew
      counts h w Hw) as (o & w' & E & Ho). exists o, w'. split; [done|].
    destruct Ho as [->|[-> Hr]]; [by left|right; left]. split; [done|by right].
Qed.

Lemma exec_outcome acts w :
  inv False w → Forall sized_action acts → callback_set w → (∀ h, readable (nodes h)) →
  ∃ o w', exec acts w = (o, w') ∧ ends o w'.
Proof.
  intros Hw Hs Hcb Hread. revert w Hw Hcb.
  induction Hs as [|a acts Ha Hs IH]; intros w Hw Hcb; [by exists (Done ()), w; split; [|left]|].
  destruct (act_outcome False a w Hw Ha Hcb Hread) as (o & w1 & E & Ho). destruct o as [[]|f].
  - destruct (act_ok False a w w1 Hw Ha (False_ind _) E) as [Hw1 _].
    pose proof (act_callback False a w w1 Hw Ha (False_ind _) Hcb E) as Hcb1.
    destruct (IH w1 Hw1 Hcb1) as (o & w' & E' & Ho').
    exists o, w'. split; [|done]. unfold system_exec in *. cbn [for_each].
    by rewrite (bind_done _ _ _ _ _ E).
  - exists (Fault f), w1. split; [|done]. unfold system_exec. cbn [for_each]. by apply bind_fault.
Qed.

(** C4: what happens in the sensors service is, to the proxy, a run of the proxy. Whatever
    calls of the framework, sections of the proxy's threads, sections of the sensors'
    threads and parts of their reports interleave, each step is to the proxy either nothing
    or one of its own actions: the step's own, if the step was the proxy's and no mutex of a
    sensor kept it waiting; or, in a part of a report, one reference more, one post of one
    event marked with the sub-HAL's index and counted as one wake-up event, or one reference
    less. So what holds in all runs of the proxy holds in the service. *)
Theorem system_refines_proxy acts w :
  Forall sized_action acts → exec acts service = (Done (), w) →
  ∃ parts, Forall2 system_part parts acts ∧
    proxy_exec env (concat parts) (World (Proxy_new run start reset names lists) [])
    = (Done (), pview w).
Proof.
  intros Hs E. by destruct (exec_ok False acts service w (service_inv False) Hs (False_ind _) E).
Qed.

(** *** The wakelock *)

Definition counted_action (a : system_action) : Prop :=
  match a with ProxyStep a => counts_events a | _ => True end.

(** The references a step takes at most. *)
Definition system_references (a : system_action) : Z :=
  match a with ProxyStep a => references a | PostStep _ => 1 | SensorThread _ _ => 0 end.

Abbreviation total l := (foldr Z.add 0 (map references l)).

Lemma system_part_counted part a : system_part part a → sized_action a → counted_action a →
  Forall sized_post part ∧ Forall counts_events part ∧ 0 ≤ total part ≤ system_references a.
Proof.
  intros Hp Hs Hc.
  assert (0 ≤ system_references a) as H0
    by (destruct a as [a| |]; [destruct a as [| | | | |? ? []| | | |]|..]; cbn in *; lia).
  destruct a as [a|h a|h]; cbn [system_part] in Hp.
  - destruct Hp as [->| ->]; [|by split_and!; [..|done]].
    split_and!; [by repeat constructor..| |]; cbn in *; lia.
  - subst. by split_and!.
  - destruct Hp as [->|[->|[(k & e & -> & _)|(start' & ->)]]]; cbn;
      split_and!; by repeat (constructor || cbn).
Qed.

Lemma system_parts_counted parts acts :
  Forall2 system_part parts acts → Forall sized_action acts → Forall counted_action acts →
  Forall sized_post (concat parts) ∧ Forall counts_events (concat parts) ∧
  0 ≤ total (concat parts) ≤ foldr Z.add 0 (map system_references acts).
Proof.
  intros Hp Hs Hc. induction Hp as [|part a parts acts Ha _ IH]; [by split_and!|].
  apply Forall_cons in Hs as [Hs1 Hs]. apply Forall_cons in Hc as [Hc1 Hc].
  destruct (system_part_counted part a Ha Hs1 Hc1) as (F1 & C1 & T1).
  destruct (IH Hs Hc) as (F2 & C2 & T2). cbn [concat].
  split; [by apply Forall_app|]. split; [by apply Forall_app|].
  assert (total (part ++ concat parts) = total part + total (concat parts)) as ->
    by (clear; induction part as [|x part IH]; cbn; lia).
  cbn. lia.
Qed.

(** C15: the kernel's wakelock is held exactly while references are counted, the sub-HAL's own
    included, unless a locked post counts none. After every run of the service that returns,
    in which each locked post and each scoped wakelock of the other sub-HALs counts at least
    one reference, fewer than 2^64 in all, no reader of the wakelock queue reads a negative
    count, posts are of fewer than 2^63 events and the sensors' threads do not start in their
    constructors: the reports of the own sensors, each of which takes a reference with its
    scoped wakelock and another with its post and gives the first back, leave the wakelock
    held if and only if the count is not zero. *)
Theorem system_wakelock_held acts w :
  (∀ t n, readBlocking (queue_env env) t = Some n → 0 ≤ n) →
  Forall sized_action acts → Forall counted_action acts →
  foldr Z.add 0 (map system_references acts) < 2 ^ 64 → exec acts service = (Done (), w) →
  (held (omap to_queue (tr w)) = true ↔ 0 < mWakelockRefCount (wakelock (queues (proxy (st w))))) ∧
  0 ≤ mWakelockRefCount (wakelock (queues (proxy (st w)))) < 2 ^ 64.
Proof.
  intros Hread Hs Hc Hsum E.
  destruct (exec_ok False acts service w (service_inv False) Hs (False_ind _) E)
    as [_ (parts & Hp & Ep)].
  destruct (system_parts_counted parts acts Hp Hs Hc) as (Hs' & Hc' & Hsum').
  destruct (proxy_wakelock_held env run start reset names lists (concat parts) Hread Hs' Hc')
    as (o & p & Ep' & Hheld); [lia|].
  change (pview service) with (World (Proxy_new run start reset names lists) (@nil call)) in Ep.
  rewrite Ep in Ep'. by injection Ep' as <- <-.
Qed.

(** C5: the sensors service stops only in three ways. In every run in which the coordinates the
    sensors read can be parsed, with sensors whose threads do not start in their constructors
    and posts of fewer than 2^63 events: every step returns, in a build with the callback's
    assertions too; or the run stops at a null dereference, and then the proxy has not called
    the own sub-HAL's [initialize], or its event queue or the flag of that queue is missing;
    or it stops in a call of the own sub-HAL that writes to a sensor's pipe, and a pipe is
    full. *)
Theorem system_faults acts :
  Forall sized_action acts → (∀ h, readable (nodes h)) →
  ∃ o w, exec acts service = (o, w) ∧
    (o = Done () ∨
     o = Fault NullDeref ∧ (sub_initialize i ∉ tr w ∨ ready (queues (proxy (st w))) = false) ∨
     o = Fault Blocks ∧ full (subhal (st w))).
Proof.
  intros Hs Hread. destruct (exec_outcome acts service) as (o & w & E & Ho);
    [apply service_inv|done|by intros ?%not_elem_of_nil|done|].
  exists o, w. split; [done|]. destruct Ho as [->|[[-> Ho]|Hb]]; [by left| |by right; right].
  right; left. split; [done|]. destruct Ho as [Ho|]; [left|by right].
  intros Hin. apply Ho, list_elem_of_In, filter_In. split; [by apply list_elem_of_In|done].
Qed.

(** C2: the framework gets at most one event of a sensor for each time it activated it, if the
    sensors' threads do not start in their constructors. After every run of the service that
    returns, in which only the sensors' own reports carry their handles and posts are of
    fewer than 2^63 events, the events under the handle of a sensor that were handed to the
    message queue or wait for it are no more than the calls that activated the sensor,
    however the calls, the threads and the reports interleave. *)
Theorem one_event_per_activation k acts w :
  Forall sized_action acts → Forall foreign_action acts → exec acts service = (Done (), w) →
  (own_count i k (stream (queue_view (pview w))) ≤ enabled i k (tr w))%nat.
Proof.
  intros Hs Hf E. destruct (exec_ok True acts service w (service_inv True) Hs (λ _, Hf) E) as [Hw _].
  destruct (own_both _ (inv_own _ _ _ _ _ Hw) k) as (s & Hk & _).
  destruct (inv_shots _ _ _ _ _ Hw k s Hk) as [[_ H1] H2]. specialize (H2 I). lia.
Qed.

(** ** Reports end *)

(** The parts of reports of the sensor [h] among some steps. *)
Definition is_part (h : Z) (a : system_action) : bool :=
  match a with PostStep h' => bool_decide (h' = h) | _ => false end.

Definition parts_of (h : Z) (acts : list system_action) : nat := length (List.filter (is_part h) acts).

Definition no_section (a : system_action) : Prop :=
  match a with SensorThread _ _ => False | _ => True end.

Lemma parts_of_cons h a acts :
  parts_of h (a :: acts) = ((if is_part h a then 1 else 0) + parts_of h acts)%nat.
Proof. unfold parts_of. cbn [List.filter]. by destruct (is_part h a). Qed.

Lemma act_stage h a w w' : inv False w → sized_action a → no_section a → act a w = (Done (), w') →
  stage (posting (st w') !! h)
  = (stage (posting (st w) !! h) - if is_part h a then 1 else 0)%nat.
Proof.
  intros Hw Hs Hn E. destruct own_few as [Hfew Hown]. destruct a as [a|h' a|h']; [| |]; cbn in Hn.
  - destruct (proxy_step_ok env nodes i (length names) Hown Hfew False a w w' Hw Hs (False_ind _) E)
      as (_ & part & _ & _ & ->). cbn. lia.
  - done.
  - destruct (post_step_ok env i asserts getSensorInfo info_listed (length names) Hown Hfew
      False h' w w' Hw E) as (part & _ & _ & _ & _ & o & -> & Hst). cbn.
    case_bool_decide as Hh; [subst h'|].
    + rewrite lookup_partial_alter_eq, Hst. lia.
    + rewrite lookup_partial_alter_ne by done. lia.
Qed.

Lemma exec_stage acts w w' :
  inv False w → Forall sized_action acts → Forall no_section acts → exec acts w = (Done (), w') →
  inv False w' ∧ ∀ h, stage (posting (st w') !! h) = (stage (posting (st w) !! h) - parts_of h acts)%nat.
Proof.
  intros Hw Hs. revert w Hw. induction Hs as [|a acts Ha Hs IH]; intros w Hw Hn.
  { intros [= <-]. split; [done|]. intros h. cbn. lia. }
  apply Forall_cons in Hn as [Hn1 Hn]. unfold system_exec. cbn [for_each].
  intros ([] & w1 & E1 & E)%bind_inv.
  destruct (act_ok False a w w1 Hw Ha (False_ind _) E1) as [Hw1 _].
  destruct (IH w1 Hw1 Hn E) as [Hw' Hst]. split; [done|]. intros h.
  rewrite Hst, (act_stage h a w w1), parts_of_cons by done. lia.
Qed.

Lemma stage_bound h w : inv False w → (stage (posting (st w) !! h) ≤ 3)%nat.
Proof.
  intros Hw. destruct (posting (st w) !! h) as [r|] eqn:Hr; [|cbn; lia].
  destruct (inv_posting _ _ _ _ _ Hw h r Hr) as (k & _ & [(e & -> & _)|[(e & l & -> & _)|(l & ->)]]);
    cbn; lia.
Qed.

(** Without sections of the sensors' threads only the proxy and full pipes stop a run. *)
Lemma quiet_outcome acts w :
  inv False w → Forall sized_action acts → Forall no_section acts →
  ∃ o w', exec acts w = (o, w') ∧
    (o = Done () ∨ stops_unready o (pview w') ∨ blocked o (subhal (st w'))).
Proof.
  intros Hw Hs. revert w Hw. destruct own_few as [Hfew Hown].
  induction Hs as [|a acts Ha Hs IH]; intros w Hw Hn; [by exists (Done ()), w; split; [|left]|].
  apply Forall_cons in Hn as [Hn1 Hn].
  assert (∃ o w1, act a w = (o, w1) ∧
    (o = Done () ∨ stops_unready o (pview w1) ∨ blocked o (subhal (st w1)))) as (o & w1 & E & Ho).
  { destruct a as [a|h a|h]; cbn [system_act]; [|done|].
    - by apply (proxy_step_outcome env nodes i (length names) False a w Hw).
    - destruct (post_step_outcome env i asserts getSensorInfo info_listed (length names) Hown Hfew
        False h w Hw) as (o & w1 & E & Ho). exists o, w1. split; [done|]. tauto. }
  destruct o as [[]|f].
  - destruct (act_ok False a w w1 Hw Ha (False_ind _) E) as [Hw1 _].
    destruct (IH w1 Hw1 Hn) as (o & w' & E' & Ho'). exists o, w'. split; [|done].
    unfold system_exec in *. cbn [for_each]. by rewrite (bind_done _ _ _ _ _ E).
  - exists (Fault f), w1. split; [|done]. unfold system_exec. cbn [for_each]. by apply bind_fault.
Qed.

(** C26: no report keeps the framework waiting for long. After every run of the service that
    returns, whatever the framework, the other sub-HALs and the threads of the proxy do
    while no section of a sensor's thread runs: once three parts of each sensor's report have
    been run among their steps, no report is on its way, and no call that the proxy makes to
    the sub-HAL waits for the mutex of a sensor. Otherwise the run has stopped before that:
    at a post that finds the event queue or its flag missing, or in a call that waits at a
    full pipe. *)
Theorem reports_end acts more w :
  Forall sized_action acts → exec acts service = (Done (), w) →
  Forall sized_action more → Forall no_section more →
  (3 ≤ parts_of 1 more)%nat → (3 ≤ parts_of 2 more)%nat →
  ∃ o w', exec more w = (o, w') ∧
    (o = Done () ∧ posting (st w') = ∅ ∧ (∀ calls, waits i (st w') calls = false) ∨
     o = Fault NullDeref ∧ ready (queues (proxy (st w'))) = false ∨
     o = Fault Blocks ∧ full (subhal (st w'))).
Proof.
  intros Hs E Hm Hn H1 H2.
  destruct (exec_ok False acts service w (service_inv False) Hs (False_ind _) E) as [Hw _].
  destruct (quiet_outcome more w Hw Hm Hn) as (o & w' & E' & Ho). exists o, w'. split; [done|].
  destruct Ho as [->|[Ho|Ho]]; [left|by right; left|by right; right]. split; [done|].
  destruct (exec_stage more w w' Hw Hm Hn E') as [Hw' Hst].
  assert (posting (st w') = ∅) as P; [|split; [done|]; intros calls; unfold waits; by rewrite P].
  apply map_empty. intros h. destruct (posting (st w') !! h) as [r|] eqn:Hr; [|done]. exfalso.
  destruct (inv_posting _ _ _ _ _ Hw' h r Hr) as (k & -> & _).
  pose proof (stage_bound (own_handle k) w Hw) as Hb. specialize (Hst (own_handle k)).
  rewrite Hr in Hst. destruct k; cbn in Hst, Hb |- *; lia.
Qed.

(** ** A touch arrives *)

(** An operation of the queues in the proxy. *)
Lemma queue_part a b p :
  whole_inv env p → proxy_act env a = in_queue (EventQueue.act (queue_env env) b) →
  sized b → initializes b = false → EventQueue.posts b = false ∨ proxy_ready (st p) = true →
  ∃ p' part,
    proxy_act env a p = (Done (), p') ∧
    EventQueue.act (queue_env env) b (queue_view p) = (Done (), queue_view p') ∧
    accepted (st (queue_view p)) (posted b) part ∧
    stream (queue_view p') = stream (queue_view p) ++ part.
Proof.
  intros [HI _] Ea Hs Hb Hr.
  destruct (act_steps (queue_env env) b (queue_view p) HI Hs Hb)
    as [(Hp & Hu & _)|(part & Hacc & q & E & _ & Hst)].
  { change (proxy_ready (st p) = false) in Hu. rewrite Hp, Hu in Hr. by destruct Hr. }
  destruct (in_queue_done _ p () q (logs_act env b) E) as (p' & E' & Hv & _).
  exists p', part. rewrite Ea, Hv. by split_and!.
Qed.

(** One that is given no events: the stream stays as it is. *)
Lemma silent_part a b p :
  whole_inv env p → proxy_act env a = in_queue (EventQueue.act (queue_env env) b) →
  sized b → initializes b = false → EventQueue.posts b = false → posted b = [] → ∃ p',
    proxy_act env a p = (Done (), p') ∧
    EventQueue.act (queue_env env) b (queue_view p) = (Done (), queue_view p') ∧
    stream (queue_view p') = stream (queue_view p).
Proof.
  intros Hp Ea Hs Hb Hb' Hn.
  destruct (queue_part a b p Hp Ea Hs Hb (or_introl Hb')) as (p' & part & E & Eq & Hacc & Hst).
  exists p'. split; [done|]. split; [done|]. rewrite Hst, Hn in *.
  destruct Hacc as [->|[Hpre%prefix_nil_inv _]]; [|subst]; by rewrite app_nil_r.
Qed.

Lemma thread_step_eq h a s s' t (w : world_t) :
  posting (st w) !! h = None → mSensors (subhal (st w)) !! h = Some s →
  sensor_act (nodes h) (to_action a) s = (Done (), s') → tr s' = tr s ++ t →
  thread_step nodes h a w
  = for_each (start_report h) t (World (set_sensor h s' (st w)) (tr w)).
Proof.
  intros Hp Hs E Ht. unfold thread_step. rewrite bind_gets. cbn [id]. rewrite Hp, Hs, E.
  erewrite bind_done by reflexivity. erewrite bind_done by reflexivity. by rewrite Ht, drop_app_length.
Qed.

(** The three sections of the thread. *)
Lemma touch_reported k s data w :
  is_own k s → armed (st s) → touch (nodes (own_handle k)) k s = Some data →
  mCallback (subhal (st w)) = true → posting (st w) !! own_handle k = None →
  mSensors (subhal (st w)) !! own_handle k = Some s →
  let h := own_handle k in
  let e := touch_event k (elapsedRealtimeNano (nodes h) (tr s)) data in
  ∃ x s', exec [SensorThread h Runs; SensorThread h (Returns (PollReady true)); SensorThread h Runs] w
    = (Done (), World (set_report h (new_report e) x) (tr w)) ∧
    proxy x = proxy (st w) ∧ posting x = posting (st w) ∧
    mSensors (subhal x) !! h = Some s' ∧ mIsEnabled (st s') = false.
Proof.
  intros Hs Ha Ht Hcb Hp Hk h e.
  destruct (touch_sections (nodes h) k s data Hs Ha Ht)
    as (s1 & s2 & s3 & E1 & T1 & E2 & T2 & E3 & T3 & He).
  pose (put s (w : world_t) := World (set_sensor h s (st w)) (tr w)).
  assert (∀ s w, mSensors (subhal (st (put s w))) !! h = Some s) as Hput
    by (intros; cbn; apply lookup_insert_eq).
  exists (st (put s3 (put s2 (put s1 w)))), s3. split; [|by rewrite Hput].
  unfold system_exec. cbn [for_each system_act].
  erewrite bind_done by (apply (thread_step_eq h Runs s s1 [] w Hp Hk E1); by rewrite app_nil_r).
  erewrite bind_done by (apply (thread_step_eq h (Returns (PollReady true)) s1 s2 [] (put s1 w) Hp
    (Hput _ _) E2); by rewrite app_nil_r, T1).
  erewrite bind_done; [reflexivity|].
  etrans; [apply (thread_step_eq h Runs s2 s3 [cb_postEvents [e] true] (put s2 (put s1 w)) Hp
    (Hput _ _) E3); by rewrite T2|].
  cbn [for_each]. erewrite bind_done; [reflexivity|]. rewrite start_report_run. cbn. by rewrite Hcb.
Qed.

(** A reference leaves the pending events and the threads as they are. *)
Lemma increment_keeps p p' :
  EventQueue.act (queue_env env) (Increment 1) (queue_view p) = (Done (), queue_view p') →
  pending (queues (st p')) = pending (queues (st p)) ∧
  mThreadsRun (queues (st p')) = mThreadsRun (queues (st p)) ∧
  proxy_ready (st p') = proxy_ready (st p).
Proof.
  assert (aside (EventQueue.act (queue_env env) (Increment 1))) as Ha
    by (apply aside_bind; [apply increment_aside|intros; apply aside_ret]).
  destruct (Ha (queue_view p)) as ([] & l & m & pc & t & -> & _). intros E.
  split_and!; symmetry.
  - exact (f_equal (λ r, pending (st r.2)) E).
  - exact (f_equal (λ r, mThreadsRun (st r.2)) E).
  - exact (f_equal (λ r, ready (st r.2)) E).
Qed.

Definition room (p : proxy_world) : Prop :=
  mSizePendingWriteEventsQueue (pending (queues (st p))) < kMaxSizePendingWriteEventsQueue.

Abbreviation posts e locked :=
  (Callback.postEvents (IHalProxyCallback0 := whole_callback env getSensorInfo) (Z.of_nat i)
     asserts [e] locked).

(** The three parts of a report, to the proxy. *)
Lemma report_parts k e p0 :
  proxy_ok env i (length names) p0 → ev_handle e = own_handle k →
  mThreadsRun (queues (st p0)) = true → proxy_ready (st p0) = true → room p0 → ∃ l p1 p2 p3,
  construct true p0 = (Done l, p1) ∧ (∃ t, tr p1 = tr p0 ++ t) ∧
  posts e (isLocked l) p1 = (Done (), p2) ∧ (∃ t, tr p2 = tr p1 ++ t) ∧
  destruct_wakelock l p2 = (Done (), p3) ∧ (∃ t, tr p3 = tr p2 ++ t) ∧
  stream (queue_view p3) = stream (queue_view p0) ++ [mark i e].
Proof.
  intros H0 He Hrun Hready Hroom. destruct own_few as [Hfew Hown].
  pose proof (proxy_ok_act env i (length names) Hown Hfew) as Hok.
  destruct (silent_part (SubHalIncrement 1) (Increment 1) p0) as (p1 & E1 & Q1 & S1);
    [apply H0|done..|].
  destruct (increment_keeps p0 p1 Q1) as (K1 & R1 & Y1).
  destruct (Hok (SubHalIncrement 1) p0 p1 H0 I E1) as (H1 & G1 & _).
  destruct (construct_locked p0) as (l & Ec & Hl). rewrite E1 in Ec. rewrite Hrun in *.
  pose proof (own_event_posted env i asserts getSensorInfo info_listed (length names) Hown Hfew
    k e l p1 H1 He (or_introl Hl)) as E2. rewrite R1 in E2.
  destruct (queue_part (SubHalPost [mark i e] 1 true) (Post [mark i e] 1 true) p1)
    as (p2 & part & E2' & _ & Hacc & S2); [apply H1|done|cbn; lia|done|right; congruence|].
  assert (part = [mark i e]) as ->.
  { destruct Hacc as [|[_ Hfull]]; [done|]. unfold room in Hroom. cbn in Hfull.
    rewrite K1 in Hfull. cbn in Hfull. lia. }
  destruct (Hok _ p1 p2 H1 (mark_sized i _ Hown Hfew e) E2') as (H2 & G2 & _).
  destruct (destruct_locked l p2 Hl) as [start' Ed].
  destruct (silent_part (SubHalDecrement 1 start') (Decrement 1 start') p2) as (p3 & E3 & _ & S3);
    [apply H2|done..|].
  destruct (Hok (SubHalDecrement 1 start') p2 p3 H2 I E3) as (_ & G3 & _). rewrite E3 in Ed.
  exists l, p1, p2, p3. split; [exact Ec|]. split; [by eexists|].
  split; [by rewrite E2|]. split; [by eexists|]. split; [exact Ed|]. split; [by eexists|].
  by rewrite S3, S2, S1.
Qed.

Lemma report_posted counts k e w :
  inv counts w → posting (st w) !! own_handle k = Some (new_report e) →
  ev_handle e = own_handle k → running w = true → proxy_ready (proxy (st w)) = true →
  room (pview w) → ∃ w',
  exec [PostStep (own_handle k); PostStep (own_handle k); PostStep (own_handle k)] w
    = (Done (), w') ∧
  stream (queue_view (pview w')) = stream (queue_view (pview w)) ++ [mark i e] ∧
  subhal (st w') = subhal (st w) ∧ posting (st w') !! own_handle k = None.
Proof.
  intros Hw Hp He Hrun Hready Hroom. set (h := own_handle k) in *.
  destruct (report_parts k e (pview w) (inv_proxy _ _ _ _ _ Hw) He Hrun Hready Hroom)
    as (l & p1 & p2 & p3 & E1 & G1 & E2 & G2 & E3 & G3 & Hst).
  pose (step r (p : proxy_world) (w : world_t) :=
    World (set_report h r (with_proxy (st p) (st w))) (tr p) : world_t).
  pose (w1 := step (Report [SubHal.postEvents [e]] (Some l)) p1 w).
  pose (w2 := step (Report [] (Some l)) p2 w1).
  pose (w3 := World (with_posting (delete h (posting (st w2))) (with_proxy (st p3) (st w2))) (tr p3)).
  assert (∀ r p w, posting (st (step r p w)) !! h = Some r) as Hr by (intros; apply lookup_insert_eq).
  assert (∀ r p w, pview (step r p w) = p) as Hv by (intros ? [] ?; reflexivity).
  assert (act (PostStep h) w = (Done (), w1)) as F1.
  { cbn [system_act]. unfold post_step. rewrite bind_gets. cbn [id]. rewrite Hp.
    by apply (in_proxy_bind _ (λ l, set_report h (Report [SubHal.postEvents [e]] (Some l)))). }
  assert (act (PostStep h) w1 = (Done (), w2)) as F2.
  { cbn [system_act]. unfold post_step. rewrite bind_gets. cbn [id].
    rewrite (Hr _ _ _ : posting (st w1) !! h = _).
    apply (in_proxy_bind _ (λ _, set_report h (Report [] (Some l))) w1 ());
      [by rewrite (Hv _ _ _ : pview w1 = p1)|done]. }
  assert (act (PostStep h) w2 = (Done (), w3)) as F3.
  { cbn [system_act]. unfold post_step. rewrite bind_gets. cbn [id].
    rewrite (Hr _ _ _ : posting (st w2) !! h = _).
    apply (in_proxy_bind _ (λ _ x, with_posting (delete h (posting x)) x) w2 () p3);
      [by rewrite (Hv _ _ _ : pview w2 = p2)|done]. }
  exists w3. split; [|split; [|split; [done|apply lookup_delete_eq]]].
  - unfold system_exec. cbn [for_each]. rewrite (bind_done _ _ _ _ _ F1).
    rewrite (bind_done _ _ _ _ _ F2). by rewrite (bind_done _ _ _ _ _ F3).
  - rewrite <- Hst. by destruct p3.
Qed.

(** C3: a touch of an enabled sensor arrives, once, in a service that is set up and running. In
    every state that the service can reach by steps that return, from sensors whose threads
    do not start in their constructors and with posts of fewer than 2^63 events, in which the
    sub-HAL has its callback, the proxy's event queue and its flag are there, its threads run
    and its pending events have room: if a sensor is enabled and in normal mode, no report of
    it is on its way, its thread is in [poll] or about to look whether it is enabled, and its
    node and files report a touch, then the sections of the thread and the parts of its
    report, run without steps of others between them, hand to the message queue, or to the
    events that wait for it, exactly one event: that of the touch, with the coordinates read,
    the sensor's type and the time, under the handle the framework knows. The sensor is
    disabled after it, and nothing of the report is left. *)
Theorem touch_arrives k s data acts w :
  Forall sized_action acts → exec acts service = (Done (), w) →
  mCallback (subhal (st w)) = true → ready (queues (proxy (st w))) = true →
  running w = true → room (pview w) →
  posting (st w) !! own_handle k = None → mSensors (subhal (st w)) !! own_handle k = Some s →
  armed (st s) → touch (nodes (own_handle k)) k s = Some data →
  let h := own_handle k in
  let e := touch_event k (elapsedRealtimeNano (nodes h) (tr s)) data in
  ∃ w' s',
    exec [SensorThread h Runs; SensorThread h (Returns (PollReady true)); SensorThread h Runs;
          PostStep h; PostStep h; PostStep h] w = (Done (), w') ∧
    stream (queue_view (pview w'))
    = stream (queue_view (pview w)) ++ [set_event_handle (marked i k) e] ∧
    mSensors (subhal (st w')) !! h = Some s' ∧ mIsEnabled (st s') = false ∧
    posting (st w') !! h = None.
Proof.
  intros Hs E Hcb Hready Hrun Hroom Hp Hk Ha Ht h e.
  destruct (exec_ok False acts service w (service_inv False) Hs (False_ind _) E) as [Hw _].
  pose proof (own_subhal_lookup _ k s (inv_own _ _ _ _ _ Hw) Hk) as Hown.
  destruct (touch_reported k s data w Hown Ha Ht Hcb Hp Hk) as (x & s' & E1 & Hx & Hpx & Hs' & He).
  fold h e in E1, Hs'. set (w1 := World _ _) in E1.
  edestruct (exec_ok False) as [Hw1 _]; [exact Hw| |apply False_ind|exact E1|];
    [by repeat constructor|].
  assert (pview w1 = pview w) as V1 by (unfold pview; cbn; by rewrite Hx).
  destruct (report_posted False k e w1 Hw1) as (w' & E2 & Hst & Hsub & Hp');
    [apply lookup_insert_eq|done|by unfold running; cbn; rewrite Hx|
     by unfold proxy_ready; cbn; rewrite Hx|by rewrite V1|].
  exists w', s'. split; [|split; [by rewrite Hst, V1|split; [by rewrite Hsub|by split]]].
  change [_; _; _; _; _; _] with ([SensorThread h Runs; SensorThread h (Returns (PollReady true));
    SensorThread h Runs] ++ [PostStep h; PostStep h; PostStep h]).
  unfold system_exec in *. rewrite for_each_app. by rewrite (bind_done _ _ _ _ _ E1).
Qed.
End promises.

(** ** The device in a run

    The own sub-HAL alone behind the proxy, and a scoped wakelock made of the operations of
    the proxy: its state is the time at which it took the reference. *)
Definition sample_system_env : environment := {|
  sub_env := sample_env true;
  queue_env := sample_queue true;
  createEventFlag_ok _ := true;
  initialize_answer _ := OK
|}.

Definition sample_wakelock : ScopedWakelock (option Z) := {|
  construct lock :=
    if lock : bool
    then in_queue (incrementRefCountAndMaybeAcquireWakelock (queue_env sample_system_env) 1)
    else mret None;
  isLocked l := match l with Some _ => true | None => false end;
  destruct_wakelock l :=
    match l with Some start => proxy_act sample_system_env (SubHalDecrement 1 start) | None => mret () end
|}.

Lemma increment_answers qenv delta (q : queue_world) : ∃ r q',
  incrementRefCountAndMaybeAcquireWakelock qenv delta q = (Done r, q') ∧
  isLocked (ScopedWakelock := sample_wakelock) r = mThreadsRun (st q).
Proof.
  unfold incrementRefCountAndMaybeAcquireWakelock. rewrite bind_gets.
  destruct (mThreadsRun (st q)); [|by eexists _, _]. rewrite bind_gets.
  destruct (decide _); eexists (Some _), _; split; reflexivity.
Qed.

#[export] Instance sample_wakelock_laws :
  ScopedWakelockLaws (C := aosp_sensors) sample_wakelock sample_system_env.
Proof.
  split.
  - intros w. by exists None.
  - intros w. destruct (increment_answers (queue_env sample_system_env) 1 (queue_view w))
      as (r & q & E & Hr). exists r. split; [|exact Hr].
    cbn [construct sample_wakelock proxy_act EventQueue.act]. unfold in_queue, zoom.
    by rewrite E, (bind_done _ _ _ _ _ E).
  - by intros [].
  - intros [start|] w Hl; [|done]. exists start.
    cbn [destruct_wakelock sample_wakelock proxy_act EventQueue.act]. unfold in_queue, zoom.
    destruct (decrement_aside 1 start (queue_view w)) as ([] & l & m & pc & t & -> & _). done.
Qed.

Definition sample_getSensorInfo (h : Z) (x : Proxy) : SensorInfo :=
  default no_sensor (HalProxy.mSensors (hal x) !! h).

Definition sample_names : list string := ["FakeSubHal"%string].
Definition sample_own_lists : list (list SensorInfo) :=
  [SubHal.getSensorsList_2_1 (SensorsSubHal_new working working)].

Abbreviation sample_exec :=
  (system_exec (ScopedWakelock0 := sample_wakelock) sample_system_env (λ _, sample_nodes) 0 true
     sample_getSensorInfo).
Abbreviation sample_service :=
  (service (L := option Z) true 0 0 sample_names sample_own_lists working working).

(** An initialisation, and the tap sensor is activated. *)
Definition sample_ready : list system_action :=
  map ProxyStep [InitializeCall true; InitializeStep; InitializeStep; InitializeStep;
                 Framework (Proxy.Activate 2 true)].

(** The tap is reported, while the framework tries to activate the sensor again. *)
Definition sample_touch : list system_action :=
  [SensorThread 2 Runs; SensorThread 2 (Returns (PollReady true)); SensorThread 2 Runs;
   PostStep 2; ProxyStep (Framework (Proxy.Activate 2 true)); PostStep 2; PostStep 2].

Lemma sample_listed h x s :
  HalProxy.mSensors (hal x) !! h = Some s → sample_getSensorInfo h x = s.
Proof. intros H. unfold sample_getSensorInfo. by rewrite H. Qed.

Definition sample_at (acts : list system_action) : world (System (option Z)) call :=
  (sample_exec acts sample_service).2.

Lemma sample_done acts :
  (sample_exec acts sample_service).1 = Done () →
  sample_exec acts sample_service = (Done (), sample_at acts).
Proof. unfold sample_at. by destruct (sample_exec _ _) as [o w]; intros [= ->]. Qed.

Lemma sample_ready_done : sample_exec sample_ready sample_service = (Done (), sample_at sample_ready).
Proof. apply sample_done. by vm_compute. Qed.

Lemma sample_touch_done : sample_exec (sample_ready ++ sample_touch) sample_service
  = (Done (), sample_at (sample_ready ++ sample_touch)).
Proof. apply sample_done. by vm_compute. Qed.

Lemma sample_readable (h : Z) : readable sample_nodes.
Proof. intros t. by exists 31, 160. Qed.

Lemma sample_few : (length sample_names ≤ 128)%nat.
Proof. cbn. lia. Qed.

(** A theorem of the service, at the device above. *)
Abbreviation at_sample thm :=
  (thm aosp_sensors _ (option Z) sample_wakelock sample_system_env (λ _, sample_nodes) 0%nat
    true sample_getSensorInfo _ sample_listed true 0 0 sample_names sample_own_lists working working
    eq_refl eq_refl sample_few eq_refl eq_refl).

Lemma sample_all_sized : Forall sized_action (sample_ready ++ sample_touch).
Proof. by repeat constructor. Qed.

Lemma sample_ready_sized : Forall sized_action sample_ready.
Proof. by repeat constructor. Qed.

Example system_refines_proxy_witness : ∃ parts,
  Forall2 (system_part 0) parts (sample_ready ++ sample_touch) ∧
  proxy_exec sample_system_env (concat parts)
    (World (Proxy_new true 0 0 sample_names sample_own_lists) [])
  = (Done (), pview (sample_at (sample_ready ++ sample_touch))).
Proof. exact (at_sample (@system_refines_proxy) _ _ sample_all_sized sample_touch_done). Defined.

Example system_faults_witness : ∃ o w,
  sample_exec (SensorThread 2 Runs :: sample_ready ++ sample_touch) sample_service = (o, w) ∧
  (o = Done () ∨
   o = Fault NullDeref ∧ (sub_initialize 0 ∉ tr w ∨ ready (queues (proxy (st w))) = false) ∨
   o = Fault Blocks ∧ full (subhal (st w))).
Proof.
  refine (at_sample (@system_faults) _ _ sample_readable). constructor; [done|exact sample_all_sized].
Defined.

Example one_event_per_activation_witness :
  let w := sample_at (sample_ready ++ sample_touch) in
  (own_count 0 SingleTapSensor (stream (queue_view (pview w))) ≤ enabled 0 SingleTapSensor (tr w))%nat
  ∧ enabled 0 SingleTapSensor (tr w) = 1%nat.
Proof.
  split; [|by vm_compute].
  refine (at_sample (@one_event_per_activation) SingleTapSensor _ _ sample_all_sized _ sample_touch_done).
  repeat constructor; intros; by constructor.
Defined.

Example system_wakelock_held_witness :
  let w := sample_at (sample_ready ++ sample_touch) in
  held (omap to_queue (tr w)) = true ∧ mWakelockRefCount (wakelock (queues (proxy (st w)))) = 1.
Proof.
  intros w. assert (mWakelockRefCount (wakelock (queues (proxy (st w)))) = 1) as Hn by (by vm_compute).
  split; [|exact Hn]. refine (proj2 (proj1 (at_sample (@system_wakelock_held) _ w _ sample_all_sized _ _
    sample_touch_done)) _).
  - by intros t n [= <-].
  - by repeat constructor.
  - by vm_compute.
  - rewrite Hn. lia.
Defined.

(** With the report of the tap half way through. *)
Definition sample_half : list system_action := sample_ready ++ take 4 sample_touch.

(** Its end, while the framework sets the mode and another post goes on. *)
Definition sample_more : list system_action :=
  [PostStep 2; ProxyStep (Framework (Proxy.SetOperationMode NORMAL)); PostStep 1; PostStep 2; PostStep 1;
   ProxyStep WriterThread; PostStep 2; PostStep 1; ProxyStep (Framework (Proxy.Activate 2 true))].

Example reports_end_witness :
  waits 0 (st (sample_at sample_half)) [hal_call (sub_call 0 (sub_activate 2 true))] = true ∧
  ∃ w', sample_exec sample_more (sample_at sample_half) = (Done (), w') ∧ posting (st w') = ∅ ∧
    ∀ calls, waits 0 (st w') calls = false.
Proof.
  split; [by vm_compute|].
  destruct (at_sample (@reports_end) sample_half sample_more (sample_at sample_half))
    as (o & w' & E & Ho).
  - by repeat constructor.
  - apply sample_done. by vm_compute.
  - by repeat constructor.
  - by repeat constructor.
  - vm_compute. lia.
  - vm_compute. lia.
  - assert ((sample_exec sample_more (sample_at sample_half)).1 = Done ()) as Hd by (by vm_compute).
    rewrite E in Hd. cbn in Hd. subst o. exists w'. split; [exact E|].
    destruct Ho as [(_ & Hp & Hw)|[[Hf _]|[Hf _]]]; [exact (conj Hp Hw)|discriminate Hf..].
Defined.

Definition sample_tap : sensor_world :=
  default (World (SingleTapSensor_new 2 working) []) (mSensors (subhal (st (sample_at sample_ready))) !! 2).

Example touch_arrives_witness : ∃ w' s',
  sample_exec [SensorThread 2 Runs; SensorThread 2 (Returns (PollReady true)); SensorThread 2 Runs;
               PostStep 2; PostStep 2; PostStep 2] (sample_at sample_ready) = (Done (), w') ∧
  stream (queue_view (pview w')) = stream (queue_view (pview (sample_at sample_ready)))
    ++ [data_event 2 7 0x10002 [31; 160]] ∧
  mSensors (subhal (st w')) !! 2 = Some s' ∧ mIsEnabled (st s') = false ∧ posting (st w') !! 2 = None.
Proof.
  refine (at_sample (@touch_arrives) SingleTapSensor sample_tap [31; 160] _ _ sample_ready_sized
    sample_ready_done _ _ _ _ _ _ _ _); try by vm_compute.
  unfold armed. split_and!; [by vm_compute..|]. right. split; by vm_compute.
Defined.

(** a sensor that is activated before the sub-HAL is initialised reports into a callback that
    is null. The service accepts the activation: this outcome of [system_faults] is reached. *)
Example early_report_faults :
  (sample_exec [ProxyStep (Framework (Proxy.Activate 2 true)); SensorThread 2 Runs;
                SensorThread 2 (Returns (PollReady true)); SensorThread 2 Runs] sample_service).1
  = Fault NullDeref.
Proof. by vm_compute. Qed.
