(* ===== verification/Debug.v ===== *)
(** * Debug dumps

    [HalProxy::debug] and [SensorsSubHal::debug]: what each writes to the descriptor it is
    given, as the list of calls it makes. [endl] is a newline. *)

From Stdlib Require Import Ascii.
From S2P Require Import Prelude Words Text Handles SensorTypes HalProxy EventQueue Proxy Sensor.
From S2P Require Import SensorRuns SubHal.

Inductive debug_call : Set :=
| dup_fd
| write_fd (text : string)
| close_fd
| sub_debug (i : nat).                 (* [subHal->debug] with the original descriptor *)

Definition endl : string := String "010" EmptyString.

Definition line (text : string) : string := text +:+ endl.

(** The text a list of calls writes itself. *)
Definition written (calls : list debug_call) : string :=
  foldr (λ c text, match c with write_fd s => s +:+ text | _ => text end) EmptyString calls.

(** ** The proxy *)

Definition msFromNs (nanos : Z) : Z := Z.quot nanos 1000000.

(** The stream before the loop over the sub-HALs. *)
Definition debug_header (now : Z) (x : Proxy) : string :=
  line "===HalProxy===" +:+
  line "Internal values:" +:+
  line ("  Threads are running: " +:+ (if mThreadsRun (queues x) then "true" else "false")) +:+
  line ("  Wakelock timeout start time: " +:+
        to_string (msFromNs (now - mWakelockTimeoutStartTime (wakelock (queues x)))) +:+
        " ms ago") +:+
  line ("  Wakelock timeout reset time: " +:+
        to_string (msFromNs (now - mWakelockTimeoutResetTime (wakelock (queues x)))) +:+
        " ms ago") +:+
  line ("  Wakelock ref count: " +:+ to_string (mWakelockRefCount (wakelock (queues x)))) +:+
  line ("  # of events on pending write writes queue: " +:+
        to_string (mSizePendingWriteEventsQueue (pending (queues x)))) +:+
  line (" Most events seen on pending write events queue: " +:+
        to_string (mMostEventsObservedPendingWriteEventsQueue (pending (queues x)))) +:+
  (match mPendingWriteEventsQueue (pending (queues x)) with
   | [] => EmptyString
   | (events, _) :: _ =>
       line ("  Size of events list on front of pending writes queue: " +:+
             to_string (Z.of_nat (length events)))
   end) +:+
  line ("  # of non-dynamic sensors across all subhals: " +:+
        to_string (Z.of_nat (size (HalProxy.mSensors (hal x))))) +:+
  line ("  # of dynamic sensors across all subhals: " +:+
        to_string (Z.of_nat (size (mDynamicSensors (hal x))))) +:+
  line ("SubHals (" +:+ to_string (Z.of_nat (length (mSubHalList (hal x)))) +:+ "):").

(** The loop, from sub-HAL [i] on with what the stream holds, and the last write. *)
Fixpoint debug_subhals (i : nat) (names : list string) (stream : string) : list debug_call :=
  match names with
  | [] => [write_fd stream]
  | name :: names' =>
      let stream := stream +:+ line ("  Name: " +:+ name) +:+ line "  Debug dump: " in
      write_fd stream :: sub_debug i :: debug_subhals (S i) names' endl
  end.

(** [fd_given]: whether the handle holds a descriptor. *)
Definition HalProxy_debug (fd_given : bool) (now : Z) (x : Proxy) : list debug_call :=
  if fd_given then dup_fd :: debug_subhals 0 (mSubHalList (hal x)) (debug_header now x)
  else [].

(** ** The sub-HAL *)

Definition debug_sensor (info : SensorInfo) : string :=
  line ("Name: " +:+ name info) +:+
  line ("Min delay: " +:+ to_string (minDelay info)) +:+
  line ("Flags: " +:+ to_string (flags info)).

Definition SensorsSubHal_debug (fd_given : bool) (args : list string) (x : SensorsSubHal)
    : list debug_call :=
  if fd_given then
    [dup_fd] ++
    (match args with
     | [] => []
     | _ => [write_fd (line ("Note: sub-HAL " +:+ getName +:+
               " currently does not support args. Input arguments are ignored."))]
     end) ++
    [write_fd (line "Available sensors:" +:+
               foldr (λ info text, debug_sensor info +:+ text) EmptyString
                 (getSensorsList_2_1 x) +:+ endl);
     close_fd]
  else [].

(** ** What is written *)

(** The dump of the sub-HALs, without what they write themselves. *)
Definition subhal_lines (names : list string) : string :=
  foldr (λ name text, line ("  Name: " +:+ name) +:+ line "  Debug dump: " +:+ endl +:+ text)
    EmptyString names.

Lemma string_app_assoc (s1 s2 s3 : string) : (s1 +:+ s2) +:+ s3 = s1 +:+ s2 +:+ s3.
Proof. induction s1 as [|c s1 IH]; [done|]. exact (f_equal (String c) IH). Qed.

Lemma string_app_nil (s : string) : s +:+ EmptyString = s.
Proof. induction s as [|c s IH]; [done|]. exact (f_equal (String c) IH). Qed.

Lemma written_cons s calls : written (write_fd s :: calls) = s +:+ written calls.
Proof. done. Qed.

Lemma written_sub i calls : written (sub_debug i :: calls) = written calls.
Proof. done. Qed.

Lemma debug_subhals_written i names stream :
  written (debug_subhals i names stream) = stream +:+ subhal_lines names.
Proof.
  revert i stream. induction names as [|name names IH]; intros i stream; [done|].
  cbn [debug_subhals]. rewrite written_cons, written_sub, IH. cbn [subhal_lines foldr].
  by rewrite !string_app_assoc.
Qed.

Lemma debug_subhals_calls i names stream :
  omap (λ c, match c with sub_debug j => Some j | _ => None end) (debug_subhals i names stream)
  = seq i (length names) ∧ close_fd ∉ debug_subhals i names stream.
Proof.
  revert i stream. induction names as [|name names IH]; intros i stream; cbn.
  - split; [done|]. by rewrite list_elem_of_singleton.
  - destruct (IH (S i) endl) as [-> Hc]. split; [done|].
    by rewrite !not_elem_of_cons.
Qed.

(** a dump of the proxy tells its state, calls every sub-HAL and leaks a descriptor. With no
    descriptor nothing happens. Otherwise the proxy writes its own part and one of each
    sub-HAL, of which each is asked once and in order; the descriptor it has duplicated for
    writing is never closed. *)
Theorem debug_outcome now x :
  HalProxy_debug false now x = [] ∧
  written (HalProxy_debug true now x) = debug_header now x +:+ subhal_lines (mSubHalList (hal x)) ∧
  omap (λ c, match c with sub_debug i => Some i | _ => None end) (HalProxy_debug true now x)
    = seq 0 (length (mSubHalList (hal x))) ∧
  dup_fd ∈ HalProxy_debug true now x ∧ close_fd ∉ HalProxy_debug true now x.
Proof.
  destruct (debug_subhals_calls 0 (mSubHalList (hal x)) (debug_header now x)) as [Hs Hc].
  split_and!; [done| | | |].
  - apply debug_subhals_written.
  - exact Hs.
  - by left.
  - cbn. by rewrite not_elem_of_cons.
Qed.

(** a dump of the sub-HAL of the device closes what it duplicates, and describes the two
    sensors in the order of their handles. *)
Theorem subhal_debug_outcome `{C : SensorsConstants} args c1 c2 :
  let calls := SensorsSubHal_debug true args (SensorsSubHal_new c1 c2) in
  SensorsSubHal_debug false args (SensorsSubHal_new c1 c2) = [] ∧
  head calls = Some dup_fd ∧ last calls = Some close_fd ∧
  (args = [] → written calls = line "Available sensors:" +:+
     debug_sensor (own_info UdfpsSensor) +:+ debug_sensor (own_info SingleTapSensor) +:+ endl).
Proof.
  cbn zeta. unfold SensorsSubHal_debug. rewrite own_list. split_and!; [done..| |].
  - by destruct args.
  - intros ->. cbn [app written foldr]. by rewrite !string_app_assoc, !string_app_nil.
Qed.

(** The milliseconds are those that have passed in full. *)
Theorem msFromNs_bounds nanos :
  0 ≤ nanos → 1000000 * msFromNs nanos ≤ nanos < 1000000 * (msFromNs nanos + 1).
Proof.
  intros Hn. unfold msFromNs. rewrite Z.quot_div_nonneg by lia.
  pose proof (Z.div_mod nanos 1000000). pose proof (Z.mod_pos_bound nanos 1000000). lia.
Qed.
